(* ===== verification/_CoqProject ===== *)
-Q . S2P
Prelude.v
Fault.v
Strconv.v
Codec.v
Record.v
Wire.v
HandshakeWire.v
Handshake.v
Channel.v
Float64.v
Glob.v
Plan.v
Journal.v
Paths.v
Digest.v
Tracker.v
Manifest.v
Fs.v
Dest.v
Queue.v
Walk.v
Serve.v
Servicers.v
Receiver.v
Decide.v
Fetch.v
Paircode.v
Discover.v
Obs.v
Progress.v
Pool.v
Pipeline.v
Workers.v
Control.v
RunReceiver.v
RunSender.v
Flag.v
Cli.v
Session.v
System.v
Mirror.v
