(* ===== verification/Prelude.v ===== *)
(** * A verification library for esync

    esync (src/, Go) copies a source tree from a sender to a receiver over an
    authenticated, encrypted set of TCP channels.  The sender walks and plans the
    tree, publishes it group by group as manifests on a control channel and serves
    file requests on data channels; the receiver decides what it needs, fetches,
    verifies and publishes each file atomically, and journals what is complete.
    This library models that program in Rocq, by shallow embedding, and proves
    what makes it correct.

    ** The files

    Foundations
    - Prelude: bytes, fixed-width integers with their wrap-around ([wrap_u],
      [wrap_i]), big-endian integers, the [result] type of a Go [(T, error)] pair,
      the state-and-error monad [SE], list lemmas, tactics.
    - Fault (internal/fault): error codes, the policy catalogue, wrapping,
      [errors.As]/[errors.Is], class, retryability, exit code, backoff.
    - Strconv, Glob: the parts of Go's strconv, encoding/hex, encoding/base64,
      strings, path and filepath.Match the program calls.
    - Float64: the rounding of float64 the tuner and the progress line compute in.

    The wire
    - Codec, Wire (internal/wire): the primitive writer and bounded reader, every
      message, the frame header, [Marshal] and [Unmarshal].
    - Record (internal/crypto/record): [Writer] and [Reader] with sequence numbers,
      padding, MAC and authenticated close.
    - HandshakeWire, Handshake (internal/wire/handshake.go,
      internal/crypto/handshake): the cleartext messages, the key schedule, both
      roles of the handshake and of a channel join as interaction processes.
    - Channel (internal/channel/channel.go): [Conn], with ping, pong and the
      keepalive watchdog.

    The sender
    - Walk (internal/sender/walk.go): the enumeration of the source tree.
    - Plan (internal/plan): filters, pruning, ordering, grouping, digests, lookups.
    - Manifest (internal/sender/manifest.go): the publisher with credit and hashing.
    - Tracker (internal/sender/state.go): digest store, credit gate, completion
      tracker with its watchdog.
    - Serve (internal/sender/serve.go): one data channel's servicer.
    - Servicers (sender/run.go): all of them together, with the semaphore of the
      readers and the join loop, as interleavings of their tracker calls.

    The receiver
    - Journal, Paths, Fs, Dest (internal/fsx): the resume journal; path policy and
      name collisions; a file system with links, inodes and I/O faults as os.Root
      shows it; every destination operation on it.
    - Digest (internal/digest): algorithms, the digest cache and its file,
      [HashFile].
    - Queue (receiver/queue.go, space.go): need queue and free-space guard.
    - Receiver (receiver/decide.go, hlfallback.go): metadata store, hard-link map,
      the record [shared] of everything the two phases below share.
    - Decide (receiver/decide.go): a group's decisions.
    - Fetch (receiver/fetch.go): one data channel's worker.
    - Pool (receiver/run.go, tune.go): the pool of data channels and its tuner, as a
      step relation on their critical sections.
    - Pipeline (receiver/run.go, fetch.go, queue.go): the decide pool, the workers and
      [pipeline.wait] around the need queue, with the goroutines asleep on its
      condition variables and every broadcast.
    - Workers: the fetch loop and the decisions as goroutines of that pipeline.

    Both sides
    - Paircode, Discover (internal/paircode): the pairing code and what is derived
      from it; the endpoints a receiver puts into it.
    - Obs, Progress (internal/obs): the logger with its bounded queue, redaction,
      the trace ring, counters and summary; the progress line and heartbeat.
    - Control (receiver/run.go, sender/run.go): the two readers of the control
      channel and the ERROR message both sides send.
    - RunReceiver, RunSender (the same files, config.go, channel/dial.go): [Run] of
      each side as a script over its stages, with configuration, candidate ranking,
      [Dial], the pairing loop and the accept loop.
    - Session: the two runs of one session together.
    - Flag, Cli (the library package flag; src/cli.go, src/main.go): the parsing of
      a command line, the environment, the checks of both configurations, dispatch
      and the two signals.
    - System: a request of Fetch answered by Serve, as one transfer.
    - Mirror: [loop] of Fetch and [run] of Serve over one channel, from a closed need
      queue to its end, as the iteration of the transfers of System.

    ** How the code is modelled

    A Go struct is a [Record] with the same fields (locks, loggers and sockets left
    out), a method a function from the state to its result and the new state.  A
    method that holds a mutex is one step, so an interleaving of goroutines is a
    list of such steps: [hlexec] (Receiver), [qrun] (Queue), [exec] (Tracker),
    [acts] (Servicers, Pipeline).  A method that would block returns [None], or an
    explicit waiting outcome ([Waiting] in Decide, [Blocked] in Fetch); where the
    wake-ups matter, a goroutine asleep is a state of its own (Pipeline).  Fallible
    code returns [result] or an optional error, and the error is the Go error value:
    code, class, cause chain and wrappers.  Maps are [gmap]s; integers are [Z] with the Go wrap-around
    written out; strings and byte slices are lists of bytes.

    The environment is explicit.  Every file-system call consumes one entry of a
    list of faults ([w_faults]), every send one entry of a list of fates, a received
    stream is its bytes and the error it ends with, clocks and random bytes are
    arguments.  The two runs take a record of how every stage goes ([renv], [senv]):
    the select a wait takes, the error another goroutine has recorded by then.  Code that is not in the repository is a parameter: AES-CBC and HMAC
    ([RecordCrypto] with the laws [RecordCryptoLaws]), X25519, HKDF, SHA-256
    ([HandshakeCrypto], [HashFns], [PlanEnv]), the Unicode tables ([Unicode]), the
    stat key of an open file ([statKey] in Decide).  Each class has an instance, so
    every theorem with such a parameter is applied at a concrete one.

    ** Fuel

    The walk takes one unit per level of recursion, and [walk_terminates] gives the
    bound.  The receive loop of Channel takes one unit per message and each message is at
    least one byte of pending input, so the length of the input is enough
    ([receive_outcomes] proves that the call returns).  The record loop of the
    digest cache consumes a record a turn; [receive] in Fetch a message a turn;
    [resolve] in Fs is structural on the names with a bound of 255 links, as the
    library's.  Where a theorem needs a bound that Go gives by memory (a file below
    2^62 bytes, fewer than 2^64 records on a channel) it is a hypothesis.

    ** The theorems

    Transport: what is written is read back, in order, and only that, until the
    authenticated close, and the PINGs in between are answered, each by one PONG;
    nothing forged, replayed, reordered or truncated passes (Record, Channel); messages round-trip and the decoder accepts exactly the
    encodings (Wire, HandshakeWire); honest peers agree on keys, a server without
    the code is refused, a guesser is limited (Handshake).
    Sender: the walk ends, cycles of links included, emits no path twice and, without
    --follow-symlinks, exactly the entries of the tree (Walk); the plan does not depend on the order of the walk, groups partition it
    and fit a frame (Plan); the manifests delivered are the plan (Manifest); the
    tracker ends exactly when every file is resolved, the watchdog fires exactly
    when a whole period passed without progress, both sides compute one completion digest (Tracker); a request
    ends completed or unresolved, with what has then been sent stated for each (Serve); the servicers lose no slot, do not
    block one another and leave nothing in flight, however they end (Servicers).
    Receiver: a group is accounted for entry by entry and skipped files are right
    (Decide); a published file is verified, a failed one leaves its name alone, the
    parked secondaries of a published file become further names of it or are fetched
    on their own, and nothing else changes; the worker loses no item
    and never reuses a channel out of sync (Fetch); no
    hard-link secondary is lost (Receiver), the queue conserves its items (Queue);
    the decide pool and the workers lose no wake-up, do not deadlock, end, and leave
    no item behind (Pipeline), and the modelled fetch loop and decisions are such
    goroutines (Workers);
    publication is atomic under I/O failure and confined to the destination (Dest,
    Paths); journal and digest cache survive a crash at any byte (Journal, Digest).
    Error codes and their classification survive the wire (Fetch).
    The session: a pairing code is read back as what it carries of the payload (no
    zones, at most four endpoints) and a mistyped one is refused (Paircode), at most the configured number of handshakes is run (RunSender);
    every channel opened is accounted for and no rejoin outlives the session (Pool);
    what the publisher sends reaches the deciders, and a fatal error ends both sides
    with one code (Control); a receiver's "ok" means a reconciled transfer, every
    error gets its exit code and one ERROR message, and a printed resume command
    works (RunReceiver); the two sides agree on the files delivered (Session).
    Around it: a flag's value is its last assignment, else the environment's, else
    the default, and an accepted configuration is within the bounds the program checks and is the
    one that runs, but for the durations it does not check (Flag, Cli); a record is
    written or counted as dropped, what is logged as a secret type does not show in
    the output (which values callers log so is not modelled), the ring holds the last trace records (Obs); the progress line is total
    (Progress); every address discovered can be printed in a code and read back
    (Discover).
    Both sides together: a worker and a servicer empty a need queue of unchanged
    source files when nothing fails, every name and every hard-linked secondary of it
    holding its source's bytes and both sides listing the same files (Mirror);
    whatever fails, a transfer reported as
    done is exact (System).

    The lemmas [Journal.append_after_torn_tail_lost],
    [Digest.cache_append_after_torn_tail_lost], [Paths.reserved_name_case],
    [Dest.symlink_chain_escapes], [Plan.FilterSignature_ambiguous],
    [Fetch.only_close_is_lost], [Queue.unmeasured_space_is_fatal],
    [Pool.joins_run_out], [Pool.last_channel_unnoticed],
    [RunReceiver.partial_has_no_resume], [RunReceiver.abandoned_dry_run_succeeds],
    [RunReceiver.dotdot_root_escapes], [RunSender.eof_before_ack_is_ok],
    [RunSender.setFatal_panics], [Walk.second_link_dropped],
    [Servicers.silent_join_parks], [Discover.link_local_unusable], [Obs.log_file_filtered],
    [Obs.subject_not_redacted], [Obs.log_after_flush_panics],
    [Cli.no_retries_means_three], [Cli.env_level_beats_flag] and
    [Cli.port_unbounded] show places where the code does less than its comments or
    its help text say.

    ** Not modelled

    The sockets around the parts above, and the timers: listening, dialling, tickers.  Free space is one statfs call per system, and the
    containment helper beside it is never called.  Of the command line: the help
    text and the opening of the log file.  Partial writes to a part file: a part is
    truncated before every attempt, so a failed write leaves nothing that is
    read. *)
From Stdlib Require Export ZArith Lia.
From Stdlib Require Strings.Byte.
From stdpp Require Export base tactics strings gmap sorting numbers list.

#[global] Set Default Proof Using "Type".
Open Scope Z_scope.

(** ** Bytes

    A Go [byte] is [Byte.byte]; a [[]byte] and a Go [string] that carries data
    (paths, file content, wire bytes) are both [bytes].  Symbolic identifiers
    (error codes, operation names) are Rocq [string]s. *)
Abbreviation byte := Byte.byte.
Abbreviation bytes := (list Byte.byte).

Definition Z_of_byte (b : byte) : Z := Z.of_N (Byte.to_N b).
Definition byte_of_Z (z : Z) : byte :=
  default Byte.x00 (Byte.of_N (Z.to_N (z mod 256))).

(** [bs "text"] is the Go string literal "text" as bytes. *)
Definition bs (s : string) : bytes := String.list_byte_of_string s.

#[global] Instance byte_eq_dec : EqDecision byte := Byte.byte_eq_dec.
#[global] Program Instance byte_countable : Countable byte := {|
  encode b := encode (Byte.to_N b);
  decode p := decode p ≫= Byte.of_N;
|}.
Next Obligation. intros b; simpl. rewrite decode_encode; simpl. apply Byte.of_to_N. Qed.
#[global] Instance byte_inhabited : Inhabited byte := populate Byte.x00.

Lemma Z_of_byte_range b : 0 <= Z_of_byte b < 256.
Proof. unfold Z_of_byte. pose proof (Byte.to_N_bounded b). lia. Qed.

Lemma byte_of_Z_of_byte b : byte_of_Z (Z_of_byte b) = b.
Proof.
  unfold byte_of_Z. rewrite Z.mod_small by apply Z_of_byte_range.
  unfold Z_of_byte. by rewrite N2Z.id, Byte.of_to_N.
Qed.

Lemma Z_of_byte_of_Z z : Z_of_byte (byte_of_Z z) = z mod 256.
Proof.
  unfold byte_of_Z. pose proof (Z.mod_pos_bound z 256).
  destruct (Byte.of_N (Z.to_N (z mod 256))) as [b|] eqn:E; simpl.
  - apply Byte.to_of_N in E. unfold Z_of_byte. rewrite E. lia.
  - apply Byte.of_N_None_iff in E. lia.
Qed.

Lemma Z_of_byte_inj a b : Z_of_byte a = Z_of_byte b → a = b.
Proof. intros E. by rewrite <- (byte_of_Z_of_byte a), E, byte_of_Z_of_byte. Qed.

Lemma byte_of_Z_mod z : byte_of_Z (z mod 256) = byte_of_Z z.
Proof. unfold byte_of_Z. by rewrite Z.mod_mod by lia. Qed.

(** ** Machine integers *)
Definition in_u (w : Z) (z : Z) : Prop := 0 <= z < 2 ^ w.
Definition in_i (w : Z) (z : Z) : Prop := - 2 ^ (w - 1) <= z < 2 ^ (w - 1).
(** [uintN(z)] and [intN(z)]: Go's wrapping conversions. *)
Definition wrap_u (w : Z) (z : Z) : Z := z mod 2 ^ w.
Definition wrap_i (w : Z) (z : Z) : Z :=
  (z + 2 ^ (w - 1)) mod 2 ^ w - 2 ^ (w - 1).

#[global] Instance in_u_dec w z : Decision (in_u w z).
Proof. unfold in_u. apply _. Defined.
#[global] Instance in_i_dec w z : Decision (in_i w z).
Proof. unfold in_i. apply _. Defined.

Lemma wrap_u_range w z : 0 <= w → in_u w (wrap_u w z).
Proof. intros ?. apply Z.mod_pos_bound. by apply Z.pow_pos_nonneg. Qed.
Lemma wrap_u_id w z : in_u w z → wrap_u w z = z.
Proof. apply Z.mod_small. Qed.

Lemma wrap_i_range w z : 1 <= w → in_i w (wrap_i w z).
Proof.
  intros ?. unfold in_i, wrap_i.
  replace (2 ^ w) with (2 * 2 ^ (w - 1)).
  2:{ rewrite <- Z.pow_succ_r by lia. f_equal; lia. }
  assert (0 < 2 ^ (w - 1)) by (apply Z.pow_pos_nonneg; lia).
  pose proof (Z.mod_pos_bound (z + 2 ^ (w - 1)) (2 * 2 ^ (w - 1))). lia.
Qed.

Lemma wrap_i_id w z : 1 <= w → in_i w z → wrap_i w z = z.
Proof.
  intros Hw Hz. unfold in_i, wrap_i in *. rewrite Z.mod_small; [lia|].
  replace (2 ^ w) with (2 * 2 ^ (w - 1)); [lia|].
  rewrite <- Z.pow_succ_r by lia. f_equal; lia.
Qed.

Lemma wrap_i_u w z : 1 <= w → in_i w z → wrap_i w (wrap_u w z) = z.
Proof.
  intros Hw Hz. unfold in_i, wrap_i, wrap_u in *.
  rewrite Zplus_mod_idemp_l.
  rewrite Z.mod_small; [lia|].
  replace (2 ^ w) with (2 * 2 ^ (w - 1)); [lia|].
  rewrite <- Z.pow_succ_r by lia. f_equal; lia.
Qed.

Lemma wrap_u_i w z : 1 <= w → in_u w z → wrap_u w (wrap_i w z) = z.
Proof.
  intros Hw Hz. unfold in_u, wrap_i, wrap_u in *.
  rewrite Zminus_mod_idemp_l.
  replace (z + 2 ^ (w - 1) - 2 ^ (w - 1)) with z by lia. by apply Z.mod_small.
Qed.

(** ** Big-endian integers (Go's encoding/binary.BigEndian) *)
Fixpoint be (n : nat) (z : Z) : bytes :=
  match n with
  | O => []
  | S k => byte_of_Z (z / 256 ^ Z.of_nat k) :: be k z
  end.

Definition unbe (l : bytes) : Z := foldl (λ acc b, acc * 256 + Z_of_byte b) 0 l.

Lemma length_be n z : length (be n z) = n.
Proof. induction n; simpl; congruence. Qed.

Lemma unbe_acc l acc :
  foldl (λ a b, a * 256 + Z_of_byte b) acc l = acc * 256 ^ Z.of_nat (length l) + unbe l.
Proof.
  unfold unbe. revert acc. induction l as [|b l IH]; intros acc; cbn [foldl length].
  { simpl. lia. }
  rewrite IH, (IH (0 * 256 + _)), Nat2Z.inj_succ, Z.pow_succ_r by lia. ring.
Qed.

Lemma unbe_cons b l : unbe (b :: l) = Z_of_byte b * 256 ^ Z.of_nat (length l) + unbe l.
Proof. unfold unbe at 1; simpl. by rewrite unbe_acc. Qed.

Lemma unbe_range l : 0 <= unbe l < 256 ^ Z.of_nat (length l).
Proof.
  induction l as [|b l IH]; [unfold unbe; simpl; lia|].
  rewrite unbe_cons; simpl length. rewrite Nat2Z.inj_succ, Z.pow_succ_r by lia.
  pose proof (Z_of_byte_range b). nia.
Qed.

Lemma unbe_be n z : unbe (be n z) = z mod 256 ^ Z.of_nat n.
Proof.
  revert z. induction n as [|n IH]; intros z; simpl be.
  { unfold unbe; simpl. by rewrite Z.mod_1_r. }
  rewrite unbe_cons, length_be, IH, Z_of_byte_of_Z.
  rewrite Nat2Z.inj_succ, Z.pow_succ_r by lia.
  rewrite (Z.mul_comm 256), Z.rem_mul_r by lia. lia.
Qed.

Lemma unbe_be_id n z : in_u (8 * Z.of_nat n) z → unbe (be n z) = z.
Proof.
  intros H. rewrite unbe_be. apply Z.mod_small.
  unfold in_u in H. replace (256 ^ Z.of_nat n) with (2 ^ (8 * Z.of_nat n)); [done|].
  by rewrite Z.pow_mul_r by lia.
Qed.

Lemma be_mod n m z : (n <= m)%nat → be n (z mod 256 ^ Z.of_nat m) = be n z.
Proof.
  intros H. induction n as [|n IH]; simpl; [done|].
  rewrite IH by lia. f_equal.
  rewrite <- byte_of_Z_mod, <- (byte_of_Z_mod (z / _)). f_equal.
  replace (256 ^ Z.of_nat m) with (256 ^ Z.of_nat n * (256 ^ (Z.of_nat m - Z.of_nat n - 1) * 256)).
  2:{ rewrite <- (Z.pow_1_r 256) at 3. rewrite <- !Z.pow_add_r by lia. f_equal; lia. }
  rewrite Z.rem_mul_r by (try apply Z.pow_nonzero; lia).
  rewrite Z.mul_comm, Z.div_add by (apply Z.pow_nonzero; lia).
  rewrite Z.div_small by (apply Z.mod_pos_bound; lia). rewrite Z.add_0_l.
  rewrite Z.mul_comm, Z.rem_mul_r by (try apply Z.pow_nonzero; lia).
  by rewrite Z.mul_comm, Z.mod_add, Z.mod_mod by lia.
Qed.

Lemma be_unbe l : be (length l) (unbe l) = l.
Proof.
  induction l as [|b l IH]; simpl; [done|].
  rewrite unbe_cons. pose proof (unbe_range l).
  rewrite Z.div_add_l, Z.div_small, Z.add_0_r, byte_of_Z_of_byte by lia.
  f_equal. rewrite <- (be_mod _ (length l)) by lia.
  rewrite Z.add_comm, Z.mod_add, Z.mod_small by lia. done.
Qed.

Lemma unbe_in_u l n : length l = n → in_u (8 * Z.of_nat n) (unbe l).
Proof.
  intros <-. unfold in_u. rewrite Z.pow_mul_r by lia. apply unbe_range.
Qed.

Lemma be_inj n z1 z2 :
  in_u (8 * Z.of_nat n) z1 → in_u (8 * Z.of_nat n) z2 → be n z1 = be n z2 → z1 = z2.
Proof.
  intros H1 H2 E. by rewrite <- (unbe_be_id n z1), <- (unbe_be_id n z2), E.
Qed.

(** ** Results: a Go [(T, error)] pair whose value is meaningless on error *)
Inductive result (E A : Type) : Type :=
| Ok (a : A)
| Err (e : E).
Arguments Ok {E A} a.
Arguments Err {E A} e.

#[global] Instance result_ret E : MRet (result E) := λ A a, Ok a.
#[global] Instance result_bind E : MBind (result E) :=
  λ A B k m, match m with Ok a => k a | Err e => Err e end.

Definition is_ok {E A} (r : result E A) : bool :=
  match r with Ok _ => true | Err _ => false end.

(** [assert c else e]: an early [return err] guarded by the condition [¬c]. *)
Definition guard_ok {E} (c : bool) (e : E) : result E unit :=
  if c then Ok () else Err e.

Lemma bind_ok {E A B} (m : result E A) (k : A → result E B) b :
  m ≫= k = Ok b → ∃ a, m = Ok a ∧ k a = Ok b.
Proof. destruct m; naive_solver. Qed.

Lemma guard_ok_ok {E} c (e : E) u : guard_ok c e = Ok u → c = true.
Proof. by destruct c. Qed.

(** ** Stateful fallible code: [SE S E A] reads and updates a state, then
    returns a value or an error; the state written before an error stays. *)
Definition SE (S E A : Type) : Type := S → result E A * S.
#[global] Instance SE_ret S E : MRet (SE S E) := λ A a s, (Ok a, s).
#[global] Instance SE_bind S E : MBind (SE S E) :=
  λ A B k m s, match m s with (Ok a, s') => k a s' | (Err e, s') => (Err e, s') end.
Definition getS {S E} : SE S E S := λ s, (Ok s, s).
Definition putS {S E} (s : S) : SE S E unit := λ _, (Ok (), s).
Definition modS {S E} (f : S → S) : SE S E unit := λ s, (Ok (), f s).
Definition failS {S E A} (e : E) : SE S E A := λ s, (Err e, s).
Definition liftS {S E A} (r : result E A) : SE S E A := λ s, (r, s).

Lemma SE_bind_inv {S E A B} (m : SE S E A) (k : A → SE S E B) s r s' :
  (m ≫= k) s = (r, s') →
  (∃ e, m s = (Err e, s') ∧ r = Err e) ∨ (∃ a s1, m s = (Ok a, s1) ∧ k a s1 = (r, s')).
Proof. unfold mbind, SE_bind. destruct (m s) as [[a|e] s1]; [by right; eauto|]. intros [= <- <-]. by left; eauto. Qed.

Lemma SE_bind_ok {S E A B} (m : SE S E A) (k : A → SE S E B) s a s1 : m s = (Ok a, s1) → (m ≫= k) s = k a s1.
Proof. intros Hm. unfold mbind, SE_bind. by rewrite Hm. Qed.
Lemma SE_bind_err {S E A B} (m : SE S E A) (k : A → SE S E B) s e s1 : m s = (Err e, s1) → (m ≫= k) s = (Err e, s1).
Proof. intros Hm. unfold mbind, SE_bind. by rewrite Hm. Qed.

(** ** Generic list lemmas *)
Section lists.
Context {A : Type}.
Implicit Types l k : list A.

Lemma mjoin_cons l (ls : list (list A)) : mjoin (l :: ls) = l ++ mjoin ls.
Proof. done. Qed.
Lemma mjoin_one l : mjoin [l] = l.
Proof. apply app_nil_r. Qed.

Lemma filter_ext_Forall (P Q : A → Prop) `{∀ x, Decision (P x)} `{∀ x, Decision (Q x)} l :
  Forall (λ x, P x ↔ Q x) l → filter P l = filter Q l.
Proof. induction 1 as [|x l Hx Hl IH]; [done|]. rewrite !filter_cons, IH. repeat case_decide; tauto. Qed.

Lemma drop_app_split l n k1 k2 :
  drop n l = k1 ++ k2 → take (length k1) (drop n l) = k1 ∧ drop (n + length k1) l = k2.
Proof.
  intros E. rewrite <- drop_drop, E. by rewrite take_app_length, drop_app_length.
Qed.

Lemma drop_prefix_length l n k1 k2 :
  (n <= length l)%nat → drop n l = k1 ++ k2 →
  (n + length k1 + length k2 = length l)%nat.
Proof.
  intros Hn E. apply (f_equal length) in E.
  rewrite length_drop, length_app in E. lia.
Qed.

Lemma prefix_app_cases l k1 k2 :
  l `prefix_of` k1 ++ k2 → l `prefix_of` k1 ∨ ∃ l', l = k1 ++ l' ∧ l' `prefix_of` k2.
Proof.
  intros [z E]. revert l E. induction k1 as [|a k1 IH]; intros [|b l] E; simpl in *.
  - left. by exists [].
  - right. exists (b :: l). split; [done|]. by exists z.
  - left. by exists (a :: k1).
  - injection E as -> E. destruct (IH l E) as [Hp|(l' & -> & Hp)].
    + left. by apply prefix_cons.
    + right. by exists l'.
Qed.
(** One element of a list changes. *)
Lemma list_split_at l (i : nat) x : l !! i = Some x →
  ∃ l1 l2, l = l1 ++ x :: l2 ∧ ∀ y, <[i := y]> l = l1 ++ y :: l2.
Proof.
  intros Hi. exists (take i l), (drop (S i) l). pose proof (lookup_lt_Some _ _ _ Hi).
  split; [symmetry; by apply take_drop_middle|]. intros y. by rewrite insert_take_drop.
Qed.

(** The number of elements that satisfy [b]. *)
Definition countIf (b : A → bool) l : nat := length (filter (λ x, b x = true) l).
Lemma countIf_app b l k : countIf b (l ++ k) = (countIf b l + countIf b k)%nat.
Proof. unfold countIf. by rewrite filter_app, length_app. Qed.
Lemma countIf_cons b x l : countIf b (x :: l) = ((if b x then 1 else 0) + countIf b l)%nat.
Proof. unfold countIf. rewrite filter_cons. destruct (b x); case_decide; done. Qed.
Lemma countIf_change b l (i : nat) x y : l !! i = Some x →
  (countIf b (<[i := y]> l) + (if b x then 1 else 0) = countIf b l + (if b y then 1 else 0))%nat.
Proof. intros (l1 & l2 & -> & E)%list_split_at. rewrite E, !countIf_app, !countIf_cons. lia. Qed.
Lemma countIf_pos b l : (0 < countIf b l)%nat → ∃ (i : nat) x, l !! i = Some x ∧ b x = true.
Proof.
  induction l as [|x l IH]; [by intros ?%Nat.lt_irrefl|]. rewrite countIf_cons. destruct (b x) eqn:E.
  - intros _. by exists 0%nat, x.
  - intros (i & y & Hi & Hy)%IH. by exists (S i), y.
Qed.
End lists.

Lemma mjoin_change {A} (l : list (list A)) (i : nat) x :
  l !! i = Some x → ∃ rest, mjoin l ≡ₚ x ++ rest ∧ ∀ y, mjoin (<[i := y]> l) ≡ₚ y ++ rest.
Proof.
  intros (l1 & l2 & -> & E)%list_split_at. exists (mjoin l1 ++ mjoin l2). split; [|intros y; rewrite E];
    by rewrite join_app, mjoin_cons, (Permutation_app_swap_app (mjoin l1)).
Qed.

Lemma StronglySorted_weaken {A} (R S : A → A → Prop) l :
  (∀ a b, R a b → S a b) → StronglySorted R l → StronglySorted S l.
Proof. intros HRS. induction 1 as [|x l Hl IH Hx]; constructor; [done|]. eapply Forall_impl; [exact Hx|]. naive_solver. Qed.

(** ** [sort.SliceStable] by increasing key

    Go sorts stably with any algorithm; stability fixes the result. *)
Section slice_stable.
Context {A : Type} (key : A → Z).

Fixpoint insertStable (x : A) (l : list A) : list A :=
  match l with
  | [] => [x]
  | y :: l' => if key y <? key x then y :: insertStable x l' else x :: l
  end.
Definition SliceStable (l : list A) : list A := foldr insertStable [] l.

Lemma insertStable_perm x l : insertStable x l ≡ₚ x :: l.
Proof.
  induction l as [|y l IH]; cbn [insertStable]; [done|]. destruct (key y <? key x); [|done].
  rewrite IH. apply Permutation_swap.
Qed.
Lemma SliceStable_perm l : SliceStable l ≡ₚ l.
Proof. induction l as [|x l IH]; [done|]. unfold SliceStable in *. cbn [foldr]. by rewrite insertStable_perm, IH. Qed.

Lemma insertStable_sorted x l :
  StronglySorted (λ a b, key a <= key b) l → StronglySorted (λ a b, key a <= key b) (insertStable x l).
Proof.
  induction 1 as [|y l Hl IH Hy]; cbn [insertStable]; [by repeat constructor|].
  destruct (Z.ltb_spec (key y) (key x)).
  - constructor; [done|]. rewrite insertStable_perm. constructor; [lia|done].
  - constructor; [by constructor|]. constructor; [lia|]. eapply Forall_impl; [exact Hy|]. cbn. lia.
Qed.
Lemma SliceStable_sorted l : StronglySorted (λ a b, key a <= key b) (SliceStable l).
Proof. induction l as [|x l IH]; [constructor|]. unfold SliceStable in *. cbn [foldr]. by apply insertStable_sorted. Qed.

(** Elements of one key keep their order. *)
Lemma insertStable_stable k x l : filter (λ y, key y = k) (insertStable x l) = filter (λ y, key y = k) (x :: l).
Proof.
  induction l as [|y l IH]; cbn [insertStable]; [done|]. destruct (Z.ltb_spec (key y) (key x)); [|done].
  rewrite !filter_cons, IH, filter_cons. repeat case_decide; done || lia.
Qed.
Lemma SliceStable_stable k l : filter (λ y, key y = k) (SliceStable l) = filter (λ y, key y = k) l.
Proof.
  induction l as [|x l IH]; [done|]. unfold SliceStable in *. cbn [foldr].
  rewrite insertStable_stable, !filter_cons, IH. done.
Qed.
End slice_stable.

(** ** Tactics *)

(** Invert a successful chain of [≫=] and guards. *)
Ltac ok_step :=
  match goal with
  | H : (_ ≫= _) = Ok _ |- _ =>
      let a := fresh "a" in let Ha := fresh "Ha" in
      apply bind_ok in H as (a & Ha & H)
  | H : guard_ok _ _ = Ok _ |- _ => apply guard_ok_ok in H
  | H : Ok _ = Ok _ |- _ => injection H as H; try subst
  | H : Err _ = Ok _ |- _ => discriminate H
  end.
Ltac ok_inv := repeat ok_step.

(** Boolean guards to propositions. *)
Ltac bool_to_prop :=
  repeat match goal with
  | H : _ && _ = true |- _ => apply andb_true_iff in H as [? ?]
  | H : _ || _ = false |- _ => apply orb_false_iff in H as [? ?]
  | H : negb _ = true |- _ => apply negb_true_iff in H
  | H : negb _ = false |- _ => apply negb_false_iff in H
  | H : bool_decide _ = true |- _ => apply bool_decide_eq_true in H
  | H : bool_decide _ = false |- _ => apply bool_decide_eq_false in H
  | H : (_ <=? _)%Z = true |- _ => apply Z.leb_le in H
  | H : (_ <=? _)%Z = false |- _ => apply Z.leb_gt in H
  | H : (_ <? _)%Z = true |- _ => apply Z.ltb_lt in H
  | H : (_ <? _)%Z = false |- _ => apply Z.ltb_ge in H
  | H : (_ =? _)%Z = true |- _ => apply Z.eqb_eq in H
  | H : (_ =? _)%Z = false |- _ => apply Z.eqb_neq in H
  | H : (_ <=? _)%nat = true |- _ => apply Nat.leb_le in H
  | H : (_ <=? _)%nat = false |- _ => apply Nat.leb_gt in H
  | H : (_ <? _)%nat = true |- _ => apply Nat.ltb_lt in H
  | H : (_ <? _)%nat = false |- _ => apply Nat.ltb_ge in H
  | H : (_ =? _)%nat = true |- _ => apply Nat.eqb_eq in H
  | H : (_ =? _)%nat = false |- _ => apply Nat.eqb_neq in H
  end.

Create HintDb esync discriminated.
#[export] Hint Resolve Z_of_byte_range unbe_in_u unbe_range wrap_u_range wrap_i_range : esync.
Create Rewrite HintDb esync_len.
#[export] Hint Rewrite @length_be @length_app @length_drop @length_take : esync_len.
#[global] Opaque be unbe.
