(* ===== verification/Fault.v ===== *)
(** * Fault: the error model (src/internal/fault)

    Codes, the policy catalogue, the fault record and its error chain, and the
    decisions the program takes on an error: class, retryability, exit code,
    retry delay.  The formatted [detail] text of [Newf] is not modelled: only
    [Error()] prints it and no code branches on it, so [Newf] is [New]. *)
From S2P Require Import Prelude.

(** A code is a Go string: peers can name codes outside the catalogue. *)
Abbreviation Code := bytes.

Inductive Class := Fatal | Item | Warn.
#[global] Instance Class_eq_dec : EqDecision Class.
Proof. solve_decision. Defined.

(** ** The catalogue (catalogue.go) *)
Definition E1001 : Code := bs "E1001".
Definition E1002 : Code := bs "E1002".
Definition E1003 : Code := bs "E1003".
Definition E1004 : Code := bs "E1004".
Definition E1005 : Code := bs "E1005".
Definition E1006 : Code := bs "E1006".
Definition E1007 : Code := bs "E1007".
Definition E1008 : Code := bs "E1008".
Definition E2001 : Code := bs "E2001".
Definition E2002 : Code := bs "E2002".
Definition E2003 : Code := bs "E2003".
Definition E2004 : Code := bs "E2004".
Definition E2005 : Code := bs "E2005".
Definition E2006 : Code := bs "E2006".
Definition E2007 : Code := bs "E2007".
Definition E3001 : Code := bs "E3001".
Definition E3002 : Code := bs "E3002".
Definition E3003 : Code := bs "E3003".
Definition E3004 : Code := bs "E3004".
Definition E3005 : Code := bs "E3005".
Definition E3006 : Code := bs "E3006".
Definition E3007 : Code := bs "E3007".
Definition E4001 : Code := bs "E4001".
Definition E4002 : Code := bs "E4002".
Definition E4003 : Code := bs "E4003".
Definition E4004 : Code := bs "E4004".
Definition E4005 : Code := bs "E4005".
Definition E4006 : Code := bs "E4006".
Definition E4007 : Code := bs "E4007".
Definition E5001 : Code := bs "E5001".
Definition E5002 : Code := bs "E5002".
Definition E5003 : Code := bs "E5003".
Definition E5004 : Code := bs "E5004".
Definition E5005 : Code := bs "E5005".
Definition E5006 : Code := bs "E5006".
Definition E5007 : Code := bs "E5007".
Definition E5008 : Code := bs "E5008".
Definition E5009 : Code := bs "E5009".
Definition E5010 : Code := bs "E5010".
Definition E5011 : Code := bs "E5011".
Definition E6001 : Code := bs "E6001".
Definition E6002 : Code := bs "E6002".
Definition E6003 : Code := bs "E6003".
Definition E6004 : Code := bs "E6004".
Definition E6005 : Code := bs "E6005".
Definition E6006 : Code := bs "E6006".
Definition E6007 : Code := bs "E6007".
Definition E6008 : Code := bs "E6008".
Definition E7001 : Code := bs "E7001".
Definition E7002 : Code := bs "E7002".
Definition E7003 : Code := bs "E7003".
Definition E7004 : Code := bs "E7004".
Definition E7005 : Code := bs "E7005".
Definition E7006 : Code := bs "E7006".
Definition E7007 : Code := bs "E7007".
Definition E7008 : Code := bs "E7008".
Definition E7009 : Code := bs "E7009".
Definition E7010 : Code := bs "E7010".
Definition E7011 : Code := bs "E7011".
Definition E7012 : Code := bs "E7012".
Definition E7013 : Code := bs "E7013".
Definition E7014 : Code := bs "E7014".
Definition E8001 : Code := bs "E8001".
Definition E8002 : Code := bs "E8002".
Definition E8003 : Code := bs "E8003".
Definition E8004 : Code := bs "E8004".
Definition E8005 : Code := bs "E8005".
Definition E9001 : Code := bs "E9001".
Definition E9002 : Code := bs "E9002".
Definition E9003 : Code := bs "E9003".
Definition E9004 : Code := bs "E9004".
Definition Signal : Code := bs "ESIGNAL".
Record policy := mkPolicy {
  class : Class;
  retryable : bool;
  condition : string;
  action : string;
}.

(** The map literal [catalogue]; a Go map literal has distinct keys, which
    [catalogue_keys_nodup] checks. *)
Definition catalogue : list (Code * policy) := [
  (E1001, mkPolicy Fatal false "unknown flag or malformed argument" "fix the command line");
  (E1002, mkPolicy Fatal false "both a path and --link given, or neither" "choose one mode");
  (E1003, mkPolicy Fatal false "source path does not exist" "check the path");
  (E1004, mkPolicy Fatal false "source path not readable" "check permissions");
  (E1005, mkPolicy Fatal false "no usable network interface for the code" "connect to a network, or use --bind");
  (E1006, mkPolicy Fatal false "destination not writable" "choose another --dest");
  (E1007, mkPolicy Fatal false "flag value outside its documented range" "see --help for the range");
  (E1008, mkPolicy Fatal false "destination is inside the source tree on the same host" "choose a destination outside the source");
  (E2001, mkPolicy Fatal false "pairing code fails length/alphabet/CRC validation" "re-copy the code; it was mistyped or truncated");
  (E2002, mkPolicy Fatal false "code carries an unknown code-format version" "upgrade the older side");
  (E2003, mkPolicy Fatal false "protocol version unsupported by this build" "use matching versions on both machines");
  (E2004, mkPolicy Fatal false "every endpoint in the code is syntactically unusable" "regenerate the code");
  (E2005, mkPolicy Fatal false "code already claimed by another receiver" "generate a new code on the sender");
  (E2006, mkPolicy Fatal false "no receiver linked before --pair-timeout" "re-run the sender");
  (E2007, mkPolicy Fatal false "handshake attempt budget exhausted" "someone is guessing, or the code is wrong; re-run the sender");
  (E3001, mkPolicy Fatal false "no candidate endpoint reachable" "check LAN connectivity and firewall; see the per-endpoint table");
  (E3002, mkPolicy Fatal false "connect timeout on all candidates" "check LAN connectivity and firewall");
  (E3003, mkPolicy Item true "connection reset mid-session" "automatic: requeue and rejoin; fatal if the control channel and resume fails");
  (E3004, mkPolicy Fatal false "peer unresponsive past the keepalive deadline" "check the other machine; resume with the same command");
  (E3005, mkPolicy Fatal false "unrecoverable data-channel failure: idle past the stall timeout, the last channel retired with work outstanding, or a coded channel fault" "re-run; the receiver resumes from its journal");
  (E3006, mkPolicy Item true "CHANNEL_JOIN rejected" "automatic retry; channel retired on exhaustion");
  (E3007, mkPolicy Fatal false "control channel resume window expired" "re-run; the receiver resumes from its journal");
  (E4001, mkPolicy Fatal false "handshake confirmation MAC failed" "the code is wrong or a MITM is present");
  (E4002, mkPolicy Fatal false "data-channel authentication failed" "the code is wrong or a MITM is present");
  (E4003, mkPolicy Fatal false "record MAC verification failed" "tampering or corruption; session is aborted");
  (E4004, mkPolicy Fatal false "record sequence violation" "tampering, replay, or a bug; session is aborted");
  (E4005, mkPolicy Fatal false "stream ended without an authenticated close" "treat the transfer as incomplete; re-run to resume");
  (E4006, mkPolicy Fatal false "sequence space exhausted" "unreachable in practice; re-run");
  (E4007, mkPolicy Fatal false "system CSPRNG failure" "environment fault; do not retry");
  (E5001, mkPolicy Fatal false "message not valid in the current state" "version mismatch or a peer bug; report with both versions");
  (E5002, mkPolicy Fatal false "unsupported record/protocol version" "match versions");
  (E5003, mkPolicy Fatal false "record length outside the declared bounds" "corrupt or hostile peer");
  (E5004, mkPolicy Fatal false "malformed padding after a valid MAC" "internal bug; reachable only from a defect");
  (E5005, mkPolicy Fatal false "session summaries disagree" "do not trust the destination; investigate with both logs");
  (E5006, mkPolicy Fatal false "FILE_CHUNK offsets not contiguous" "peer bug");
  (E5007, mkPolicy Fatal false "request for an unknown file_id" "peer bug or desynchronised plan");
  (E5008, mkPolicy Fatal false "sender exceeded the granted credit" "peer bug");
  (E5009, mkPolicy Fatal false "duplicate GROUP_DECISION for one group" "peer bug");
  (E5010, mkPolicy Fatal false "frame body_len disagrees with the record plaintext" "corrupt peer");
  (E5011, mkPolicy Fatal false "unknown message type" "version mismatch");
  (E6001, mkPolicy Item false "permission denied reading a source file" "fix source permissions and re-run");
  (E6002, mkPolicy Item false "source file vanished between manifest and read" "expected on a live tree; re-run to pick it up");
  (E6003, mkPolicy Item false "source file changed during transfer (size or digest drift)" "re-run; the file will be re-planned with its new content");
  (E6004, mkPolicy Item true "source read I/O error" "retried; persistent failure suggests failing media");
  (E6005, mkPolicy Warn false "source directory unreadable during enumeration" "fix permissions; contents were not planned");
  (E6006, mkPolicy Warn false "unsupported entry type (socket, FIFO, device)" "expected; these are never transferred");
  (E6007, mkPolicy Warn false "symlink loop detected under --follow-symlinks" "informational");
  (E6008, mkPolicy Item true "too many open files on the sender" "lower --read-concurrency or raise ulimit -n");
  (E7001, mkPolicy Item true "destination file create failed" "check permissions and inode availability");
  (E7002, mkPolicy Item false "destination permission denied" "fix destination permissions");
  (E7003, mkPolicy Fatal false "destination out of space" "free space and re-run; the journal makes it resumable");
  (E7004, mkPolicy Item true "destination write I/O error" "retried; persistent failure suggests failing media");
  (E7005, mkPolicy Item true "atomic publish (rename) failed" "retried; the partial file remains under .esync/parts");
  (E7006, mkPolicy Warn false "could not apply mode or mtime" "content is correct; metadata is not");
  (E7007, mkPolicy Fatal false "journal write failed" "resume safety cannot be guaranteed; stop rather than continue blind");
  (E7008, mkPolicy Item true "directory create failed" "check permissions");
  (E7009, mkPolicy Warn false "hard link creation failed" "content is materialised separately; storage is larger");
  (E7010, mkPolicy Item false "unsafe path rejected (traversal, absolute, NUL, reserved)" "reported in the summary; investigate the source tree");
  (E7011, mkPolicy Item false "symlink target escapes the destination root" "use --allow-unsafe-links only if intended");
  (E7012, mkPolicy Item false "destination name collision after platform normalisation" "two source names map to one destination name; rename at the source");
  (E7013, mkPolicy Item false "symlink encountered on the destination path" "remove the symlink or choose another destination");
  (E7014, mkPolicy Item false "path too long for the destination platform" "shorten the destination root");
  (E8001, mkPolicy Item true "received content digest does not match the manifest digest" "retried; exhaustion means the file could not be moved intact");
  (E8002, mkPolicy Item true "byte count does not match the declared size" "retried; exhaustion means the file could not be moved intact");
  (E8003, mkPolicy Item false "sender's streamed digest does not match the manifest digest" "the source changed; equivalent to E6003");
  (E8004, mkPolicy Warn false "journal record corrupt (torn tail)" "automatic: the record is discarded, its file is re-fetched");
  (E8005, mkPolicy Warn false "digest cache corrupt or version-mismatched" "automatic: full hashing is used");
  (E9001, mkPolicy Fatal false "panic recovered at a worker boundary" "a defect; the stack trace and the trace-ring dump are in the log");
  (E9002, mkPolicy Fatal false "the transfer stopped making progress with work still outstanding" "the peer or network went quiet; check the other machine and the link, then re-run to resume from the journal");
  (E9003, mkPolicy Fatal false "runtime invariant violated (§9.4)" "a defect; report with the log");
  (E9004, mkPolicy Fatal false "a bound was exceeded that should have been unreachable" "a defect; report with the log");
  (Signal, mkPolicy Fatal false "interrupted by a signal" "re-run to resume; the journal is durable")
].
Definition catalogue_get (c : Code) : option policy :=
  snd <$> List.find (λ p, bool_decide (p.1 = c)) catalogue.

Definition lookup (c : Code) : policy :=
  match catalogue_get c with
  | Some p => p
  | None => mkPolicy Fatal false "uncatalogued error code" "report this as a bug"
  end.

Definition Condition (c : Code) : string := condition (lookup c).
Definition Action (c : Code) : string := action (lookup c).

(** ** Errors (fault.go)

    [FaultOf] is the struct [Fault]; [gerr] is the dynamic type of a non-nil Go
    [error] this program builds or inspects.  [EStd] are the standard library's
    errors the program tests for with [errors.Is]/[errors.As]; [EChannelLost]
    and [EDesynced] are the receiver's two wrappers (receiver/fetch.go), which
    implement [Unwrap]. *)
Inductive stdErr :=
| StdEOF | StdUnexpectedEOF | StdCanceled | StdTimeout
| StdNotExist | StdExist | StdPermission | StdNoSpace | StdOther (msg : string).
#[global] Instance stdErr_eq_dec : EqDecision stdErr.
Proof. solve_decision. Defined.

Record FaultOf (E : Type) := MkFault {
  fCode : Code;
  fClass : Class;
  fRetryable : bool;
  fOp : string;
  fSubject : bytes;
  fCause : option E;
}.
Arguments MkFault {E} _ _ _ _ _ _.
Arguments fCode {E} _.
Arguments fClass {E} _.
Arguments fRetryable {E} _.
Arguments fOp {E} _.
Arguments fSubject {E} _.
Arguments fCause {E} _.

Scheme All for option.
Scheme All for FaultOf.
Inductive gerr : Type :=
| EFault (f : FaultOf gerr)
| EChannelLost (cause : gerr)
| EDesynced (cause : gerr)
| EStd (e : stdErr).
Abbreviation Fault := (FaultOf gerr).

(** [New] fills Class and Retryable from the catalogue. *)
Definition New (code : Code) (op : string) (subject : bytes) (cause : option gerr) : Fault :=
  let p := lookup code in
  MkFault code (class p) (retryable p) op subject cause.

(** [fault.New(...)] returned as an [error]; [Newf] differs in [detail] only. *)
Definition fault (code : Code) (op : string) (subject : bytes) (cause : option gerr) : gerr :=
  EFault (New code op subject cause).

(** [errors.As(err, &f)] with [f *Fault]: the first fault of the chain. *)
Fixpoint asFault (e : gerr) : option Fault :=
  match e with
  | EFault f => Some f
  | EChannelLost c | EDesynced c => asFault c
  | EStd _ => None
  end.

(** [errors.Is(err, std)] for a standard-library sentinel. *)
Fixpoint isStd (s : stdErr) (e : gerr) : bool :=
  match e with
  | EFault (MkFault _ _ _ _ _ (Some c)) => isStd s c
  | EFault _ => false
  | EChannelLost c | EDesynced c => isStd s c
  | EStd s' => bool_decide (s' = s)
  end.

Definition Wrap (code : Code) (op : string) (subject : bytes) (err : gerr) : Fault :=
  match asFault err with
  | Some f => if bool_decide (fCode f ≠ []) then f else New code op subject (Some err)
  | None => New code op subject (Some err)
  end.

Definition GetCode (e : gerr) : Code :=
  match asFault e with Some f => fCode f | None => [] end.

Fixpoint HasCode (e : gerr) (c : Code) : bool :=
  match e with
  | EFault (MkFault code _ _ _ _ cause) =>
      if bool_decide (code = c) then true
      else match cause with Some e' => HasCode e' c | None => false end
  | EChannelLost e' | EDesynced e' => HasCode e' c
  | EStd _ => false
  end.

Definition IsRetryable (e : gerr) : bool :=
  match asFault e with Some f => fRetryable f | None => false end.

(** [IsFatal] and [ExitCode] take a Go [error], nil included. *)
Definition IsFatal (e : option gerr) : bool :=
  match e with
  | None => false
  | Some e =>
      match asFault e with
      | Some f => bool_decide (fClass f = Fatal)
      | None => true
      end
  end.

Definition ErrSignal : gerr := fault Signal "interrupted by signal" [] None.

(** [errors.Is(err, ErrSignal)]: [Fault.Is] compares codes along the chain. *)
Definition isErrSignal (e : gerr) : bool := HasCode e Signal.

Definition ExitCode (e : option gerr) : Z :=
  match e with
  | None => 0
  | Some e =>
      match asFault e with
      | None => 2
      | Some f =>
          if bool_decide (fCode f = Signal) then 5
          else if bool_decide (fCode f ∈ [E1001; E1002; E1007]) then 3
          else if bool_decide (fCode f ∈ [E2001; E2002; E2003; E2004; E2005; E2006; E2007; E4001; E4002])
          then 4
          else match fClass f with Warn => 0 | Item => 1 | Fatal => 2 end
      end
  end.

(** ** Retry delay (retry.go), in nanoseconds

    The delay for a nil random source, where the jitter factor is 1. *)
Definition MaxRetriesDefault : Z := 3.
Definition backoffBase : Z := 200 * 10 ^ 6.
Definition backoffCap : Z := 5 * 10 ^ 9.

Definition Backoff (attempt : Z) : Z :=
  let attempt := if attempt <? 0 then 0 else attempt in
  if attempt <? 24 then
    let d := wrap_i 64 (Z.shiftl backoffBase attempt) in
    if (d <=? 0) || (backoffCap <? d) then backoffCap else d
  else backoffCap.

(** The code of a failed disk operation (fsx/dest.go). *)
Definition diskCode (e : stdErr) (dflt : Code) : Code :=
  match e with StdNoSpace => E7003 | StdPermission => E7002 | _ => dflt end.

(** ** Lemmas *)
Lemma catalogue_keys_nodup : NoDup (catalogue.*1).
Proof. refine (bool_decide_eq_true_1 (NoDup _) _). vm_compute. reflexivity. Qed.

Lemma catalogue_get_elem c p : (c, p) ∈ catalogue → catalogue_get c = Some p.
Proof.
  unfold catalogue_get. pose proof catalogue_keys_nodup as Hnd. revert Hnd.
  generalize catalogue as l. induction l as [|[c' p'] l IH]; intros Hnd Hin; simpl.
  { by apply elem_of_nil in Hin. }
  apply list.NoDup_cons in Hnd as [Hni Hnd]. apply elem_of_cons in Hin as [E|Hin].
  - injection E as -> ->. by rewrite bool_decide_true.
  - rewrite bool_decide_false; [by apply IH|]. intros ->.
    apply Hni. apply list_elem_of_fmap. by exists (c, p).
Qed.

Lemma lookup_elem c p : (c, p) ∈ catalogue → lookup c = p.
Proof. intros H. unfold lookup. by rewrite (catalogue_get_elem c p). Qed.

Lemma lookup_unknown c : c ∉ catalogue.*1 → class (lookup c) = Fatal ∧ retryable (lookup c) = false.
Proof.
  intros H. unfold lookup, catalogue_get.
  destruct (List.find _ catalogue) as [[c' p]|] eqn:E; simpl; [|done].
  apply List.find_some in E as [Hin Heq]. simpl in Heq. apply bool_decide_eq_true in Heq.
  destruct H. subst. apply list_elem_of_fmap. exists (c, p). split; [done|].
  by apply list_elem_of_In.
Qed.

Lemma asFault_fault c op s k : asFault (fault c op s k) = Some (New c op s k).
Proof. done. Qed.

Lemma GetCode_fault c op s k : GetCode (fault c op s k) = c.
Proof. done. Qed.

Lemma Backoff_shift n : 0 <= n < 24 → wrap_i 64 (Z.shiftl backoffBase n) = backoffBase * 2 ^ n.
Proof.
  intros Hn. rewrite Z.shiftl_mul_pow2 by lia. unfold wrap_i, backoffBase.
  assert (2 ^ n <= 2 ^ 24) by (apply Z.pow_le_mono_r; lia).
  assert (0 < 2 ^ n) by (apply Z.pow_pos_nonneg; lia).
  rewrite Z.mod_small; lia.
Qed.

#[export] Hint Rewrite asFault_fault GetCode_fault : esync_len.
