(* ===== verification/Strconv.v ===== *)
(** * Strconv: the text encodings the program takes from Go's standard library

    [strconv.FormatUint]/[ParseUint]/[ParseInt]/[Atoi], [encoding/hex],
    [encoding/base64] (StdEncoding), [strings.Fields] and [hash/crc32], as
    executable functions on bytes, with the round trips the journal and the
    error codes rely on. *)
From S2P Require Import Prelude.

(** ** Integers in a radix *)
Definition digit_char (d : Z) : byte := byte_of_Z (if d <? 10 then 48 + d else 87 + d).
Definition digit_val (c : byte) : option Z :=
  let z := Z_of_byte c in
  if (48 <=? z) && (z <=? 57) then Some (z - 48)
  else if (97 <=? z) && (z <=? 122) then Some (z - 87)
  else if (65 <=? z) && (z <=? 90) then Some (z - 55)
  else None.

(** Fuel 64 is enough for a 64-bit value in any radix from 2 on. *)
Fixpoint format_go (fuel : nat) (base n : Z) (acc : bytes) : bytes :=
  match fuel with
  | O => acc
  | S f =>
      if n <? base then digit_char n :: acc
      else format_go f base (n / base) (digit_char (n mod base) :: acc)
  end.
Definition FormatUint (n base : Z) : bytes := format_go 64 base n [].
Definition FormatInt (n base : Z) : bytes :=
  if n <? 0 then bs "-" ++ FormatUint (- n) base else FormatUint n base.

(** Digits of [s] as numbers below [base]. *)
Definition digits_of (base : Z) (s : bytes) : option (list Z) :=
  mapM (λ c, digit_val c ≫= λ d, if d <? base then Some d else None) s.
Definition of_digits (base : Z) (ds : list Z) : Z := foldl (λ a d, a * base + d) 0 ds.

(** [ParseUint(s, base, bits)] for an explicit base: [None] is any error. *)
Definition ParseUint (s : bytes) (base bits : Z) : option Z :=
  match s with
  | [] => None
  | _ =>
      ds ← digits_of base s;
      let v := of_digits base ds in
      if v <? 2 ^ bits then Some v else None
  end.

Inductive numErr := ErrSyntax | ErrRange.

(** [ParseInt(s, 10, 64)], and [Atoi], which returns the same value and error:
    the value on a range error is the nearest representable one. *)
Definition ParseInt (s : bytes) : Z * option numErr :=
  let go (neg : bool) (t : bytes) : Z * option numErr :=
    match t with
    | [] => (0, Some ErrSyntax)
    | _ =>
        match digits_of 10 t with
        | None => (0, Some ErrSyntax)
        | Some ds =>
            let un := of_digits 10 ds in
            if negb neg && (2 ^ 63 <=? un) then (2 ^ 63 - 1, Some ErrRange)
            else if neg && (2 ^ 63 <? un) then (- 2 ^ 63, Some ErrRange)
            else (if neg then - un else un, None)
        end
    end in
  match s with
  | c :: t =>
      if bool_decide (c = byte_of_Z 43) then go false t
      else if bool_decide (c = byte_of_Z 45) then go true t
      else go false s
  | [] => (0, Some ErrSyntax)
  end.

(** ** Hexadecimal (encoding/hex) *)
Definition hex_encode (l : bytes) : bytes :=
  l ≫= λ b, [digit_char (Z_of_byte b / 16); digit_char (Z_of_byte b mod 16)].
Definition hex_digit (c : byte) : option Z :=
  digit_val c ≫= λ d, if d <? 16 then Some d else None.
Fixpoint hex_decode (s : bytes) : option bytes :=
  match s with
  | [] => Some []
  | [_] => None
  | a :: b :: s' =>
      x ← hex_digit a; y ← hex_digit b; t ← hex_decode s';
      Some (byte_of_Z (x * 16 + y) :: t)
  end.

(** ** Base64 (encoding/base64.StdEncoding: padded, '\r' and '\n' skipped) *)
Definition b64_char (v : Z) : byte :=
  byte_of_Z (if v <? 26 then 65 + v else if v <? 52 then 71 + v
             else if v <? 62 then v - 4 else if v =? 62 then 43 else 47).
Definition b64_val (c : byte) : option Z :=
  let z := Z_of_byte c in
  if (65 <=? z) && (z <=? 90) then Some (z - 65)
  else if (97 <=? z) && (z <=? 122) then Some (z - 71)
  else if (48 <=? z) && (z <=? 57) then Some (z + 4)
  else if z =? 43 then Some 62
  else if z =? 47 then Some 63
  else None.
Definition b64_pad : byte := byte_of_Z 61.

Fixpoint b64_encode (l : bytes) : bytes :=
  match l with
  | [] => []
  | [a] =>
      let n := Z_of_byte a * 16 in
      [b64_char (n / 64); b64_char (n mod 64); b64_pad; b64_pad]
  | [a; b] =>
      let n := (Z_of_byte a * 256 + Z_of_byte b) * 4 in
      [b64_char (n / 4096); b64_char (n / 64 mod 64); b64_char (n mod 64); b64_pad]
  | a :: b :: c :: l' =>
      let n := (Z_of_byte a * 256 + Z_of_byte b) * 256 + Z_of_byte c in
      b64_char (n / 262144) :: b64_char (n / 4096 mod 64) :: b64_char (n / 64 mod 64)
        :: b64_char (n mod 64) :: b64_encode l'
  end.

Fixpoint b64_quanta (s : bytes) : option bytes :=
  match s with
  | [] => Some []
  | a :: b :: c :: d :: s' =>
      x ← b64_val a; y ← b64_val b;
      if bool_decide (c = b64_pad) then
        if bool_decide (d = b64_pad ∧ s' = []) then Some [byte_of_Z ((x * 64 + y) / 16)] else None
      else
        z ← b64_val c;
        if bool_decide (d = b64_pad) then
          if bool_decide (s' = [])
          then let n := ((x * 64 + y) * 64 + z) / 4 in Some [byte_of_Z (n / 256); byte_of_Z n]
          else None
        else
          w ← b64_val d; t ← b64_quanta s';
          let n := ((x * 64 + y) * 64 + z) * 64 + w in
          Some (byte_of_Z (n / 65536) :: byte_of_Z (n / 256) :: byte_of_Z n :: t)
  | _ => None
  end.
Definition b64_decode (s : bytes) : option bytes :=
  b64_quanta (filter (λ c, c ≠ byte_of_Z 10 ∧ c ≠ byte_of_Z 13) s).

(** ** White space and [strings.Fields]

    [space_len s] is the width of the white-space rune [s] starts with, 0 when
    it starts with none: the ASCII spaces and the UTF-8 forms of U+0085, U+00A0,
    U+1680, U+2000-200A, U+2028, U+2029, U+202F, U+205F and U+3000. *)
Definition is_ascii_space (c : byte) : bool :=
  let z := Z_of_byte c in (z =? 32) || ((9 <=? z) && (z <=? 13)).
Definition space_len (s : bytes) : nat :=
  match s with
  | [] => 0
  | c :: s' =>
      if is_ascii_space c then 1 else
      match s' with
      | [] => 0
      | d :: s'' =>
          let x := Z_of_byte c in let y := Z_of_byte d in
          if (x =? 0xC2) && ((y =? 0x85) || (y =? 0xA0)) then 2 else
          match s'' with
          | [] => 0
          | e :: _ =>
              let z := Z_of_byte e in
              if ((x =? 0xE1) && (y =? 0x9A) && (z =? 0x80))
                 || ((x =? 0xE2) && (y =? 0x80)
                     && (((0x80 <=? z) && (z <=? 0x8A)) || (z =? 0xA8) || (z =? 0xA9) || (z =? 0xAF)))
                 || ((x =? 0xE2) && (y =? 0x81) && (z =? 0x9F))
                 || ((x =? 0xE3) && (y =? 0x80) && (z =? 0x80))
              then 3 else 0
          end
      end
  end.

Definition flush (cur : bytes) : list bytes := if cur is [] then [] else [cur].
Fixpoint fields_go (fuel : nat) (s cur : bytes) : list bytes :=
  match fuel, s with
  | S f, c :: s' =>
      match space_len s with
      | O => fields_go f s' (cur ++ [c])
      | n => flush cur ++ fields_go f (drop n s) []
      end
  | _, _ => flush cur
  end.
(** Every step consumes a byte, so the length is enough fuel. *)
Definition Fields (s : bytes) : list bytes := fields_go (length s) s [].

(** [strings.TrimSpace]: white space off both ends, a rune at a time. *)
Fixpoint trimLeftSpace (fuel : nat) (s : bytes) : bytes :=
  match fuel with
  | O => s
  | S f => match space_len s with O => s | n => trimLeftSpace f (drop n s) end
  end.
Definition last_space_len (s : bytes) : nat :=
  match filter (λ n, n <= length s ∧ space_len (drop (length s - n) s) = n)%nat [1; 2; 3]%nat with n :: _ => n | [] => 0 end.
Fixpoint trimRightSpace (fuel : nat) (s : bytes) : bytes :=
  match fuel with
  | O => s
  | S f => match last_space_len s with O => s | n => trimRightSpace f (take (length s - n) s) end
  end.
Definition TrimSpace (s : bytes) : bytes :=
  let s := trimLeftSpace (length s) s in trimRightSpace (length s) s.
Example TrimSpace_ex : TrimSpace (bs "  a b 
") = bs "a b".
Proof. by vm_compute. Qed.

(** [bytes.Split(s, []byte{sep})]. *)
Fixpoint split_go (sep : byte) (s cur : bytes) : list bytes :=
  match s with
  | [] => [cur]
  | c :: s' => if bool_decide (c = sep) then cur :: split_go sep s' [] else split_go sep s' (cur ++ [c])
  end.
Definition Split (sep : byte) (s : bytes) : list bytes := split_go sep s [].

(** ** CRC-32 (hash/crc32), reflected form of the given polynomial *)
Definition crc_bit (poly c : Z) : Z :=
  if Z.testbit c 0 then Z.lxor (Z.shiftr c 1) poly else Z.shiftr c 1.
Definition crc_byte (poly c : Z) (b : byte) : Z :=
  Nat.iter 8 (crc_bit poly) (Z.lxor c (Z_of_byte b)).
Definition crc32 (poly : Z) (l : bytes) : Z :=
  Z.lxor (foldl (crc_byte poly) (2 ^ 32 - 1) l) (2 ^ 32 - 1).
Definition IEEE : Z := 0xEDB88320.
Definition Castagnoli : Z := 0x82F63B78.

(** ** Lemmas *)

(** A decidable fact about every integer of a small range, by computation. *)
Lemma Z_enum (P : Z → Prop) `{!∀ z, Decision (P z)} n m :
  bool_decide (Forall P (seqZ n (m - n))) = true → ∀ z, n <= z < m → P z.
Proof.
  intros Hall%bool_decide_eq_true z Hz. rewrite Forall_forall in Hall.
  apply Hall, elem_of_seqZ. lia.
Qed.
Ltac z_enum := refine (Z_enum _ _ _ _); vm_compute; reflexivity.

Definition plain (c : byte) : Prop := 33 <= Z_of_byte c < 127.
#[global] Instance plain_dec c : Decision (plain c).
Proof. unfold plain. apply _. Defined.

Lemma digit_char_val d : 0 <= d < 36 → digit_val (digit_char d) = Some d.
Proof. revert d. z_enum. Qed.
Lemma digit_char_plain d : 0 <= d < 36 → plain (digit_char d).
Proof. revert d. z_enum. Qed.
Lemma b64_char_val v : 0 <= v < 64 → b64_val (b64_char v) = Some v.
Proof. revert v. z_enum. Qed.
Lemma b64_char_plain v : 0 <= v < 64 → plain (b64_char v) ∧ b64_char v ≠ b64_pad.
Proof. revert v. z_enum. Qed.
Lemma b64_pad_plain : plain b64_pad.
Proof. by vm_compute. Qed.

Lemma of_digits_app base a b :
  of_digits base (a ++ b) = of_digits base a * base ^ Z.of_nat (length b) + of_digits base b.
Proof.
  unfold of_digits. rewrite foldl_app. generalize (foldl (λ x d, x * base + d) 0 a) as acc.
  induction b as [|d b IH]; intros acc; cbn [foldl length]; [lia|].
  rewrite IH, (IH (0 * base + d)), Nat2Z.inj_succ, Z.pow_succ_r by lia. ring.
Qed.

Lemma of_digits_nonneg base ds : 0 <= base → Forall (λ d, 0 <= d) ds → 0 <= of_digits base ds.
Proof.
  intros Hb H. induction ds as [|d ds IH] using rev_ind; [done|].
  apply Forall_app in H as [H1 H2]. rewrite Forall_singleton in H2.
  rewrite of_digits_app. specialize (IH H1).
  change (of_digits base [d]) with (0 * base + d).
  change (Z.of_nat (length [d])) with 1. rewrite Z.pow_1_r. nia.
Qed.

Lemma digits_of_app base s t :
  digits_of base (s ++ t) = (a ← digits_of base s; b ← digits_of base t; Some (a ++ b)).
Proof.
  unfold digits_of. induction s as [|c s IH]; simpl.
  { by destruct (mapM _ t). }
  rewrite IH. destruct (digit_val c) as [d|]; simpl; [|done].
  destruct (d <? base); simpl; [|done].
  by destruct (mapM _ s), (mapM _ t).
Qed.

Lemma digits_of_length base s ds : digits_of base s = Some ds → length ds = length s.
Proof. intros H%length_mapM. by rewrite H. Qed.

Lemma digits_of_nonneg base s ds : digits_of base s = Some ds → Forall (λ d, 0 <= d < base) ds.
Proof.
  intros H%mapM_Some_1. apply Forall_forall. intros d [i Hd]%list_elem_of_lookup.
  eapply Forall2_lookup_r in H as (c & _ & Hc); [|done]. revert Hc. unfold digit_val. pose proof (Z_of_byte_range c).
  repeat case_match; simpl; bool_to_prop; intros; simplify_eq/=; repeat case_match; simplify_eq; bool_to_prop; try lia.
Qed.

Lemma format_go_acc fuel base n acc :
  format_go fuel base n acc = format_go fuel base n [] ++ acc.
Proof.
  revert n acc. induction fuel as [|f IH]; intros n acc; simpl; [done|].
  destruct (n <? base); [done|]. rewrite IH, (IH _ [_]), <- app_assoc. done.
Qed.

Lemma format_go_digits fuel base n :
  2 <= base <= 36 → 0 <= n < base ^ Z.of_nat fuel →
  ∃ ds, digits_of base (format_go fuel base n []) = Some ds ∧ of_digits base ds = n
        ∧ Forall plain (format_go fuel base n []).
Proof.
  intros Hb. revert n. induction fuel as [|f IH]; intros n Hn; simpl.
  { exists []. unfold of_digits; simpl in *. split_and!; [done|lia|constructor]. }
  assert (Hc : ∀ d, 0 <= d < base → digits_of base [digit_char d] = Some [d]).
  { intros d Hd. unfold digits_of; simpl. rewrite digit_char_val by lia; simpl.
    by rewrite (proj2 (Z.ltb_lt d base)) by lia. }
  destruct (n <? base) eqn:E; bool_to_prop.
  - exists [n]. rewrite Hc by lia. unfold of_digits; simpl.
    split_and!; [done|lia|]. constructor; [apply digit_char_plain; lia|constructor].
  - rewrite Nat2Z.inj_succ, Z.pow_succ_r in Hn by lia.
    assert (n / base < base ^ Z.of_nat f) by (apply Z.div_lt_upper_bound; lia).
    assert (0 <= n / base) by (apply Z.div_pos; lia).
    pose proof (Z.mod_pos_bound n base ltac:(lia)).
    destruct (IH (n / base)) as (ds & Hds & Hv & Hp); [lia|].
    exists (ds ++ [n mod base]). rewrite format_go_acc, digits_of_app, Hds, Hc by lia; simpl.
    split_and!; [done| |].
    + rewrite of_digits_app, Hv. unfold of_digits; simpl. rewrite Z.mul_comm.
      pose proof (Z.div_mod n base). lia.
    + apply Forall_app. split; [done|]. constructor; [apply digit_char_plain; lia|constructor].
Qed.

Lemma FormatUint_digits base n :
  2 <= base <= 36 → in_u 64 n →
  ∃ ds, digits_of base (FormatUint n base) = Some ds ∧ of_digits base ds = n
        ∧ Forall plain (FormatUint n base).
Proof.
  intros Hb Hn. apply format_go_digits; [done|].
  unfold in_u in Hn. assert (2 ^ 64 <= base ^ Z.of_nat 64) by (apply Z.pow_le_mono_l; lia). lia.
Qed.

Lemma FormatUint_nonempty n base : FormatUint n base ≠ [].
Proof.
  unfold FormatUint. change 64%nat with (S 63). generalize 63%nat as f. intros f; simpl.
  destruct (n <? base); [done|]. rewrite format_go_acc. intros E.
  by apply app_nil in E as [_ E].
Qed.

Lemma FormatUint_plain n base : 2 <= base <= 36 → in_u 64 n → Forall plain (FormatUint n base).
Proof. intros Hb Hn. by destruct (FormatUint_digits base n Hb Hn) as (? & _ & _ & ?). Qed.

Lemma ParseUint_spec s base bits v :
  ParseUint s base bits = Some v ↔
  s ≠ [] ∧ ∃ ds, digits_of base s = Some ds ∧ of_digits base ds = v ∧ v < 2 ^ bits.
Proof.
  unfold ParseUint. destruct s as [|c s]; [naive_solver|].
  destruct (digits_of base (c :: s)) as [ds|]; simpl; [|naive_solver].
  destruct (Z.ltb_spec (of_digits base ds) (2 ^ bits)); naive_solver lia.
Qed.

Lemma ParseUint_FormatUint n base bits :
  2 <= base <= 36 → in_u 64 n → n < 2 ^ bits → ParseUint (FormatUint n base) base bits = Some n.
Proof.
  intros Hb Hn Hbits. apply ParseUint_spec. split; [apply FormatUint_nonempty|].
  destruct (FormatUint_digits base n Hb Hn) as (ds & Hds & Hv & _). naive_solver.
Qed.

(** A strict prefix of a printed number never parses to that number. *)
Lemma ParseUint_strict_prefix p q n base bits :
  2 <= base <= 36 → in_u 64 n → FormatUint n base = p ++ q → q ≠ [] →
  ParseUint p base bits ≠ Some n.
Proof.
  intros Hb Hn E Hq Hp. apply ParseUint_spec in Hp as (Hne & dp & Hdp & Hvp & _).
  destruct (FormatUint_digits base n Hb Hn) as (ds & Hds & Hv & _).
  rewrite E, digits_of_app, Hdp in Hds; simpl in Hds.
  destruct (digits_of base q) as [dq|] eqn:Hdq; simplify_eq/=.
  rewrite of_digits_app in Hv.
  assert (0 <= of_digits base dq).
  { apply of_digits_nonneg; [lia|]. eapply Forall_impl; [by apply (digits_of_nonneg base q)|]. naive_solver. }
  assert (Hl : 2 <= base ^ Z.of_nat (length dq)).
  { apply digits_of_length in Hdq. destruct q; [done|]. rewrite Hdq; simpl length.
    rewrite Nat2Z.inj_succ, Z.pow_succ_r by lia.
    pose proof (Z.pow_pos_nonneg base (Z.of_nat (length q))). nia. }
  set (k := of_digits base dp) in *. destruct (decide (k = 0)) as [E0|]; [|unfold in_u in Hn; nia].
  rewrite E0 in *. assert (length (FormatUint 0 base) = 1%nat) as Hlen.
  { unfold FormatUint; simpl. by rewrite (proj2 (Z.ltb_lt 0 base)) by lia. }
  rewrite E, length_app in Hlen. destruct p, q; simpl in *; try done; lia.
Qed.

(** *** Hexadecimal *)
Lemma hex_digit_char d : 0 <= d < 16 → hex_digit (digit_char d) = Some d.
Proof.
  intros H. unfold hex_digit. rewrite digit_char_val by lia; simpl.
  by rewrite (proj2 (Z.ltb_lt d 16)) by lia.
Qed.

Lemma byte_halves b : 0 <= Z_of_byte b / 16 < 16 ∧ 0 <= Z_of_byte b mod 16 < 16.
Proof.
  pose proof (Z_of_byte_range b).
  split; [|apply Z.mod_pos_bound; lia].
  split; [apply Z.div_pos; lia|apply Z.div_lt_upper_bound; lia].
Qed.

Lemma hex_encode_cons b l :
  hex_encode (b :: l) =
  digit_char (Z_of_byte b / 16) :: digit_char (Z_of_byte b mod 16) :: hex_encode l.
Proof. done. Qed.

Lemma hex_decode_encode l : hex_decode (hex_encode l) = Some l.
Proof.
  induction l as [|b l IH]; [done|]. rewrite hex_encode_cons; cbn [hex_decode].
  destruct (byte_halves b). rewrite !hex_digit_char by done; simpl.
  rewrite IH; simpl. do 2 f_equal. rewrite Z.mul_comm, <- Z.div_mod by lia.
  apply byte_of_Z_of_byte.
Qed.

Lemma hex_encode_plain l : Forall plain (hex_encode l).
Proof.
  induction l as [|b l IH]; [constructor|]. rewrite hex_encode_cons.
  destruct (byte_halves b). repeat constructor; try apply digit_char_plain; try lia. done.
Qed.

Lemma hex_encode_nil l : hex_encode l = [] ↔ l = [].
Proof. by destruct l. Qed.

(** *** Base64 *)
(** Induction three bytes at a time, following [b64_encode]. *)
Lemma bytes_ind3 (P : bytes → Prop) :
  P [] → (∀ a, P [a]) → (∀ a b, P [a; b]) →
  (∀ a b c l, P l → P (a :: b :: c :: l)) → ∀ l, P l.
Proof.
  intros H0 H1 H2 H3.
  exact (fix go l := match l with
    | [] => H0 | [a] => H1 a | [a; b] => H2 a b | a :: b :: c :: l' => H3 a b c l' (go l')
    end).
Qed.

Lemma b64_char_quantum v : 0 <= v < 64 → b64_val (b64_char v) = Some v ∧ b64_char v ≠ b64_pad ∧ plain (b64_char v).
Proof. intros Hv. pose proof (b64_char_val v Hv). pose proof (b64_char_plain v Hv). naive_solver. Qed.

(** The sextets of a 3-byte quantum and the bytes they give back. *)
Lemma div_mod_range a n : 0 < n → 0 <= a mod n < n.
Proof. intros. apply Z.mod_pos_bound. lia. Qed.

Lemma b64_encode_plain l : Forall plain (b64_encode l).
Proof.
  induction l as [|a|a b|a b c l IH] using bytes_ind3; cbn [b64_encode]; [constructor|..];
    pose proof (Z_of_byte_range a); try pose proof (Z_of_byte_range b);
    try pose proof (Z_of_byte_range c);
    repeat (apply Forall_cons; split); try apply Forall_nil_2; try apply b64_pad_plain; try done;
    apply b64_char_plain;
    try (apply div_mod_range; lia); (split; [apply Z.div_pos|apply Z.div_lt_upper_bound]; lia).
Qed.

Lemma b64_strip l : Forall plain l → filter (λ c, c ≠ byte_of_Z 10 ∧ c ≠ byte_of_Z 13) l = l.
Proof.
  induction 1 as [|c l Hc Hl IH]; [done|]. rewrite filter_cons_True, IH; [done|].
  split; intros ->; by destruct Hc.
Qed.

Lemma byte_of_Z_eq z b : z mod 256 = Z_of_byte b → byte_of_Z z = b.
Proof. intros E. by rewrite <- byte_of_Z_mod, E, byte_of_Z_of_byte. Qed.

Ltac div_lia := Z.div_mod_to_equations; lia.

Lemma b64_quanta_encode l : b64_quanta (b64_encode l) = Some l.
Proof.
  induction l as [|a|a b|a b c l IH] using bytes_ind3; cbn [b64_encode]; [done|..];
    pose proof (Z_of_byte_range a); try pose proof (Z_of_byte_range b);
    try pose proof (Z_of_byte_range c); cbn [b64_quanta];
    rewrite !b64_char_val by div_lia; cbn [mbind option_bind];
    repeat (rewrite bool_decide_false by (try (intros E; injection E); apply b64_char_plain; div_lia)).
  - rewrite !bool_decide_true by done. do 2 f_equal.
    by apply byte_of_Z_eq; div_lia.
  - rewrite !bool_decide_true by done.
    do 2 f_equal; [|f_equal]; apply byte_of_Z_eq; div_lia.
  - rewrite IH; cbn [mbind option_bind].
    do 2 f_equal; [|f_equal; [|f_equal]]; apply byte_of_Z_eq; div_lia.
Qed.

Lemma b64_decode_encode l : b64_decode (b64_encode l) = Some l.
Proof. unfold b64_decode. rewrite b64_strip by apply b64_encode_plain. apply b64_quanta_encode. Qed.

Lemma b64_encode_nil l : b64_encode l = [] ↔ l = [].
Proof. by destruct l as [|? [|? [|? ?]]]. Qed.

(** *** Fields of a line of plain tokens *)
Definition space : byte := byte_of_Z 32.
Definition newline : byte := byte_of_Z 10.

Lemma space_len_plain c s : plain c → space_len (c :: s) = 0%nat.
Proof.
  unfold plain, space_len, is_ascii_space. intros Hc.
  rewrite (proj2 (Z.eqb_neq _ 32)) by lia.
  rewrite (proj2 (Z.leb_gt (Z_of_byte c) 13)) by lia. rewrite andb_false_r; simpl.
  destruct s as [|d s]; [done|].
  repeat rewrite (proj2 (Z.eqb_neq (Z_of_byte c) _)) by lia; simpl.
  by destruct s.
Qed.

Lemma space_len_space s : space_len (space :: s) = 1%nat.
Proof. by destruct s as [|? [|? ?]]. Qed.

Lemma fields_go_token tok rest cur fuel :
  Forall plain tok → (length tok <= fuel)%nat →
  fields_go fuel (tok ++ rest) cur = fields_go (fuel - length tok) rest (cur ++ tok).
Proof.
  intros Hp. revert cur fuel. induction Hp as [|c tok Hc Hp IH]; intros cur fuel Hf.
  { simpl. by rewrite app_nil_r, Nat.sub_0_r. }
  destruct fuel as [|fuel]; simpl in Hf; [lia|].
  cbn [fields_go app]. rewrite space_len_plain by done.
  rewrite IH, <- app_assoc by lia. done.
Qed.

Lemma fields_go_space fuel rest cur :
  fields_go (S fuel) (space :: rest) cur = flush cur ++ fields_go fuel rest [].
Proof. cbn [fields_go]. by rewrite space_len_space. Qed.

Lemma flush_ne cur : cur ≠ [] → flush cur = [cur].
Proof. by destruct cur. Qed.

(** [join toks] is the tokens separated by single spaces. *)
Fixpoint join (toks : list bytes) : bytes :=
  match toks with
  | [] => []
  | [t] => t
  | t :: toks' => t ++ space :: join toks'
  end.

Definition token (t : bytes) : Prop := t ≠ [] ∧ Forall plain t.

Lemma Fields_cons_token t rest :
  token t → Fields (t ++ space :: rest) = t :: Fields rest.
Proof.
  intros [Hne Hp]. unfold Fields. rewrite length_app. simpl length.
  rewrite fields_go_token by (done || lia). simpl.
  replace (length t + S (length rest) - length t)%nat with (S (length rest)) by lia.
  rewrite fields_go_space, flush_ne by done. done.
Qed.

Lemma Fields_token t : Forall plain t → Fields t = flush t.
Proof.
  intros Hp. unfold Fields. rewrite <- (app_nil_r t) at 2.
  rewrite fields_go_token by done. rewrite Nat.sub_diag. done.
Qed.

Lemma join_cons2 t t' toks : join (t :: t' :: toks) = t ++ space :: join (t' :: toks).
Proof. done. Qed.

Lemma Fields_join toks : Forall token toks → Fields (join toks) = toks.
Proof.
  induction 1 as [|t toks Ht Hts IH]; [done|].
  destruct toks as [|t' toks]; [cbn [join]|rewrite join_cons2].
  - destruct Ht. rewrite Fields_token, flush_ne by done. done.
  - rewrite Fields_cons_token, IH by done. done.
Qed.

(** A prefix of a line of tokens keeps whole tokens and one partial token. *)
Lemma Fields_prefix_join toks p :
  Forall token toks → p `prefix_of` join toks →
  ∃ n t, (t = [] ∨ ∃ t', toks !! n = Some t' ∧ t `prefix_of` t') ∧ (n <= length toks)%nat ∧
         Fields p = take n toks ++ flush t ∧ p = join (take n toks ++ [t]).
Proof.
  intros H. revert p. induction H as [|t toks Ht Hts IH]; intros p Hp.
  { apply prefix_nil_inv in Hp as ->. exists 0%nat, []. split_and!; by try left. }
  destruct Ht as [Hne Hpl].
  assert (Hpart : ∀ q, q `prefix_of` t → Fields q = flush q).
  { intros q [z ->]. apply Fields_token. by apply Forall_app in Hpl as [? _]. }
  assert (Hhd : ∀ q toks', q `prefix_of` t → ∃ n u,
    (u = [] ∨ ∃ t', (t :: toks') !! n = Some t' ∧ u `prefix_of` t') ∧ (n <= length (t :: toks'))%nat ∧
         Fields q = take n (t :: toks') ++ flush u ∧ q = join (take n (t :: toks') ++ [u])).
  { intros q toks' Hq. exists 0%nat, q. rewrite Hpart by done. split_and!; [|lia|done|done].
    right. by exists t. }
  destruct toks as [|t' toks]; [cbn [join] in Hp; by apply Hhd|rewrite join_cons2 in Hp].
  apply prefix_app_cases in Hp as [Hp|(p' & -> & Hp')]; [by apply Hhd|].
  destruct p' as [|c p']; [rewrite app_nil_r; by apply Hhd|].
  apply prefix_cons_inv_1 in Hp' as Hc; subst c. apply prefix_cons_inv_2 in Hp'.
  destruct (IH p' Hp') as (n & u & Hu & Hn & HF & HE).
  exists (S n), u. rewrite Fields_cons_token, HF by done.
  split_and!; [done|by apply le_n_S|done|].
  cbn [take app]. rewrite HE. by destruct (take n (t' :: toks)).
Qed.

(** *** Split *)
Lemma split_go_line sep line rest cur :
  sep ∉ line → split_go sep (line ++ sep :: rest) cur = (cur ++ line) :: split_go sep rest [].
Proof.
  revert cur. induction line as [|c line IH]; intros cur Hni; cbn [split_go app].
  { rewrite bool_decide_true, app_nil_r by done. done. }
  apply not_elem_of_cons in Hni as [Hc Hni].
  rewrite bool_decide_false, IH, <- app_assoc by done. done.
Qed.

Lemma Split_line sep line rest :
  sep ∉ line → Split sep (line ++ sep :: rest) = line :: Split sep rest.
Proof. apply split_go_line. Qed.

Lemma Split_last sep line : sep ∉ line → Split sep line = [line].
Proof.
  unfold Split. rewrite <- (app_nil_l line) at 3. generalize (@nil byte) as cur.
  induction line as [|c line IH]; intros cur Hni; cbn [split_go].
  { by rewrite app_nil_r. }
  apply not_elem_of_cons in Hni as [Hc Hni].
  rewrite bool_decide_false, IH, <- app_assoc by done. done.
Qed.

Lemma plain_not_newline l : Forall plain l → newline ∉ l.
Proof. intros Hp Hin. rewrite Forall_forall in Hp. specialize (Hp _ Hin). by destruct Hp. Qed.

(** *** CRC-32 values are 32-bit *)
Lemma lxor_range w a b : 0 < w → in_u w a → in_u w b → in_u w (Z.lxor a b).
Proof.
  intros Hw. assert (Hlog : ∀ z, in_u w z → Z.log2 z < w).
  { unfold in_u. intros z Hz. destruct (decide (z = 0)) as [->|]; [done|].
    apply Z.log2_lt_pow2; lia. }
  intros Ha Hb. pose proof (Hlog a Ha). pose proof (Hlog b Hb). unfold in_u in *.
  assert (0 <= Z.lxor a b) by (apply Z.lxor_nonneg; lia). split; [done|].
  destruct (decide (Z.lxor a b = 0)); [lia|].
  apply Z.log2_lt_pow2; [lia|]. pose proof (Z.log2_lxor a b). lia.
Qed.

Lemma crc32_range poly l : in_u 32 poly → in_u 32 (crc32 poly l).
Proof.
  intros Hp.
  assert (Hbit : ∀ c, in_u 32 c → in_u 32 (crc_bit poly c)).
  { intros c Hc. unfold crc_bit.
    assert (in_u 32 (Z.shiftr c 1)).
    { unfold in_u in *. rewrite Z.shiftr_div_pow2 by lia. div_lia. }
    case_match; [|done]. by apply lxor_range. }
  unfold crc32. apply lxor_range; [done| |by vm_compute].
  assert (in_u 32 (2 ^ 32 - 1)) as H0 by by vm_compute.
  revert H0. generalize (2 ^ 32 - 1) as c. induction l as [|b l IH]; intros c Hc; [done|].
  apply IH. unfold crc_byte. simpl. do 8 apply Hbit. apply lxor_range; [done..|].
  pose proof (Z_of_byte_range b). unfold in_u. lia.
Qed.

#[export] Hint Resolve FormatUint_plain hex_encode_plain b64_encode_plain crc32_range : esync.
