(* ===== verification/Codec.v ===== *)
(** * Codec: the big-endian writer and the latching reader (src/internal/wire/codec.go)

    [writer] functions are the bytes one Go call appends to [w.b].  [reader] is
    the Go struct and [rd] the state monad of its methods: once [rerr] is set
    every read is a no-op that returns a zero value.  Two compositional laws
    carry all codec proofs: [reads m e v] (on input starting with [e], [m]
    returns [v] and consumes exactly [e]) and [parses m Q] (whatever [m] returns
    without latching an error is related by [Q] to the bytes it consumed, and
    it never moves past the end of the buffer). *)
From S2P Require Import Prelude.

Module writer.
Definition u8 (v : Z) : bytes := be 1 v.
Definition u16 (v : Z) : bytes := be 2 v.
Definition u32 (v : Z) : bytes := be 4 v.
Definition u64 (v : Z) : bytes := be 8 v.
(** [uint64(v)] of an int64. *)
Definition i64 (v : Z) : bytes := u64 (wrap_u 64 v).
(** The length is converted by [uint16(len(s))], which wraps. *)
Definition str (s : bytes) : bytes := u16 (wrap_u 16 (Z.of_nat (length s))) ++ s.
Definition blob (p : bytes) : bytes := u16 (wrap_u 16 (Z.of_nat (length p))) ++ p.
Definition raw (p : bytes) : bytes := p.
End writer.

Record reader := mkReader { rb : bytes; ri : nat; rerr : bool }.
Definition rd (A : Type) : Type := reader → A * reader.
#[global] Instance rd_ret : MRet rd := λ A a r, (a, r).
#[global] Instance rd_bind : MBind rd := λ A B k m r, let '(a, r') := m r in k a r'.

Definition err : rd bool := λ r, (rerr r, r).
Definition fail : rd unit := λ r, ((), mkReader (rb r) (ri r) true).
Definition need (n : Z) : rd bool := λ r,
  if rerr r then (false, r)
  else if (n <? 0) || (Z.of_nat (length (rb r)) <? Z.of_nat (ri r) + n)
  then (false, (fail r).2)
  else (true, r).
(** [r.b[r.i : r.i+n]], and [r.i += n]. *)
Definition peek (n : nat) : rd bytes := λ r, (take n (drop (ri r) (rb r)), r).
Definition skip (n : nat) : rd unit := λ r, ((), mkReader (rb r) (ri r + n) (rerr r)).

Definition uN (n : nat) : rd Z :=
  b ← need (Z.of_nat n);
  if b : bool then v ← peek n; _ ← skip n; mret (unbe v) else mret 0.

Definition remaining : rd Z := λ r,
  (if rerr r then 0 else Z.of_nat (length (rb r)) - Z.of_nat (ri r), r).

(** [if n > max || !r.need(n) { r.fail(); return nil }] and the slice read. *)
Definition bounded (n max : Z) : rd bytes :=
  b ← (if max <? n then mret false else need n);
  if b : bool then s ← peek (Z.to_nat n); _ ← skip (Z.to_nat n); mret s
  else _ ← fail; mret [].

Module reader.
Definition u8 : rd Z := uN 1.
Definition u16 : rd Z := uN 2.
Definition u32 : rd Z := uN 4.
Definition u64 : rd Z := uN 8.
Definition i64 : rd Z := v ← u64; mret (wrap_i 64 v).
Definition str (max : Z) : rd bytes :=
  n ← u16; e ← err; if e : bool then mret [] else bounded n max.
Definition blob (max : Z) : rd bytes :=
  n ← u16; e ← err; if e : bool then mret [] else bounded n max.
Definition raw (n max : Z) : rd bytes :=
  e ← err; if e : bool then mret [] else
  if n <? 0 then _ ← fail; mret [] else bounded n max.
End reader.

(** [for k := 0; k < n && r.err == nil; k++ { x = append(x, d(r)) }]. *)
Fixpoint loop {A} (n : nat) (d : rd A) (acc : list A) : rd (list A) :=
  match n with
  | O => mret acc
  | S k => e ← err; if e : bool then mret acc else v ← d; loop k d (acc ++ [v])
  end.

(** A u16 count checked against [max] before the loop that reads the elements,
    the shape of the three list fields of the protocol. *)
Definition counted {A} (max : Z) (d : rd A) : rd (list A) :=
  n ← reader.u16;
  e ← err;
  _ ← (if negb e && (max <? n) then fail else mret ());
  e ← err;
  if negb e && (0 <? n) then loop (Z.to_nat n) d [] else mret [].

(** ** Laws *)
Definition wf (r : reader) : Prop := (ri r <= length (rb r))%nat.
Definition ok (r : reader) : Prop := rerr r = false ∧ wf r.
Definition rest (r : reader) : bytes := drop (ri r) (rb r).
Definition adv (r : reader) (n : nat) : reader := mkReader (rb r) (ri r + n) (rerr r).

Definition reads {A} (m : rd A) (enc : bytes) (v : A) : Prop :=
  ∀ r tail, ok r → rest r = enc ++ tail → m r = (v, adv r (length enc)).

Definition parses {A} (m : rd A) (Q : A → bytes → Prop) : Prop :=
  ∀ r v r', wf r → m r = (v, r') →
    rb r' = rb r ∧ (ri r <= ri r')%nat ∧ wf r' ∧
    (rerr r = true → rerr r' = true) ∧
    (rerr r' = false → ∃ c, rest r = c ++ rest r' ∧ ri r' = (ri r + length c)%nat ∧ Q v c).

Lemma rest_adv r enc tail : rest r = enc ++ tail → rest (adv r (length enc)) = tail.
Proof. intros H. by apply drop_app_split in H as [_ ?]. Qed.

Lemma ok_adv r enc tail : ok r → rest r = enc ++ tail → ok (adv r (length enc)).
Proof.
  intros [He Hw] H. split; [done|]. unfold wf in *; simpl.
  pose proof (drop_prefix_length _ _ _ _ Hw H). lia.
Qed.

Lemma adv_adv r n m : adv (adv r n) m = adv r (n + m).
Proof. unfold adv; simpl. f_equal. lia. Qed.

Lemma adv_0 r : adv r 0 = r.
Proof. destruct r. unfold adv; simpl. f_equal. lia. Qed.

Section laws.
Context {A B : Type}.

Lemma reads_ret (a : A) : reads (mret a) [] a.
Proof. intros r tail Hok Hr. unfold mret, rd_ret. by rewrite adv_0. Qed.

Lemma reads_bind (m : rd A) (k : A → rd B) e1 e2 v w :
  reads m e1 v → reads (k v) e2 w → reads (m ≫= k) (e1 ++ e2) w.
Proof.
  intros Hm Hk r tail Hok Hr. rewrite <- app_assoc in Hr.
  unfold mbind, rd_bind. rewrite (Hm r (e2 ++ tail)) by done.
  rewrite (Hk _ tail); [|by eapply ok_adv|by eapply rest_adv].
  by rewrite adv_adv, length_app.
Qed.

Lemma reads_err (k : bool → rd A) e v : reads (k false) e v → reads (err ≫= k) e v.
Proof.
  intros Hk r tail Hok Hr. unfold mbind, rd_bind, err.
  destruct Hok as [He Hw]. rewrite He. by eapply Hk.
Qed.

Lemma parses_ret (a : A) : parses (mret a) (λ v c, v = a ∧ c = []).
Proof.
  intros r v r' Hw [= <- <-]. split_and!; try done.
  intros He. exists []. split_and!; simpl; auto with lia.
Qed.

Lemma parses_bind (m : rd A) (k : A → rd B) Q R :
  parses m Q → (∀ v, parses (k v) (λ w c', ∀ c, Q v c → R w (c ++ c'))) → parses (m ≫= k) R.
Proof.
  intros Hm Hk r w r'' Hw E. unfold mbind, rd_bind in E.
  destruct (m r) as [v r'] eqn:Em.
  destruct (Hm _ _ _ Hw Em) as (Hb & Hi & Hw' & Hl & Hs).
  destruct (Hk v _ _ _ Hw' E) as (Hb' & Hi' & Hw'' & Hl' & Hs').
  split_and!; [congruence|lia|done|auto|].
  intros He. destruct (Hs' He) as (c' & Hr' & Hn' & HR).
  assert (rerr r' = false) as He' by (destruct (rerr r'); naive_solver congruence).
  destruct (Hs He') as (c & Hr & Hn & HQ).
  exists (c ++ c'). rewrite Hr, Hr', app_assoc, Hn', Hn, length_app.
  split_and!; [done|lia|auto].
Qed.

Lemma parses_weaken (m : rd A) (Q R : A → bytes → Prop) :
  parses m Q → (∀ v c, Q v c → R v c) → parses m R.
Proof.
  intros Hm HQR r v r' Hw E. destruct (Hm _ _ _ Hw E) as (? & ? & ? & ? & Hs).
  split_and!; [done..|]. intros He. destruct (Hs He) as (c & ? & ? & ?). eauto.
Qed.

(** Reading [r.err] and branching: the error branch cannot succeed. *)
Lemma parses_err (k : bool → rd A) R :
  (∀ e, parses (k e) (λ w c, e = false → R w c)) → parses (err ≫= k) R.
Proof.
  intros Hk r w r' Hw E. unfold mbind, rd_bind, err in E.
  destruct (Hk _ _ _ _ Hw E) as (? & ? & ? & Hl & Hs).
  split_and!; [done..|]. intros He. destruct (Hs He) as (c & ? & ? & HR).
  exists c. split_and!; [done..|]. apply HR. destruct (rerr r); naive_solver congruence.
Qed.

Lemma parses_fail' (Q : () → bytes → Prop) : parses fail Q.
Proof. intros r v r' Hw [= <- <-]. split_and!; simpl; try done. Qed.

Lemma parses_fail (a : A) (Q : A → bytes → Prop) : parses (_ ← fail; mret a) Q.
Proof.
  intros r v r' Hw [= <- <-]. split_and!; simpl; try done.
Qed.
End laws.

(** ** The primitive readers *)
Lemma need_ok n r : ok r → 0 <= n → Z.of_nat (ri r) + n <= Z.of_nat (length (rb r)) →
  need n r = (true, r).
Proof.
  intros [He Hw] Hn Hl. unfold need. rewrite He.
  rewrite (proj2 (Z.ltb_ge n 0)), (proj2 (Z.ltb_ge _ _)) by lia. done.
Qed.

Lemma need_inv n r b r' : wf r → need n r = (b, r') →
  rb r' = rb r ∧ ri r' = ri r ∧ (rerr r = true → rerr r' = true) ∧
  (b = true → r' = r ∧ rerr r = false ∧ 0 <= n ∧ Z.of_nat (ri r) + n <= Z.of_nat (length (rb r))) ∧
  (b = false → rerr r' = true).
Proof.
  intros Hw. unfold need. destruct (rerr r) eqn:He.
  { intros [= <- <-]. naive_solver. }
  case_match eqn:E; intros [= <- <-]; simpl.
  { naive_solver. }
  bool_to_prop. naive_solver.
Qed.

Lemma rest_length r enc tail : ok r → rest r = enc ++ tail →
  (ri r + length enc + length tail = length (rb r))%nat.
Proof. intros [_ Hw]. by apply drop_prefix_length. Qed.

Lemma take_rest r enc tail : rest r = enc ++ tail → take (length enc) (drop (ri r) (rb r)) = enc.
Proof. intros H. by apply drop_app_split in H as [? _]. Qed.

(** The shared step of every reader: [need n], then [n] bytes are taken. *)
Lemma reads_slice {B} (k : bytes → rd B) (n : Z) (n' : nat) f s w :
  n' = Z.to_nat n → n = Z.of_nat (length s) → reads (k s) [] w →
  reads (b ← need n; if b : bool then v ← peek n'; _ ← skip n'; k v else f) s w.
Proof.
  intros -> -> Hk r tail Hok Hr. pose proof (rest_length _ _ _ Hok Hr).
  unfold mbind, rd_bind. rewrite need_ok by (done || lia).
  unfold peek. rewrite Nat2Z.id, (take_rest _ _ _ Hr). unfold skip.
  fold (adv r (length s)). rewrite (Hk _ tail); [|by eapply ok_adv|by eapply rest_adv].
  by rewrite adv_adv, Nat.add_0_r.
Qed.

Lemma parses_slice {B} (k : bytes → rd B) (n : Z) (n' : nat) f Q :
  n' = Z.to_nat n →
  (∀ s, parses (k s) (λ w c, c = [] ∧ (Z.of_nat (length s) = n → Q w s))) →
  parses f (λ _ _, True) →
  parses (b ← need n; if b : bool then v ← peek n'; _ ← skip n'; k v else f) Q.
Proof.
  intros -> Hk Hf r w r'' Hw E. unfold mbind, rd_bind in E.
  destruct (need n r) as [b r'] eqn:En.
  destruct (need_inv _ _ _ _ Hw En) as (Hb & Hi & Hl & Ht & _). destruct b.
  - destruct (Ht eq_refl) as (-> & He & Hn & Hlen). unfold peek, skip in E.
    assert (Hwa : wf (adv r (Z.to_nat n))) by (unfold wf in *; simpl; lia).
    destruct (Hk _ _ _ _ Hwa E) as (Hb' & Hi' & Hw' & Hl' & Hs); simpl in *.
    split_and!; [done|lia|done|naive_solver|]. intros He'.
    destruct (Hs He') as (c & Hr & Hc & -> & HQ). simpl in *.
    assert (Hlt : length (take (Z.to_nat n) (drop (ri r) (rb r))) = Z.to_nat n).
    { rewrite length_take, length_drop. unfold wf in Hw. lia. }
    exists (take (Z.to_nat n) (drop (ri r) (rb r))). split_and!.
    + unfold rest in *; simpl in *. by rewrite <- Hr, <- drop_drop, take_drop.
    + lia.
    + apply HQ. rewrite Hlt. lia.
  - assert (wf r') as Hw' by (unfold wf in *; rewrite Hb, Hi; done).
    destruct (Hf _ _ _ Hw' E) as (? & ? & ? & ? & Hs).
    split_and!; [congruence|lia|done|auto|]. intros He.
    destruct (need_inv _ _ _ _ Hw En) as (_ & _ & _ & _ & Hfalse). specialize (Hfalse eq_refl).
    naive_solver congruence.
Qed.

Lemma reads_uN n z : in_u (8 * Z.of_nat n) z → reads (uN n) (be n z) z.
Proof.
  intros Hz. unfold uN.
  eapply (reads_slice (λ v, mret (unbe v))); [by rewrite Nat2Z.id|by rewrite length_be|].
  rewrite unbe_be_id by done. apply reads_ret.
Qed.

Lemma parses_uN n : parses (uN n) (λ v c, in_u (8 * Z.of_nat n) v ∧ c = be n v).
Proof.
  unfold uN. apply (parses_slice (λ v, mret (unbe v))); [by rewrite Nat2Z.id|..].
  - intros s. eapply parses_weaken; [apply parses_ret|]. intros v c [-> ->]. split; [done|].
    intros Hl. apply Nat2Z.inj in Hl. split; [by apply unbe_in_u|]. by rewrite <- Hl, be_unbe.
  - eapply parses_weaken; [apply parses_ret|done].
Qed.

Lemma reads_bounded n max s :
  n = Z.of_nat (length s) → n <= max → reads (bounded n max) s s.
Proof.
  intros -> Hm. unfold bounded. rewrite (proj2 (Z.ltb_ge _ _)) by done.
  eapply (reads_slice (λ v, mret v)); [done|done|apply reads_ret].
Qed.

Lemma parses_bounded n max :
  parses (bounded n max) (λ s c, c = s ∧ Z.of_nat (length s) = n ∧ n <= max).
Proof.
  unfold bounded. destruct (Z.ltb_spec max n).
  - intros r v r' Hw E. cbv in E. injection E as <- <-. split_and!; simpl; try done.
  - apply (parses_slice (λ v, mret v)); [done|..].
    + intros s. eapply parses_weaken; [apply parses_ret|]. by intros v c [-> ->].
    + apply parses_fail.
Qed.

(** ** The field readers of the protocol *)
Lemma reads_i64 z : in_i 64 z → reads reader.i64 (writer.i64 z) z.
Proof.
  intros Hz. unfold reader.i64, writer.i64, writer.u64. rewrite <- (app_nil_r (be 8 _)).
  eapply reads_bind; [apply reads_uN, wrap_u_range; lia|].
  rewrite wrap_i_u by (done || lia). apply reads_ret.
Qed.

Lemma parses_i64 : parses reader.i64 (λ v c, in_i 64 v ∧ c = writer.i64 v).
Proof.
  unfold reader.i64. eapply parses_bind; [apply parses_uN|]. intros v.
  eapply parses_weaken; [apply parses_ret|]. intros w c' [-> ->] c [Hv ->].
  rewrite app_nil_r. split; [apply wrap_i_range; lia|].
  unfold writer.i64. by rewrite wrap_u_i by (done || lia).
Qed.

Lemma reads_str max s :
  Z.of_nat (length s) <= max → max <= 65535 → reads (reader.str max) (writer.str s) s.
Proof.
  intros Hs Hm. unfold reader.str, writer.str, writer.u16.
  rewrite wrap_u_id by (unfold in_u; lia).
  eapply reads_bind; [apply reads_uN; unfold in_u; lia|].
  apply reads_err, reads_bounded; done.
Qed.

Lemma parses_str max :
  parses (reader.str max) (λ s c, Z.of_nat (length s) <= Z.min max 65535 ∧ c = writer.str s).
Proof.
  unfold reader.str. eapply parses_bind; [apply parses_uN|]. intros n.
  apply parses_err. intros []; [eapply parses_weaken; [apply parses_ret|done]|].
  eapply parses_weaken; [apply parses_bounded|].
  intros s c' (-> & Hl & Hm) _ c [Hn ->]. unfold writer.str, writer.u16.
  rewrite wrap_u_id by (rewrite Hl; done). unfold in_u in Hn. split; [lia|]. by rewrite Hl.
Qed.

Lemma reads_blob max s :
  Z.of_nat (length s) <= max → max <= 65535 → reads (reader.blob max) (writer.blob s) s.
Proof. apply reads_str. Qed.
Lemma parses_blob max :
  parses (reader.blob max) (λ s c, Z.of_nat (length s) <= Z.min max 65535 ∧ c = writer.blob s).
Proof. apply parses_str. Qed.

Lemma reads_raw n max s :
  n = Z.of_nat (length s) → n <= max → reads (reader.raw n max) s s.
Proof.
  intros -> Hm. unfold reader.raw. apply reads_err.
  rewrite (proj2 (Z.ltb_ge _ 0)) by lia. by apply reads_bounded.
Qed.

Lemma parses_raw n max :
  parses (reader.raw n max) (λ s c, c = s ∧ Z.of_nat (length s) = n ∧ n <= max).
Proof.
  unfold reader.raw. apply parses_err. intros [].
  - eapply parses_weaken; [apply parses_ret|done].
  - destruct (n <? 0).
    + apply parses_fail.
    + eapply parses_weaken; [apply parses_bounded|]. done.
Qed.

(** ** Counted lists *)
Lemma reads_loop {A} (d : rd A) (enc : A → bytes) vs acc :
  Forall (λ v, reads d (enc v) v) vs →
  reads (loop (length vs) d acc) (mjoin (enc <$> vs)) (acc ++ vs).
Proof.
  intros H. revert acc. induction H as [|v vs Hv Hvs IH]; intros acc; simpl.
  { rewrite app_nil_r. apply reads_ret. }
  apply reads_err. eapply reads_bind; [done|].
  replace (acc ++ v :: vs) with ((acc ++ [v]) ++ vs) by by rewrite <- app_assoc. apply IH.
Qed.

Lemma parses_loop {A} (d : rd A) (P : A → Prop) (enc : A → bytes) n acc :
  parses d (λ v c, P v ∧ c = enc v) →
  parses (loop n d acc)
    (λ ws c, ∃ vs, ws = acc ++ vs ∧ length vs = n ∧ Forall P vs ∧ c = mjoin (enc <$> vs)).
Proof.
  intros Hd. revert acc. induction n as [|n IH]; intros acc; simpl.
  { eapply parses_weaken; [apply parses_ret|]. intros v c [-> ->].
    exists []. by rewrite app_nil_r. }
  apply parses_err. intros []; [eapply parses_weaken; [apply parses_ret|done]|].
  eapply parses_bind; [apply Hd|]. intros v. eapply parses_weaken; [apply IH|].
  intros ws c' (vs & -> & <- & Hvs & ->) c [Hv ->] _.
  exists (v :: vs). rewrite <- app_assoc. split_and!; try done. by constructor.
Qed.

Definition enc_list {A} (enc : A → bytes) (vs : list A) : bytes :=
  writer.u16 (wrap_u 16 (Z.of_nat (length vs))) ++ mjoin (enc <$> vs).

Lemma reads_counted {A} (d : rd A) (enc : A → bytes) max vs :
  Forall (λ v, reads d (enc v) v) vs → Z.of_nat (length vs) <= max → max <= 65535 →
  reads (counted max d) (enc_list enc vs) vs.
Proof.
  intros Hvs Hl Hm. unfold counted, enc_list, writer.u16.
  rewrite wrap_u_id by (unfold in_u; lia).
  eapply reads_bind; [apply reads_uN; unfold in_u; lia|].
  apply reads_err. cbn [negb andb]. rewrite (proj2 (Z.ltb_ge max _)) by done.
  rewrite <- (app_nil_l (mjoin _)). eapply reads_bind; [apply reads_ret|].
  apply reads_err. cbn [negb andb]. rewrite Nat2Z.id.
  destruct vs as [|v vs]; [apply reads_ret|]. rewrite (proj2 (Z.ltb_lt _ _)) by (simpl; lia).
  by apply reads_loop.
Qed.

Lemma parses_counted {A} (d : rd A) (P : A → Prop) (enc : A → bytes) max :
  parses d (λ v c, P v ∧ c = enc v) → 0 <= max →
  parses (counted max d)
    (λ vs c, Z.of_nat (length vs) <= Z.min max 65535 ∧ Forall P vs ∧ c = enc_list enc vs).
Proof.
  intros Hd Hmax. unfold counted. eapply parses_bind; [apply parses_uN|]. intros n.
  apply parses_err. intros e.
  eapply parses_bind with (Q := λ _ c, c = [] ∧ (e = false → n <= max)).
  { destruct (negb e && (max <? n)) eqn:E; [apply parses_fail'|].
    eapply parses_weaken; [apply parses_ret|]. intros v c [_ ->]. split; [done|].
    intros ->. cbn in E. bool_to_prop. done. }
  intros _. apply parses_err. intros []; cbn [negb andb].
  { eapply parses_weaken; [apply parses_ret|done]. }
  destruct (Z.ltb_spec 0 n).
  - eapply parses_weaken; [by apply parses_loop|].
    intros ws c (vs & -> & Hl & Hvs & ->) _ c1 [-> Hle] He c2 [Hn ->].
    specialize (Hle He). unfold in_u in Hn. cbn [app]. split_and!; [lia|done|].
    unfold enc_list, writer.u16. rewrite wrap_u_id by (unfold in_u; lia).
    f_equal. unfold writer.u16. f_equal. lia.
  - eapply parses_weaken; [apply parses_ret|].
    intros ws c [-> ->] _ c1 [-> Hle] He c2 [Hn ->]. unfold in_u in Hn.
    assert (n = 0) as -> by lia. split_and!; [simpl; lia|constructor|].
    by rewrite app_nil_r.
Qed.

#[export] Hint Resolve reads_ret reads_uN reads_i64 reads_str reads_blob reads_raw : esync.
