(* ===== verification/Record.v ===== *)
(** * Record: the encrypt-then-MAC record layer (src/internal/crypto/record)

    [Writer]/[Reader] with their sequence counters, header checks, padding and
    error codes.  AES-256-CBC and HMAC-SHA-256 are the interface
    [RecordCrypto]; the laws the layer relies on are [RecordCryptoLaws].  The
    transport is a byte stream that ends with an error ([io.EOF] or another). *)
From S2P Require Import Prelude Fault.

(** ** Constants *)
Definition version : Z := 1.
Definition headerLen : nat := 14.
Definition ivLen : nat := 16.
Definition macLen : nat := 32.
Definition prefixLen : nat := headerLen + ivLen.
Definition blockSize : Z := 16.
Definition MaxCTData : Z := 2 ^ 20 + blockSize.
Definition MaxCTControl : Z := 2 ^ 19 + blockSize.
Definition PadBlockSize : Z := blockSize.

Definition maxCT (channelID : Z) : Z :=
  if channelID =? 0 then MaxCTControl else MaxCTData.

(** ** Padding (PKCS#7) *)
Definition pkcs7Pad (b : bytes) : bytes :=
  let pad := blockSize - Z.of_nat (length b) mod blockSize in
  b ++ replicate (Z.to_nat pad) (byte_of_Z pad).

Definition pkcs7Unpad (b : bytes) : result gerr bytes :=
  let n := Z.of_nat (length b) in
  if (n =? 0) || negb (n mod blockSize =? 0) then Err (fault E5004 "unpad record" [] None)
  else
    let pad := Z_of_byte (default Byte.x00 (last b)) in
    if (pad =? 0) || (blockSize <? pad) || (n <? pad)
    then Err (fault E5004 "unpad record" [] None)
    else
      let tail := drop (Z.to_nat (n - pad)) b in
      if forallb (λ c, Z_of_byte c =? pad) tail
      then Ok (take (Z.to_nat (n - pad)) b)
      else Err (fault E5004 "unpad record" [] None).

(** ** The cryptographic interface *)
Class RecordCrypto := {
  cbcEncrypt : bytes → bytes → bytes → bytes;
  cbcDecrypt : bytes → bytes → bytes → bytes;
  hmacSHA256 : bytes → bytes → bytes;
}.

(** Documented behaviour: CBC decryption inverts encryption on whole blocks and
    keeps the length; an HMAC-SHA-256 tag is 32 bytes. *)
Class RecordCryptoLaws `{RecordCrypto} : Prop := {
  cbc_length k iv p : length (cbcEncrypt k iv p) = length p;
  cbc_inverse k iv p :
    Z.of_nat (length p) mod blockSize = 0 → cbcDecrypt k iv (cbcEncrypt k iv p) = p;
  hmac_length k m : length (hmacSHA256 k m) = 32%nat;
}.

(** [aes.NewCipher] accepts exactly the AES key sizes. *)
Definition aesKeyOk (k : bytes) : bool :=
  bool_decide (length k = 16%nat ∨ length k = 24%nat ∨ length k = 32%nat).

(** ** Streams *)
Record stream := mkStream { sdata : bytes; sfinal : stdErr }.

(** [io.ReadFull(r, buf)] for a buffer of [n > 0] bytes. *)
Definition readFull (n : nat) (s : stream) : result stdErr bytes * stream :=
  if bool_decide (n <= length (sdata s))%nat
  then (Ok (take n (sdata s)), mkStream (drop n (sdata s)) (sfinal s))
  else
    let e := match sfinal s with
             | StdEOF => if bool_decide (sdata s = []) then StdEOF else StdUnexpectedEOF
             | e => e
             end in
    (Err e, mkStream [] (sfinal s)).

Definition isEOFish (e : stdErr) : bool := bool_decide (e = StdEOF ∨ e = StdUnexpectedEOF).

Definition readErr (op : string) (e : stdErr) : gerr :=
  if isEOFish e then fault E4005 op [] None else EFault (Wrap E3003 op [] (EStd e)).

(** [h[i:j]]. *)
Definition slice (i j : nat) (l : bytes) : bytes := take (j - i) (drop i l).

Section record.
Context `{RecordCrypto}.

(** ** Writer *)
Record Writer := mkWriter {
  w_kEnc : bytes; w_kMac : bytes; w_chID : Z; w_maxCT : Z;
  w_seq : Z; w_closed : bool;
}.
Definition NewWriter (kEnc kMac : bytes) (channelID : Z) : Writer :=
  mkWriter kEnc kMac channelID (maxCT channelID) 0 false.

(** The environment of one write: the CSPRNG draw and the transport's answer. *)
Record wenv := mkWenv { e_iv : result gerr bytes; e_write : option gerr }.

(** Everything the MAC covers: header, IV and ciphertext. *)
Definition recordPrefix (ch seq : Z) (iv ct : bytes) : bytes :=
  be 1 version ++ be 1 ch ++ be 8 seq ++ be 4 (Z.of_nat (length ct)) ++ iv ++ ct.

(** The error (nil: [None]), the bytes put on the transport by a successful
    write, and the writer's new state. *)
Definition writeRecord (env : wenv) (w : Writer) (plaintext : bytes) (isClose : bool) :
    option gerr * bytes * Writer :=
  if w_closed w then
    (if isClose then None else Some (fault E9004 "write record" [] None), [], w)
  else if w_seq w =? 2 ^ 64 - 1 then (Some (fault E4006 "write record" [] None), [], w)
  else
    let padded := pkcs7Pad plaintext in
    let ctLen := Z.of_nat (length padded) in
    if w_maxCT w <? ctLen then (Some (fault E5003 "write record" [] None), [], w)
    else
      match e_iv env with
      | Err e => (Some (EFault (Wrap E4007 "draw record iv" [] e)), [], w)
      | Ok iv =>
          if aesKeyOk (w_kEnc w) then
            let ct := cbcEncrypt (w_kEnc w) iv padded in
            let prefix := recordPrefix (w_chID w) (w_seq w) iv ct in
            let buf := prefix ++ hmacSHA256 (w_kMac w) prefix in
            match e_write env with
            | Some e => (Some (EFault (Wrap E3003 "write record" [] e)), [], w)
            | None =>
                (None, buf, mkWriter (w_kEnc w) (w_kMac w) (w_chID w) (w_maxCT w)
                              (wrap_u 64 (w_seq w + 1)) isClose)
            end
          else (Some (EFault (Wrap E4007 "init record cipher" []
                                (EStd (StdOther "crypto/aes: invalid key size")))), [], w)
      end.

Definition WriteFrame (env : wenv) (w : Writer) (plaintext : bytes) :
    option gerr * bytes * Writer :=
  if bool_decide (plaintext = []) then (Some (fault E9004 "write record frame" [] None), [], w)
  else writeRecord env w plaintext false.

Definition Close (env : wenv) (w : Writer) : option gerr * bytes * Writer :=
  writeRecord env w [] true.

(** ** Reader *)
Record Reader := mkRdr {
  r_kEnc : bytes; r_kMac : bytes; r_chID : Z; r_maxCT : Z;
  r_seq : Z; r_done : bool;
}.
Definition NewReader (kEnc kMac : bytes) (channelID : Z) : Reader :=
  mkRdr kEnc kMac channelID (maxCT channelID) 0 false.

(** The second half of [ReadFrame]: the body of a record whose header [h] and
    declared length [n] have been validated. *)
Definition readBody (r : Reader) (h : bytes) (n : nat) (s1 : stream) :
    result gerr bytes * Reader * stream :=
  match readFull (ivLen + n + macLen) s1 with
  | (Err e, s2) => (Err (readErr "read record body" e), r, s2)
  | (Ok body, s2) =>
      let iv := take ivLen body in
      let ct := slice ivLen (ivLen + n) body in
      let gotMAC := drop (ivLen + n) body in
      if negb (bool_decide (hmacSHA256 (r_kMac r) (h ++ iv ++ ct) = gotMAC))
      then (Err (fault E4003 "verify record mac" [] None), r, s2)
      else if negb (unbe (slice 2 10 h) =? r_seq r)
      then (Err (fault E4004 "verify record sequence" [] None), r, s2)
      else if negb (aesKeyOk (r_kEnc r))
      then (Err (EFault (Wrap E4007 "init record cipher" []
                   (EStd (StdOther "crypto/aes: invalid key size")))), r, s2)
      else
        match pkcs7Unpad (cbcDecrypt (r_kEnc r) iv ct) with
        | Err e => (Err e, r, s2)
        | Ok frame =>
            let r' done := mkRdr (r_kEnc r) (r_kMac r) (r_chID r) (r_maxCT r)
                             (wrap_u 64 (r_seq r + 1)) done in
            if bool_decide (frame = [])
            then (Err (EStd StdEOF), r' true, s2)
            else (Ok frame, r' false, s2)
        end
  end.

Definition ReadFrame (r : Reader) (s : stream) : result gerr bytes * Reader * stream :=
  if r_done r then (Err (EStd StdEOF), r, s) else
  match readFull headerLen s with
  | (Err e, s1) => (Err (readErr "read record header" e), r, s1)
  | (Ok h, s1) =>
      if negb (unbe (slice 0 1 h) =? version) then (Err (fault E5002 "read record" [] None), r, s1)
      else if negb (unbe (slice 1 2 h) =? r_chID r)
      then (Err (fault E4003 "read record" [] None), r, s1)
      else
        let ctLen := unbe (slice 10 14 h) in
        if (ctLen <? blockSize) || (r_maxCT r <? ctLen) || negb (ctLen mod blockSize =? 0)
        then (Err (fault E5003 "read record" [] None), r, s1)
        else readBody r h (Z.to_nat ctLen) s1
  end.

(** ** Whole streams: write frames then close; read until an error *)
Fixpoint WriteAll (w : Writer) (fs : list (bytes * bytes)) : option gerr * bytes * Writer :=
  match fs with
  | [] => (None, [], w)
  | (iv, f) :: fs' =>
      match WriteFrame (mkWenv (Ok iv) None) w f with
      | (Some e, out, w') => (Some e, out, w')
      | (None, out, w') =>
          let '(e, out', w'') := WriteAll w' fs' in (e, out ++ out', w'')
      end
  end.

Fixpoint ReadAll (fuel : nat) (r : Reader) (s : stream) : list bytes * option gerr :=
  match fuel with
  | O => ([], None)
  | S fuel =>
      match ReadFrame r s with
      | (Ok f, r', s') => let '(fs, e) := ReadAll fuel r' s' in (f :: fs, e)
      | (Err e, _, _) => ([], Some e)
      end
  end.
End record.

#[global] Arguments ReadFrame : simpl never.
#[global] Arguments writeRecord : simpl never.

(** ** Lemmas: padding *)
Lemma pad_range (b : bytes) :
  1 <= blockSize - Z.of_nat (length b) mod blockSize <= blockSize.
Proof. unfold blockSize. pose proof (Z.mod_pos_bound (Z.of_nat (length b)) 16). lia. Qed.

Lemma length_pkcs7Pad b :
  Z.of_nat (length (pkcs7Pad b)) =
  Z.of_nat (length b) + (blockSize - Z.of_nat (length b) mod blockSize).
Proof.
  unfold pkcs7Pad. rewrite length_app, length_replicate. pose proof (pad_range b). lia.
Qed.

Lemma pkcs7Pad_blocks b : Z.of_nat (length (pkcs7Pad b)) mod blockSize = 0.
Proof.
  rewrite length_pkcs7Pad. unfold blockSize.
  pose proof (Z.div_mod (Z.of_nat (length b)) 16 ltac:(lia)) as E.
  replace (Z.of_nat (length b) + _) with ((Z.of_nat (length b) / 16 + 1) * 16) by lia.
  apply Z.mod_mul. lia.
Qed.

(** The padded form fits a ceiling of whole blocks iff the plaintext is shorter. *)
Lemma pkcs7Pad_le (b : bytes) m :
  m mod blockSize = 0 → Z.of_nat (length (pkcs7Pad b)) <= m ↔ Z.of_nat (length b) < m.
Proof.
  intros Hm. rewrite length_pkcs7Pad. unfold blockSize in *.
  pose proof (Z.div_mod (Z.of_nat (length b)) 16). pose proof (Z.div_mod m 16).
  pose proof (Z.mod_pos_bound (Z.of_nat (length b)) 16). lia.
Qed.

Lemma pkcs7_roundtrip b : pkcs7Unpad (pkcs7Pad b) = Ok b.
Proof.
  unfold pkcs7Unpad. rewrite pkcs7Pad_blocks, Z.eqb_refl; cbn [negb].
  pose proof (pad_range b) as Hp. pose proof (length_pkcs7Pad b) as Hl.
  set (pad := blockSize - Z.of_nat (length b) mod blockSize) in *.
  rewrite (proj2 (Z.eqb_neq _ 0)) by lia. cbn [orb].
  assert (Hlast : Z_of_byte (default Byte.x00 (last (pkcs7Pad b))) = pad).
  { unfold pkcs7Pad. fold pad. rewrite last_app.
    replace (Z.to_nat pad) with (S (Z.to_nat (pad - 1))) by lia.
    rewrite replicate_S_end, last_snoc; simpl. rewrite Z_of_byte_of_Z.
    apply Z.mod_small. unfold blockSize in *. lia. }
  rewrite Hlast, (proj2 (Z.eqb_neq pad 0)), (proj2 (Z.ltb_ge blockSize pad)),
    (proj2 (Z.ltb_ge _ pad)) by lia. cbn [orb].
  replace (Z.to_nat (Z.of_nat (length (pkcs7Pad b)) - pad)) with (length b) by lia.
  unfold pkcs7Pad. fold pad. rewrite drop_app_length, take_app_length.
  assert (forallb (λ c, Z_of_byte c =? pad) (replicate (Z.to_nat pad) (byte_of_Z pad)) = true) as ->; [|done].
  apply Is_true_eq_true, forallb_True, Forall_replicate.
  rewrite Z_of_byte_of_Z, Z.mod_small by (unfold blockSize in *; lia). by rewrite Z.eqb_refl.
Qed.

Lemma slice_app (a b c : bytes) i j :
  i = length a → j = (length a + length b)%nat → slice i j (a ++ b ++ c) = b.
Proof.
  intros -> ->. unfold slice. rewrite drop_app_length, Nat.add_comm, Nat.add_sub.
  by rewrite take_app_length.
Qed.

Lemma readFull_app a b n fin :
  length a = n → readFull n (mkStream (a ++ b) fin) = (Ok a, mkStream b fin).
Proof.
  intros <-. unfold readFull; simpl. rewrite bool_decide_true by (rewrite length_app; lia).
  by rewrite take_app_length, drop_app_length.
Qed.

Lemma readFull_short n s :
  (length (sdata s) < n)%nat → sfinal s = StdEOF →
  ∃ e, readFull n s = (Err e, mkStream [] StdEOF) ∧ isEOFish e = true.
Proof.
  intros Hl Hf. unfold readFull. rewrite bool_decide_false, Hf by lia.
  case_bool_decide; eexists; (split; [done|]); by vm_compute.
Qed.

(** ** Lemmas: one record *)
Section record_lemmas.
Context `{RecordCryptoLaws}.
#[local] Set Default Proof Using "Type*".

Record sync (w : Writer) (r : Reader) : Prop := {
  sync_kEnc : r_kEnc r = w_kEnc w;
  sync_kMac : r_kMac r = w_kMac w;
  sync_ch : r_chID r = w_chID w;
  sync_max : r_maxCT r = w_maxCT w;
  sync_seq : r_seq r = w_seq w;
  sync_open : w_closed w = false;
  sync_undone : r_done r = false;
  sync_key : aesKeyOk (w_kEnc w) = true;
  sync_ch_u8 : in_u 8 (w_chID w);
  sync_max_u32 : w_maxCT w < 2 ^ 32;
  sync_seq_u64 : in_u 64 (w_seq w);
}.

Definition ctOf (w : Writer) (iv p : bytes) : bytes := cbcEncrypt (w_kEnc w) iv (pkcs7Pad p).
Definition sealed (w : Writer) (iv p : bytes) : bytes :=
  let prefix := recordPrefix (w_chID w) (w_seq w) iv (ctOf w iv p) in
  prefix ++ hmacSHA256 (w_kMac w) prefix.
Definition fits (w : Writer) (p : bytes) : Prop := Z.of_nat (length (pkcs7Pad p)) <= w_maxCT w.
Definition w_next (w : Writer) (c : bool) : Writer :=
  mkWriter (w_kEnc w) (w_kMac w) (w_chID w) (w_maxCT w) (w_seq w + 1) c.
Definition r_next (r : Reader) (d : bool) : Reader :=
  mkRdr (r_kEnc r) (r_kMac r) (r_chID r) (r_maxCT r) (r_seq r + 1) d.

Lemma writeRecord_ok w iv p c :
  w_closed w = false → aesKeyOk (w_kEnc w) = true → 0 <= w_seq w < 2 ^ 64 - 1 → fits w p →
  writeRecord (mkWenv (Ok iv) None) w p c = (None, sealed w iv p, w_next w c).
Proof.
  intros Hc Hk Hs Hf. unfold writeRecord. rewrite Hc, Hk; simpl.
  rewrite (proj2 (Z.eqb_neq _ _)) by lia.
  rewrite (proj2 (Z.ltb_ge _ _)) by exact Hf.
  rewrite wrap_u_id by (unfold in_u; lia). done.
Qed.

Lemma writeRecord_inv env w p c buf w' :
  w_closed w = false → in_u 64 (w_seq w) → writeRecord env w p c = (None, buf, w') →
  ∃ iv, e_iv env = Ok iv ∧ w_seq w < 2 ^ 64 - 1 ∧ fits w p ∧ aesKeyOk (w_kEnc w) = true ∧
        buf = sealed w iv p ∧ w' = w_next w c.
Proof.
  intros Hc Hs. unfold writeRecord. rewrite Hc.
  destruct (Z.eqb_spec (w_seq w) (2 ^ 64 - 1)); [done|].
  destruct (Z.ltb_spec (w_maxCT w) (Z.of_nat (length (pkcs7Pad p)))); [done|].
  destruct (e_iv env) as [iv|]; [|done]. destruct (aesKeyOk _) eqn:Hk; [|done].
  destruct (e_write env); [done|]. intros [= <- <-]. unfold in_u in Hs.
  exists iv. rewrite wrap_u_id by (unfold in_u; lia). split_and!; try done; lia.
Qed.

Definition header (ch seq n : Z) : bytes := be 1 version ++ be 1 ch ++ be 8 seq ++ be 4 n.

Lemma header_length ch seq n : length (header ch seq n) = headerLen.
Proof. unfold header. by autorewrite with esync_len. Qed.

Lemma header_fields ch seq n :
  in_u 8 ch → in_u 64 seq → in_u 32 n →
  unbe (slice 0 1 (header ch seq n)) = version ∧ unbe (slice 1 2 (header ch seq n)) = ch ∧
  unbe (slice 2 10 (header ch seq n)) = seq ∧ unbe (slice 10 14 (header ch seq n)) = n.
Proof.
  intros Hc Hs Hn. unfold header.
  assert (Hh : ∀ i j a b c h, h = a ++ b ++ c → i = length a → j = (length a + length b)%nat →
               slice i j h = b) by (intros i j a b c h -> ? ?; by apply slice_app).
  set (h := be 1 version ++ be 1 ch ++ be 8 seq ++ be 4 n).
  rewrite (Hh 0%nat 1%nat [] (be 1 version) (be 1 ch ++ be 8 seq ++ be 4 n) h) by (by rewrite ?length_be).
  rewrite (Hh 1%nat 2%nat (be 1 version) (be 1 ch) (be 8 seq ++ be 4 n) h) by (by rewrite ?length_be).
  rewrite (Hh 2%nat 10%nat (be 1 version ++ be 1 ch) (be 8 seq) (be 4 n) h)
    by (unfold h; rewrite ?length_app, ?length_be, <- ?app_assoc; done).
  rewrite (Hh 10%nat 14%nat (be 1 version ++ be 1 ch ++ be 8 seq) (be 4 n) [] h)
    by (unfold h; rewrite ?length_app, ?length_be, <- ?app_assoc, ?app_nil_r; done).
  split_and!; apply unbe_be_id; done.
Qed.

(** A valid header leads to the body. *)
Lemma ReadFrame_header r sq n rest fin :
  r_done r = false → in_u 8 (r_chID r) → in_u 64 sq →
  blockSize <= n <= r_maxCT r → n mod blockSize = 0 → r_maxCT r < 2 ^ 32 →
  ReadFrame r (mkStream (header (r_chID r) sq n ++ rest) fin) =
  readBody r (header (r_chID r) sq n) (Z.to_nat n) (mkStream rest fin).
Proof.
  intros Hd Hch Hsq Hn Hb Hm. unfold ReadFrame. rewrite Hd.
  rewrite readFull_app by apply header_length.
  destruct (header_fields (r_chID r) sq n) as (-> & -> & _ & ->); [done..| |].
  { unfold in_u, blockSize in *. lia. }
  rewrite !Z.eqb_refl, Hb. cbn [negb Z.eqb orb].
  rewrite (proj2 (Z.ltb_ge n blockSize)), (proj2 (Z.ltb_ge (r_maxCT r) n)) by lia. done.
Qed.

(** The body of a complete record. *)
Lemma readBody_full r h n iv ct mac tail fin :
  n = length ct → length iv = ivLen → length mac = macLen →
  readBody r h n (mkStream (iv ++ ct ++ mac ++ tail) fin) =
  if negb (bool_decide (hmacSHA256 (r_kMac r) (h ++ iv ++ ct) = mac))
  then (Err (fault E4003 "verify record mac" [] None), r, mkStream tail fin)
  else if negb (unbe (slice 2 10 h) =? r_seq r)
  then (Err (fault E4004 "verify record sequence" [] None), r, mkStream tail fin)
  else if negb (aesKeyOk (r_kEnc r))
  then (Err (EFault (Wrap E4007 "init record cipher" []
               (EStd (StdOther "crypto/aes: invalid key size")))), r, mkStream tail fin)
  else match pkcs7Unpad (cbcDecrypt (r_kEnc r) iv ct) with
       | Err e => (Err e, r, mkStream tail fin)
       | Ok frame =>
           let r' done := mkRdr (r_kEnc r) (r_kMac r) (r_chID r) (r_maxCT r)
                            (wrap_u 64 (r_seq r + 1)) done in
           if bool_decide (frame = []) then (Err (EStd StdEOF), r' true, mkStream tail fin)
           else (Ok frame, r' false, mkStream tail fin)
       end.
Proof.
  intros -> Hiv Hmac. unfold readBody.
  replace (iv ++ ct ++ mac ++ tail) with ((iv ++ ct ++ mac) ++ tail) by (by rewrite <- !app_assoc).
  rewrite (readFull_app (iv ++ ct ++ mac)) by (rewrite !length_app, Hiv, Hmac; lia).
  rewrite <- Hiv, take_app_length, slice_app by done.
  replace (drop (length iv + length ct) (iv ++ ct ++ mac)) with mac; [done|].
  rewrite app_assoc, <- length_app. by rewrite drop_app_length.
Qed.

Lemma ctOf_size w iv p :
  Z.of_nat (length (ctOf w iv p)) = Z.of_nat (length (pkcs7Pad p)) ∧
  blockSize <= Z.of_nat (length (ctOf w iv p)) ∧
  Z.of_nat (length (ctOf w iv p)) mod blockSize = 0.
Proof.
  unfold ctOf. rewrite cbc_length. split_and!; [done| |apply pkcs7Pad_blocks].
  rewrite length_pkcs7Pad. unfold blockSize.
  pose proof (Z.mod_le (Z.of_nat (length p)) 16). lia.
Qed.

Lemma sealed_prefix w iv p :
  recordPrefix (w_chID w) (w_seq w) iv (ctOf w iv p) =
  header (w_chID w) (w_seq w) (Z.of_nat (length (ctOf w iv p))) ++ iv ++ ctOf w iv p.
Proof. unfold recordPrefix, header. by rewrite <- !app_assoc. Qed.

Lemma sealed_split w iv p :
  sealed w iv p =
  header (w_chID w) (w_seq w) (Z.of_nat (length (ctOf w iv p))) ++
  (iv ++ ctOf w iv p ++ hmacSHA256 (w_kMac w) (recordPrefix (w_chID w) (w_seq w) iv (ctOf w iv p))).
Proof. unfold sealed. rewrite sealed_prefix at 1. by rewrite <- !app_assoc. Qed.

Lemma sealed_length w iv p : length iv = ivLen →
  length (sealed w iv p) = (prefixLen + length (ctOf w iv p) + macLen)%nat.
Proof.
  intros Hiv. unfold sealed, recordPrefix. rewrite !length_app, !length_be, hmac_length, Hiv.
  unfold prefixLen, headerLen, ivLen, macLen. lia.
Qed.

Lemma ReadFrame_sealed w r iv p tail fin :
  sync w r → length iv = ivLen → w_seq w < 2 ^ 64 - 1 → fits w p →
  ReadFrame r (mkStream (sealed w iv p ++ tail) fin) =
  (if bool_decide (p = []) then Err (EStd StdEOF) else Ok p,
   r_next r (bool_decide (p = [])), mkStream tail fin).
Proof.
  intros [E1 E2 E3 E4 E5 Ho Hd Hk Hch Hm Hs] Hiv Hseq Hf. unfold fits in Hf.
  destruct (ctOf_size w iv p) as (Hl & Hge & Hmod).
  rewrite sealed_split, <- E3, <- app_assoc, ReadFrame_header;
    rewrite ?E3, ?E4; try done; try lia.
  rewrite Nat2Z.id, <- !app_assoc, readBody_full by (done || apply hmac_length).
  destruct (header_fields (w_chID w) (w_seq w) (Z.of_nat (length (ctOf w iv p))))
    as (_ & _ & -> & _); [done..|unfold in_u, blockSize in *; lia|].
  rewrite <- sealed_prefix.
  rewrite E2, bool_decide_true by done. rewrite E5, Z.eqb_refl, E1, Hk. cbn [negb].
  unfold ctOf. rewrite cbc_inverse by apply pkcs7Pad_blocks. rewrite pkcs7_roundtrip.
  unfold in_u in Hs. rewrite wrap_u_id by (unfold in_u; lia).
  unfold r_next. rewrite E1, E2, E3, E4, E5. by case_bool_decide.
Qed.

Lemma readErr_eof op e : isEOFish e = true → readErr op e = fault E4005 op [] None.
Proof. unfold readErr. by intros ->. Qed.

(** A record cut short anywhere is a truncation, never a clean end. *)
Lemma ReadFrame_cut w r iv p s0 :
  sync w r → length iv = ivLen → fits w p →
  s0 `prefix_of` sealed w iv p → (length s0 < length (sealed w iv p))%nat →
  ∃ op s', ReadFrame r (mkStream s0 StdEOF) = (Err (fault E4005 op [] None), r, s').
Proof.
  intros [E1 E2 E3 E4 E5 Ho Hd Hk Hch Hm Hs] Hiv Hf Hpre Hlen. unfold fits in Hf.
  destruct (ctOf_size w iv p) as (Hl & Hge & Hmod).
  destruct (decide (length s0 < headerLen)%nat) as [Hlt|Hge0].
  { destruct (readFull_short headerLen (mkStream s0 StdEOF)) as (e & He & Hee); [done..|].
    unfold ReadFrame. rewrite Hd, He. eexists _, _. by rewrite readErr_eof. }
  rewrite sealed_length in Hlen by done. rewrite sealed_split in Hpre.
  apply prefix_app_cases in Hpre as [Hp|(l' & -> & Hp)].
  - apply prefix_length in Hp as Hl0. rewrite header_length in Hl0.
    apply prefix_length_eq in Hp; [|rewrite header_length; lia]. subst s0.
    rewrite <- E3, <- (app_nil_r (header _ _ _)), ReadFrame_header; rewrite ?E3, ?E4; try done; try lia.
    unfold readBody.
    destruct (readFull_short (ivLen + Z.to_nat (Z.of_nat (length (ctOf w iv p))) + macLen)
                (mkStream [] StdEOF)) as (e & -> & Hee); [simpl; unfold ivLen; lia|done|].
    eexists _, _. by rewrite readErr_eof.
  - rewrite <- E3, ReadFrame_header; rewrite ?E3, ?E4; try done; try lia.
    rewrite length_app, header_length in Hlen. unfold prefixLen in Hlen.
    unfold readBody.
    destruct (readFull_short (ivLen + Z.to_nat (Z.of_nat (length (ctOf w iv p))) + macLen)
                (mkStream l' StdEOF)) as (e & -> & Hee);
      [cbn [sdata]; unfold headerLen, ivLen, macLen in *; lia|done|].
    eexists _, _. by rewrite readErr_eof.
Qed.

(** *** Streams *)
Fixpoint sealedAll (w : Writer) (fs : list (bytes * bytes)) : bytes :=
  match fs with
  | [] => []
  | (iv, f) :: fs' => sealed w iv f ++ sealedAll (w_next w false) fs'
  end.
#[local] Arguments sealed : simpl never.
Definition w_after (w : Writer) (n : nat) : Writer :=
  mkWriter (w_kEnc w) (w_kMac w) (w_chID w) (w_maxCT w) (w_seq w + Z.of_nat n) (w_closed w).
Definition r_after (r : Reader) (n : nat) : Reader :=
  mkRdr (r_kEnc r) (r_kMac r) (r_chID r) (r_maxCT r) (r_seq r + Z.of_nat n) (r_done r).

(** What a caller may write: non-empty frames that fit, with 16-byte IVs. *)
Definition sendable (w : Writer) (x : bytes * bytes) : Prop :=
  length x.1 = ivLen ∧ x.2 ≠ [] ∧ fits w x.2.

Lemma sync_next w r : sync w r → w_seq w < 2 ^ 64 - 1 → sync (w_next w false) (r_next r false).
Proof. intros [] ?. split; simpl; try done; unfold in_u in *; lia. Qed.

Lemma WriteAll_ok w fs :
  w_closed w = false → aesKeyOk (w_kEnc w) = true → 0 <= w_seq w →
  w_seq w + Z.of_nat (length fs) < 2 ^ 64 → Forall (sendable w) fs →
  WriteAll w fs = (None, sealedAll w fs, w_after w (length fs)).
Proof.
  intros Hc Hk. revert w Hc Hk. induction fs as [|[iv f] fs IH]; intros w Hc Hk H0s Hs Hall; simpl.
  { unfold w_after. rewrite Z.add_0_r. by destruct w. }
  inversion Hall as [|? ? (Hiv & Hne & Hfit) Hall']; subst. simpl in *.
  unfold WriteFrame. rewrite bool_decide_false by done.
  rewrite writeRecord_ok by (done || lia).
  rewrite IH; simpl; try done; try lia.
  unfold w_after; simpl. rewrite Hc. do 2 f_equal. lia.
Qed.

Lemma ReadAll_sealed fs : ∀ w r tail fin n,
  sync w r → w_seq w + Z.of_nat (length fs) < 2 ^ 64 → Forall (sendable w) fs →
  ReadAll (length fs + n) r (mkStream (sealedAll w fs ++ tail) fin) =
  let '(gs, e) := ReadAll n (r_after r (length fs)) (mkStream tail fin) in (fs.*2 ++ gs, e).
Proof.
  induction fs as [|[iv f] fs IH]; intros w r tail fin n Hsy Hs Hall; cbn [sealedAll length plus ReadAll app fmap list_fmap].
  { assert (r_after r 0 = r) as -> by (unfold r_after; rewrite Z.add_0_r; by destruct r).
    by destruct (ReadAll n r _). }
  inversion Hall as [|? ? (Hiv & Hne & Hfit) Hall']; subst. cbn [fst snd sealedAll length] in *.
  rewrite <- app_assoc, (ReadFrame_sealed w) by (done || lia).
  rewrite bool_decide_false by done.
  rewrite (IH (w_next w false)); simpl; try done; try lia.
  2:{ apply sync_next; [done|lia]. }
  replace (r_after (r_next r false) (length fs)) with (r_after r (S (length fs))).
  2:{ unfold r_after, r_next; simpl. destruct Hsy as [_ _ _ _ _ _ -> _ _ _ _]. f_equal. lia. }
  by destruct (ReadAll n _ _).
Qed.

Lemma sync_after w r n :
  sync w r → w_seq w + Z.of_nat n < 2 ^ 64 → sync (w_after w n) (r_after r n).
Proof. intros [] ?. split; simpl; try done; try lia. unfold in_u in *; lia. Qed.

Lemma ReadAll_cut fs : ∀ w r s0 n iv,
  sync w r → w_seq w + Z.of_nat (length fs) < 2 ^ 64 - 1 → Forall (sendable w) fs →
  length iv = ivLen → fits w [] → (length fs < n)%nat →
  s0 `prefix_of` sealedAll w fs ++ sealed (w_after w (length fs)) iv [] →
  (length s0 < length (sealedAll w fs ++ sealed (w_after w (length fs)) iv []))%nat →
  ∃ k op, (k <= length fs)%nat ∧
    ReadAll n r (mkStream s0 StdEOF) = (take k fs.*2, Some (fault E4005 op [] None)).
Proof.
  induction fs as [|[iv1 f] fs IH]; intros w r s0 n iv Hsy Hs Hall Hiv Hfit Hn Hpre Hlen.
  - cbn [sealedAll length app fst snd fmap list_fmap] in *. destruct n as [|n]; [lia|].
    assert (w_after w 0 = w) as Hw by (unfold w_after; rewrite Z.add_0_r; by destruct w).
    rewrite Hw in *.
    destruct (ReadFrame_cut w r iv [] s0) as (op & s' & E); [done..|].
    exists 0%nat, op. cbn [ReadAll]. by rewrite E.
  - cbn [sealedAll length app fst snd fmap list_fmap] in *. destruct n as [|n]; [lia|].
    inversion Hall as [|? ? (Hiv1 & Hne & Hfit1) Hall']; subst. cbn [fst snd] in *.
    rewrite <- app_assoc in Hpre, Hlen.
    assert (Hcut : (length s0 < length (sealed w iv1 f))%nat → s0 `prefix_of` sealed w iv1 f →
      ∃ k op, (k <= S (length fs))%nat ∧
        ReadAll (S n) r (mkStream s0 StdEOF) = (take k (f :: fs.*2), Some (fault E4005 op [] None))).
    { intros Hl Hp. destruct (ReadFrame_cut w r iv1 f s0) as (op & s' & E); try done.
      exists 0%nat, op. cbn [ReadAll]. rewrite E. auto with lia. }
    assert (w_after w (S (length fs)) = w_after (w_next w false) (length fs)) as Hw.
    { unfold w_after, w_next; simpl. destruct Hsy as [_ _ _ _ _ -> _ _ _ _ _]. f_equal. lia. }
    apply prefix_app_cases in Hpre as [Hp|(l' & -> & Hp)].
    + apply prefix_length in Hp as Hl0.
      destruct (decide (length s0 < length (sealed w iv1 f))%nat); [by apply Hcut|].
      apply prefix_length_eq in Hp; [|lia]. subst s0.
      rewrite Hw in *.
      destruct (IH (w_next w false) (r_next r false) [] n iv) as (k & op & Hk & E);
        cbn [w_next w_seq]; try done; try lia; try apply sync_next; try done; try lia; try apply prefix_nil.
      { rewrite (length_app (sealed w iv1 f)) in Hlen. cbn [length]. lia. }
      exists (S k), op. split; [lia|]. cbn [ReadAll].
      rewrite <- (app_nil_r (sealed w iv1 f)), (ReadFrame_sealed w), bool_decide_false by (done || lia).
      by rewrite E.
    + rewrite length_app, (length_app (sealed w iv1 f)) in Hlen. rewrite Hw in *.
      destruct (IH (w_next w false) (r_next r false) l' n iv) as (k & op & Hk & E);
        cbn [w_next w_seq]; try done; try lia; try (apply sync_next; [done|lia]).
      exists (S k), op. split; [lia|]. cbn [ReadAll].
      rewrite (ReadFrame_sealed w), bool_decide_false by (done || lia).
      by rewrite E.
Qed.
End record_lemmas.

Section record_props.
Context `{RecordCryptoLaws}.
#[local] Set Default Proof Using "Type*".

(** A frame that a writer of channel [ch] accepts: not empty (the empty record
    is the close) and below the channel's ceiling, with a 16-byte IV. *)
Definition frameOk (ch : Z) (x : bytes * bytes) : Prop :=
  length x.1 = ivLen ∧ x.2 ≠ [] ∧ Z.of_nat (length x.2) < maxCT ch.

Lemma maxCT_blocks ch : maxCT ch mod blockSize = 0 ∧ 0 < maxCT ch < 2 ^ 32.
Proof. unfold maxCT. by destruct (ch =? 0). Qed.

Lemma frameOk_sendable kE kM ch x : frameOk ch x → sendable (NewWriter kE kM ch) x.
Proof.
  intros (? & ? & ?). split_and!; try done. unfold fits; simpl.
  apply pkcs7Pad_le; [|done]. apply maxCT_blocks.
Qed.

Lemma sync_new kE kM ch :
  aesKeyOk kE = true → in_u 8 ch → sync (NewWriter kE kM ch) (NewReader kE kM ch).
Proof.
  intros. split; simpl; try done. apply maxCT_blocks.
Qed.

Lemma fits_close w : w_maxCT w = MaxCTData ∨ w_maxCT w = MaxCTControl → fits w [].
Proof. intros [E|E]; unfold fits; rewrite E; by vm_compute. Qed.

Lemma written_stream kE kM ch fs ivc :
  aesKeyOk kE = true → Z.of_nat (length fs) < 2 ^ 64 - 1 → Forall (frameOk ch) fs →
  let w := NewWriter kE kM ch in
  WriteAll w fs = (None, sealedAll w fs, w_after w (length fs)) ∧
  Close (mkWenv (Ok ivc) None) (w_after w (length fs)) =
    (None, sealed (w_after w (length fs)) ivc [], w_next (w_after w (length fs)) true) ∧
  Forall (sendable w) fs ∧ fits (w_after w (length fs)) [].
Proof.
  intros Hk Hn Hall w.
  assert (Hs : Forall (sendable w) fs).
  { eapply Forall_impl; [exact Hall|]. intros x. apply frameOk_sendable. }
  assert (Hf : fits (w_after w (length fs)) []).
  { apply fits_close. simpl. unfold maxCT. case_match; auto. }
  split_and!; try done.
  - apply WriteAll_ok; simpl; try done; lia.
  - unfold Close. apply writeRecord_ok; simpl; try done; lia.
Qed.

(** What a successful read consumed. *)
Lemma readFull_inv n s b s' :
  readFull n s = (Ok b, s') → length b = n ∧ sdata s = b ++ sdata s' ∧ sfinal s' = sfinal s.
Proof.
  unfold readFull. case_bool_decide as Hl; [|done]. intros [= <- <-]; cbn [sdata sfinal].
  rewrite length_take, take_drop. split_and!; [lia|done..].
Qed.

Lemma header_unbe h :
  length h = headerLen →
  h = be 1 (unbe (slice 0 1 h)) ++ be 1 (unbe (slice 1 2 h)) ++
      be 8 (unbe (slice 2 10 h)) ++ be 4 (unbe (slice 10 14 h)).
Proof.
  unfold headerLen. intros Hl. do 14 (destruct h as [|? h]; [done|]). destruct h; [|done].
  unfold slice; cbn [take drop Nat.sub].
  repeat match goal with |- context [be ?n (unbe ?l)] =>
    change (be n (unbe l)) with (be (length l) (unbe l)); rewrite (be_unbe l) end.
  done.
Qed.

Lemma body_split (b : bytes) n :
  length b = (ivLen + n + macLen)%nat →
  b = take ivLen b ++ slice ivLen (ivLen + n) b ++ drop (ivLen + n) b ∧
  length (take ivLen b) = ivLen ∧ length (slice ivLen (ivLen + n) b) = n ∧
  length (drop (ivLen + n) b) = macLen.
Proof.
  intros Hl. unfold slice. replace (ivLen + n - ivLen)%nat with n by lia.
  rewrite !length_take, !length_drop, Hl. split_and!; try (unfold ivLen, macLen in *; lia).
  rewrite <- drop_drop. by rewrite !take_drop.
Qed.

(** [ReadFrame] accepts nothing but a record of its own channel and sequence
    number whose MAC verifies. *)
Lemma ReadFrame_ok_inv r s f r' s' :
  ReadFrame r s = (Ok f, r', s') →
  ∃ iv ct mac,
    sdata s = (recordPrefix (r_chID r) (r_seq r) iv ct ++ mac) ++ sdata s' ∧
    length iv = ivLen ∧ length mac = macLen ∧
    blockSize <= Z.of_nat (length ct) <= r_maxCT r ∧
    Z.of_nat (length ct) mod blockSize = 0 ∧ Z.of_nat (length ct) < 2 ^ 32 ∧
    in_u 8 (r_chID r) ∧ in_u 64 (r_seq r) ∧ r_done r = false ∧
    hmacSHA256 (r_kMac r) (recordPrefix (r_chID r) (r_seq r) iv ct) = mac ∧
    pkcs7Unpad (cbcDecrypt (r_kEnc r) iv ct) = Ok f ∧ f ≠ [] ∧
    r' = mkRdr (r_kEnc r) (r_kMac r) (r_chID r) (r_maxCT r) (wrap_u 64 (r_seq r + 1)) false.
Proof.
  unfold ReadFrame. destruct (r_done r); [done|].
  destruct (readFull headerLen s) as [[h|] s1] eqn:Eh; [|done].
  apply readFull_inv in Eh as (Hhl & Hs & _).
  destruct (negb (unbe (slice 0 1 h) =? version)) eqn:E1; [done|].
  destruct (negb (unbe (slice 1 2 h) =? r_chID r)) eqn:E2; [done|].
  destruct (_ || negb (unbe (slice 10 14 h) mod blockSize =? 0)) eqn:E3; [done|].
  unfold readBody.
  destruct (readFull _ s1) as [[body|] s2] eqn:Eb; [|done].
  apply readFull_inv in Eb as (Hbl & Hs1 & _).
  destruct (negb (bool_decide _)) eqn:E4; [done|].
  destruct (negb (unbe (slice 2 10 h) =? r_seq r)) eqn:E5; [done|].
  destruct (negb (aesKeyOk _)); [done|].
  destruct (pkcs7Unpad _) as [g|] eqn:E6; [|done].
  destruct (bool_decide_reflect (g = [])) as [E7|E7]; [intros [=]|]. intros [= <- <- <-].
  bool_to_prop.
  apply body_split in Hbl as (Hb & Hi & Hc & Hm).
  set (iv := take ivLen body) in *. set (ct := slice _ _ body) in *. set (mac := drop _ body) in *.
  assert (Hh : h ++ iv ++ ct = recordPrefix (r_chID r) (r_seq r) iv ct).
  { rewrite (header_unbe h) by done. unfold recordPrefix. rewrite Hc, Z2Nat.id by (unfold blockSize in *; lia).
    repeat match goal with E : unbe _ = _ |- _ => rewrite E end. by rewrite <- !app_assoc. }
  assert (Hin : ∀ i j n, (i + n = j)%nat → (j <= headerLen)%nat → in_u (8 * Z.of_nat n) (unbe (slice i j h))).
  { intros i j n ? ?. apply unbe_in_u. unfold slice. rewrite length_take, length_drop, Hhl. lia. }
  pose proof (Hin 1%nat 2%nat 1%nat eq_refl ltac:(unfold headerLen; lia)) as Hi1.
  pose proof (Hin 2%nat 10%nat 8%nat eq_refl ltac:(unfold headerLen; lia)) as Hi8.
  pose proof (Hin 10%nat 14%nat 4%nat eq_refl ltac:(unfold headerLen; lia)) as Hi4.
  unfold in_u in Hi4. rewrite Hh in *.
  exists iv, ct, mac. rewrite Hc. rewrite Z2Nat.id by (unfold blockSize in *; lia).
  split_and!; try done; try lia; try congruence.
  - rewrite Hs, Hs1, <- Hh. clearbody iv ct mac. rewrite Hb. by rewrite <- !app_assoc.
  - by rewrite <- E2.
  - by rewrite <- E5.
Qed.
End record_props.

(** ** Properties *)
Section record_theorems.
Context `{RecordCryptoLaws}.
#[local] Set Default Proof Using "Type*".

(** C1: whatever frames a fresh writer is given (non-empty and below the
    channel ceiling, fewer than 2^64 - 1 of them), it writes all of them, the
    close succeeds, and a fresh reader with the same keys and channel returns
    exactly those frames in order and then [io.EOF], whatever follows the
    close on the transport. *)
Theorem stream_roundtrip kE kM ch fs ivc tail fin n :
  aesKeyOk kE = true → in_u 8 ch → Z.of_nat (length fs) < 2 ^ 64 - 1 →
  Forall (frameOk ch) fs → length ivc = ivLen →
  ∃ out out2 w' w'',
    WriteAll (NewWriter kE kM ch) fs = (None, out, w') ∧
    Close (mkWenv (Ok ivc) None) w' = (None, out2, w'') ∧
    ReadAll (length fs + S n) (NewReader kE kM ch) (mkStream (out ++ out2 ++ tail) fin) =
      (fs.*2, Some (EStd StdEOF)).
Proof.
  intros Hk Hch Hn Hall Hivc. set (w := NewWriter kE kM ch).
  destruct (written_stream kE kM ch fs ivc Hk Hn Hall) as (E1 & E2 & Hs & Hf).
  fold w in E1, E2, Hs, Hf. eexists _, _, _, _. split_and!; [done..|].
  pose proof (sync_new kE kM ch Hk Hch) as Hsy. fold w in Hsy.
  rewrite (ReadAll_sealed _ w) by (done || simpl; lia). cbn [ReadAll].
  rewrite (ReadFrame_sealed (w_after w (length fs))); try done.
  2:{ apply sync_after; [done|simpl; lia]. }
  cbn. by rewrite app_nil_r.
Qed.

(** Cut the transport anywhere before the end of the close record, and a
    reader returns a prefix of the frames written and then the truncation
    fault E4005: a shortened stream is never taken for a complete one. *)
Theorem truncated_stream kE kM ch fs ivc n s0 :
  aesKeyOk kE = true → in_u 8 ch → Z.of_nat (length fs) < 2 ^ 64 - 1 →
  Forall (frameOk ch) fs → length ivc = ivLen →
  let '(_, out, w') := WriteAll (NewWriter kE kM ch) fs in
  let '(_, out2, _) := Close (mkWenv (Ok ivc) None) w' in
  s0 `prefix_of` out ++ out2 → (length s0 < length (out ++ out2))%nat →
  ∃ k op, ReadAll (length fs + S n) (NewReader kE kM ch) (mkStream s0 StdEOF) =
            (take k fs.*2, Some (fault E4005 op [] None)).
Proof.
  intros Hk Hch Hn Hall Hivc.
  destruct (written_stream kE kM ch fs ivc Hk Hn Hall) as (E1 & E2 & Hs & Hf).
  rewrite E1, E2. intros Hp Hl.
  destruct (ReadAll_cut fs (NewWriter kE kM ch) (NewReader kE kM ch) s0 (length fs + S n) ivc)
    as (k & op & _ & E); try done; [by apply sync_new|lia|by exists k, op].
Qed.

(** C18: a frame is only ever accepted from bytes of the form header, IV,
    ciphertext, tag where the header carries the reader's own channel and
    exactly the sequence number it expects, the length is a whole number of
    blocks within the ceiling, and the tag is the HMAC of everything before
    it; the frame is the unpadded decryption and the sequence number moves on
    by one. *)
Theorem accepted_authentic r s f r' s' :
  ReadFrame r s = (Ok f, r', s') →
  ∃ iv ct,
    let signed := recordPrefix (r_chID r) (r_seq r) iv ct in
    sdata s = (signed ++ hmacSHA256 (r_kMac r) signed) ++ sdata s' ∧
    length iv = ivLen ∧
    blockSize <= Z.of_nat (length ct) <= r_maxCT r ∧
    Z.of_nat (length ct) mod blockSize = 0 ∧
    pkcs7Unpad (cbcDecrypt (r_kEnc r) iv ct) = Ok f ∧ f ≠ [] ∧
    r_seq r' = wrap_u 64 (r_seq r + 1) ∧ r_done r' = false.
Proof.
  intros (iv & ct & mac & Hs & Hiv & _ & Hct & Hb & _ & _ & _ & _ & <- & Hu & Hne & ->)%ReadFrame_ok_inv.
  exists iv, ct. cbn zeta. split_and!; done || lia.
Qed.

(** A record that was accepted once is rejected with E4004 by a reader of
    the same keys and channel in any other sequence state, in particular by
    the same reader later on: replay and reordering never deliver a frame. *)
Theorem replay_rejected r s f r' s' r2 tail fin :
  ReadFrame r s = (Ok f, r', s') →
  r_kMac r2 = r_kMac r → r_chID r2 = r_chID r → r_maxCT r2 = r_maxCT r →
  r_maxCT r < 2 ^ 32 → r_done r2 = false → r_seq r2 ≠ r_seq r →
  ReadFrame r2 (mkStream (take (length (sdata s) - length (sdata s')) (sdata s) ++ tail) fin) =
  (Err (fault E4004 "verify record sequence" [] None), r2, mkStream tail fin).
Proof.
  intros (iv & ct & mac & Hs & Hiv & Hmac & Hct & Hb & Hc32 & Hch & Hsq & _ & Hm & _)%ReadFrame_ok_inv
    Ek Ec Em Hmx Hd Hne.
  rewrite Hs at 2. rewrite take_app_length'.
  2:{ rewrite Hs, (length_app (_ ++ mac)). lia. }
  replace ((recordPrefix (r_chID r) (r_seq r) iv ct ++ mac) ++ tail)
    with (header (r_chID r) (r_seq r) (Z.of_nat (length ct)) ++ (iv ++ ct ++ mac ++ tail))
    by (unfold recordPrefix, header; rewrite <- !app_assoc; done).
  rewrite <- Ec, ReadFrame_header by (rewrite ?Ec, ?Em; done).
  rewrite readBody_full by (done || lia).
  destruct (header_fields (r_chID r2) (r_seq r) (Z.of_nat (length ct))) as (_ & _ & -> & _);
    [by rewrite Ec|done|unfold in_u; lia|].
  rewrite bool_decide_true.
  2:{ rewrite Ek, <- Hm. f_equal. unfold recordPrefix, header. rewrite Ec. by rewrite <- !app_assoc. }
  rewrite (proj2 (Z.eqb_neq _ _)) by congruence. done.
Qed.
End record_theorems.

(** *** Witnesses: a concrete cipher (reversal) and tag (the last 32 bytes). *)
#[local] Instance rev_crypto : RecordCrypto := {|
  cbcEncrypt k iv p := rev p;
  cbcDecrypt k iv p := rev p;
  hmacSHA256 k m := be 32 (unbe (k ++ m));
|}.
#[local] Instance rev_crypto_laws : RecordCryptoLaws.
Proof.
  split; intros; cbn [cbcEncrypt cbcDecrypt hmacSHA256 rev_crypto];
    [apply length_rev|apply rev_involutive|apply length_be].
Qed.

Definition ex_key : bytes := replicate 32 (byte_of_Z 43).
Definition ex_frames : list (bytes * bytes) :=
  [(replicate 16 Byte.x00, bs "hello"); (replicate 16 Byte.x01, bs "world of sixteen")].
Lemma ex_frames_ok : Forall (frameOk 1) ex_frames.
Proof. repeat constructor; simpl; try done. Qed.

Lemma stream_roundtrip_witness :
  ∃ out out2 w' w'',
    WriteAll (NewWriter ex_key ex_key 1) ex_frames = (None, out, w') ∧
    Close (mkWenv (Ok (replicate 16 Byte.x02)) None) w' = (None, out2, w'') ∧
    ReadAll (2 + 1) (NewReader ex_key ex_key 1) (mkStream (out ++ out2 ++ bs "x") StdEOF) =
      ([bs "hello"; bs "world of sixteen"], Some (EStd StdEOF)).
Proof.
  apply (stream_roundtrip ex_key ex_key 1 ex_frames (replicate 16 Byte.x02) (bs "x") StdEOF 0);
    try done. apply ex_frames_ok.
Defined.

Lemma truncated_stream_witness :
  ∃ k op, ReadAll (2 + 1) (NewReader ex_key ex_key 1)
            (mkStream (take 100 ((WriteAll (NewWriter ex_key ex_key 1) ex_frames).1.2)) StdEOF) =
          (take k ex_frames.*2, Some (fault E4005 op [] None)).
Proof.
  pose proof (truncated_stream ex_key ex_key 1 ex_frames (replicate 16 Byte.x02) 0
    (take 100 ((WriteAll (NewWriter ex_key ex_key 1) ex_frames).1.2))
    eq_refl ltac:(done) ltac:(done) ex_frames_ok eq_refl) as P.
  apply P; [|vm_compute; lia].
  apply prefix_app_r. apply prefix_take.
Defined.

Definition ex_record : bytes :=
  (writeRecord (mkWenv (Ok (replicate 16 Byte.x00)) None) (NewWriter ex_key ex_key 1) (bs "hello") false).1.2.
Definition ex_reader : Reader := mkRdr ex_key ex_key 1 MaxCTData 1 false.

Lemma accepted_authentic_witness :
  ∃ iv ct, ex_record ++ bs "t" =
    (recordPrefix 1 0 iv ct ++ hmacSHA256 ex_key (recordPrefix 1 0 iv ct)) ++ bs "t".
Proof.
  destruct (accepted_authentic (NewReader ex_key ex_key 1) (mkStream (ex_record ++ bs "t") StdEOF)
    (bs "hello") ex_reader (mkStream (bs "t") StdEOF)) as (iv & ct & E & _); [by vm_compute|].
  by exists iv, ct.
Defined.

Lemma replay_rejected_witness :
  ReadFrame ex_reader (mkStream (ex_record ++ ex_record) StdEOF) =
  (Err (fault E4004 "verify record sequence" [] None), ex_reader, mkStream ex_record StdEOF).
Proof.
  apply (replay_rejected (NewReader ex_key ex_key 1) (mkStream (ex_record ++ bs "t") StdEOF)
    (bs "hello") ex_reader (mkStream (bs "t") StdEOF) ex_reader ex_record StdEOF);
    by vm_compute.
Defined.
