(* ===== verification/Wire.v ===== *)
(** * Wire: the frame layer (src/internal/wire: wire.go, msgtype.go, messages.go, frame.go)

    One record per message struct, the tagged union [Message], the body codec
    [encodeBody]/[decodeBody] on top of the primitive codec of [Codec], and
    [Marshal]/[Unmarshal] with their length checks and error codes. *)
From S2P Require Import Prelude Fault Codec Record.

(** ** Protocol constants (wire.go) *)
Definition Magic : bytes := bs "ESYNC".
Definition ProtocolVersion : Z := 2.
Definition FrameHeaderLen : Z := 5.
Definition MaxFramePlaintext : Z := 2 ^ 20 + 4096.
Definition maxStr : Z := 65535.
Definition maxPathBytes : Z := 4096.
Definition maxDigest : Z := 64.
Definition maxEntryCount : Z := 1024.
Definition maxIndexList : Z := 1024.
Definition maxChunkData : Z := 2 ^ 20.
Definition maxBlob : Z := 4096.
Definition ManifestEntryFixedBytes : Z := 1 + 2 + 2 + 8 + 4 + 8 + 4 + 1.
Definition ManifestEntryLinkTargetPrefix : Z := 2.
Definition ManifestEntryHardlinkKeyBytes : Z := 8.
Definition MaxDigestBytes : Z := maxDigest.
Definition GroupManifestFixedBytes : Z := 4 + 8 + 2.
Definition manifestSafetyMargin : Z := 4096.
Definition MaxGroupManifestFrameBytes : Z := MaxCTControl - PadBlockSize - manifestSafetyMargin.
Definition MaxGroupManifestEntryBytes : Z :=
  MaxGroupManifestFrameBytes - FrameHeaderLen - GroupManifestFixedBytes.

Definition ManifestEntrySize (pathLen digestLen : Z) (isSymlink : bool) (linkTargetLen : Z)
    (hasHardlinkKey : bool) : Z :=
  let n := ManifestEntryFixedBytes + pathLen + digestLen in
  let n := if isSymlink then n + (ManifestEntryLinkTargetPrefix + linkTargetLen) else n in
  if hasHardlinkKey then n + ManifestEntryHardlinkKeyBytes else n.

(** ** Messages (messages.go) *)
Definition ManifestFlagHasHardlinkKey : Z := 1.
Module SessionParams.
Record t := mk { RootName : bytes; SourceKind : Z; HashAlg : Z; GroupBytes : Z; Flags : Z;
  SourcePlatform : Z; PathNorm : Z; SenderVersion : bytes; MaxChannels : Z;
  FilterSignature : bytes; SysexcludeTag : bytes }.
End SessionParams.
Module SessionReady.
Record t := mk { Channels : Z; GroupCredit : Z; PipelineDepth : Z; MaxChunk : Z;
  DestPlatform : Z; ReceiverVersion : bytes; DestFreeBytes : Z }.
End SessionReady.
Module ScanProgress.
Record t := mk { EntriesSeen : Z; BytesSeen : Z; ErrorsSeen : Z }.
End ScanProgress.
Module ScanComplete.
Record t := mk { TotalFiles : Z; TotalBytes : Z; TotalGroups : Z; SkippedEntries : Z;
  ManifestDigest : bytes }.
End ScanComplete.
Module ManifestEntry.
Record t := mk { EntryType : Z; Flags : Z; Path : bytes; Size : Z; Mode : Z; MtimeSec : Z;
  MtimeNsec : Z; Digest : bytes; LinkTarget : bytes; HardlinkKey : Z }.
End ManifestEntry.
Module GroupManifest.
Record t := mk { GroupID : Z; FirstFileID : Z; Entries : list ManifestEntry.t }.
End GroupManifest.
Module RejectedEntry.
Record t := mk { Index : Z; ErrorCode : Z }.
End RejectedEntry.
Module GroupDecision.
Record t := mk { GroupID : Z; Needed : list Z; SkippedCount : Z;
  Rejected : list RejectedEntry.t }.
End GroupDecision.
Module Credit.
Record t := mk { AdditionalGroups : Z }.
End Credit.
Module FileRequest.
Record t := mk { RequestID : Z; FileID : Z; Offset : Z; MaxChunk : Z }.
End FileRequest.
Module FileHeader.
Record t := mk { RequestID : Z; FileID : Z; Size : Z; Mode : Z; MtimeSec : Z;
  MtimeNsec : Z; Digest : bytes; ChunkSize : Z }.
End FileHeader.
Module FileChunk.
Record t := mk { RequestID : Z; Offset : Z; Data : bytes }.
End FileChunk.
Module FileComplete.
Record t := mk { RequestID : Z; BytesSent : Z; DigestFull : bytes }.
End FileComplete.
Module FileError.
Record t := mk { RequestID : Z; Code : Z; Retryable : Z; Message : bytes }.
End FileError.
Module FileCancel.
Record t := mk { RequestID : Z; Reason : Z }.
End FileCancel.
Module SessionSummary.
Record t := mk { FilesTotal : Z; FilesTransferred : Z; FilesSkipped : Z; FilesFailed : Z;
  BytesTransferred : Z; GroupsTotal : Z; CompletionDigest : bytes }.
End SessionSummary.
Module SessionSummaryAck.
Record t := mk { FilesTotal : Z; FilesTransferred : Z; FilesSkipped : Z; FilesFailed : Z;
  BytesTransferred : Z; GroupsTotal : Z; CompletionDigest : bytes }.
End SessionSummaryAck.
Module Error.
Record t := mk { Code : Z; Fatal : Z; Message : bytes; Detail : bytes }.
End Error.
Module Ping.
Record t := mk { Token : Z }.
End Ping.
Module Pong.
Record t := mk { Token : Z }.
End Pong.
Module SessionResume.
Record t := mk { SessionID : Z; Nonce : bytes; Tag : bytes; LastSeqSeen : Z }.
End SessionResume.

(** ** Message types (msgtype.go) *)
Definition MsgSessionParams : Z := 0x01.
Definition MsgSessionReady : Z := 0x02.
Definition MsgScanProgress : Z := 0x10.
Definition MsgScanComplete : Z := 0x11.
Definition MsgGroupManifest : Z := 0x12.
Definition MsgGroupDecision : Z := 0x20.
Definition MsgCredit : Z := 0x21.
Definition MsgFileRequest : Z := 0x30.
Definition MsgFileHeader : Z := 0x31.
Definition MsgFileChunk : Z := 0x32.
Definition MsgFileComplete : Z := 0x33.
Definition MsgFileError : Z := 0x34.
Definition MsgFileCancel : Z := 0x35.
Definition MsgSessionSummary : Z := 0x40.
Definition MsgSessionSummaryAck : Z := 0x41.
Definition MsgError : Z := 0x50.
Definition MsgPing : Z := 0x60.
Definition MsgPong : Z := 0x61.
Definition MsgSessionResume : Z := 0x70.

Definition msgTypeNames : list (Z * string) := [
  (MsgSessionParams, "SESSION_PARAMS"); (MsgSessionReady, "SESSION_READY");
  (MsgScanProgress, "SCAN_PROGRESS"); (MsgScanComplete, "SCAN_COMPLETE");
  (MsgGroupManifest, "GROUP_MANIFEST"); (MsgGroupDecision, "GROUP_DECISION");
  (MsgCredit, "CREDIT"); (MsgFileRequest, "FILE_REQUEST"); (MsgFileHeader, "FILE_HEADER");
  (MsgFileChunk, "FILE_CHUNK"); (MsgFileComplete, "FILE_COMPLETE"); (MsgFileError, "FILE_ERROR");
  (MsgFileCancel, "FILE_CANCEL"); (MsgSessionSummary, "SESSION_SUMMARY");
  (MsgSessionSummaryAck, "SESSION_SUMMARY_ACK"); (MsgError, "ERROR"); (MsgPing, "PING");
  (MsgPong, "PONG"); (MsgSessionResume, "SESSION_RESUME")
]%string.

(** [MsgType.String]. *)
Definition MsgTypeString (t : Z) : string :=
  match List.find (λ p, p.1 =? t) msgTypeNames with
  | Some (_, n) => n
  | None => "UNKNOWN"
  end.

(** The values of the Go interface [Message]. *)
Inductive Message :=
| MSessionParams (v : SessionParams.t)
| MSessionReady (v : SessionReady.t)
| MScanProgress (v : ScanProgress.t)
| MScanComplete (v : ScanComplete.t)
| MGroupManifest (v : GroupManifest.t)
| MGroupDecision (v : GroupDecision.t)
| MCredit (v : Credit.t)
| MFileRequest (v : FileRequest.t)
| MFileHeader (v : FileHeader.t)
| MFileChunk (v : FileChunk.t)
| MFileComplete (v : FileComplete.t)
| MFileError (v : FileError.t)
| MFileCancel (v : FileCancel.t)
| MSessionSummary (v : SessionSummary.t)
| MSessionSummaryAck (v : SessionSummaryAck.t)
| MError (v : Error.t)
| MPing (v : Ping.t)
| MPong (v : Pong.t)
| MSessionResume (v : SessionResume.t).

(** The method [Type]. *)
Definition Type_ (m : Message) : Z :=
  match m with
  | MSessionParams _ => MsgSessionParams
  | MSessionReady _ => MsgSessionReady
  | MScanProgress _ => MsgScanProgress
  | MScanComplete _ => MsgScanComplete
  | MGroupManifest _ => MsgGroupManifest
  | MGroupDecision _ => MsgGroupDecision
  | MCredit _ => MsgCredit
  | MFileRequest _ => MsgFileRequest
  | MFileHeader _ => MsgFileHeader
  | MFileChunk _ => MsgFileChunk
  | MFileComplete _ => MsgFileComplete
  | MFileError _ => MsgFileError
  | MFileCancel _ => MsgFileCancel
  | MSessionSummary _ => MsgSessionSummary
  | MSessionSummaryAck _ => MsgSessionSummaryAck
  | MError _ => MsgError
  | MPing _ => MsgPing
  | MPong _ => MsgPong
  | MSessionResume _ => MsgSessionResume
  end.

(** ** Encoding (frame.go) *)
Definition hasHardlinkKey (flags : Z) : bool :=
  negb (Z.land flags ManifestFlagHasHardlinkKey =? 0).

Definition encodeManifestEntry (e : ManifestEntry.t) : bytes :=
  writer.u8 (ManifestEntry.EntryType e) ++
  writer.u16 (ManifestEntry.Flags e) ++
  writer.blob (ManifestEntry.Path e) ++
  writer.u64 (ManifestEntry.Size e) ++
  writer.u32 (ManifestEntry.Mode e) ++
  writer.i64 (ManifestEntry.MtimeSec e) ++
  writer.u32 (ManifestEntry.MtimeNsec e) ++
  writer.u8 (wrap_u 8 (Z.of_nat (length (ManifestEntry.Digest e)))) ++
  writer.raw (ManifestEntry.Digest e) ++
  (if ManifestEntry.EntryType e =? 2 then writer.blob (ManifestEntry.LinkTarget e) else []) ++
  (if hasHardlinkKey (ManifestEntry.Flags e) then writer.u64 (ManifestEntry.HardlinkKey e) else []).

Definition encodeRejected (rj : RejectedEntry.t) : bytes :=
  writer.u16 (RejectedEntry.Index rj) ++ writer.u16 (RejectedEntry.ErrorCode rj).

Definition encodeSummary (ft ftr fs ff bt gt : Z) (digest : bytes) : bytes :=
  writer.u64 ft ++ writer.u64 ftr ++ writer.u64 fs ++ writer.u64 ff ++ writer.u64 bt ++
  writer.u32 gt ++ writer.blob digest.

Definition encodeBody (m : Message) : bytes :=
  match m with
  | MSessionParams v =>
      writer.str (SessionParams.RootName v) ++
      writer.u8 (SessionParams.SourceKind v) ++
      writer.u8 (SessionParams.HashAlg v) ++
      writer.u64 (SessionParams.GroupBytes v) ++
      writer.u32 (SessionParams.Flags v) ++
      writer.u8 (SessionParams.SourcePlatform v) ++
      writer.u8 (SessionParams.PathNorm v) ++
      writer.str (SessionParams.SenderVersion v) ++
      writer.u32 (SessionParams.MaxChannels v) ++
      writer.str (SessionParams.FilterSignature v) ++
      writer.str (SessionParams.SysexcludeTag v)
  | MSessionReady v =>
      writer.u16 (SessionReady.Channels v) ++
      writer.u16 (SessionReady.GroupCredit v) ++
      writer.u8 (SessionReady.PipelineDepth v) ++
      writer.u32 (SessionReady.MaxChunk v) ++
      writer.u8 (SessionReady.DestPlatform v) ++
      writer.str (SessionReady.ReceiverVersion v) ++
      writer.u64 (SessionReady.DestFreeBytes v)
  | MScanProgress v =>
      writer.u64 (ScanProgress.EntriesSeen v) ++
      writer.u64 (ScanProgress.BytesSeen v) ++
      writer.u32 (ScanProgress.ErrorsSeen v)
  | MScanComplete v =>
      writer.u64 (ScanComplete.TotalFiles v) ++
      writer.u64 (ScanComplete.TotalBytes v) ++
      writer.u32 (ScanComplete.TotalGroups v) ++
      writer.u32 (ScanComplete.SkippedEntries v) ++
      writer.blob (ScanComplete.ManifestDigest v)
  | MGroupManifest v =>
      writer.u32 (GroupManifest.GroupID v) ++
      writer.u64 (GroupManifest.FirstFileID v) ++
      writer.u16 (wrap_u 16 (Z.of_nat (length (GroupManifest.Entries v)))) ++
      mjoin (encodeManifestEntry <$> GroupManifest.Entries v)
  | MGroupDecision v =>
      writer.u32 (GroupDecision.GroupID v) ++
      writer.u16 (wrap_u 16 (Z.of_nat (length (GroupDecision.Needed v)))) ++
      mjoin (writer.u16 <$> GroupDecision.Needed v) ++
      writer.u16 (GroupDecision.SkippedCount v) ++
      writer.u16 (wrap_u 16 (Z.of_nat (length (GroupDecision.Rejected v)))) ++
      mjoin (encodeRejected <$> GroupDecision.Rejected v)
  | MCredit v => writer.u16 (Credit.AdditionalGroups v)
  | MFileRequest v =>
      writer.u64 (FileRequest.RequestID v) ++
      writer.u64 (FileRequest.FileID v) ++
      writer.u64 (FileRequest.Offset v) ++
      writer.u32 (FileRequest.MaxChunk v)
  | MFileHeader v =>
      writer.u64 (FileHeader.RequestID v) ++
      writer.u64 (FileHeader.FileID v) ++
      writer.u64 (FileHeader.Size v) ++
      writer.u32 (FileHeader.Mode v) ++
      writer.i64 (FileHeader.MtimeSec v) ++
      writer.u32 (FileHeader.MtimeNsec v) ++
      writer.u8 (wrap_u 8 (Z.of_nat (length (FileHeader.Digest v)))) ++
      writer.raw (FileHeader.Digest v) ++
      writer.u32 (FileHeader.ChunkSize v)
  | MFileChunk v =>
      writer.u64 (FileChunk.RequestID v) ++
      writer.u64 (FileChunk.Offset v) ++
      writer.u32 (wrap_u 32 (Z.of_nat (length (FileChunk.Data v)))) ++
      writer.raw (FileChunk.Data v)
  | MFileComplete v =>
      writer.u64 (FileComplete.RequestID v) ++
      writer.u64 (FileComplete.BytesSent v) ++
      writer.u8 (wrap_u 8 (Z.of_nat (length (FileComplete.DigestFull v)))) ++
      writer.raw (FileComplete.DigestFull v)
  | MFileError v =>
      writer.u64 (FileError.RequestID v) ++
      writer.u16 (FileError.Code v) ++
      writer.u8 (FileError.Retryable v) ++
      writer.str (FileError.Message v)
  | MFileCancel v =>
      writer.u64 (FileCancel.RequestID v) ++
      writer.u16 (FileCancel.Reason v)
  | MSessionSummary v =>
      encodeSummary (SessionSummary.FilesTotal v) (SessionSummary.FilesTransferred v)
        (SessionSummary.FilesSkipped v) (SessionSummary.FilesFailed v)
        (SessionSummary.BytesTransferred v) (SessionSummary.GroupsTotal v)
        (SessionSummary.CompletionDigest v)
  | MSessionSummaryAck v =>
      encodeSummary (SessionSummaryAck.FilesTotal v) (SessionSummaryAck.FilesTransferred v)
        (SessionSummaryAck.FilesSkipped v) (SessionSummaryAck.FilesFailed v)
        (SessionSummaryAck.BytesTransferred v) (SessionSummaryAck.GroupsTotal v)
        (SessionSummaryAck.CompletionDigest v)
  | MError v =>
      writer.u16 (Error.Code v) ++
      writer.u8 (Error.Fatal v) ++
      writer.str (Error.Message v) ++
      writer.str (Error.Detail v)
  | MPing v => writer.u64 (Ping.Token v)
  | MPong v => writer.u64 (Pong.Token v)
  | MSessionResume v =>
      writer.u64 (SessionResume.SessionID v) ++
      writer.blob (SessionResume.Nonce v) ++
      writer.blob (SessionResume.Tag v) ++
      writer.u64 (SessionResume.LastSeqSeen v)
  end.

(** ** Decoding (frame.go) *)
Definition decodeManifestEntry : rd ManifestEntry.t :=
  EntryType ← reader.u8;
  Flags ← reader.u16;
  Path ← reader.blob maxPathBytes;
  Size ← reader.u64;
  Mode ← reader.u32;
  MtimeSec ← reader.i64;
  MtimeNsec ← reader.u32;
  dl ← reader.u8;
  Digest ← reader.raw dl maxDigest;
  LinkTarget ← (if EntryType =? 2 then reader.blob maxPathBytes else mret []);
  HardlinkKey ← (if hasHardlinkKey Flags then reader.u64 else mret 0);
  mret (ManifestEntry.mk EntryType Flags Path Size Mode MtimeSec MtimeNsec Digest LinkTarget HardlinkKey).

Definition decodeRejected : rd RejectedEntry.t :=
  Index ← reader.u16; ErrorCode ← reader.u16; mret (RejectedEntry.mk Index ErrorCode).

(** [decodeSummary] followed by the construction of either summary message. *)
Definition decodeSummary {A} (mk : Z → Z → Z → Z → Z → Z → bytes → A) : rd A :=
  ft ← reader.u64; ftr ← reader.u64; fs ← reader.u64; ff ← reader.u64; bt ← reader.u64;
  gt ← reader.u32; digest ← reader.blob maxDigest;
  mret (mk ft ftr fs ff bt gt digest).

(** One case of the switch of [decodeBody]; [None] is its default case. *)
Definition decodeCase (t : Z) : option (rd Message) :=
  if t =? MsgSessionParams then Some (
    RootName ← reader.str maxStr;
    SourceKind ← reader.u8;
    HashAlg ← reader.u8;
    GroupBytes ← reader.u64;
    Flags ← reader.u32;
    SourcePlatform ← reader.u8;
    PathNorm ← reader.u8;
    SenderVersion ← reader.str maxStr;
    MaxChannels ← reader.u32;
    FilterSignature ← reader.str maxStr;
    SysexcludeTag ← reader.str maxStr;
    mret (MSessionParams (SessionParams.mk RootName SourceKind HashAlg GroupBytes Flags
            SourcePlatform PathNorm SenderVersion MaxChannels FilterSignature SysexcludeTag)))
  else if t =? MsgSessionReady then Some (
    Channels ← reader.u16;
    GroupCredit ← reader.u16;
    PipelineDepth ← reader.u8;
    MaxChunk ← reader.u32;
    DestPlatform ← reader.u8;
    ReceiverVersion ← reader.str maxStr;
    DestFreeBytes ← reader.u64;
    mret (MSessionReady (SessionReady.mk Channels GroupCredit PipelineDepth MaxChunk DestPlatform
            ReceiverVersion DestFreeBytes)))
  else if t =? MsgScanProgress then Some (
    EntriesSeen ← reader.u64; BytesSeen ← reader.u64; ErrorsSeen ← reader.u32;
    mret (MScanProgress (ScanProgress.mk EntriesSeen BytesSeen ErrorsSeen)))
  else if t =? MsgScanComplete then Some (
    TotalFiles ← reader.u64;
    TotalBytes ← reader.u64;
    TotalGroups ← reader.u32;
    SkippedEntries ← reader.u32;
    ManifestDigest ← reader.blob maxDigest;
    mret (MScanComplete (ScanComplete.mk TotalFiles TotalBytes TotalGroups SkippedEntries ManifestDigest)))
  else if t =? MsgGroupManifest then Some (
    GroupID ← reader.u32;
    FirstFileID ← reader.u64;
    Entries ← counted maxEntryCount decodeManifestEntry;
    mret (MGroupManifest (GroupManifest.mk GroupID FirstFileID Entries)))
  else if t =? MsgGroupDecision then Some (
    GroupID ← reader.u32;
    Needed ← counted maxIndexList reader.u16;
    SkippedCount ← reader.u16;
    Rejected ← counted maxIndexList decodeRejected;
    mret (MGroupDecision (GroupDecision.mk GroupID Needed SkippedCount Rejected)))
  else if t =? MsgCredit then Some (
    AdditionalGroups ← reader.u16; mret (MCredit (Credit.mk AdditionalGroups)))
  else if t =? MsgFileRequest then Some (
    RequestID ← reader.u64; FileID ← reader.u64; Offset ← reader.u64; MaxChunk ← reader.u32;
    mret (MFileRequest (FileRequest.mk RequestID FileID Offset MaxChunk)))
  else if t =? MsgFileHeader then Some (
    RequestID ← reader.u64;
    FileID ← reader.u64;
    Size ← reader.u64;
    Mode ← reader.u32;
    MtimeSec ← reader.i64;
    MtimeNsec ← reader.u32;
    dl ← reader.u8;
    Digest ← reader.raw dl maxDigest;
    ChunkSize ← reader.u32;
    mret (MFileHeader (FileHeader.mk RequestID FileID Size Mode MtimeSec MtimeNsec Digest ChunkSize)))
  else if t =? MsgFileChunk then Some (
    RequestID ← reader.u64;
    Offset ← reader.u64;
    dl ← reader.u32;
    Data ← reader.raw dl maxChunkData;
    mret (MFileChunk (FileChunk.mk RequestID Offset Data)))
  else if t =? MsgFileComplete then Some (
    RequestID ← reader.u64;
    BytesSent ← reader.u64;
    dl ← reader.u8;
    DigestFull ← reader.raw dl maxDigest;
    mret (MFileComplete (FileComplete.mk RequestID BytesSent DigestFull)))
  else if t =? MsgFileError then Some (
    RequestID ← reader.u64;
    Code ← reader.u16;
    Retryable ← reader.u8;
    Message ← reader.str maxStr;
    mret (MFileError (FileError.mk RequestID Code Retryable Message)))
  else if t =? MsgFileCancel then Some (
    RequestID ← reader.u64; Reason ← reader.u16;
    mret (MFileCancel (FileCancel.mk RequestID Reason)))
  else if t =? MsgSessionSummary then Some (
    decodeSummary (λ ft ftr fs ff bt gt d, MSessionSummary (SessionSummary.mk ft ftr fs ff bt gt d)))
  else if t =? MsgSessionSummaryAck then Some (
    decodeSummary (λ ft ftr fs ff bt gt d, MSessionSummaryAck (SessionSummaryAck.mk ft ftr fs ff bt gt d)))
  else if t =? MsgError then Some (
    Code ← reader.u16;
    Fatal ← reader.u8;
    Message ← reader.str maxStr;
    rem ← remaining;
    Detail ← (if 0 <? rem then reader.str maxStr else mret []);
    mret (MError (Error.mk Code Fatal Message Detail)))
  else if t =? MsgPing then Some (Token ← reader.u64; mret (MPing (Ping.mk Token)))
  else if t =? MsgPong then Some (Token ← reader.u64; mret (MPong (Pong.mk Token)))
  else if t =? MsgSessionResume then Some (
    SessionID ← reader.u64;
    Nonce ← reader.blob maxBlob;
    Tag ← reader.blob maxBlob;
    LastSeqSeen ← reader.u64;
    mret (MSessionResume (SessionResume.mk SessionID Nonce Tag LastSeqSeen)))
  else None.

Definition decodeBody (t : Z) (body : bytes) : result gerr Message :=
  match decodeCase t with
  | None => Err (fault E5011 "decode frame" (bs (MsgTypeString t)) None)
  | Some d =>
      let '(m, r) := d (mkReader body 0 false) in
      if rerr r then Err (fault E5003 "decode frame" (bs (MsgTypeString t)) None) else Ok m
  end.

(** ** Frames (wire.go)

    [Marshal] cannot fail on a value of [Message]: the default case of
    [encodeBody] is for a type outside the union. *)
Definition Marshal (m : Message) : bytes :=
  let body := encodeBody m in
  be 1 (Type_ m) ++ be 4 (wrap_u 32 (Z.of_nat (length body))) ++ body.

Definition Unmarshal (plaintext : bytes) : result gerr Message :=
  let n := Z.of_nat (length plaintext) in
  if (n <? FrameHeaderLen) || (MaxFramePlaintext <? n)
  then Err (fault E5010 "decode frame" [] None)
  else
    let t := unbe (slice 0 1 plaintext) in
    let bodyLen := unbe (slice 1 5 plaintext) in
    if negb (bodyLen =? n - FrameHeaderLen)
    then Err (fault E5010 "decode frame" [] None)
    else decodeBody t (drop (Z.to_nat FrameHeaderLen) plaintext).

(** ** Well-formed messages: every field within its declared bound *)
Definition short (max : Z) (s : bytes) : Prop := Z.of_nat (length s) <= max.

Definition wf_entry (e : ManifestEntry.t) : Prop :=
  in_u 8 (ManifestEntry.EntryType e) ∧ in_u 16 (ManifestEntry.Flags e) ∧
  short maxPathBytes (ManifestEntry.Path e) ∧ in_u 64 (ManifestEntry.Size e) ∧
  in_u 32 (ManifestEntry.Mode e) ∧ in_i 64 (ManifestEntry.MtimeSec e) ∧
  in_u 32 (ManifestEntry.MtimeNsec e) ∧ short maxDigest (ManifestEntry.Digest e) ∧
  (if ManifestEntry.EntryType e =? 2 then short maxPathBytes (ManifestEntry.LinkTarget e)
   else ManifestEntry.LinkTarget e = []) ∧
  (if hasHardlinkKey (ManifestEntry.Flags e) then in_u 64 (ManifestEntry.HardlinkKey e)
   else ManifestEntry.HardlinkKey e = 0).

Definition wf_rejected (r : RejectedEntry.t) : Prop :=
  in_u 16 (RejectedEntry.Index r) ∧ in_u 16 (RejectedEntry.ErrorCode r).

Definition wf_summary (ft ftr fs ff bt gt : Z) (d : bytes) : Prop :=
  in_u 64 ft ∧ in_u 64 ftr ∧ in_u 64 fs ∧ in_u 64 ff ∧ in_u 64 bt ∧ in_u 32 gt ∧ short maxDigest d.

Definition wf_message (m : Message) : Prop :=
  match m with
  | MSessionParams (SessionParams.mk rn sk ha gb fl sp pn sv mc fs st) =>
      short maxStr rn ∧ in_u 8 sk ∧ in_u 8 ha ∧ in_u 64 gb ∧ in_u 32 fl ∧ in_u 8 sp ∧ in_u 8 pn ∧
      short maxStr sv ∧ in_u 32 mc ∧ short maxStr fs ∧ short maxStr st
  | MSessionReady (SessionReady.mk ch gc pd mc dp rv fb) =>
      in_u 16 ch ∧ in_u 16 gc ∧ in_u 8 pd ∧ in_u 32 mc ∧ in_u 8 dp ∧ short maxStr rv ∧ in_u 64 fb
  | MScanProgress (ScanProgress.mk e b r) => in_u 64 e ∧ in_u 64 b ∧ in_u 32 r
  | MScanComplete (ScanComplete.mk f b g s d) =>
      in_u 64 f ∧ in_u 64 b ∧ in_u 32 g ∧ in_u 32 s ∧ short maxDigest d
  | MGroupManifest (GroupManifest.mk g f es) =>
      in_u 32 g ∧ in_u 64 f ∧ (Z.of_nat (length es) <= maxEntryCount ∧ Forall wf_entry es)
  | MGroupDecision (GroupDecision.mk g ns k rs) =>
      in_u 32 g ∧ (Z.of_nat (length ns) <= maxIndexList ∧ Forall (in_u 16) ns) ∧ in_u 16 k ∧
      (Z.of_nat (length rs) <= maxIndexList ∧ Forall wf_rejected rs)
  | MCredit (Credit.mk a) => in_u 16 a
  | MFileRequest (FileRequest.mk r f o c) => in_u 64 r ∧ in_u 64 f ∧ in_u 64 o ∧ in_u 32 c
  | MFileHeader (FileHeader.mk r f s m ms mn d c) =>
      in_u 64 r ∧ in_u 64 f ∧ in_u 64 s ∧ in_u 32 m ∧ in_i 64 ms ∧ in_u 32 mn ∧ short maxDigest d ∧ in_u 32 c
  | MFileChunk (FileChunk.mk r o d) => in_u 64 r ∧ in_u 64 o ∧ short maxChunkData d
  | MFileComplete (FileComplete.mk r b d) => in_u 64 r ∧ in_u 64 b ∧ short maxDigest d
  | MFileError (FileError.mk r c y s) => in_u 64 r ∧ in_u 16 c ∧ in_u 8 y ∧ short maxStr s
  | MFileCancel (FileCancel.mk r c) => in_u 64 r ∧ in_u 16 c
  | MSessionSummary (SessionSummary.mk a b c d e f g) => wf_summary a b c d e f g
  | MSessionSummaryAck (SessionSummaryAck.mk a b c d e f g) => wf_summary a b c d e f g
  | MError (Error.mk c f m d) => in_u 16 c ∧ in_u 8 f ∧ short maxStr m ∧ short maxStr d
  | MPing (Ping.mk t) => in_u 64 t
  | MPong (Pong.mk t) => in_u 64 t
  | MSessionResume (SessionResume.mk i n t l) =>
      in_u 64 i ∧ short maxBlob n ∧ short maxBlob t ∧ in_u 64 l
  end.

(** What a decoder consumes for a message: its encoding, or for an [Error]
    from an older peer the encoding without the optional [Detail]. *)
Definition consumed (m : Message) (c : bytes) : Prop :=
  c = encodeBody m ∨
  ∃ code fatal msg, m = MError (Error.mk code fatal msg []) ∧
    c = writer.u16 code ++ writer.u8 fatal ++ writer.str msg.

(** ** Lemmas: the primitive fields in the form the message codecs use *)
Lemma reads_last {A B} (m : rd A) (k : A → rd B) e v w :
  reads m e v → k v = mret w → reads (m ≫= k) e w.
Proof.
  intros Hm Hk. rewrite <- (app_nil_r e). eapply reads_bind; [done|]. rewrite Hk. apply reads_ret.
Qed.

Lemma reads_u8 z : in_u 8 z → reads reader.u8 (writer.u8 z) z.
Proof. apply (reads_uN 1). Qed.
Lemma reads_u16 z : in_u 16 z → reads reader.u16 (writer.u16 z) z.
Proof. apply (reads_uN 2). Qed.
Lemma reads_u32 z : in_u 32 z → reads reader.u32 (writer.u32 z) z.
Proof. apply (reads_uN 4). Qed.
Lemma reads_u64 z : in_u 64 z → reads reader.u64 (writer.u64 z) z.
Proof. apply (reads_uN 8). Qed.

Lemma parses_u8 : parses reader.u8 (λ v c, in_u 8 v ∧ c = writer.u8 v).
Proof. apply (parses_uN 1). Qed.
Lemma parses_u16 : parses reader.u16 (λ v c, in_u 16 v ∧ c = writer.u16 v).
Proof. apply (parses_uN 2). Qed.
Lemma parses_u32 : parses reader.u32 (λ v c, in_u 32 v ∧ c = writer.u32 v).
Proof. apply (parses_uN 4). Qed.
Lemma parses_u64 : parses reader.u64 (λ v c, in_u 64 v ∧ c = writer.u64 v).
Proof. apply (parses_uN 8). Qed.

Lemma reads_str' s : short maxStr s → reads (reader.str maxStr) (writer.str s) s.
Proof. intros H. by apply reads_str. Qed.
Lemma reads_digest s : short maxDigest s → reads (reader.blob maxDigest) (writer.blob s) s.
Proof. intros H. by apply reads_blob. Qed.
Lemma reads_path s : short maxPathBytes s → reads (reader.blob maxPathBytes) (writer.blob s) s.
Proof. intros H. by apply reads_blob. Qed.

Lemma reads_nonce s : short maxBlob s → reads (reader.blob maxBlob) (writer.blob s) s.
Proof. intros H. by apply reads_blob. Qed.

(** A length written at width [w] and the raw bytes after it. *)
Lemma reads_sized {B} n max s (k : bytes → rd B) e w :
  short max s → max < 2 ^ (8 * Z.of_nat n) → reads (k s) e w →
  reads (dl ← uN n; d ← reader.raw dl max; k d)
    (be n (wrap_u (8 * Z.of_nat n) (Z.of_nat (length s))) ++ s ++ e) w.
Proof.
  intros Hs Hm Hk. unfold short in Hs. rewrite wrap_u_id by (unfold in_u; lia).
  eapply reads_bind; [apply reads_uN; unfold in_u; lia|].
  eapply reads_bind; [by apply reads_raw|done].
Qed.

Lemma reads_sized_last {B} n max s (k : bytes → rd B) w :
  short max s → max < 2 ^ (8 * Z.of_nat n) → k s = mret w →
  reads (dl ← uN n; d ← reader.raw dl max; k d)
    (be n (wrap_u (8 * Z.of_nat n) (Z.of_nat (length s))) ++ s) w.
Proof.
  intros Hs Hm Hk. rewrite <- (app_nil_r s) at 2.
  apply reads_sized; [done..|]. rewrite Hk. apply reads_ret.
Qed.

Lemma parses_sized {B} n max (k : bytes → rd B) R :
  (∀ d, parses (k d) (λ w c, short max d →
     R w ((be n (wrap_u (8 * Z.of_nat n) (Z.of_nat (length d))) ++ d) ++ c))) →
  parses (dl ← uN n; d ← reader.raw dl max; k d) R.
Proof.
  intros Hk. eapply parses_bind; [apply parses_uN|]. intros dl.
  eapply parses_bind; [apply parses_raw|]. intros d.
  eapply parses_weaken; [apply Hk|]. intros w c HR c1 (-> & Hl & Hm) c2 [Hn ->].
  rewrite Hl, wrap_u_id, <- app_assoc in HR by done. apply HR. unfold short. lia.
Qed.

Lemma parses_str' : parses (reader.str maxStr) (λ s c, short maxStr s ∧ c = writer.str s).
Proof. eapply parses_weaken; [apply parses_str|]. unfold short, maxStr. intros s c [? ->]. split; [lia|done]. Qed.
Lemma parses_blob' max : parses (reader.blob max) (λ s c, short max s ∧ c = writer.blob s).
Proof. eapply parses_weaken; [apply parses_blob|]. unfold short. intros s c [? ->]. split; [lia|done]. Qed.

#[export] Hint Resolve reads_u8 reads_u16 reads_u32 reads_u64 reads_str' reads_digest reads_path reads_nonce reads_i64 : esync.

(** One field of a message decoder, on either law. *)
Ltac field_read :=
  first
    [ eapply reads_sized_last; [eassumption|done|done]
    | eapply reads_sized; [eassumption|done|]
    | eapply reads_last; [solve [eauto with esync nocore]|]
    | eapply reads_bind; [solve [eauto with esync nocore]|] ].
Ltac parse_prim :=
  first [ apply parses_u8 | apply parses_u16 | apply parses_u32 | apply parses_u64
        | apply parses_i64 | apply parses_str' | apply parses_blob' ].
Ltac field_parse :=
  first
    [ apply parses_sized; intros ?
    | eapply parses_bind; [solve [parse_prim]|]; intros ? ].
(** At the final [mret]: collect what each field established. *)
Ltac parse_end :=
  eapply parses_weaken; [apply parses_ret|];
  intros ? ? [-> ->];
  repeat match goal with
  | |- ∀ c, _ ∧ c = _ → _ => intros ? [? ->]
  | |- short _ _ → _ => intros ?
  end.

(** ** Manifest entries *)
Lemma reads_entry e : wf_entry e → reads decodeManifestEntry (encodeManifestEntry e) e.
Proof.
  destruct e as [ty fl p sz md ms mn d lt hk].
  unfold wf_entry, encodeManifestEntry, decodeManifestEntry; simpl.
  intros (? & ? & ? & ? & ? & ? & ? & ? & Hl & Hh).
  do 7 field_read. unfold writer.raw, writer.u8, reader.u8. eapply (reads_sized 1); [done..|].
  eapply reads_bind with (v := lt).
  { destruct (ty =? 2); [by auto with esync nocore|]. subst lt. apply reads_ret. }
  eapply reads_last with (v := hk); [|done].
  destruct (hasHardlinkKey fl); [by auto with esync nocore|]. subst hk. apply reads_ret.
Qed.

Lemma parses_entry : parses decodeManifestEntry (λ e c, wf_entry e ∧ c = encodeManifestEntry e).
Proof.
  unfold decodeManifestEntry. do 7 field_parse.
  apply (parses_sized 1). intros d.
  eapply parses_bind with (Q := λ lt c, (if v =? 2 then short maxPathBytes lt else lt = []) ∧
                                      c = if v =? 2 then writer.blob lt else []).
  { destruct (v =? 2); [apply parses_blob'|apply parses_ret]. }
  intros lt.
  eapply parses_bind with (Q := λ hk c, (if hasHardlinkKey v0 then in_u 64 hk else hk = 0) ∧
                                      c = if hasHardlinkKey v0 then writer.u64 hk else []).
  { destruct (hasHardlinkKey v0); [apply parses_u64|apply parses_ret]. }
  intros hk. parse_end. unfold wf_entry, encodeManifestEntry; simpl.
  split; [by split_and!|]. unfold writer.raw, writer.u8. rewrite app_nil_r, <- !app_assoc. done.
Qed.

Lemma reads_rejected r : wf_rejected r → reads decodeRejected (encodeRejected r) r.
Proof.
  destruct r as [i c]. unfold wf_rejected, encodeRejected, decodeRejected; simpl. intros [? ?].
  do 2 field_read. done.
Qed.

Lemma parses_rejected : parses decodeRejected (λ r c, wf_rejected r ∧ c = encodeRejected r).
Proof.
  unfold decodeRejected. do 2 field_parse. parse_end.
  unfold encodeRejected; simpl. split; [done|]. by rewrite app_nil_r.
Qed.

(** ** The body codec *)
Lemma reads_remaining {A B} (m f : rd A) (k : A → rd B) e w :
  e ≠ [] → reads (m ≫= k) e w → reads (n ← remaining; d ← (if 0 <? n then m else f); k d) e w.
Proof.
  intros Hne Hm r tail Hok Hr. pose proof (rest_length _ _ _ Hok Hr) as Hl.
  rewrite <- (Hm r tail Hok Hr). unfold mbind, rd_bind, remaining.
  destruct Hok as [He Hw]. rewrite He.
  rewrite (proj2 (Z.ltb_lt _ _)); [done|]. destruct e; [done|]. cbn [length] in Hl. lia.
Qed.

Lemma writer_str_nonempty s : writer.str s ≠ [].
Proof.
  intros E. apply (f_equal length) in E. unfold writer.str, writer.u16 in E.
  rewrite length_app, length_be in E. cbn [length] in E. lia.
Qed.

Lemma reads_enc_list {A B} (d : rd A) (enc : A → bytes) max vs (k : list A → rd B) e w :
  Forall (λ v, reads d (enc v) v) vs → Z.of_nat (length vs) <= max → max <= 65535 →
  reads (k vs) e w → reads (counted max d ≫= k)
    (writer.u16 (wrap_u 16 (Z.of_nat (length vs))) ++ mjoin (enc <$> vs) ++ e) w.
Proof.
  intros Hvs Hl Hm Hk. rewrite app_assoc.
  eapply reads_bind; [by apply reads_counted|done].
Qed.

Lemma decodeBody_encodeBody m tail :
  wf_message m → decodeBody (Type_ m) (encodeBody m ++ tail) = Ok m.
Proof.
  intros Hwf.
  cut (∃ d, decodeCase (Type_ m) = Some d ∧ reads d (encodeBody m) m).
  { intros (d & Hd & Hr). unfold decodeBody. rewrite Hd.
    rewrite (Hr (mkReader (encodeBody m ++ tail) 0 false) tail); [done| |done].
    split; [done|]. unfold wf; simpl; lia. }
  destruct m as [[]|[]|[]|[]|[]|[]|[]|[]|[]|[]|[]|[]|[]|[]|[]|[]|[]|[]|[]]; simpl in Hwf;
    try unfold wf_summary in Hwf; try (eexists; split; [reflexivity|]); destruct_and?; simpl;
    try (unfold encodeSummary, decodeSummary); try (solve [repeat field_read; done]).
  - (* GroupManifest *)
    do 2 field_read. rewrite <- (app_nil_r (mjoin _)).
    eapply reads_enc_list; [|done..|apply reads_ret].
    eapply Forall_impl; [done|]. apply reads_entry.
  - (* GroupDecision *)
    field_read. rewrite <- (app_nil_r (mjoin (encodeRejected <$> _))).
    eapply reads_enc_list; [|done..|].
    { eapply Forall_impl; [done|]. apply reads_u16. }
    field_read. eapply reads_enc_list; [|done..|apply reads_ret].
    eapply Forall_impl; [done|]. apply reads_rejected.
  - (* Error *)
    do 3 field_read. apply reads_remaining; [apply writer_str_nonempty|]. by field_read.
Qed.

Lemma parses_remaining {A B} (m f : rd A) (k : A → rd B) R1 R2 R :
  parses (m ≫= k) R1 → parses (f ≫= k) R2 → (∀ w c, R1 w c ∨ R2 w c → R w c) →
  parses (n ← remaining; d ← (if 0 <? n then m else f); k d) R.
Proof.
  intros H1 H2 HR r w r' Hw E. unfold mbind at 1, rd_bind at 1, remaining in E. cbn in E.
  destruct (0 <? _).
  - by apply (parses_weaken _ _ R H1 ltac:(auto)) in E.
  - by apply (parses_weaken _ _ R H2 ltac:(auto)) in E.
Qed.

Lemma parses_enc_list {A B} (d : rd A) (P : A → Prop) (enc : A → bytes) max (k : list A → rd B) R :
  parses d (λ v c, P v ∧ c = enc v) → 0 <= max <= 65535 →
  (∀ vs, parses (k vs) (λ w c, ∀ c1, (Z.of_nat (length vs) <= max ∧ Forall P vs) ∧
     c1 = writer.u16 (wrap_u 16 (Z.of_nat (length vs))) ++ mjoin (enc <$> vs) → R w (c1 ++ c))) →
  parses (counted max d ≫= k) R.
Proof.
  intros Hd Hm Hk. eapply parses_bind; [by apply (parses_counted d P enc); [|lia]|].
  intros vs. eapply parses_weaken; [apply Hk|]. intros w c HR c1 (Hl & HP & ->).
  apply HR. split; [|done]. split; [lia|done].
Qed.

Definition decoded (t : Z) (m : Message) (c : bytes) : Prop :=
  Type_ m = t ∧ wf_message m ∧ consumed m c.

(** Close the final goal of a case: types agree, fields are bounded, bytes match. *)
Ltac decoded_end :=
  parse_end; unfold decoded, consumed;
  (split; [done|split; [cbn; unfold wf_summary; cbn; first [done | by destruct_and?; split_and!]|]]);
  left; cbn [encodeBody]; unfold encodeSummary; cbn;
  unfold writer.raw, writer.u8, writer.u16, writer.u32; rewrite ?app_nil_r, <- ?app_assoc; reflexivity.

Lemma parses_case t d : decodeCase t = Some d → parses d (decoded t).
Proof.
  unfold decodeCase. intros E.
  repeat match type of E with
  | (if ?b =? ?c then Some _ else _) = _ =>
      destruct (Z.eqb_spec b c) as [->|?]; [injection E as <-|]
  end; [..|discriminate E]; try unfold decodeSummary;
    try (solve [repeat field_parse; decoded_end]).
  - (* GroupManifest *)
    do 2 field_parse. eapply parses_enc_list; [apply parses_entry|done|]. intros vs. decoded_end.
  - (* GroupDecision *)
    field_parse. eapply parses_enc_list; [apply parses_u16|done|]. intros vs.
    field_parse. eapply parses_enc_list; [apply parses_rejected|done|]. intros rs. decoded_end.
  - (* Error *)
    do 3 field_parse.
    apply (parses_remaining _ _ _
      (λ w c, ∃ dt, (short maxStr dt ∧ c = writer.str dt) ∧ w = MError (Error.mk v v0 v1 dt))
      (λ w c, w = MError (Error.mk v v0 v1 []) ∧ c = [])).
    + eapply parses_bind; [apply parses_str'|]. intros dt. eapply parses_weaken; [apply parses_ret|].
      intros w c [-> ->] c1 [? ->]. exists dt. by rewrite app_nil_r.
    + apply parses_ret.
    + intros w c [(dt & [? ->] & ->)|[-> ->]] c1 [? ->] c2 [? ->] c3 [? ->]; unfold decoded, consumed.
      * split_and!; [done|by cbn|left; cbn; by rewrite <- ?app_assoc].
      * split_and!; [done|by cbn|right]. exists v, v0, v1. by rewrite app_nil_r, <- ?app_assoc.
Qed.

Lemma decodeBody_sound t body m :
  decodeBody t body = Ok m →
  Type_ m = t ∧ wf_message m ∧ ∃ c tail, body = c ++ tail ∧ consumed m c.
Proof.
  unfold decodeBody. destruct (decodeCase t) as [d|] eqn:Ed; [|done].
  apply parses_case in Ed. destruct (d _) as [m' r] eqn:E.
  apply Ed in E as (_ & _ & _ & _ & Hs); [|unfold wf; cbn; lia].
  destruct (rerr r); [done|]. intros [= <-].
  destruct Hs as (c & Hb & _ & Ht & Hw & Hc); [done|].
  split_and!; [done..|]. by exists c, (rest r).
Qed.

(** *** Sizes *)
Lemma length_str s : Z.of_nat (length (writer.str s)) = 2 + Z.of_nat (length s).
Proof. unfold writer.str, writer.u16. rewrite length_app, length_be. lia. Qed.

Lemma length_entry e :
  Z.of_nat (length (encodeManifestEntry e)) =
  ManifestEntrySize (Z.of_nat (length (ManifestEntry.Path e)))
    (Z.of_nat (length (ManifestEntry.Digest e))) (ManifestEntry.EntryType e =? 2)
    (Z.of_nat (length (ManifestEntry.LinkTarget e))) (hasHardlinkKey (ManifestEntry.Flags e)).
Proof.
  unfold encodeManifestEntry, ManifestEntrySize, ManifestEntryFixedBytes,
    ManifestEntryLinkTargetPrefix, ManifestEntryHardlinkKeyBytes.
  unfold writer.u8, writer.u16, writer.u32, writer.u64, writer.i64, writer.raw, writer.blob.
  rewrite !length_app. unfold writer.u16, writer.u64. rewrite !length_be.
  destruct (_ =? 2), (hasHardlinkKey _); rewrite ?length_app, ?length_be; cbn [length]; lia.
Qed.

Lemma Type_range m : in_u 8 (Type_ m).
Proof. by destruct m. Qed.

Lemma length_Marshal m :
  Z.of_nat (length (Marshal m)) = FrameHeaderLen + Z.of_nat (length (encodeBody m)).
Proof. unfold Marshal, FrameHeaderLen. rewrite !length_app, !length_be. lia. Qed.

Lemma length_GroupManifest g f es :
  Z.of_nat (length (Marshal (MGroupManifest (GroupManifest.mk g f es)))) =
  FrameHeaderLen + GroupManifestFixedBytes + Z.of_nat (length (mjoin (encodeManifestEntry <$> es))).
Proof.
  rewrite length_Marshal. cbn [encodeBody GroupManifest.Entries].
  unfold writer.u32, writer.u64, writer.u16. rewrite !length_app, !length_be.
  unfold GroupManifestFixedBytes. lia.
Qed.

Lemma frame_split t n body :
  in_u 8 t → in_u 32 n →
  let p := be 1 t ++ be 4 n ++ body in
  unbe (slice 0 1 p) = t ∧ unbe (slice 1 5 p) = n ∧ drop 5 p = body.
Proof.
  intros Ht Hn p. unfold p. split_and!.
  - pose proof (slice_app [] (be 1 t) (be 4 n ++ body) 0 1 eq_refl) as E.
    rewrite app_nil_l in E. rewrite E by (by rewrite length_be). by apply unbe_be_id.
  - rewrite (slice_app (be 1 t) (be 4 n)) by (rewrite ?length_be; done). by apply unbe_be_id.
  - rewrite app_assoc, drop_app_length'; [done|]. by rewrite length_app, !length_be.
Qed.

Lemma frame_join p :
  (5 <= length p)%nat → p = be 1 (unbe (slice 0 1 p)) ++ be 4 (unbe (slice 1 5 p)) ++ drop 5 p.
Proof.
  intros Hl. do 5 (destruct p as [|? p]; [simpl in Hl; lia|]).
  change (slice 0 1 _) with [b]. change (slice 1 5 _) with [b0; b1; b2; b3]. change (drop 5 _) with p.
  pose proof (be_unbe [b]) as E1. pose proof (be_unbe [b0; b1; b2; b3]) as E2. cbn [length] in E1, E2.
  by rewrite E1, E2.
Qed.

(** A type with a decoder is the type of some message. *)
Lemma decodeCase_known t d : decodeCase t = Some d → ∃ m, Type_ m = t.
Proof.
  unfold decodeCase. intros E.
  repeat match type of E with
  | (if ?b =? ?c then Some _ else _) = _ =>
      destruct (Z.eqb_spec b c) as [->|?]; [clear E|]
  end; [..|discriminate E].
  - by exists (MSessionParams (SessionParams.mk [] 0 0 0 0 0 0 [] 0 [] [])).
  - by exists (MSessionReady (SessionReady.mk 0 0 0 0 0 [] 0)).
  - by exists (MScanProgress (ScanProgress.mk 0 0 0)).
  - by exists (MScanComplete (ScanComplete.mk 0 0 0 0 [])).
  - by exists (MGroupManifest (GroupManifest.mk 0 0 [])).
  - by exists (MGroupDecision (GroupDecision.mk 0 [] 0 [])).
  - by exists (MCredit (Credit.mk 0)).
  - by exists (MFileRequest (FileRequest.mk 0 0 0 0)).
  - by exists (MFileHeader (FileHeader.mk 0 0 0 0 0 0 [] 0)).
  - by exists (MFileChunk (FileChunk.mk 0 0 [])).
  - by exists (MFileComplete (FileComplete.mk 0 0 [])).
  - by exists (MFileError (FileError.mk 0 0 0 [])).
  - by exists (MFileCancel (FileCancel.mk 0 0)).
  - by exists (MSessionSummary (SessionSummary.mk 0 0 0 0 0 0 [])).
  - by exists (MSessionSummaryAck (SessionSummaryAck.mk 0 0 0 0 0 0 [])).
  - by exists (MError (Error.mk 0 0 [] [])).
  - by exists (MPing (Ping.mk 0)).
  - by exists (MPong (Pong.mk 0)).
  - by exists (MSessionResume (SessionResume.mk 0 [] [] 0)).
Qed.

Lemma unmarshal_frame m :
  wf_message m → Z.of_nat (length (Marshal m)) <= MaxFramePlaintext → Unmarshal (Marshal m) = Ok m.
Proof.
  intros Hwf Hmax. pose proof (length_Marshal m) as Hl. unfold Unmarshal.
  unfold MaxFramePlaintext, FrameHeaderLen in *.
  rewrite (proj2 (Z.ltb_ge _ 5)), (proj2 (Z.ltb_ge _ (Z.of_nat (length (Marshal m))))) by lia.
  cbn [orb]. unfold Marshal at 1 3 4. rewrite (wrap_u_id 32) by (unfold in_u; lia).
  destruct (frame_split (Type_ m) (Z.of_nat (length (encodeBody m))) (encodeBody m)) as (-> & -> & E);
    [apply Type_range|unfold in_u; lia|].
  rewrite (proj2 (Z.eqb_eq _ _)) by lia. cbn [negb].
  change (Z.to_nat 5) with 5%nat. rewrite E, <- (app_nil_r (encodeBody m)).
  by apply decodeBody_encodeBody.
Qed.

(** ** Properties *)

(** C27: every message whose fields are within their declared widths and bounds
    and whose frame fits [MaxFramePlaintext] is decoded to itself from the
    frame [Marshal] makes of it. *)
Theorem unmarshal_marshal m :
  wf_message m → Z.of_nat (length (Marshal m)) <= MaxFramePlaintext →
  Unmarshal (Marshal m) = Ok m.
Proof.
  apply unmarshal_frame.
Qed.

(** C28: whatever [Unmarshal] accepts is a frame of between 5 and
    [MaxFramePlaintext] bytes whose length field is exact, and the message it
    returns is of the type the frame names, has every field within its declared
    bound (strings, digests, paths, list counts: nothing hostile gets through),
    and is the decoding of the bytes [Marshal] would emit for it, up to bytes
    appended after the last known field and the optional [Detail]. *)
Theorem unmarshal_sound p m :
  Unmarshal p = Ok m →
  wf_message m ∧ FrameHeaderLen <= Z.of_nat (length p) <= MaxFramePlaintext ∧
  ∃ c tail, p = be 1 (Type_ m) ++ be 4 (Z.of_nat (length (c ++ tail))) ++ c ++ tail ∧ consumed m c.
Proof.
  unfold Unmarshal. destruct (_ || _) eqn:E1; [done|].
  destruct (negb _) eqn:E2; [done|]. bool_to_prop. intros Hd.
  apply decodeBody_sound in Hd as (Ht & Hw & c & tail & Hb & Hc).
  split_and!; [done|lia|lia|]. exists c, tail. split; [|done].
  unfold FrameHeaderLen in *. change (Z.to_nat 5) with 5%nat in *.
  rewrite Ht, <- Hb, length_drop. rewrite Nat2Z.inj_sub by lia.
  change (Z.of_nat 5) with 5. rewrite <- E2. apply frame_join. lia.
Qed.

(** The error code of a rejected frame says what was wrong with it: E5010
    exactly for a bad frame length, E5011 exactly for an unknown type in a
    well-framed plaintext, E5003 for every other malformed body. *)
Theorem unmarshal_error p e :
  Unmarshal p = Err e →
  let n := Z.of_nat (length p) in
  let framed := FrameHeaderLen <= n <= MaxFramePlaintext ∧ unbe (slice 1 5 p) = n - FrameHeaderLen in
  (GetCode e = E5010 ∧ ¬ framed) ∨
  (GetCode e = E5011 ∧ framed ∧ ∀ m, Type_ m ≠ unbe (slice 0 1 p)) ∨
  (GetCode e = E5003 ∧ framed ∧ ∃ m, Type_ m = unbe (slice 0 1 p)).
Proof.
  unfold Unmarshal. cbn zeta. destruct (_ || _) eqn:E1.
  { intros [= <-]. left. split; [done|]. apply orb_true_iff in E1 as [E|E]; bool_to_prop; lia. }
  destruct (negb _) eqn:E2; bool_to_prop.
  { intros [= <-]. left. split; [done|]. lia. }
  unfold decodeBody. destruct (decodeCase _) as [d|] eqn:Ed.
  - destruct (d _) as [m' r]. destruct (rerr r); [|done]. intros [= <-].
    right; right. split_and!; [done|lia|lia|lia|]. by apply decodeCase_known in Ed.
  - intros [= <-]. right; left. split_and!; [done|lia|lia|lia|]. intros m Em.
    rewrite <- Em in Ed. by destruct m.
Qed.

(** *** Witnesses *)
Definition ex_entry : ManifestEntry.t :=
  ManifestEntry.mk 2 1 (bs "a/link") 0 511 (-1) 5 [] (bs "target") 77.
Definition ex_message : Message :=
  MGroupManifest (GroupManifest.mk 3 4096 [ex_entry; ex_entry]).

Lemma unmarshal_marshal_witness : Unmarshal (Marshal ex_message) = Ok ex_message.
Proof.
  apply (unmarshal_marshal ex_message); [|by vm_compute].
  cbn. unfold in_u, in_i, short. split_and!; try done.
  repeat constructor; vm_compute; done.
Defined.

Lemma unmarshal_sound_witness :
  wf_message ex_message ∧ Z.of_nat (length (Marshal ex_message)) <= MaxFramePlaintext.
Proof.
  destruct (unmarshal_sound (Marshal ex_message) ex_message) as (Hw & Hl & _);
    [by vm_compute|]. by split; [|apply Hl].
Defined.

Lemma unmarshal_error_witness : GetCode (fault E5011 "decode frame" (bs "UNKNOWN") None) = E5011.
Proof.
  destruct (unmarshal_error (be 1 0x77 ++ be 4 0) (fault E5011 "decode frame" (bs "UNKNOWN") None))
    as [[E _]|[[E _]|[E _]]]; [by vm_compute|discriminate E|exact E|discriminate E].
Defined.
