(* ===== verification/HandshakeWire.v ===== *)
(** * HandshakeWire: the cleartext wire forms (src/internal/wire/handshake.go)

    The six messages sent before any key is installed.  A Go array [[n]byte] is
    a byte list of that length: [copy(h.F[:], b[i:j])] of a slice of the right
    length stores the slice, and the decoders check the whole length first. *)
From S2P Require Import Prelude Fault Codec Record Wire.

Definition ClientHelloLen : nat := length Magic + 1 + 8 + 32 + 32.
Definition ServerHelloLen : nat := 1 + 32 + 32.
Definition ConfirmLen : nat := 32.
Definition ChannelJoinLen : nat := length Magic + 1 + 8 + 1 + 16 + 32.
Definition ChannelAcceptLen : nat := 32.

Definition badHandshake (op : string) : gerr := fault E5003 op [] None.

(** [b[p]]. *)
Definition at_ (p : nat) (b : bytes) : Z := unbe (slice p (p + 1) b).

Record ClientHello := mkClientHello { ch_Version : Z; ch_SessionID : bytes; ch_NonceC : bytes; ch_Pc : bytes }.
Definition encodeClientHello (h : ClientHello) : bytes :=
  writer.raw Magic ++ writer.u8 (ch_Version h) ++ writer.raw (ch_SessionID h) ++
  writer.raw (ch_NonceC h) ++ writer.raw (ch_Pc h).
Definition DecodeClientHello (b : bytes) : result gerr ClientHello :=
  if negb (length b =? ClientHelloLen)%nat || negb (bool_decide (take (length Magic) b = Magic))
  then Err (badHandshake "decode CLIENT_HELLO")
  else
    let p := length Magic in
    Ok (mkClientHello (at_ p b) (slice (p + 1) (p + 9) b) (slice (p + 9) (p + 41) b)
          (slice (p + 41) (p + 73) b)).

Record ServerHello := mkServerHello { sh_Version : Z; sh_NonceS : bytes; sh_Ps : bytes }.
Definition encodeServerHello (h : ServerHello) : bytes :=
  writer.u8 (sh_Version h) ++ writer.raw (sh_NonceS h) ++ writer.raw (sh_Ps h).
Definition DecodeServerHello (b : bytes) : result gerr ServerHello :=
  if negb (length b =? ServerHelloLen)%nat then Err (badHandshake "decode SERVER_HELLO")
  else Ok (mkServerHello (at_ 0 b) (slice 1 33 b) (slice 33 65 b)).

(** [ServerConfirm], [ClientConfirm] and [ChannelAccept] are a bare 32-byte tag. *)
Record ServerConfirm := mkServerConfirm { sc_Tag : bytes }.
Definition encodeServerConfirm (c : ServerConfirm) : bytes := sc_Tag c.
Definition DecodeServerConfirm (b : bytes) : result gerr ServerConfirm :=
  if negb (length b =? ConfirmLen)%nat then Err (badHandshake "decode SERVER_CONFIRM")
  else Ok (mkServerConfirm b).

Record ClientConfirm := mkClientConfirm { cc_Tag : bytes }.
Definition encodeClientConfirm (c : ClientConfirm) : bytes := cc_Tag c.
Definition DecodeClientConfirm (b : bytes) : result gerr ClientConfirm :=
  if negb (length b =? ConfirmLen)%nat then Err (badHandshake "decode CLIENT_CONFIRM")
  else Ok (mkClientConfirm b).

Record ChannelJoin := mkChannelJoin {
  cj_Version : Z; cj_SessionID : bytes; cj_ChannelID : Z; cj_NonceCh : bytes; cj_Tag : bytes }.
Definition encodeChannelJoin (j : ChannelJoin) : bytes :=
  writer.raw Magic ++ writer.u8 (cj_Version j) ++ writer.raw (cj_SessionID j) ++
  writer.u8 (cj_ChannelID j) ++ writer.raw (cj_NonceCh j) ++ writer.raw (cj_Tag j).
Definition DecodeChannelJoin (b : bytes) : result gerr ChannelJoin :=
  if negb (length b =? ChannelJoinLen)%nat || negb (bool_decide (take (length Magic) b = Magic))
  then Err (badHandshake "decode CHANNEL_JOIN")
  else
    let p := length Magic in
    Ok (mkChannelJoin (at_ p b) (slice (p + 1) (p + 9) b) (at_ (p + 9) b)
          (slice (p + 10) (p + 26) b) (slice (p + 26) (p + 58) b)).

Record ChannelAccept := mkChannelAccept { ca_Tag : bytes }.
Definition encodeChannelAccept (a : ChannelAccept) : bytes := ca_Tag a.
Definition DecodeChannelAccept (b : bytes) : result gerr ChannelAccept :=
  if negb (length b =? ChannelAcceptLen)%nat then Err (badHandshake "decode CHANNEL_ACCEPT")
  else Ok (mkChannelAccept b).

(** ** Fields of a concatenation *)

(** [field i j b s]: [s] is the slice [i:j] of [b]. *)
Lemma slice_here (s c : bytes) n : n = length s → slice 0 n (s ++ c) = s.
Proof. intros ->. by apply (slice_app [] s c). Qed.

Lemma slice_skip (a c : bytes) i j :
  (length a <= i)%nat → (i <= j)%nat →
  slice i j (a ++ c) = slice (i - length a) (j - length a) c.
Proof.
  intros Hi Hj. unfold slice. rewrite drop_app_ge by done. f_equal. lia.
Qed.

Lemma take_magic c : take (length Magic) (Magic ++ c) = Magic.
Proof. apply take_app_length. Qed.

Lemma at_here z c : in_u 8 z → at_ 0 (writer.u8 z ++ c) = z.
Proof.
  intros Hz. unfold at_, writer.u8. rewrite slice_here by (by rewrite length_be). by apply unbe_be_id.
Qed.

Lemma at_skip (a c : bytes) p : (length a <= p)%nat → at_ p (a ++ c) = at_ (p - length a) c.
Proof.
  intros Hp. unfold at_. rewrite slice_skip by lia. by replace (p + 1 - length a)%nat with (p - length a + 1)%nat by lia.
Qed.

Lemma u8_length z : length (writer.u8 z) = 1%nat.
Proof. apply length_be. Qed.

Lemma at_head b p : (p < length b)%nat → writer.u8 (at_ p b) = slice p (p + 1) b.
Proof.
  intros Hp. unfold at_, writer.u8.
  rewrite <- (be_unbe (slice p (p + 1) b)) at 2. f_equal.
  unfold slice. rewrite length_take, length_drop. lia.
Qed.

Lemma slice_cat (b : bytes) i j k :
  (i <= j)%nat → (j <= k)%nat → slice i j b ++ slice j k b = slice i k b.
Proof.
  intros Hij Hjk. unfold slice.
  replace (drop j b) with (drop (j - i) (drop i b)) by (rewrite drop_drop; f_equal; lia).
  replace (k - i)%nat with ((j - i) + (k - j))%nat by lia.
  by rewrite take_take_drop.
Qed.

Lemma slice_all (b : bytes) n : length b = n → slice 0 n b = b.
Proof. intros <-. unfold slice. rewrite drop_0, Nat.sub_0_r. apply take_ge. lia. Qed.

Lemma length_slice (b : bytes) i j : (j <= length b)%nat → length (slice i j b) = (j - i)%nat.
Proof. intros Hj. unfold slice. rewrite length_take, length_drop. lia. Qed.

(** ** The codecs are inverse to each other *)
Definition hello_ok (h : ClientHello) : Prop :=
  in_u 8 (ch_Version h) ∧ length (ch_SessionID h) = 8%nat ∧ length (ch_NonceC h) = 32%nat ∧
  length (ch_Pc h) = 32%nat.
Definition server_hello_ok (h : ServerHello) : Prop :=
  in_u 8 (sh_Version h) ∧ length (sh_NonceS h) = 32%nat ∧ length (sh_Ps h) = 32%nat.
Definition join_ok (j : ChannelJoin) : Prop :=
  in_u 8 (cj_Version j) ∧ length (cj_SessionID j) = 8%nat ∧ in_u 8 (cj_ChannelID j) ∧
  length (cj_NonceCh j) = 16%nat ∧ length (cj_Tag j) = 32%nat.

Lemma at_range p b : (p < length b)%nat → in_u 8 (at_ p b).
Proof. intros Hp. unfold at_. apply (unbe_in_u _ 1). rewrite length_slice by lia. lia. Qed.

(** Lengths of concatenations of fields of known length. *)
Ltac sizes :=
  change (length Magic) with 5%nat in *; unfold writer.raw;
  rewrite ?length_app, ?u8_length; change (length Magic) with 5%nat;
  repeat match goal with E : length _ = _ |- _ => rewrite E end; try done; try lia.

(** Read a field: skip the fields before it. *)
Ltac field_at :=
  repeat (first
    [ rewrite at_here by done
    | rewrite slice_here by sizes
    | rewrite slice_all by sizes
    | rewrite at_skip by sizes
    | rewrite slice_skip by sizes ];
    change (length Magic) with 5%nat; rewrite ?u8_length;
    repeat match goal with E : length ?x = _ |- context [length ?x] => rewrite E end;
    cbn [Nat.sub Nat.add]).

Lemma ClientHello_decode_encode h : hello_ok h → DecodeClientHello (encodeClientHello h) = Ok h.
Proof.
  destruct h as [v sid n p]. intros (Hv & Hs & Hn & Hp); cbn in Hv, Hs, Hn, Hp.
  unfold DecodeClientHello, encodeClientHello; cbn [ch_Version ch_SessionID ch_NonceC ch_Pc].
  rewrite (proj2 (Nat.eqb_eq _ _)) by sizes. unfold writer.raw.
  rewrite bool_decide_true by apply take_magic. cbn [negb orb].
  f_equal. f_equal; field_at; done.
Qed.

Lemma ServerHello_decode_encode h : server_hello_ok h → DecodeServerHello (encodeServerHello h) = Ok h.
Proof.
  destruct h as [v n p]. intros (Hv & Hn & Hp); cbn in Hv, Hn, Hp.
  unfold DecodeServerHello, encodeServerHello; cbn [sh_Version sh_NonceS sh_Ps].
  rewrite (proj2 (Nat.eqb_eq _ _)) by sizes. unfold writer.raw. cbn [negb].
  f_equal. f_equal; field_at; done.
Qed.

Lemma ChannelJoin_decode_encode j : join_ok j → DecodeChannelJoin (encodeChannelJoin j) = Ok j.
Proof.
  destruct j as [v sid c n t]. intros (Hv & Hs & Hc & Hn & Ht); cbn in Hv, Hs, Hc, Hn, Ht.
  unfold DecodeChannelJoin, encodeChannelJoin; cbn [cj_Version cj_SessionID cj_ChannelID cj_NonceCh cj_Tag].
  rewrite (proj2 (Nat.eqb_eq _ _)) by sizes. unfold writer.raw.
  rewrite bool_decide_true by apply take_magic. cbn [negb orb].
  f_equal. f_equal; field_at; done.
Qed.

(** Split a byte list at a list of increasing offsets. *)
Lemma magic_slice b : take (length Magic) b = Magic → slice 0 5 b = Magic.
Proof. intros <-. unfold slice. by rewrite drop_0. Qed.

Lemma ClientHello_encode_decode b h :
  DecodeClientHello b = Ok h → hello_ok h ∧ encodeClientHello h = b.
Proof.
  unfold DecodeClientHello. destruct (_ || _) eqn:E; [done|]. intros [= <-]. bool_to_prop.
  match goal with Hl : length b = _ |- _ => change (length b = 78%nat) in Hl end.
  split.
  { unfold hello_ok; cbn [ch_Version ch_SessionID ch_NonceC ch_Pc]. change (length Magic) with 5%nat.
    split_and!; [apply at_range; lia|rewrite length_slice; lia..]. }
  unfold encodeClientHello, writer.raw; cbn [ch_Version ch_SessionID ch_NonceC ch_Pc].
  change (length Magic) with 5%nat. rewrite at_head by lia. cbn [Nat.add].
  rewrite <- (magic_slice b) by done. rewrite !slice_cat by lia. by apply slice_all.
Qed.

Lemma ServerHello_encode_decode b h :
  DecodeServerHello b = Ok h → server_hello_ok h ∧ encodeServerHello h = b.
Proof.
  unfold DecodeServerHello. destruct (negb _) eqn:E; [done|]. intros [= <-]. bool_to_prop.
  change (length b = 65%nat) in E. split.
  { unfold server_hello_ok; cbn [sh_Version sh_NonceS sh_Ps].
    split_and!; [apply at_range; lia|rewrite length_slice; lia..]. }
  unfold encodeServerHello, writer.raw; cbn [sh_Version sh_NonceS sh_Ps].
  rewrite at_head by lia. cbn [Nat.add]. rewrite !slice_cat by lia. by apply slice_all.
Qed.

Lemma ChannelJoin_encode_decode b j :
  DecodeChannelJoin b = Ok j → join_ok j ∧ encodeChannelJoin j = b.
Proof.
  unfold DecodeChannelJoin. destruct (_ || _) eqn:E; [done|]. intros [= <-]. bool_to_prop.
  match goal with Hl : length b = _ |- _ => change (length b = 63%nat) in Hl end.
  split.
  { unfold join_ok; cbn [cj_Version cj_SessionID cj_ChannelID cj_NonceCh cj_Tag].
    change (length Magic) with 5%nat. split_and!; first [apply at_range; lia|rewrite length_slice; lia]. }
  unfold encodeChannelJoin, writer.raw; cbn [cj_Version cj_SessionID cj_ChannelID cj_NonceCh cj_Tag].
  change (length Magic) with 5%nat. rewrite !at_head by lia. cbn [Nat.add].
  rewrite <- (magic_slice b) by done. rewrite !slice_cat by lia. by apply slice_all.
Qed.

(** ** Properties *)

(** The decoders of the cleartext messages accept exactly the encodings:
    [Decode b] succeeds with [h] iff [h] has the declared array sizes and [b] is
    [h]'s encoding, so each message has one wire form and no bytes are ignored. *)
Theorem hello_codecs_exact :
  (∀ b h, DecodeClientHello b = Ok h ↔ hello_ok h ∧ encodeClientHello h = b) ∧
  (∀ b h, DecodeServerHello b = Ok h ↔ server_hello_ok h ∧ encodeServerHello h = b) ∧
  (∀ b j, DecodeChannelJoin b = Ok j ↔ join_ok j ∧ encodeChannelJoin j = b).
Proof.
  split_and!; intros b h; split.
  - apply ClientHello_encode_decode.
  - intros [? <-]. by apply ClientHello_decode_encode.
  - apply ServerHello_encode_decode.
  - intros [? <-]. by apply ServerHello_decode_encode.
  - apply ChannelJoin_encode_decode.
  - intros [? <-]. by apply ChannelJoin_decode_encode.
Qed.
