(* ===== verification/Handshake.v ===== *)
(** * Handshake: authenticated key agreement and channel joins
    (src/internal/crypto/handshake: handshake.go, schedule.go, session.go, channel.go)

    Each side of an exchange is a [proc]: a program that sends bytes, reads an
    exact number of bytes and sleeps, as [conn.Write], [io.ReadFull] and
    [time.Sleep] do.  [solo] runs one side against a fixed inbound stream (an
    arbitrary, possibly hostile peer); [duet] runs two sides against each other.
    Random draws are arguments.  X25519, HKDF and SHA-256 are the interface
    [HandshakeCrypto]; HMAC is [hmacSHA256] of [RecordCrypto]. *)
From S2P Require Import Prelude Fault Codec Record Wire HandshakeWire.

(** ** Programs over one connection *)
Inductive proc (A : Type) : Type :=
| Ret (a : A)
| Send (b : bytes) (k : option stdErr → proc A)
| Recv (n : nat) (k : result stdErr bytes → proc A)
| Sleep (ns : Z) (k : proc A).
Arguments Ret {A} a.
Arguments Send {A} b k.
Arguments Recv {A} n k.
Arguments Sleep {A} ns k.

(** Run one side alone: the inbound bytes are [s], every write succeeds.
    Returns the result, the bytes sent and the time slept. *)
Fixpoint solo {A} (p : proc A) (s : stream) : A * bytes * Z :=
  match p with
  | Ret a => (a, [], 0)
  | Send b k => let '(a, out, t) := solo (k None) s in (a, b ++ out, t)
  | Recv n k => let '(r, s') := readFull n s in solo (k r) s'
  | Sleep ns k => let '(a, out, t) := solo k s in (a, out, ns + t)
  end.

(** Run two sides against each other until both return; [inp] and [inq] are the
    bytes in flight to each.  [None]: out of fuel or both wait for the other. *)
Fixpoint duet {A B} (fuel : nat) (p : proc A) (q : proc B) (inp inq : bytes) : option (A * B) :=
  match fuel with
  | O => None
  | S fuel =>
      match p, q with
      | Send b k, _ => duet fuel (k None) q inp (inq ++ b)
      | Sleep _ k, _ => duet fuel k q inp inq
      | _, Send b k => duet fuel p (k None) (inp ++ b) inq
      | _, Sleep _ k => duet fuel p k inp inq
      | Ret a, Ret b => Some (a, b)
      | Recv n k, _ =>
          if (n <=? length inp)%nat then duet fuel (k (Ok (take n inp))) q (drop n inp) inq
          else match q with
               | Recv m k' =>
                   if (m <=? length inq)%nat
                   then duet fuel p (k' (Ok (take m inq))) inp (drop m inq) else None
               | _ => duet fuel (k (Err (if bool_decide (inp = []) then StdEOF else StdUnexpectedEOF))) q [] inq
               end
      | Ret _, Recv m k' =>
          if (m <=? length inq)%nat then duet fuel p (k' (Ok (take m inq))) inp (drop m inq)
          else duet fuel p (k' (Err (if bool_decide (inq = []) then StdEOF else StdUnexpectedEOF))) inp []
      end
  end.

(** ** Cryptographic interface *)
Class HandshakeCrypto := {
  sha256 : bytes → bytes;
  hkdfExtract : bytes → bytes → result stdErr bytes;   (* ikm, salt *)
  hkdfExpand : bytes → bytes → result stdErr bytes;    (* prk, info; 32 bytes *)
  x25519Public : bytes → bytes;
  x25519 : bytes → bytes → bytes;                      (* own private, peer public *)
}.
(** HKDF of 32 bytes over SHA-256 cannot fail; X25519 is a key agreement with
    32-byte public keys. *)
Class HandshakeCryptoLaws `{HandshakeCrypto} : Prop := {
  hkdfExtract_ok ikm salt : ∃ k, hkdfExtract ikm salt = Ok k ∧ length k = 32%nat;
  hkdfExpand_ok prk info : ∃ k, hkdfExpand prk info = Ok k ∧ length k = 32%nat;
  x25519_public_length a : length (x25519Public a) = 32%nat;
  x25519_agree a b : x25519 a (x25519Public b) = x25519 b (x25519Public a);
}.

(** ** Constants *)
Definition protocolVersion : Z := 2.
Definition magic : bytes := bs "ESYNC".
Definition nonceLen : nat := 32.
Definition pubLen : nat := 32.
Definition tagLen : nat := 32.
Definition clientHelloLen : nat := length magic + 1 + 8 + nonceLen + pubLen.
Definition serverHelloLen : nat := 1 + nonceLen + pubLen.
Definition mismatchDelay : Z := 250 * 10 ^ 6.
Definition chanNonceLen : nat := 16.
Definition joinMsgLen : nat := length magic + 1 + 8 + 1 + chanNonceLen + tagLen.

Inductive Direction := S2R | R2S.
#[global] Instance Direction_eq_dec : EqDecision Direction.
Proof. solve_decision. Defined.
#[global] Instance Direction_countable : Countable Direction.
Proof.
  refine (inj_countable' (λ d, bool_decide (d = R2S)) (λ b, if b : bool then R2S else S2R) _).
  by intros [].
Defined.
Definition DirString (d : Direction) : bytes := match d with R2S => bs "r2s" | S2R => bs "s2r" end.
Definition Peer (d : Direction) : Direction := match d with R2S => S2R | S2R => R2S end.

(** ** Hello messages *)
Definition clientHelloBytes (sessionID nonceC pc : bytes) : bytes :=
  magic ++ be 1 protocolVersion ++ sessionID ++ nonceC ++ pc.
Definition serverHelloBytes (nonceS ps : bytes) : bytes := be 1 protocolVersion ++ nonceS ++ ps.

Definition parseClientHello (b : bytes) : result gerr (bytes * bytes * bytes) :=
  if negb (length b =? clientHelloLen)%nat || negb (bool_decide (take (length magic) b = magic))
  then Err (fault E4001 "parse client hello" [] None)
  else if negb (at_ (length magic) b =? protocolVersion)
  then Err (fault E2003 "parse client hello" [] None)
  else
    let off := (length magic + 1)%nat in
    let id := slice off (off + 8) b in
    let off := (off + 8)%nat in
    let nonceC := slice off (off + nonceLen) b in
    let off := (off + nonceLen)%nat in
    let pc := slice off (off + pubLen) b in
    Ok (id, nonceC, pc).

Definition parseServerHello (b : bytes) : result gerr (bytes * bytes) :=
  if negb (length b =? serverHelloLen)%nat then Err (fault E4001 "parse server hello" [] None)
  else if negb (at_ 0 b =? protocolVersion) then Err (fault E2003 "parse server hello" [] None)
  else Ok (slice 1 (1 + nonceLen) b, drop (1 + nonceLen) b).

Definition isAllZero (b : bytes) : bool :=
  foldl (λ v c, Z.lor v (Z_of_byte c)) 0 b =? 0.

(** [ioFault]: a timeout is E3004, anything else E4001. *)
Definition ioFault (op : string) (e : stdErr) : gerr :=
  match e with
  | StdTimeout => EFault (Wrap E3004 op [] (EStd e))
  | _ => EFault (Wrap E4001 op [] (EStd e))
  end.

Section handshake.
Context `{RecordCrypto} `{HandshakeCrypto}.

(** ** Key schedule *)
Definition infoConfirm : bytes := bs "esync/v1 confirm".
Definition infoChannelAuth : bytes := bs "esync/v1 channel-auth".
Definition infoEncPrefix : bytes := bs "esync/v1 enc ".
Definition infoMacPrefix : bytes := bs "esync/v1 mac ".

Record schedule := mkSchedule { prk : bytes; kConf : bytes; kChan : bytes }.

Definition expand (prk info : bytes) : result gerr bytes :=
  match hkdfExpand prk info with
  | Ok k => Ok k
  | Err e => Err (EFault (Wrap E4001 "hkdf expand" info (EStd e)))
  end.

Definition newSchedule (nonceC nonceS z kPair : bytes) : result gerr schedule :=
  let salt := nonceC ++ nonceS in
  let ikm := z ++ kPair in
  match hkdfExtract ikm salt with
  | Err e => Err (EFault (Wrap E4001 "hkdf extract" [] (EStd e)))
  | Ok prk =>
      kConf ← expand prk infoConfirm;
      kChan ← expand prk infoChannelAuth;
      mret (mkSchedule prk kConf kChan)
  end.

Definition recordKeys (s : schedule) (dir : Direction) (ch : Z) : result gerr (bytes * bytes) :=
  let suffix := DirString dir ++ be 1 ch in
  e ← expand (prk s) (infoEncPrefix ++ suffix);
  m ← expand (prk s) (infoMacPrefix ++ suffix);
  mret (e, m).

(** ** Sessions *)
Record Session := mkSession {
  SessionID : bytes; KChan : bytes; PeerVersion : Z; sch : schedule;
  skeys : gmap (Direction * Z) (bytes * bytes);
  accepted : gset Z;
}.
Definition newSession (id : bytes) (peerVersion : Z) (s : schedule) : Session :=
  mkSession id (kChan s) peerVersion s ∅ ∅.

Definition RecordKeys (s : Session) (dir : Direction) (ch : Z) : bytes * bytes * Session :=
  match skeys s !! (dir, ch) with
  | Some v => (v, s)
  | None =>
      match recordKeys (sch s) dir ch with
      | Err _ => (([], []), s)
      | Ok v => (v, mkSession (SessionID s) (KChan s) (PeerVersion s) (sch s)
                      (<[(dir, ch) := v]> (skeys s)) (accepted s))
      end
  end.

(** ** The exchange *)
Definition transcript (clientHello serverHello : bytes) : bytes := sha256 (clientHello ++ serverHello).
Definition confirmTag (kConf label t : bytes) : bytes := hmacSHA256 kConf (label ++ t).
Definition serverLabel : bytes := bs "esync/v1 server confirm".
Definition clientLabel : bytes := bs "esync/v1 client confirm".

(** [curve.NewPublicKey] refuses a key that is not 32 bytes and [priv.ECDH]
    refuses a low-order point, whose shared secret is all zero. *)
Definition sharedSecret (priv peerPub : bytes) : result gerr bytes :=
  if negb (length peerPub =? pubLen)%nat
  then Err (EFault (Wrap E4001 "parse peer public key" [] (EStd (StdOther "invalid public key"))))
  else
    let z := x25519 priv peerPub in
    if isAllZero z
    then Err (EFault (Wrap E4001 "x25519 exchange" [] (EStd (StdOther "low order point"))))
    else if isAllZero z then Err (fault E4001 "x25519 exchange" [] None)
    else Ok z.

(** [io.ReadFull] / [conn.Write] with their error mapping. *)
Definition readOr {A} (op : string) (n : nat) (k : bytes → proc (result gerr A)) : proc (result gerr A) :=
  Recv n (λ r, match r with Ok b => k b | Err e => Ret (Err (ioFault op e)) end).
Definition writeOr {A} (op : string) (b : bytes) (k : proc (result gerr A)) : proc (result gerr A) :=
  Send b (λ r, match r with None => k | Some e => Ret (Err (ioFault op e)) end).
(** [if err != nil { return nil, err }]. *)
Definition try {A B} (r : result gerr A) (k : A → proc (result gerr B)) : proc (result gerr B) :=
  match r with Ok a => k a | Err e => Ret (Err e) end.
Definition csprng (op : string) (r : result gerr bytes) : result gerr bytes :=
  match r with Ok b => Ok b | Err e => Err (EFault (Wrap E4007 op [] e)) end.

Definition ClientHandshake (ePriv eNonce : result gerr bytes) (kPair sessionID : bytes) :
    proc (result gerr Session) :=
  try (csprng "generate handshake key" ePriv) (λ priv,
  try (csprng "generate client nonce" eNonce) (λ nonceC,
  let clientHello := clientHelloBytes sessionID nonceC (x25519Public priv) in
  writeOr "send client hello" clientHello (
  readOr "read server hello" serverHelloLen (λ serverHello,
  try (parseServerHello serverHello) (λ '(nonceS, ps),
  try (sharedSecret priv ps) (λ z,
  let t := transcript clientHello serverHello in
  try (newSchedule nonceC nonceS z kPair) (λ sch,
  readOr "read server confirm" tagLen (λ serverConfirm,
  if negb (bool_decide (confirmTag (kConf sch) serverLabel t = serverConfirm))
  then Ret (Err (fault E4001 "verify server confirm" [] None))
  else
  writeOr "send client confirm" (confirmTag (kConf sch) clientLabel t) (
  Ret (Ok (newSession sessionID protocolVersion sch))))))))))).

Definition ServerHandshake (ePriv eNonce : result gerr bytes) (kPair expectID : bytes) :
    proc (result gerr Session) :=
  readOr "read client hello" clientHelloLen (λ clientHello,
  try (parseClientHello clientHello) (λ '(gotID, nonceC, pc),
  if negb (bool_decide (gotID = expectID))
  then Sleep mismatchDelay (Ret (Err (fault E4001 "verify session id" [] None)))
  else
  try (csprng "generate handshake key" ePriv) (λ priv,
  try (csprng "generate server nonce" eNonce) (λ nonceS,
  try (sharedSecret priv pc) (λ z,
  let serverHello := serverHelloBytes nonceS (x25519Public priv) in
  let t := transcript clientHello serverHello in
  try (newSchedule nonceC nonceS z kPair) (λ sch,
  writeOr "send server hello" serverHello (
  writeOr "send server confirm" (confirmTag (kConf sch) serverLabel t) (
  readOr "read client confirm" tagLen (λ clientConfirm,
  if negb (bool_decide (confirmTag (kConf sch) clientLabel t = clientConfirm))
  then Ret (Err (fault E4001 "verify client confirm" [] None))
  else Ret (Ok (newSession expectID protocolVersion sch))))))))))).

(** ** Channel joins (channel.go) *)
Definition channelTag (kChan label id : bytes) (channelID : Z) (nonce : bytes) : bytes :=
  hmacSHA256 kChan (label ++ id ++ be 1 channelID ++ nonce).

Definition JoinChannel (eNonce : result gerr bytes) (sess : Session) (channelID : Z) : proc (result gerr unit) :=
  try (csprng "generate channel nonce" eNonce) (λ nonceCh,
  let msg := magic ++ be 1 protocolVersion ++ SessionID sess ++ be 1 channelID ++ nonceCh ++
             channelTag (KChan sess) (bs "join") (SessionID sess) channelID nonceCh in
  Send msg (λ r, match r with
  | Some e => Ret (Err (EFault (Wrap E3006 "send channel join" [] (EStd e))))
  | None =>
  Recv tagLen (λ r, match r with
  | Err e => Ret (Err (EFault (Wrap E3006 "read channel accept" [] (EStd e))))
  | Ok accept =>
  if negb (bool_decide (channelTag (KChan sess) (bs "accept") (SessionID sess) channelID nonceCh = accept))
  then Ret (Err (fault E4002 "verify channel accept" [] None))
  else Ret (Ok ())
  end) end)).

Definition setAccepted (s : Session) (a : gset Z) : Session :=
  mkSession (SessionID s) (KChan s) (PeerVersion s) (sch s) (skeys s) a.

(** The critical section under [sess.mu]: was the id taken, and the new set. *)
Definition claim (a : gset Z) (channelID : Z) : bool * gset Z :=
  if bool_decide (channelID ∈ a) then (true, a) else (false, {[channelID]} ∪ a).

(** The session is shared by every [AcceptChannel]; only the critical section
    touches its state, and the new state is returned whatever follows. *)
Definition AcceptChannel (sess : Session) (negotiatedN : Z) : proc (result gerr Z * Session) :=
  Recv joinMsgLen (λ r, match r with
  | Err e => Ret (Err (EFault (Wrap E3006 "read channel join" [] (EStd e))), sess)
  | Ok msg =>
  if negb (bool_decide (take (length magic) msg = magic)) ||
     negb (at_ (length magic) msg =? protocolVersion)
  then Ret (Err (fault E4002 "parse channel join" [] None), sess)
  else
  let off := (length magic + 1)%nat in
  let gotID := slice off (off + 8) msg in
  let off := (off + 8)%nat in
  let channelID := at_ off msg in
  let off := (off + 1)%nat in
  let nonceCh := slice off (off + chanNonceLen) msg in
  let off := (off + chanNonceLen)%nat in
  let tag := drop off msg in
  if negb (bool_decide (gotID = SessionID sess))
  then Ret (Err (fault E4002 "verify channel join session id" [] None), sess)
  else if (channelID =? 0) || (negotiatedN <? channelID)
  then Ret (Err (fault E4002 "validate channel id" [] None), sess)
  else if negb (bool_decide (channelTag (KChan sess) (bs "join") (SessionID sess) channelID nonceCh = tag))
  then Ret (Err (fault E4002 "verify channel join tag" [] None), sess)
  else
  let '(dup, a) := claim (accepted sess) channelID in
  let sess := setAccepted sess a in
  if dup : bool then Ret (Err (fault E4002 "validate channel id" [] None), sess)
  else
  Send (channelTag (KChan sess) (bs "accept") (SessionID sess) channelID nonceCh) (λ r, match r with
  | Some e => Ret (Err (EFault (Wrap E3006 "send channel accept" [] (EStd e))), sess)
  | None => Ret (Ok channelID, sess)
  end)
  end).

(** [acceptLoop] (sender/run.go) accepts joins for the whole session; the
    connections are listed in the order they reach the critical section. *)
Fixpoint acceptAll (sess : Session) (negotiatedN : Z) (conns : list stream) : list (result gerr Z) * Session :=
  match conns with
  | [] => ([], sess)
  | c :: conns =>
      let '((r, sess'), _, _) := solo (AcceptChannel sess negotiatedN) c in
      let '(rs, sess'') := acceptAll sess' negotiatedN conns in
      (r :: rs, sess'')
  end.
End handshake.

(** ** Lemmas: scheduling *)
Section duet.
Context {A B : Type}.
Implicit Types (p : proc A) (q : proc B).

Lemma duet_send_l f b k q inp inq :
  duet (S f) (Send b k : proc A) q inp inq = duet f (k None) q inp (inq ++ b).
Proof. done. Qed.

Lemma duet_send_r f n b (k : _ → proc A) (k' : _ → proc B) inp inq :
  duet (S f) (Recv n k) (Send b k') inp inq = duet f (Recv n k) (k' None) (inp ++ b) inq.
Proof. done. Qed.

Lemma duet_recv_l f n a k m (k' : _ → proc B) inp inq :
  length a = n →
  duet (S f) (Recv n k : proc A) (Recv m k') (a ++ inp) inq = duet f (k (Ok a)) (Recv m k') inp inq.
Proof.
  intros <-. cbn [duet]. rewrite length_app, (proj2 (Nat.leb_le _ _)) by lia.
  by rewrite take_app_length, drop_app_length.
Qed.

Lemma duet_recv_r f n k m a (k' : _ → proc B) inq :
  (0 < n)%nat → length a = m →
  duet (S f) (Recv n k : proc A) (Recv m k') [] (a ++ inq) = duet f (Recv n k) (k' (Ok a)) [] inq.
Proof.
  intros Hn <-. cbn [duet length]. rewrite (proj2 (Nat.leb_gt _ _)) by lia.
  rewrite length_app, (proj2 (Nat.leb_le _ _)) by lia.
  by rewrite take_app_length, drop_app_length.
Qed.

Lemma duet_ret_l f (x : A) m a (k' : _ → proc B) inp inq :
  length a = m → duet (S f) (Ret x) (Recv m k') inp (a ++ inq) = duet f (Ret x) (k' (Ok a)) inp inq.
Proof.
  intros <-. cbn [duet]. rewrite length_app, (proj2 (Nat.leb_le _ _)) by lia.
  by rewrite take_app_length, drop_app_length.
Qed.

(** The same steps when the reader takes everything in flight. *)
Lemma duet_recv_l_all f n a k m (k' : _ → proc B) inq :
  length a = n → duet (S f) (Recv n k : proc A) (Recv m k') a inq = duet f (k (Ok a)) (Recv m k') [] inq.
Proof. intros Ha. rewrite <- (app_nil_r a) at 1. by apply duet_recv_l. Qed.
Lemma duet_recv_r_all f n k m a (k' : _ → proc B) :
  (0 < n)%nat → length a = m →
  duet (S f) (Recv n k : proc A) (Recv m k') [] a = duet f (Recv n k) (k' (Ok a)) [] [].
Proof. intros Hn Ha. rewrite <- (app_nil_r a) at 1. by apply duet_recv_r. Qed.
Lemma duet_recv_l_ret f n a k (y : B) inq :
  length a = n → duet (S f) (Recv n k : proc A) (Ret y) a inq = duet f (k (Ok a)) (Ret y) [] inq.
Proof.
  intros <-. cbn [duet]. rewrite (proj2 (Nat.leb_le _ _)) by lia.
  by rewrite firstn_all, drop_all.
Qed.
Lemma duet_ret_l_all f (x : A) m a (k' : _ → proc B) inp :
  length a = m → duet (S f) (Ret x) (Recv m k') inp a = duet f (Ret x) (k' (Ok a)) inp [].
Proof. intros Ha. rewrite <- (app_nil_r a) at 1. by apply duet_ret_l. Qed.
End duet.

(** ** Lemmas: hello messages *)
Lemma clientHello_wire id n p :
  clientHelloBytes id n p = encodeClientHello (mkClientHello protocolVersion id n p).
Proof. done. Qed.
Lemma serverHello_wire n p :
  serverHelloBytes n p = encodeServerHello (mkServerHello protocolVersion n p).
Proof. done. Qed.

(** [parseClientHello] is [DecodeClientHello] with the version check and its own
    error codes. *)
Lemma parseClientHello_wire b :
  parseClientHello b =
  match DecodeClientHello b with
  | Err _ => Err (fault E4001 "parse client hello" [] None)
  | Ok h => if ch_Version h =? protocolVersion then Ok (ch_SessionID h, ch_NonceC h, ch_Pc h)
            else Err (fault E2003 "parse client hello" [] None)
  end.
Proof.
  unfold parseClientHello, DecodeClientHello. change clientHelloLen with ClientHelloLen.
  change magic with Wire.Magic. destruct (_ || _); [done|]. cbn [ch_Version].
  by destruct (at_ _ b =? protocolVersion).
Qed.

Lemma parseServerHello_wire b :
  parseServerHello b =
  match DecodeServerHello b with
  | Err _ => Err (fault E4001 "parse server hello" [] None)
  | Ok h => if sh_Version h =? protocolVersion then Ok (sh_NonceS h, sh_Ps h)
            else Err (fault E2003 "parse server hello" [] None)
  end.
Proof.
  unfold parseServerHello, DecodeServerHello. change serverHelloLen with ServerHelloLen.
  destruct (length b =? ServerHelloLen)%nat eqn:E; [|done]. cbn [negb sh_Version].
  destruct (at_ 0 b =? protocolVersion); [|done]. cbn [negb sh_NonceS sh_Ps]. do 2 f_equal.
  unfold slice. bool_to_prop. rewrite take_ge; [done|]. rewrite length_drop, E. by vm_compute.
Qed.

Definition ids (id n p : bytes) : Prop := length id = 8%nat ∧ length n = 32%nat ∧ length p = 32%nat.

Lemma parseClientHello_hello id n p :
  ids id n p → parseClientHello (clientHelloBytes id n p) = Ok (id, n, p).
Proof.
  intros (? & ? & ?). rewrite parseClientHello_wire, clientHello_wire, ClientHello_decode_encode by done.
  done.
Qed.

Lemma parseClientHello_inv b id n p :
  parseClientHello b = Ok (id, n, p) → ids id n p ∧ b = clientHelloBytes id n p.
Proof.
  rewrite parseClientHello_wire. destruct (DecodeClientHello b) as [h|] eqn:E; [|done].
  apply ClientHello_encode_decode in E as [(_ & Hok) <-]. destruct (Z.eqb_spec (ch_Version h) protocolVersion) as [Ev|]; [|done].
  intros [= <- <- <-]. split; [done|]. rewrite clientHello_wire, <- Ev. by destruct h.
Qed.

Lemma parseServerHello_hello n p :
  length n = 32%nat → length p = 32%nat → parseServerHello (serverHelloBytes n p) = Ok (n, p).
Proof.
  intros ? ?. rewrite parseServerHello_wire, serverHello_wire, ServerHello_decode_encode by done.
  done.
Qed.

Lemma parseServerHello_inv b n p :
  parseServerHello b = Ok (n, p) →
  length n = 32%nat ∧ length p = 32%nat ∧ b = serverHelloBytes n p.
Proof.
  rewrite parseServerHello_wire. destruct (DecodeServerHello b) as [h|] eqn:E; [|done].
  apply ServerHello_encode_decode in E as [(_ & ? & ?) <-]. destruct (Z.eqb_spec (sh_Version h) protocolVersion) as [Ev|]; [|done].
  intros [= <- <-]. split_and!; [done..|]. rewrite serverHello_wire, <- Ev. by destruct h.
Qed.

Lemma clientHello_length id n p : ids id n p → length (clientHelloBytes id n p) = clientHelloLen.
Proof. intros (E1 & E2 & E3). unfold clientHelloBytes. by rewrite !length_app, length_be, E1, E2, E3. Qed.
Lemma serverHello_length n p :
  length n = 32%nat → length p = 32%nat → length (serverHelloBytes n p) = serverHelloLen.
Proof. intros E1 E2. unfold serverHelloBytes. by rewrite !length_app, length_be, E1, E2. Qed.

(** ** Lemmas: the key schedule *)
Section agreement.
Context `{RecordCryptoLaws} `{HandshakeCryptoLaws}.
#[local] Set Default Proof Using "Type*".

Lemma expand_ok p info : ∃ k, expand p info = Ok k ∧ length k = 32%nat.
Proof. unfold expand. destruct (hkdfExpand_ok p info) as (k & -> & ?). by exists k. Qed.

Lemma newSchedule_ok nC nS z kp : ∃ s, newSchedule nC nS z kp = Ok s.
Proof.
  unfold newSchedule. destruct (hkdfExtract_ok (z ++ kp) (nC ++ nS)) as (k & -> & _).
  destruct (expand_ok k infoConfirm) as (c & -> & _).
  destruct (expand_ok k infoChannelAuth) as (h & E & _). cbn [mbind result_bind]. rewrite E. by eexists.
Qed.

Lemma recordKeys_ok s d c :
  ∃ e m, recordKeys s d c = Ok (e, m) ∧ length e = 32%nat ∧ length m = 32%nat.
Proof.
  unfold recordKeys. destruct (expand_ok (prk s) (infoEncPrefix ++ DirString d ++ be 1 c)) as (e & -> & ?).
  cbn [mbind result_bind]. destruct (expand_ok (prk s) (infoMacPrefix ++ DirString d ++ be 1 c)) as (m & -> & ?).
  by exists e, m.
Qed.

Lemma sharedSecret_ok a b :
  isAllZero (x25519 a (x25519Public b)) = false →
  sharedSecret a (x25519Public b) = Ok (x25519 a (x25519Public b)).
Proof. unfold sharedSecret. rewrite x25519_public_length. cbn. by intros ->. Qed.

Lemma sharedSecret_inv a p z : sharedSecret a p = Ok z → z = x25519 a p ∧ isAllZero z = false.
Proof.
  unfold sharedSecret. destruct (negb _); [done|].
  destruct (isAllZero (x25519 a p)) eqn:E; [done|]. by intros [= <-].
Qed.
End agreement.

(** ** Lemmas: running one side *)
Section solo.
Context {X : Type}.
Implicit Types (r : result gerr X).

Lemma solo_readOr op n k s r out t :
  solo (readOr op n k) s = (r, out, t) →
  (∃ e, r = Err (ioFault op e) ∧ out = []) ∨
  (∃ b s', length b = n ∧ sdata s = b ++ sdata s' ∧ solo (k b) s' = (r, out, t)).
Proof.
  unfold readOr; cbn [solo]. destruct (readFull n s) as [[b|e] s'] eqn:E.
  - apply readFull_inv in E as (? & ? & _). intros Hs. right. by exists b, s'.
  - intros [= <- <- <-]. left. by exists e.
Qed.

Lemma solo_writeOr op b k s r out t :
  solo (writeOr op b k) s = (r, out, t) → ∃ out', out = b ++ out' ∧ solo k s = (r, out', t).
Proof.
  unfold writeOr; cbn [solo]. destruct (solo k s) as [[r' o] t']. intros [= <- <- <-]. by exists o.
Qed.

Lemma solo_try {Y} (m : result gerr Y) k s r out t :
  solo (try m k) s = (r, out, t) →
  (∃ e, m = Err e ∧ r = Err e ∧ out = []) ∨ (∃ y, m = Ok y ∧ solo (k y) s = (r, out, t)).
Proof.
  destruct m as [y|e]; cbn; intros E; [right; by exists y|].
  injection E as <- <- <-. left. by exists e.
Qed.
End solo.

(** Step through a successful run. *)
Ltac solo_ok :=
  repeat match goal with
  | E : solo (readOr _ _ _) _ = (Ok _, _, _) |- _ =>
      apply solo_readOr in E as [(? & ? & _)|(? & ? & ? & ? & E)]; [discriminate|]
  | E : solo (try _ _) _ = (Ok _, _, _) |- _ =>
      apply solo_try in E as [(? & _ & ? & _)|(? & ? & E)]; [discriminate|]
  | E : solo (writeOr _ _ _) _ = _ |- _ => apply solo_writeOr in E as (? & -> & E)
  | E : solo (if negb ?b then _ else _) _ = _ |- _ =>
      let Hb := fresh "Hb" in destruct b eqn:Hb; cbn [negb] in E
  | E : solo (Ret (Err _)) _ = (Ok _, _, _) |- _ => discriminate E
  | E : solo (Ret _) _ = _ |- _ => cbn [solo] in E; injection E as <- <- <-
  | E : solo (let '_ := ?x in _) _ = _ |- _ => destruct x
  end.

(** ** Lemmas: channel joins *)
Section joins.
Context `{RecordCrypto}.

Definition joinMsg (sess : Session) (id : Z) (nonce : bytes) : bytes :=
  magic ++ be 1 protocolVersion ++ SessionID sess ++ be 1 id ++ nonce ++
  channelTag (KChan sess) (bs "join") (SessionID sess) id nonce.

Lemma setAccepted_id s : setAccepted s (accepted s) = s.
Proof. by destruct s. Qed.

(** The fields of a 63-byte message as [AcceptChannel] slices it. *)
Lemma join_fields msg :
  length msg = joinMsgLen →
  let id := slice 6 14 msg in let ch := at_ 14 msg in
  let n := slice 15 31 msg in let tag := drop 31 msg in
  in_u 8 ch ∧ length id = 8%nat ∧ length n = 16%nat ∧
  msg = take 5 msg ++ be 1 (at_ 5 msg) ++ id ++ be 1 ch ++ n ++ tag.
Proof.
  intros Hl. change (length msg = 63%nat) in Hl. cbn zeta. split_and!.
  - apply at_range. lia.
  - rewrite length_slice; lia.
  - rewrite length_slice; lia.
  - change (be 1 (at_ 5 msg)) with (writer.u8 (at_ 5 msg)).
    change (be 1 (at_ 14 msg)) with (writer.u8 (at_ 14 msg)).
    rewrite !at_head by lia. cbn [Nat.add].
    replace (take 5 msg) with (slice 0 5 msg) by (unfold slice; by rewrite drop_0).
    replace (drop 31 msg) with (slice 31 63 msg).
    2:{ unfold slice. apply take_ge. rewrite length_drop. lia. }
    rewrite !slice_cat by lia. symmetry. by apply slice_all.
Qed.

Lemma AcceptChannel_inv sess N c r sess' out t :
  solo (AcceptChannel sess N) c = ((r, sess'), out, t) →
  (∃ e, r = Err e ∧ sess' = sess ∧ out = []) ∨
  (∃ id nonce rest,
     r = Ok id ∧ (1 <= id <= N) ∧ (id ∉ accepted sess) ∧
     sess' = setAccepted sess ({[id]} ∪ accepted sess) ∧
     length nonce = chanNonceLen ∧ sdata c = joinMsg sess id nonce ++ rest ∧
     out = channelTag (KChan sess) (bs "accept") (SessionID sess) id nonce).
Proof.
  unfold AcceptChannel; cbn [solo]. destruct (readFull joinMsgLen c) as [[msg|e] s'] eqn:E.
  2:{ intros [= <- <- <- <-]. left. by eexists. }
  apply readFull_inv in E as (Hl & Hc & _).
  destruct (join_fields msg Hl) as (Hch & Hid & Hn & Hmsg).
  change (length magic) with 5%nat in *. cbn [Nat.add] in *.
  destruct (_ || _) eqn:E1; [cbn [solo]; intros [= <- <- <- <-]; left; by eexists|].
  change (slice (5 + 1) _ msg) with (slice 6 14 msg).
  change (at_ (5 + 1 + 8) msg) with (at_ 14 msg).
  change (slice (5 + 1 + 8 + 1) _ msg) with (slice 15 31 msg). change (drop _ msg) with (drop 31 msg).
  destruct (bool_decide (slice 6 14 msg = SessionID sess)) eqn:E2; cbn [negb];
    [|cbn [solo]; intros [= <- <- <- <-]; left; by eexists].
  destruct ((at_ 14 msg =? 0) || (N <? at_ 14 msg)) eqn:E3;
    [cbn [solo]; intros [= <- <- <- <-]; left; by eexists|].
  destruct (bool_decide (channelTag _ _ _ _ _ = _)) eqn:E4; cbn [negb];
    [|cbn [solo]; intros [= <- <- <- <-]; left; by eexists].
  bool_to_prop. unfold claim. destruct (bool_decide (at_ 14 msg ∈ accepted sess)) eqn:E5.
  { rewrite setAccepted_id. cbn [solo]. intros [= <- <- <- <-]; left; by eexists. }
  bool_to_prop. cbn [solo]. intros [= <- <- <- <-]. right.
  exists (at_ 14 msg), (slice 15 31 msg), (sdata s'). unfold in_u in Hch.
  split_and!; try done; try lia.
  - rewrite Hc. f_equal. unfold joinMsg. rewrite Hmsg at 1.
    change (slice 15 _ msg) with (slice 15 31 msg) in E4.
    match goal with A : take 5 msg = magic, B : at_ 5 msg = _ |- _ => rewrite A, B end.
    by rewrite E2, E4.
  - by rewrite app_nil_r.
Qed.

Definition granted (rs : list (result gerr Z)) : list Z :=
  omap (λ r, match r with Ok i => Some i | Err _ => None end) rs.
End joins.

(** ** Properties *)
Section handshake_theorems.
Context `{RecordCryptoLaws} `{HandshakeCryptoLaws}.
#[local] Set Default Proof Using "Type*".

(** C13: run against each other with the same pairing key and session id, the two
    sides never deadlock, both succeed, and they hold the same session: same id,
    same channel-auth key and, for every direction and channel, the same record
    keys, which are valid AES-256 keys. *)
Theorem honest_agreement ePc nC ePs nS kPair id :
  length id = 8%nat → length nC = 32%nat → length nS = 32%nat →
  isAllZero (x25519 ePc (x25519Public ePs)) = false →
  ∃ s, duet 12 (ClientHandshake (Ok ePc) (Ok nC) kPair id) (ServerHandshake (Ok ePs) (Ok nS) kPair id) [] []
       = Some (Ok s, Ok s) ∧
       SessionID s = id ∧ accepted s = ∅ ∧
       ∀ dir ch, aesKeyOk (RecordKeys s dir ch).1.1 = true.
Proof.
  intros Hid HnC HnS Hz.
  pose proof (x25519_public_length ePc) as Hpc. pose proof (x25519_public_length ePs) as Hps.
  destruct (newSchedule_ok nC nS (x25519 ePc (x25519Public ePs)) kPair) as (sc & Hsc).
  exists (newSession id protocolVersion sc). split; [|split_and!; [done..|]].
  - unfold ClientHandshake, ServerHandshake, readOr, writeOr. cbn [try csprng].
    set (ch := clientHelloBytes id nC (x25519Public ePc)).
    set (sh := serverHelloBytes nS (x25519Public ePs)).
    rewrite duet_send_l, app_nil_l, duet_recv_r_all;
      [|unfold serverHelloLen, nonceLen, pubLen; lia|by apply clientHello_length].
    rewrite (parseClientHello_hello id nC (x25519Public ePc) ltac:(done) : parseClientHello ch = _).
    cbn [try]. rewrite bool_decide_true by done. cbn [negb].
    rewrite sharedSecret_ok by (by rewrite x25519_agree). rewrite <- x25519_agree. cbn [try].
    rewrite Hsc. cbn [try].
    rewrite !duet_send_r, app_nil_l, duet_recv_l by (by apply serverHello_length).
    rewrite (parseServerHello_hello nS (x25519Public ePs) HnS Hps : parseServerHello sh = _). cbn [try].
    rewrite sharedSecret_ok by done. cbn [try]. rewrite Hsc. cbn [try].
    rewrite duet_recv_l_all by apply hmac_length. rewrite bool_decide_true by done. cbn [negb].
    rewrite duet_send_l, app_nil_l, duet_ret_l_all by apply hmac_length.
    by rewrite bool_decide_true.
  - intros dir c. unfold RecordKeys. cbn [skeys newSession sch]. rewrite lookup_empty.
    destruct (recordKeys_ok sc dir c) as (e & m & -> & He & _). cbn [fst].
    unfold aesKeyOk. rewrite He. by vm_compute.
Qed.

(** C14: against any peer whatsoever, the receiver's side succeeds only if the
    peer answered with a hello of the right version and with the HMAC, under the
    confirmation key derived from both nonces, the X25519 secret (never all
    zero) and the pairing key, of the transcript of exactly the hellos this side
    sent and received. *)
Theorem client_authenticates_server ePriv eNonce kPair id s sess out t :
  solo (ClientHandshake ePriv eNonce kPair id) s = (Ok sess, out, t) →
  ∃ priv nC nS ps sc rest,
    ePriv = Ok priv ∧ eNonce = Ok nC ∧
    let ch := clientHelloBytes id nC (x25519Public priv) in
    let sh := serverHelloBytes nS ps in
    let tr := sha256 (ch ++ sh) in
    newSchedule nC nS (x25519 priv ps) kPair = Ok sc ∧
    isAllZero (x25519 priv ps) = false ∧
    sdata s = sh ++ hmacSHA256 (kConf sc) (serverLabel ++ tr) ++ rest ∧
    out = ch ++ hmacSHA256 (kConf sc) (clientLabel ++ tr) ∧
    sess = newSession id protocolVersion sc.
Proof.
  unfold ClientHandshake. intros E. solo_ok. bool_to_prop.
  match goal with E : parseServerHello _ = Ok _ |- _ => apply parseServerHello_inv in E as (_ & _ & ->) end.
  match goal with E : sharedSecret _ _ = Ok _ |- _ => apply sharedSecret_inv in E as [-> ?] end.
  repeat match goal with E : csprng _ ?e = Ok _ |- _ => destruct e; [injection E as <-|discriminate] end.
  eexists _, _, _, _, _, _. cbn zeta. split_and!; [done|done|eassumption|done| |by rewrite app_nil_r|done].
  match goal with E : sdata s = _ |- _ => rewrite E end. unfold confirmTag, transcript in Hb.
  rewrite Hb. by f_equal.
Qed.

(** C40: towards a peer that does not open with a valid hello naming this
    session, the sender's side sends not a single byte; and it accepts a peer
    only after that peer has proved, with the HMAC of this very transcript under
    the derived confirmation key, that it knows the pairing key. *)
Theorem server_gate ePriv eNonce kPair id s r out t :
  solo (ServerHandshake ePriv eNonce kPair id) s = (r, out, t) →
  (out ≠ [] → ∃ nC pc rest, ids id nC pc ∧ sdata s = clientHelloBytes id nC pc ++ rest) ∧
  (∀ sess, r = Ok sess → ∃ priv nC nS pc sc rest,
    ePriv = Ok priv ∧ eNonce = Ok nS ∧
    let ch := clientHelloBytes id nC pc in
    let sh := serverHelloBytes nS (x25519Public priv) in
    let tr := sha256 (ch ++ sh) in
    newSchedule nC nS (x25519 priv pc) kPair = Ok sc ∧
    isAllZero (x25519 priv pc) = false ∧
    sdata s = ch ++ hmacSHA256 (kConf sc) (clientLabel ++ tr) ++ rest ∧
    out = sh ++ hmacSHA256 (kConf sc) (serverLabel ++ tr) ∧
    sess = newSession id protocolVersion sc).
Proof.
  unfold ServerHandshake. intros E.
  apply solo_readOr in E as [(? & -> & ->)|(hello & s1 & Hl & Hs & E)]; [by split|].
  apply solo_try in E as [(? & _ & -> & ->)|([[gid nC] pc] & Hp & E)]; [by split|].
  apply parseClientHello_inv in Hp as [Hids ->].
  destruct (bool_decide (gid = id)) eqn:Hid; cbn [negb] in E.
  2:{ cbn [solo] in E. injection E as <- <- <-. by split. }
  bool_to_prop. subst gid. split; [intros _; by eexists _, _, _|].
  intros sess ->. solo_ok. bool_to_prop.
  match goal with E : sharedSecret _ _ = Ok _ |- _ => apply sharedSecret_inv in E as [-> ?] end.
  repeat match goal with E : csprng _ ?e = Ok _ |- _ => destruct e; [injection E as <-|discriminate] end.
  eexists _, nC, _, pc, _, _. cbn zeta. split_and!; [done|done|eassumption|done| |by rewrite app_nil_r|done].
  rewrite Hs. f_equal. match goal with E : sdata s1 = _ |- _ => rewrite E end.
  unfold confirmTag, transcript in Hb. rewrite Hb. by f_equal.
Qed.
End handshake_theorems.

Section join_theorems.
Context `{RecordCryptoLaws}.
#[local] Set Default Proof Using "Type*".

(** Whatever arrives on however many connections, the ids the sender grants
    are distinct, lie in 1..negotiatedN, were not granted before, are exactly
    what is added to the session, and each was asked for by a join message whose
    tag is the HMAC under the session's channel key of its label, session id,
    channel id and nonce. *)
Theorem granted_channels conns N sess rs sess' :
  acceptAll sess N conns = (rs, sess') →
  NoDup (granted rs) ∧
  (∀ id, id ∈ granted rs → (1 <= id <= N) ∧ (id ∉ accepted sess)) ∧
  (∀ id, id ∈ accepted sess' ↔ id ∈ granted rs ∨ id ∈ accepted sess) ∧
  Forall2 (λ c r, ∀ id, r = Ok id → ∃ nonce rest,
    length nonce = chanNonceLen ∧ sdata c = joinMsg sess id nonce ++ rest) conns rs.
Proof.
  revert sess rs sess'. induction conns as [|c conns IH]; intros sess rs sess'; cbn [acceptAll].
  { intros [= <- <-]. split_and!; [constructor|set_solver|set_solver|constructor]. }
  destruct (solo _ c) as [[[r s1] out] t] eqn:E. destruct (acceptAll s1 N conns) as [rs' s2] eqn:E'.
  intros [= <- <-]. destruct (IH _ _ _ E') as (Hnd & Hin & Hacc & Hall).
  apply AcceptChannel_inv in E as
    [(e & -> & -> & _)|(id & nonce & rest & -> & Hid & Hni & -> & Hn & Hc & _)]; cbn [granted omap list_omap].
  - split_and!; [done..|]. by constructor.
  - split_and!.
    + constructor; [|done]. intros Hi. apply Hin in Hi as [_ Hi]. set_solver.
    + intros i [->|Hi]%elem_of_cons; [done|]. apply Hin in Hi as [? Hi]. set_solver.
    + intros i. rewrite Hacc, elem_of_cons. set_solver.
    + constructor; [|exact Hall]. intros ? [= <-]. by exists nonce, rest.
Qed.

(** A join between two holders of the same session succeeds on both sides
    exactly when the id is in 1..negotiatedN and was not joined before; otherwise
    the sender reports E4002 without changing its session and the receiver, whose
    connection is closed, reports the retryable E3006. *)
Theorem join_agreement sess N id nonce :
  length (SessionID sess) = 8%nat → length nonce = chanNonceLen → in_u 8 id →
  let ok := bool_decide ((1 <= id <= N) ∧ (id ∉ accepted sess)) in
  duet 6 (JoinChannel (Ok nonce) sess id) (AcceptChannel sess N) [] [] =
  Some (if ok then (Ok (), (Ok id, setAccepted sess ({[id]} ∪ accepted sess)))
        else (Err (fault E3006 "read channel accept" [] (Some (EStd StdEOF))),
              (Err (fault E4002 "validate channel id" [] None), sess))).
Proof.
  intros Hsid Hn Hid. cbn zeta. unfold JoinChannel, AcceptChannel. cbn [try csprng].
  fold (joinMsg sess id nonce). set (msg := joinMsg sess id nonce).
  assert (Hl : length msg = joinMsgLen).
  { unfold msg, joinMsg, channelTag. rewrite !length_app, !length_be, hmac_length, Hsid, Hn. done. }
  rewrite duet_send_l, app_nil_l, duet_recv_r_all by (unfold tagLen; lia || done).
  assert (take (length magic) msg = magic) as -> by apply take_app_length.
  change (length magic) with 5%nat. change chanNonceLen with 16%nat in *.
  assert (Hm : msg = Wire.Magic ++ writer.u8 protocolVersion ++ SessionID sess ++ writer.u8 id ++ nonce ++
    channelTag (KChan sess) (bs "join") (SessionID sess) id nonce) by done.
  assert (at_ 5 msg = protocolVersion) as -> by (rewrite Hm; by field_at).
  assert (slice (5 + 1) (5 + 1 + 8) msg = SessionID sess) as -> by (rewrite Hm; by field_at).
  assert (at_ (5 + 1 + 8) msg = id) as -> by (rewrite Hm; by field_at).
  assert (slice (5 + 1 + 8 + 1) (5 + 1 + 8 + 1 + 16) msg = nonce) as ->
    by (rewrite Hm; by field_at).
  assert (drop (5 + 1 + 8 + 1 + 16) msg = channelTag (KChan sess) (bs "join") (SessionID sess) id nonce) as ->.
  { unfold msg, joinMsg. rewrite !app_assoc, drop_app_length'; [done|].
    rewrite !length_app, !length_be, Hsid, Hn. done. }
  rewrite !bool_decide_true by done. rewrite Z.eqb_refl. cbn [negb orb].
  unfold claim, in_u in *.
  destruct ((id =? 0) || (N <? id)) eqn:E1.
  { rewrite bool_decide_false; [done|]. intros [? _].
    apply orb_true_iff in E1 as [E1|E1]; bool_to_prop; lia. }
  bool_to_prop. destruct (bool_decide (id ∈ accepted sess)) eqn:E2; bool_to_prop.
  { rewrite setAccepted_id, bool_decide_false; [done|]. by intros [_ ?]. }
  rewrite bool_decide_true by (split; [lia|done]).
  rewrite duet_send_r, app_nil_l, duet_recv_l_ret by apply hmac_length.
  by rewrite bool_decide_true.
Qed.
End join_theorems.

(** *** Witnesses: a concrete hash, expansion and commutative exchange *)
#[local] Existing Instances rev_crypto rev_crypto_laws.
#[local] Instance toy_crypto : HandshakeCrypto := {|
  sha256 b := be 32 (unbe b);
  hkdfExtract ikm salt := Ok (be 32 (unbe (ikm ++ salt)));
  hkdfExpand p info := Ok (be 32 (unbe (p ++ info)));
  x25519Public a := be 32 (unbe a);
  x25519 a p := be 32 (unbe a mod 256 ^ 32 * unbe p);
|}.
#[local] Instance toy_laws : HandshakeCryptoLaws.
Proof.
  split.
  - intros. eexists. split; [reflexivity|apply length_be].
  - intros. eexists. split; [reflexivity|apply length_be].
  - intros. apply length_be.
  - intros a b. cbn. rewrite !unbe_be. f_equal. cbn [Z.of_nat]. lia.
Qed.

Definition ex_id : bytes := bs "session1".
Definition ex_n (c : byte) : bytes := replicate 32 c.
Definition ex_priv (z : Z) : bytes := be 32 z.

Lemma honest_agreement_witness :
  ∃ s, duet 12 (ClientHandshake (Ok (ex_priv 3)) (Ok (ex_n Byte.x01)) (bs "pair") ex_id)
               (ServerHandshake (Ok (ex_priv 5)) (Ok (ex_n Byte.x02)) (bs "pair") ex_id) [] [] = Some (Ok s, Ok s).
Proof.
  destruct (honest_agreement (ex_priv 3) (ex_n Byte.x01) (ex_priv 5) (ex_n Byte.x02) (bs "pair") ex_id)
    as (s & E & _); [done..|by vm_compute|by exists s].
Defined.

Definition ex_sched : schedule := mkSchedule (bs "p") (bs "c") (bs "k").
Definition ex_session : Session := newSession ex_id 2 ex_sched.

Definition ex_joins : list stream := [
  mkStream (joinMsg ex_session 2 (replicate 16 Byte.x07)) StdEOF;
  mkStream (joinMsg ex_session 2 (replicate 16 Byte.x08)) StdEOF;
  mkStream (joinMsg ex_session 5 (replicate 16 Byte.x09)) StdEOF].
Definition ex_joined : list (result gerr Z) * Session := Eval vm_compute in acceptAll ex_session 4 ex_joins.

Lemma granted_channels_witness : granted ex_joined.1 = [2] ∧ NoDup (granted ex_joined.1).
Proof.
  split; [reflexivity|].
  apply (granted_channels ex_joins 4 ex_session ex_joined.1 ex_joined.2). vm_compute. reflexivity.
Defined.

Lemma join_agreement_witness :
  duet 6 (JoinChannel (Ok (replicate 16 Byte.x07)) ex_session 9) (AcceptChannel ex_session 4) [] [] =
  Some (Err (fault E3006 "read channel accept" [] (Some (EStd StdEOF))),
        (Err (fault E4002 "validate channel id" [] None), ex_session)).
Proof. apply (join_agreement ex_session 4 9 (replicate 16 Byte.x07)); done. Defined.

(** A peer that replays what an honest server would have sent. *)
Definition ex_server : stream :=
  let ch := clientHelloBytes ex_id (ex_n Byte.x01) (x25519Public (ex_priv 3)) in
  mkStream (snd (fst (solo (ServerHandshake (Ok (ex_priv 5)) (Ok (ex_n Byte.x02)) (bs "pair") ex_id)
                        (mkStream ch StdEOF)))) StdEOF.

Definition ex_client_run : result gerr Session * bytes * Z :=
  Eval vm_compute in solo (ClientHandshake (Ok (ex_priv 3)) (Ok (ex_n Byte.x01)) (bs "pair") ex_id) ex_server.
Definition ex_client_session : Session :=
  match ex_client_run.1.1 with Ok s => s | Err _ => ex_session end.

Lemma client_authenticates_server_witness :
  ∃ nS ps rest, sdata ex_server = serverHelloBytes nS ps ++ rest.
Proof.
  destruct (client_authenticates_server (Ok (ex_priv 3)) (Ok (ex_n Byte.x01)) (bs "pair") ex_id ex_server
    ex_client_session ex_client_run.1.2 ex_client_run.2)
    as (priv & nC & nS & ps & sc & rest & _ & _ & _ & _ & Hs & _); [vm_compute; reflexivity|].
  by eexists nS, ps, _.
Defined.

(** A peer that opens for another session, and one that is the client above. *)
Definition ex_gate : stream → result gerr Session * bytes * Z :=
  solo (ServerHandshake (Ok (ex_priv 5)) (Ok (ex_n Byte.x02)) (bs "pair") ex_id).
Definition ex_stranger : stream := mkStream (clientHelloBytes (bs "session2") (ex_n Byte.x01) (ex_priv 7)) StdEOF.
Definition ex_knower : stream := mkStream ex_client_run.1.2 StdEOF.

Lemma server_gate_witness :
  ex_gate ex_stranger = (Err (fault E4001 "verify session id" [] None), [], mismatchDelay) ∧
  (∃ out t, ex_gate ex_knower = (Ok ex_client_session, out, t) ∧
     ∃ nC pc tag, sdata ex_knower = clientHelloBytes ex_id nC pc ++ tag).
Proof.
  split.
  - assert (E : ex_gate ex_stranger = (Err (fault E4001 "verify session id" [] None), [], mismatchDelay)) by (vm_compute; reflexivity).
    destruct (server_gate _ _ _ _ _ _ _ _ E) as [_ _]. exact E.
  - exists (ex_gate ex_knower).1.2, (ex_gate ex_knower).2.
    assert (E : ex_gate ex_knower = (Ok ex_client_session, (ex_gate ex_knower).1.2, (ex_gate ex_knower).2)) by (vm_compute; reflexivity).
    split; [exact E|]. destruct (server_gate _ _ _ _ _ _ _ _ E) as [_ H].
    destruct (H ex_client_session eq_refl) as (priv & nC & nS & pc & sc & rest & _ & _ & _ & _ & Hs & _). by eexists nC, pc, _.
Defined.
