(* ===== verification/Channel.v ===== *)
(** * Channel: messages over one connection (src/internal/channel)

    A [Conn] puts the codec of Wire on the record layer of Record.  Its state is
    the record writer and reader, the bytes the transport will still deliver and
    the keepalive fields; a write returns the bytes it puts on the transport.  The
    clock and the CSPRNG are arguments. *)
From S2P Require Import Prelude Fault Codec Record Wire Handshake.

Inductive Role := Sender | Receiver.
Definition ControlChannelID : Z := 0.
(** Nanoseconds. *)
Definition KeepaliveInterval : Z := 15 * 10 ^ 9.
Definition KeepaliveDeadline : Z := 45 * 10 ^ 9.

Section channel.
Context `{RecordCrypto}.

Record Conn := mkConn {
  c_id : Z; c_w : Writer; c_r : Reader; c_in : stream;
  lastRecv : Z; kaExpired : bool; kaStopped : bool; pingTok : Z;
  kaInterval : Z; kaDeadline : Z;
}.
Definition withWriter (c : Conn) (w : Writer) : Conn :=
  mkConn (c_id c) w (c_r c) (c_in c) (lastRecv c) (kaExpired c) (kaStopped c) (pingTok c) (kaInterval c) (kaDeadline c).
Definition withReader (c : Conn) (r : Reader) (s : stream) (t : Z) : Conn :=
  mkConn (c_id c) (c_w c) r s t (kaExpired c) (kaStopped c) (pingTok c) (kaInterval c) (kaDeadline c).

Definition SendMsg (env : wenv) (m : Message) (c : Conn) : option gerr * bytes * Conn :=
  let '(e, out, w) := WriteFrame env (c_w c) (Marshal m) in (e, out, withWriter c w).

(** The environment of a receive: the write of the [k]-th PONG and the time at
    which the [k]-th frame is read. *)
Record renv := mkRenv { r_pong : nat → wenv; r_now : nat → Z }.

(** [RecvMsg]'s loop, [k] frames having been read: the message or the error, the
    PONGs written, and the connection.  Each turn reads a whole record, so the
    length of the pending input bounds the turns. *)
Fixpoint recvLoop (fuel k : nat) (env : renv) (c : Conn) : option (result gerr Message * bytes * Conn) :=
  match fuel with
  | O => None
  | S fuel =>
      match ReadFrame (c_r c) (c_in c) with
      | (Err e, r, s) =>
          let c := withReader c r s (lastRecv c) in
          Some (Err (if isStd StdEOF e then EStd StdEOF
                     else if kaExpired c then fault E3004 "keepalive" (bs "control channel") None
                     else if isStd StdTimeout e then EFault (Wrap E3004 "recv message" [] e)
                     else e), [], c)
      | (Ok frame, r, s) =>
          let c := withReader c r s (r_now env k) in
          match Unmarshal frame with
          | Err e => Some (Err e, [], c)
          | Ok (MPing p) =>
              match SendMsg (r_pong env k) (MPong (Pong.mk (Ping.Token p))) c with
              | (Some e, out, c) => Some (Err e, out, c)
              | (None, out, c) =>
                  match recvLoop fuel (S k) env c with
                  | Some (x, out', c) => Some (x, out ++ out', c)
                  | None => None
                  end
              end
          | Ok (MPong _) => recvLoop fuel (S k) env c
          | Ok m => Some (Ok m, [], c)
          end
      end
  end.
Definition RecvMsg (env : renv) (c : Conn) : option (result gerr Message * bytes * Conn) :=
  recvLoop (S (length (sdata (c_in c)))) 0 env c.

(** A deadline that passes ends the pending input with [StdTimeout]. *)
Definition RecvMsgTimeout (d : Z) (env : renv) (c : Conn) : option (result gerr Message * bytes * Conn) :=
  if d <=? 0 then RecvMsg env c
  else
    match RecvMsg env c with
    | Some (Err e, out, c) =>
        Some (Err (if isStd StdTimeout e then fault E3005 "data channel idle past the stall timeout" [] (Some e) else e), out, c)
    | x => x
    end.

(** One tick of [pingLoop] and of [watchLoop]; the flag says whether the loop ends. *)
Definition pingTick (now : Z) (env : wenv) (c : Conn) : bool * bytes * Conn :=
  if kaStopped c then (true, [], c)
  else if now - lastRecv c <? kaInterval c then (false, [], c)
  else
    let t := wrap_u 64 (pingTok c + 1) in
    let c := mkConn (c_id c) (c_w c) (c_r c) (c_in c) (lastRecv c) (kaExpired c) (kaStopped c) t (kaInterval c) (kaDeadline c) in
    match SendMsg env (MPing (Ping.mk t)) c with
    | (Some _, out, c) => (true, out, c)
    | (None, out, c) => (false, out, c)
    end.
Definition watchTick (now : Z) (c : Conn) : bool * Conn :=
  if kaStopped c then (true, c)
  else if kaDeadline c <? now - lastRecv c then
    (* the read deadline of now: no further read delivers anything *)
    (true, mkConn (c_id c) (c_w c) (c_r c) (mkStream [] StdTimeout) (lastRecv c) true (kaStopped c)
             (pingTok c) (kaInterval c) (kaDeadline c))
  else (false, c).

(** [cerr] is what closing the socket returns. *)
Definition CloseConn (env : wenv) (cerr : option gerr) (c : Conn) : option gerr * bytes * Conn :=
  let '(werr, out, w) := Close env (c_w c) in
  (match werr with Some e => Some e | None => cerr end, out,
   mkConn (c_id c) w (c_r c) (c_in c) (lastRecv c) (kaExpired c) true (pingTok c) (kaInterval c) (kaDeadline c)).

End channel.

Definition newConn `{RecordCrypto, HandshakeCrypto} (s : stream) (id : Z) (sess : Session) (role : Role) (now : Z) : Conn * Session :=
  let wdir := match role with Sender => S2R | Receiver => R2S end in
  let '((wEnc, wMac), sess) := RecordKeys sess wdir id in
  let '((rEnc, rMac), sess) := RecordKeys sess (Peer wdir) id in
  (mkConn id (NewWriter wEnc wMac id) (NewReader rEnc rMac id) s now false false 0 KeepaliveInterval KeepaliveDeadline, sess).

(** ** Errors *)
Lemma Wrap_code code op subj e : code ≠ [] → GetCode (EFault (Wrap code op subj e)) ≠ [].
Proof.
  intros Hc. unfold GetCode, Wrap. cbn [asFault]. destruct (asFault e) as [f|]; [|done].
  destruct (bool_decide_reflect (fCode f ≠ [])) as [?|?]; done.
Qed.

Section errors.
Context `{RecordCrypto}.

Lemma readErr_coded op e : GetCode (readErr op e) ≠ [] ∧ isStd StdEOF (readErr op e) = false.
Proof.
  unfold readErr, isEOFish. destruct (bool_decide_reflect (e = StdEOF ∨ e = StdUnexpectedEOF)) as [?|He]; [by vm_compute|].
  split; [by apply Wrap_code|]. cbn. apply bool_decide_eq_false. naive_solver.
Qed.

(** A record reader reports [io.EOF] only after the authenticated close; every
    other error carries a code. *)
Lemma ReadFrame_err r s e r' s' : ReadFrame r s = (Err e, r', s') →
  (e = EStd StdEOF ∧ r_done r' = true) ∨ (GetCode e ≠ [] ∧ isStd StdEOF e = false).
Proof.
  unfold ReadFrame. destruct (r_done r) eqn:Hd; [intros [= <- <- _]; by left|].
  destruct (readFull headerLen s) as [[h|e1] s1]; [|intros [= <- _ _]; right; apply readErr_coded].
  destruct (negb (unbe (slice 0 1 h) =? version)); [intros [= <- _ _]; by right|].
  destruct (negb (unbe (slice 1 2 h) =? r_chID r)); [intros [= <- _ _]; by right|].
  destruct (_ || negb (unbe (slice 10 14 h) mod blockSize =? 0)); [intros [= <- _ _]; by right|].
  unfold readBody. destruct (readFull _ s1) as [[b|e1] s2]; [|intros [= <- _ _]; right; apply readErr_coded].
  destruct (negb (bool_decide _)); [intros [= <- _ _]; by right|].
  destruct (negb (unbe (slice 2 10 h) =? r_seq r)); [intros [= <- _ _]; by right|].
  destruct (negb (aesKeyOk _)); [intros [= <- _ _]; by right|].
  destruct (pkcs7Unpad _) as [g|e1] eqn:E.
  - destruct (bool_decide (g = [])); [|done]. intros [= <- <- _]. by left.
  - intros [= <- _ _]. right. unfold pkcs7Unpad in E. repeat case_match; try done; injection E as <-; by vm_compute.
Qed.

Lemma WriteFrame_coded env w p e out w' : WriteFrame env w p = (Some e, out, w') → GetCode e ≠ [].
Proof.
  unfold WriteFrame, writeRecord. repeat case_match; intros [= <- _ _]; try (by vm_compute); by apply Wrap_code.
Qed.

Lemma Unmarshal_coded f e : Unmarshal f = Err e → GetCode e ≠ [].
Proof.
  unfold Unmarshal, decodeBody. repeat case_match; try done; intros [= <-]; by vm_compute.
Qed.

End errors.

(** ** Receiving *)
Section receive.
Context `{RecordCryptoLaws}.
#[local] Set Default Proof Using "Type*".

Lemma ReadFrame_shorter r s f r' s' : ReadFrame r s = (Ok f, r', s') → (length (sdata s') < length (sdata s))%nat.
Proof.
  intros (iv & ct & mac & -> & Hiv & _)%ReadFrame_ok_inv. rewrite !length_app. unfold recordPrefix.
  rewrite !length_app, !length_be, Hiv. unfold ivLen. lia.
Qed.

Lemma recvLoop_total fuel : ∀ k env c, (length (sdata (c_in c)) < fuel)%nat → is_Some (recvLoop fuel k env c).
Proof.
  induction fuel as [|fuel IH]; intros k env c Hf; [lia|]. cbn [recvLoop].
  destruct (ReadFrame (c_r c) (c_in c)) as [[[frame|e] r] s] eqn:E; [|by eexists].
  apply ReadFrame_shorter in E. destruct (Unmarshal frame) as [m|e]; [|by eexists].
  destruct m; try by eexists.
  - destruct (SendMsg _ _ _) as [[[e|] out] c'] eqn:Es; [by eexists|].
    assert (Hc : c_in c' = s).
    { unfold SendMsg in Es. destruct (WriteFrame _ _ _) as [[? ?] ?]. by injection Es as _ _ <-. }
    destruct (IH (S k) env c') as [[[x out'] c''] ->]; [rewrite Hc; lia|by eexists].
  - apply IH. cbn [c_in withReader]. lia.
Qed.

Lemma recvLoop_err fuel : ∀ k env c x out c',
  recvLoop fuel k env c = Some (x, out, c') →
  match x with
  | Ok (MPing _) | Ok (MPong _) => False
  | Ok _ => True
  | Err e => (e = EStd StdEOF ∧ r_done (c_r c') = true) ∨ GetCode e ≠ []
  end.
Proof.
  induction fuel as [|fuel IH]; intros k env c x out c'; [done|]. cbn [recvLoop].
  destruct (ReadFrame (c_r c) (c_in c)) as [[[frame|e] r] s] eqn:E.
  - destruct (Unmarshal frame) as [m|e] eqn:Eu; [|intros [= <- _ _]; right; by eapply Unmarshal_coded].
    destruct m; try (intros [= <- _ _]; exact I); [|apply IH].
    destruct (SendMsg _ _ _) as [[[e|] out0] c0] eqn:Es.
    + intros [= <- _ _]. right. unfold SendMsg in Es. destruct (WriteFrame _ _ _) as [[? ?] ?] eqn:Ew.
      injection Es as -> _ _. by eapply WriteFrame_coded.
    + destruct (recvLoop fuel (S k) env c0) as [[[x' out'] c'']|] eqn:El; [|done].
      intros [= Ex Eo Ec]. subst x out c'. exact (IH _ _ _ _ _ _ El).
  - intros [= <- _ <-]. cbn [c_r withReader kaExpired]. apply ReadFrame_err in E as [[-> ?]|[Hc He]]; [by left|right].
    rewrite He. destruct (kaExpired c); [by vm_compute|]. destruct (isStd StdTimeout e); [by apply Wrap_code|done].
Qed.
End receive.

(** ** Conversations *)
Section conversation.
Context `{RecordCrypto}.

(** [SendMsg] for each message with its IV; [RecvMsg] until it fails. *)
Fixpoint SendAll (ms : list (bytes * Message)) (c : Conn) : option gerr * bytes * Conn :=
  match ms with
  | [] => (None, [], c)
  | (iv, m) :: ms =>
      match SendMsg (mkWenv (Ok iv) None) m c with
      | (Some e, out, c) => (Some e, out, c)
      | (None, out, c) => let '(e, out', c) := SendAll ms c in (e, out ++ out', c)
      end
  end.
Fixpoint RecvAll (fuel : nat) (env : renv) (c : Conn) : list Message * bytes * option gerr :=
  match fuel with
  | O => ([], [], None)
  | S fuel =>
      match RecvMsg env c with
      | Some (Ok m, out, c) => let '(ms, out', e) := RecvAll fuel env c in (m :: ms, out ++ out', e)
      | Some (Err e, out, _) => ([], out, Some e)
      | None => ([], [], None)
      end
  end.
(** The answers to the pings among [ms], in order. *)
Definition pongs (ms : list Message) : list Message :=
  omap (λ m, match m with MPing p => Some (MPong (Pong.mk (Ping.Token p))) | _ => None end) ms.
Definition keepalive (m : Message) : bool := match m with MPing _ | MPong _ => true | _ => false end.
Definition frames (ms : list (bytes * Message)) : list (bytes * bytes) := (λ x, (x.1, Marshal x.2)) <$> ms.
(** A message a channel can carry. *)
Definition carries (id : Z) (x : bytes * Message) : Prop :=
  length x.1 = ivLen ∧ wf_message x.2 ∧ Z.of_nat (length (Marshal x.2)) < maxCT id.

Lemma Marshal_ne m : Marshal m ≠ [].
Proof. intros E. pose proof (length_Marshal m) as Hl. rewrite E in Hl. unfold FrameHeaderLen in Hl. cbn [length] in Hl. lia. Qed.

Lemma SendAll_writes ms : ∀ c out w', WriteAll (c_w c) (frames ms) = (None, out, w') → SendAll ms c = (None, out, withWriter c w').
Proof.
  induction ms as [|[iv m] ms IH]; intros c out w' E; cbn [frames fmap list_fmap WriteAll SendAll] in *.
  { injection E as <- <-. by destruct c. }
  cbn [fst snd] in E. unfold SendMsg. destruct (WriteFrame _ _ _) as [[[e|] o] w1]; [done|].
  destruct (WriteAll w1 _) as [[e2 o2] w2] eqn:E2. injection E as -> <- <-.
  rewrite (IH (withWriter c w1) o2 w2); [by destruct c|exact E2].
Qed.

(** [out] is what the writer [w] writes for the messages [l], whatever the IVs. *)
Definition wrote (w : Writer) (l : list Message) (out : bytes) (w' : Writer) : Prop :=
  ∃ ms, ms.*2 = l ∧ WriteAll w (frames ms) = (None, out, w').
Lemma wrote_nil w : wrote w [] [] w.
Proof. by exists []. Qed.
Lemma wrote_cons iv m l w out w1 out' w' :
  WriteFrame (mkWenv (Ok iv) None) w (Marshal m) = (None, out, w1) → wrote w1 l out' w' → wrote w (m :: l) (out ++ out') w'.
Proof.
  intros E (ms & <- & Es). exists ((iv, m) :: ms). split; [done|].
  change (frames ((iv, m) :: ms)) with ((iv, Marshal m) :: frames ms). cbn [WriteAll]. by rewrite E, Es.
Qed.
Lemma wrote_app w l1 out1 w1 l2 out2 w2 : wrote w l1 out1 w1 → wrote w1 l2 out2 w2 → wrote w (l1 ++ l2) (out1 ++ out2) w2.
Proof.
  intros (ms & <- & E). revert w out1 E. induction ms as [|[iv m] ms IH]; intros w out1 E H2.
  { injection E as <- <-. exact H2. }
  change (frames ((iv, m) :: ms)) with ((iv, Marshal m) :: frames ms) in E. cbn [WriteAll] in E.
  destruct (WriteFrame (mkWenv (Ok iv) None) w (Marshal m)) as [[[e|] o] w0] eqn:E0; [done|].
  destruct (WriteAll w0 (frames ms)) as [[e o'] w0'] eqn:E1. injection E as -> <- <-.
  rewrite <- app_assoc. rewrite fmap_cons. cbn [app]. eapply wrote_cons; [exact E0|]. by apply IH.
Qed.

Lemma length_sealedAll w fs : (length fs <= length (sealedAll w fs))%nat.
Proof.
  revert w. induction fs as [|[iv f] fs IH]; intros w; cbn [sealedAll length]; [lia|].
  rewrite length_app. specialize (IH (w_next w false)). unfold sealed, recordPrefix. rewrite !length_app, !length_be. lia.
Qed.

End conversation.

Section delivery.
Context `{RecordCryptoLaws}.
#[local] Set Default Proof Using "All".
Context (id : Z) (ivc tail : bytes) (fin : stdErr) (env : renv).
Hypothesis Hivc : length ivc = ivLen.
Hypothesis Hpong : ∀ k, ∃ iv, r_pong env k = mkWenv (Ok iv) None.

Record canReply (n : Z) (w : Writer) : Prop := {
  cr_open : w_closed w = false; cr_key : aesKeyOk (w_kEnc w) = true; cr_seq0 : 0 <= w_seq w;
  cr_seq : w_seq w + n < 2 ^ 64; cr_max : w_maxCT w = maxCT id;
}.

(** The peer's writer stands at [wa]; what is left to arrive is [ms], the close
    and anything. *)
Record ready (wa : Writer) (ms : list (bytes * Message)) (c : Conn) : Prop := {
  rd_sync : sync wa (c_r c);
  rd_max : w_maxCT wa = maxCT id;
  rd_seq : w_seq wa + Z.of_nat (length ms) < 2 ^ 64 - 1;
  rd_in : c_in c = mkStream (sealedAll wa (frames ms) ++ sealed (w_after wa (length ms)) ivc [] ++ tail) fin;
  rd_ms : Forall (carries id) ms;
  rd_reply : canReply (Z.of_nat (length ms)) (c_w c);
}.

Lemma SendMsg_ok iv m c :
  canReply 1 (c_w c) → Z.of_nat (length (Marshal m)) < maxCT id →
  SendMsg (mkWenv (Ok iv) None) m c = (None, sealed (c_w c) iv (Marshal m), withWriter c (w_next (c_w c) false)).
Proof.
  intros [Ho Hk H0' Hs Hm] Hl. unfold SendMsg, WriteFrame. rewrite bool_decide_false by apply Marshal_ne.
  rewrite writeRecord_ok; [done|done|done|lia|]. unfold fits. rewrite Hm. apply pkcs7Pad_le; [apply maxCT_blocks|done].
Qed.

(** One record of the peer is read. *)
Lemma ready_step wa x ms c :
  ready wa (x :: ms) c →
  ∃ r s, ReadFrame (c_r c) (c_in c) = (Ok (Marshal x.2), r, s) ∧ Unmarshal (Marshal x.2) = Ok x.2 ∧
    ∀ t, ready (w_next wa false) ms (withReader c r s t) ∧ canReply 1 (c_w c) ∧
      ready (w_next wa false) ms (withWriter (withReader c r s t) (w_next (c_w c) false)).
Proof.
  intros [Hs Hm Hq Hi Hms [Ro Rk R0 Rs Rm]]. apply Forall_cons in Hms as [(Hiv & Hwf & Hl) Hms].
  destruct x as [iv m]. cbn [fst snd frames fmap list_fmap sealedAll length] in *.
  assert (Hfit : fits wa (Marshal m)) by (unfold fits; rewrite Hm; apply pkcs7Pad_le; [apply maxCT_blocks|done]).
  rewrite Hi, <- app_assoc, (ReadFrame_sealed wa) by (done || lia).
  rewrite bool_decide_false by apply Marshal_ne. eexists _, _. split; [done|]. split.
  { apply unmarshal_frame; [done|]. assert (maxCT id <= MaxFramePlaintext); [|lia]. unfold maxCT. by destruct (id =? 0). }
  assert (Haft : w_after (w_next wa false) (length ms) = w_after wa (S (length ms))).
  { unfold w_after, w_next; cbn. destruct Hs as [_ _ _ _ _ -> _ _ _ _ _]. f_equal. lia. }
  intros t. split_and!; split; cbn [c_r c_in c_w withReader withWriter w_maxCT w_next w_seq]; try done; try lia;
    try (apply sync_next; [done|lia]); try (by rewrite Haft); try (split; cbn; done || lia).
Qed.

Definition dropKeep (ms : list (bytes * Message)) : list (bytes * Message) :=
  list_rect (λ _, list (bytes * Message)) [] (λ x l r, if keepalive x.2 then r else x :: l) ms.

Lemma recvLoop_ready ms : ∀ fuel k wa c, ready wa ms c → (length ms < fuel)%nat →
  ∃ x out c' replies, recvLoop fuel k env c = Some (x, out, c') ∧
    wrote (c_w c) replies out (c_w c') ∧ pongs ms.*2 = replies ++ pongs (drop 1 (dropKeep ms)).*2 ∧
    match dropKeep ms with
    | [] => x = Err (EStd StdEOF)
    | m :: ms' => x = Ok m.2 ∧ ∃ wa', ready wa' ms' c'
    end.
Proof.
  induction ms as [|x ms IH]; intros fuel k wa c Hr Hf; destruct fuel as [|fuel]; try (cbn [length] in Hf; lia); cbn [recvLoop].
  - destruct Hr as [Hs Hm Hq Hi _ _]. cbn [frames fmap list_fmap sealedAll length app] in *.
    assert (w_after wa 0 = wa) as Hw by (unfold w_after; rewrite Z.add_0_r; by destruct wa).
    rewrite Hi, Hw, (ReadFrame_sealed wa); [|done|done|lia|].
    2:{ apply fits_close. rewrite Hm. unfold maxCT. destruct (id =? 0); auto. }
    cbn [bool_decide]. rewrite bool_decide_true by done. eexists _, _, _, []. split; [done|]. split; [apply wrote_nil|done].
  - destruct (ready_step _ _ _ _ Hr) as (r & s & -> & -> & Hnext).
    destruct (Hnext (r_now env k)) as (Hn1 & Hc1 & Hn2). destruct x as [iv m]. cbn [snd] in *.
    assert (Hlen : (length ms < fuel)%nat) by (cbn [length] in Hf; lia).
    destruct (keepalive m) eqn:Ek.
    2:{ cbn [dropKeep list_rect snd]. rewrite Ek. destruct m; try done; eexists _, _, _, []; (split; [done|]); (split; [apply wrote_nil|]);
          (split; [done|]); split; eauto. }
    cbn [dropKeep list_rect snd]. rewrite Ek. fold (dropKeep ms). destruct m as [| | | | | | | | | | | | | | | |p|p|]; try done.
    + destruct (Hpong k) as [ivp ->].
      assert (Hpl : Z.of_nat (length (Marshal (MPong (Pong.mk (Ping.Token p))))) < maxCT id).
      { rewrite length_Marshal. cbn [encodeBody]. unfold writer.u64. rewrite length_be. unfold maxCT. by destruct (id =? 0). }
      pose proof (SendMsg_ok ivp (MPong (Pong.mk (Ping.Token p))) (withReader c r s (r_now env k)) Hc1 Hpl) as Es. rewrite Es.
      destruct (IH fuel (S k) _ _ Hn2 Hlen) as (x & out & c' & replies & E & Hw & Hp & Hx).
      cbn [c_w withReader withWriter] in *. rewrite E. eexists _, _, _, (MPong (Pong.mk (Ping.Token p)) :: replies).
      split; [done|]. split; [|split; [cbn; by f_equal|exact Hx]].
      unfold SendMsg in Es. destruct (WriteFrame _ _ _) as [[e o] w1] eqn:Ew. injection Es as -> -> ->. by eapply wrote_cons.
    + destruct (IH fuel (S k) _ _ Hn1 Hlen) as (x & out & c' & replies & E & Hw & Hp & Hx).
      by exists x, out, c', replies.
Qed.

Lemma RecvAll_ready n : ∀ ms wa c, ready wa ms c → (length ms < n)%nat →
  ∃ out w', RecvAll n env c = (filter (λ m, keepalive m = false) ms.*2, out, Some (EStd StdEOF)) ∧ wrote (c_w c) (pongs ms.*2) out w'.
Proof.
  induction n as [|n IH]; intros ms wa c Hr Hn; [lia|]. cbn [RecvAll]. unfold RecvMsg.
  destruct (recvLoop_ready ms (S (length (sdata (c_in c)))) 0 wa c Hr) as (x & out & c' & replies & -> & Hw & -> & Hx).
  { rewrite (rd_in _ _ _ Hr). cbn [sdata]. rewrite length_app. pose proof (length_sealedAll wa (frames ms)) as Hl.
    unfold frames in Hl. rewrite length_fmap in Hl. unfold frames. lia. }
  assert (Hd : filter (λ m, keepalive m = false) ms.*2 =
    match dropKeep ms with [] => [] | m :: ms' => m.2 :: filter (λ m, keepalive m = false) ms'.*2 end ∧
    (length (dropKeep ms) <= length ms)%nat).
  { clear. induction ms as [|x ms [IH1 IH2]]; [done|]. cbn [dropKeep list_rect]. fold (dropKeep ms). rewrite fmap_cons.
    destruct (keepalive x.2) eqn:E.
    - rewrite filter_cons_False by congruence. cbn [length]. by split; [|lia].
    - by rewrite filter_cons_True. }
  destruct Hd as [-> Hd]. destruct (dropKeep ms) as [|m ms'].
  { subst x. exists out, (c_w c'). split; [done|]. by rewrite app_nil_r. }
  destruct Hx as [-> [wa' Hr']]. cbn [length drop] in *. destruct (IH ms' wa' c' Hr' ltac:(lia)) as (out' & w' & -> & Hw').
  exists (out ++ out'), w'. split; [done|]. by eapply wrote_app.
Qed.
End delivery.

(** ** Properties *)
Section channel_theorems.
Context `{RecordCryptoLaws}.
#[local] Set Default Proof Using "Type*".

(** A receive always comes back, with a message that is not keepalive traffic,
    with [io.EOF] only after the peer's authenticated close, or with an error
    that carries a code; and once the keepalive watchdog has seen the peer silent
    for longer than the deadline, the receive fails with E3004. *)
Theorem receive_outcomes env c :
  (∃ x out c', RecvMsg env c = Some (x, out, c') ∧
     match x with
     | Ok (MPing _) | Ok (MPong _) => False
     | Ok _ => True
     | Err e => (e = EStd StdEOF ∧ r_done (c_r c') = true) ∨ GetCode e ≠ []
     end) ∧
  (∀ now, kaStopped c = false → r_done (c_r c) = false → kaDeadline c < now - lastRecv c →
     ∃ e c', RecvMsg env (watchTick now c).2 = Some (Err e, [], c') ∧ GetCode e = E3004).
Proof.
  split.
  - destruct (recvLoop_total (S (length (sdata (c_in c)))) 0 env c) as [[[x out] c'] E]; [lia|].
    exists x, out, c'. split; [exact E|]. by eapply recvLoop_err.
  - intros now Hst Hd Hlt. unfold watchTick. rewrite Hst, (proj2 (Z.ltb_lt _ _) Hlt). cbn [snd].
    unfold RecvMsg. cbn [recvLoop c_r c_in sdata length]. unfold ReadFrame. rewrite Hd.
    change (readFull headerLen (mkStream [] StdTimeout)) with (@Err stdErr bytes StdTimeout, mkStream [] StdTimeout).
    eexists _, _. split; [done|]. by vm_compute.
Qed.

Context `{!HandshakeCrypto, !HandshakeCryptoLaws}.

Lemma newConn_eq s id sid v sc role now :
  ∃ e m e' m', recordKeys sc (match role with Sender => S2R | Receiver => R2S end) id = Ok (e, m) ∧
    recordKeys sc (match role with Sender => R2S | Receiver => S2R end) id = Ok (e', m') ∧
    length e = 32%nat ∧ length e' = 32%nat ∧
    (newConn s id (newSession sid v sc) role now).1 =
      mkConn id (NewWriter e m id) (NewReader e' m' id) s now false false 0 KeepaliveInterval KeepaliveDeadline.
Proof.
  set (wdir := match role with Sender => S2R | Receiver => R2S end).
  destruct (recordKeys_ok sc wdir id) as (e & m & E & He & _).
  destruct (recordKeys_ok sc (Peer wdir) id) as (e' & m' & E' & He' & _).
  exists e, m, e', m'. split; [done|]. split; [by destruct role|]. split_and!; [done..|].
  unfold newConn. fold wdir. unfold RecordKeys at 1. cbn [newSession skeys sch]. rewrite lookup_empty, E.
  unfold RecordKeys. cbn [skeys sch]. rewrite lookup_insert_ne, lookup_empty by (by destruct role). by rewrite E'.
Qed.

(** C19: two ends that hold the same session agree on every message: whatever
    well-formed messages below the channel's record ceiling the sender writes
    before it closes, the receiver reads exactly those that are not keepalive
    traffic, in order, and then [io.EOF]; the pings in between never surface, and
    what the receiver writes meanwhile is exactly the records of the PONGs with
    their tokens, in order, as long as these writes do not fail; nothing appended
    to the transport after the close matters. *)
Theorem messages_delivered id sid v v' sc t t' ms ivc tail fin env :
  in_u 8 id → Z.of_nat (length ms) < 2 ^ 64 - 1 → Forall (carries id) ms → length ivc = ivLen →
  (∀ k, ∃ iv, r_pong env k = mkWenv (Ok iv) None) →
  let a := (newConn (mkStream [] StdEOF) id (newSession sid v sc) Sender t).1 in
  ∃ out out2 a' a'',
    SendAll ms a = (None, out, a') ∧ CloseConn (mkWenv (Ok ivc) None) None a' = (None, out2, a'') ∧
    let b := (newConn (mkStream (out ++ out2 ++ tail) fin) id (newSession sid v' sc) Receiver t').1 in
    ∃ replies out3 b', replies.*2 = pongs ms.*2 ∧ SendAll replies b = (None, out3, b') ∧
      RecvAll (S (length ms)) env b = (filter (λ m, keepalive m = false) ms.*2, out3, Some (EStd StdEOF)).
Proof.
  intros Hid Hn Hms Hivc Hpong. cbv zeta.
  destruct (newConn_eq (mkStream [] StdEOF) id sid v sc Sender t) as (e & m & e' & m' & E1 & _ & He & _ & ->).
  assert (Hk : aesKeyOk e = true) by (unfold aesKeyOk; by rewrite He).
  assert (Hfr : Forall (frameOk id) (frames ms)).
  { apply Forall_fmap. eapply Forall_impl; [exact Hms|]. intros x (? & _ & ?). split_and!; [done|apply Marshal_ne|done]. }
  assert (Hnf : length (frames ms) = length ms) by apply length_fmap.
  destruct (written_stream e m id (frames ms) ivc Hk) as (EW & EC & Hsend & Hfit); [by rewrite Hnf|done|].
  eexists _, _, _, _. split; [by apply (SendAll_writes ms (mkConn _ _ _ _ _ _ _ _ _ _) _ _ EW)|].
  split; [unfold CloseConn; cbn [c_w withWriter]; rewrite EC; done|].
  match goal with |- context [newConn ?s _ _ _ _] =>
    destruct (newConn_eq s id sid v' sc Receiver t') as (f & n & f' & n' & _ & E2 & Hf & _ & ->) end.
  assert (f' = e ∧ n' = m) as [-> ->] by (rewrite E1 in E2; by injection E2 as -> ->).
  match goal with |- context [RecvAll _ _ ?c] => set (b := c) end.
  assert (Hr : ready id ivc tail fin (NewWriter e m id) ms b); [|].
  2:{ destruct (RecvAll_ready id ivc tail fin env Hivc Hpong (S (length ms)) ms _ _ Hr ltac:(lia)) as (out3 & w' & E & replies & Hreps & Hw).
      exists replies, out3, (withWriter b w'). split_and!; [done|by apply SendAll_writes|done]. }
  unfold b. split; cbn [c_r c_w c_in].
  - by apply sync_new.
  - done.
  - cbn [w_seq NewWriter]. lia.
  - by rewrite Hnf.
  - done.
  - assert (aesKeyOk f = true) by (unfold aesKeyOk; by rewrite Hf). split; cbn; done || lia.
Qed.
End channel_theorems.

(** *** Witnesses *)
#[local] Existing Instances rev_crypto rev_crypto_laws toy_crypto toy_laws.
Definition ex_iv : bytes := replicate 16 Byte.x2a.
Definition ex_msgs : list (bytes * Message) :=
  [(ex_iv, MPing (Ping.mk 7)); (ex_iv, MCredit (Credit.mk 1)); (ex_iv, MFileCancel (FileCancel.mk 3 1))].
Definition ex_renv : renv := mkRenv (λ _, mkWenv (Ok ex_iv) None) (λ _, 0).
Definition ex_conn : Conn := (newConn (mkStream [] StdEOF) 1 ex_session Receiver 0).1.

Lemma receive_outcomes_witness :
  ∃ e c', RecvMsg ex_renv (watchTick (46 * 10 ^ 9) ex_conn).2 = Some (Err e, [], c') ∧ GetCode e = E3004.
Proof.
  destruct (receive_outcomes ex_renv ex_conn) as [_ H].
  apply H; vm_compute; reflexivity.
Defined.

Lemma ex_carries : Forall (carries 1) ex_msgs.
Proof. repeat constructor; vm_compute; done. Qed.
Lemma messages_delivered_witness :
  ∃ out out2 a' a'' replies out3 b',
    SendAll ex_msgs (newConn (mkStream [] StdEOF) 1 (newSession ex_id 2 ex_sched) Sender 0).1 = (None, out, a') ∧
    CloseConn (mkWenv (Ok ex_iv) None) None a' = (None, out2, a'') ∧
    let b := (newConn (mkStream (out ++ out2 ++ bs "x") StdEOF) 1 (newSession ex_id 2 ex_sched) Receiver 0).1 in
    replies.*2 = [MPong (Pong.mk 7)] ∧ SendAll replies b = (None, out3, b') ∧
    RecvAll 4 ex_renv b = ([MCredit (Credit.mk 1); MFileCancel (FileCancel.mk 3 1)], out3, Some (EStd StdEOF)).
Proof.
  destruct (messages_delivered 1 ex_id 2 2 ex_sched 0 0 ex_msgs ex_iv (bs "x") StdEOF ex_renv)
    as (out & out2 & a' & a'' & H1 & H2 & replies & out3 & b' & H3 & H4 & H5).
  - done.
  - done.
  - exact ex_carries.
  - reflexivity.
  - intros k. exists ex_iv. reflexivity.
  - exists out, out2, a', a'', replies, out3, b'. split; [exact H1|]. split; [exact H2|]. split; [exact H3|]. split; [exact H4|exact H5].
Defined.
