(* ===== verification/Float64.v ===== *)
(** * Float64: Go's float64

    binary64, rounding to nearest even, over the Standard Library's [SpecFloat], with
    the conversions and the fixed-point formatting ([fmt]'s %.0f and %.1f) the program
    uses. *)
From Stdlib Require Import SpecFloat.
From S2P Require Import Prelude Strconv.

Abbreviation float64 := spec_float.
Definition ofInt (z : Z) : float64 := binary_normalize 53 1024 z 0 false.
Definition add64 : float64 → float64 → float64 := SFadd 53 1024.
Definition mul64 : float64 → float64 → float64 := SFmul 53 1024.
Definition div64 : float64 → float64 → float64 := SFdiv 53 1024.
Definition lt64 : float64 → float64 → bool := SFltb.
Definition le64 : float64 → float64 → bool := SFleb.
Definition eq64 : float64 → float64 → bool := SFeqb.

(** A finite value is [num / den]. *)
Definition fraction (f : float64) : option (Z * Z) :=
  match f with
  | S754_zero _ => Some (0, 1)
  | S754_finite s m e => let v := if s then Zneg m else Zpos m in Some (if 0 <=? e then (v * 2 ^ e, 1) else (v, 2 ^ (- e)))
  | _ => None
  end.
(** The conversion to an integer truncates; [None] where its result depends on the
    machine. *)
Definition trunc (f : float64) : option Z := '(n, d) ← fraction f; Some (Z.quot n d).
(** %.kf of a value that is not negative: the exact decimal, rounded half to even. *)
Definition roundHalfEven (n d : Z) : Z :=
  let q := n / d in let r := n mod d in
  if 2 * r <? d then q else if d <? 2 * r then q + 1 else if Z.even q then q else q + 1.
Definition fixed0 (f : float64) : bytes :=
  match fraction f with Some (n, d) => FormatInt (roundHalfEven n d) 10 | None => bs "+Inf" end.
Definition fixed1 (f : float64) : bytes :=
  match fraction f with
  | Some (n, d) => let t := roundHalfEven (10 * n) d in FormatInt (t / 10) 10 ++ bs "." ++ FormatInt (t mod 10) 10
  | None => bs "+Inf"
  end.

Example fixed_ex : (fixed1 (div64 (ofInt 1) (ofInt 4)), fixed1 (div64 (ofInt 3) (ofInt 4)), fixed0 (div64 (ofInt 5) (ofInt 2))) = (bs "0.2", bs "0.8", bs "2").
Proof. by vm_compute. Qed.
