(* ===== verification/Glob.v ===== *)
(** * Glob: the standard-library text functions the planner and the path rules use

    UTF-8 decoding and validity ([unicode/utf8]), [filepath.Match] with the Unix
    separator and escape, [path.Base], [strings.TrimPrefix]/[TrimSuffix],
    [bytes.Compare]/[IndexByte]/[LastIndexByte].  They are executable models of
    the Go standard library as documented and implemented there. *)
From S2P Require Import Prelude.

Definition c_slash : byte := Byte.x2f.
Definition c_star : byte := Byte.x2a.
Definition c_quest : byte := Byte.x3f.
Definition c_lbr : byte := Byte.x5b.
Definition c_rbr : byte := Byte.x5d.
Definition c_caret : byte := Byte.x5e.
Definition c_dash : byte := Byte.x2d.
Definition c_bslash : byte := Byte.x5c.

(** ** UTF-8 *)
Definition RuneError : Z := 0xFFFD.

Definition cont (b : byte) : bool := (0x80 <=? Z_of_byte b) && (Z_of_byte b <=? 0xBF).
Definition payload (b : byte) : Z := Z.land (Z_of_byte b) 0x3F.

(** [utf8.DecodeRune]: the rune and its width; an invalid encoding is
    [(RuneError, 1)], empty input [(RuneError, 0)]. *)
Definition DecodeRune (s : bytes) : Z * nat :=
  match s with
  | [] => (RuneError, 0%nat)
  | b0 :: rest =>
      let c := Z_of_byte b0 in
      if c <? 0x80 then (c, 1%nat)
      else if (0xC2 <=? c) && (c <=? 0xDF) then
        match rest with
        | b1 :: _ => if cont b1 then (Z.land c 0x1F * 64 + payload b1, 2%nat) else (RuneError, 1%nat)
        | _ => (RuneError, 1%nat)
        end
      else if (0xE0 <=? c) && (c <=? 0xEF) then
        match rest with
        | b1 :: b2 :: _ =>
            let lo := if c =? 0xE0 then 0xA0 else 0x80 in
            let hi := if c =? 0xED then 0x9F else 0xBF in
            if (lo <=? Z_of_byte b1) && (Z_of_byte b1 <=? hi) && cont b2
            then (Z.land c 0x0F * 4096 + payload b1 * 64 + payload b2, 3%nat)
            else (RuneError, 1%nat)
        | _ => (RuneError, 1%nat)
        end
      else if (0xF0 <=? c) && (c <=? 0xF4) then
        match rest with
        | b1 :: b2 :: b3 :: _ =>
            let lo := if c =? 0xF0 then 0x90 else 0x80 in
            let hi := if c =? 0xF4 then 0x8F else 0xBF in
            if (lo <=? Z_of_byte b1) && (Z_of_byte b1 <=? hi) && cont b2 && cont b3
            then (Z.land c 0x07 * 262144 + payload b1 * 4096 + payload b2 * 64 + payload b3, 4%nat)
            else (RuneError, 1%nat)
        | _ => (RuneError, 1%nat)
        end
      else (RuneError, 1%nat)
  end.

Fixpoint valid_go (fuel : nat) (s : bytes) : bool :=
  match fuel with
  | O => bool_decide (s = [])
  | S fuel =>
      match s with
      | [] => true
      | _ => let '(r, n) := DecodeRune s in
             if (r =? RuneError) && (n =? 1)%nat then false else valid_go fuel (drop n s)
      end
  end.
Definition utf8_Valid (s : bytes) : bool := valid_go (length s) s.

(** ** Bytes *)
Definition IndexByte (s : bytes) (c : byte) : option nat := fst <$> list_find (λ x, x = c) s.
Definition LastIndexByte (s : bytes) (c : byte) : option nat :=
  (λ p, (length s - 1 - p.1)%nat) <$> list_find (λ x, x = c) (reverse s).

Fixpoint bytes_Compare (a b : bytes) : comparison :=
  match a, b with
  | [], [] => Eq
  | [], _ => Lt
  | _, [] => Gt
  | x :: a, y :: b =>
      match Z.compare (Z_of_byte x) (Z_of_byte y) with Eq => bytes_Compare a b | c => c end
  end.

Definition HasPrefix (s p : bytes) : bool := bool_decide (take (length p) s = p).
Definition HasSuffix (s p : bytes) : bool :=
  (length p <=? length s)%nat && bool_decide (drop (length s - length p) s = p).
Definition TrimPrefix (s p : bytes) : bytes := if HasPrefix s p then drop (length p) s else s.
Definition TrimSuffix (s p : bytes) : bytes :=
  if HasSuffix s p then take (length s - length p) s else s.

(** [path.Base]: the last element after stripping trailing slashes. *)
Fixpoint stripSlashes (s : bytes) : bytes :=
  match s with
  | [] => []
  | c :: s' => match stripSlashes s' with
               | [] => if bool_decide (c = c_slash) then [] else [c]
               | t => c :: t
               end
  end.
Definition Base (p : bytes) : bytes :=
  if bool_decide (p = []) then bs "."
  else
    let p := stripSlashes p in
    let p := match LastIndexByte p c_slash with Some i => drop (i + 1) p | None => p end in
    if bool_decide (p = []) then bs "/" else p.

(** ** filepath.Match (Unix)

    [None] is [ErrBadPattern].  Fuel: every loop consumes its pattern or name. *)
Fixpoint skipStars (p : bytes) : bool * bytes :=
  match p with
  | c :: p' => if bool_decide (c = c_star) then (true, (skipStars p').2) else (false, p)
  | [] => (false, [])
  end.

(** The length of the chunk up to the first star outside a range. *)
Fixpoint scan (fuel : nat) (p : bytes) (inrange : bool) : nat :=
  match fuel with
  | O => 0
  | S fuel =>
      match p with
      | [] => 0
      | c :: p' =>
          if bool_decide (c = c_bslash) then
            match p' with
            | _ :: p'' => 2 + scan fuel p'' inrange
            | [] => 1
            end
          else if bool_decide (c = c_lbr) then 1 + scan fuel p' true
          else if bool_decide (c = c_rbr) then 1 + scan fuel p' false
          else if bool_decide (c = c_star) && negb inrange then 0
          else 1 + scan fuel p' inrange
      end
  end%nat.

Definition scanChunk (p : bytes) : bool * bytes * bytes :=
  let '(star, p) := skipStars p in
  let i := scan (length p) p false in
  (star, take i p, drop i p).

Definition getEsc (chunk : bytes) : option (Z * bytes) :=
  match chunk with
  | [] => None
  | c :: chunk' =>
      if bool_decide (c = c_dash) || bool_decide (c = c_rbr) then None
      else
        let chunk := if bool_decide (c = c_bslash) then chunk' else chunk in
        match chunk with
        | [] => None
        | _ =>
            let '(r, n) := DecodeRune chunk in
            if (r =? RuneError) && (n =? 1)%nat then None
            else match drop n chunk with [] => None | nchunk => Some (r, nchunk) end
        end
  end.

(** The ranges of a character class, up to its closing bracket. *)
Fixpoint ranges (fuel : nat) (chunk : bytes) (r : Z) (nrange : nat) (m : bool) : option (bool * bytes) :=
  match fuel with
  | O => None
  | S fuel =>
      match chunk with
      | c :: chunk' =>
          if bool_decide (c = c_rbr) && (0 <? nrange)%nat then Some (m, chunk')
          else
            lo ← getEsc chunk;
            let '(lo, chunk) := lo in
            hi ← (match chunk with
                  | c :: chunk' => if bool_decide (c = c_dash) then getEsc chunk' else Some (lo, chunk)
                  | [] => Some (lo, chunk)
                  end);
            let '(hi, chunk) := hi in
            ranges fuel chunk r (S nrange) (m || ((lo <=? r) && (r <=? hi)))
      | [] => None
      end
  end.

(** [matchChunk]: [Some (Some rest)] matched, [Some None] failed. *)
Fixpoint matchChunk (fuel : nat) (chunk s : bytes) (failed : bool) : option (option bytes) :=
  match fuel with
  | O => None
  | S fuel =>
      match chunk with
      | [] => Some (if failed then None else Some s)
      | c :: chunk' =>
          let failed := failed || bool_decide (s = []) in
          if bool_decide (c = c_lbr) then
            let '(r, s) := if failed then (0, s) else let '(r, n) := DecodeRune s in (r, drop n s) in
            let '(negated, chunk) :=
              match chunk' with
              | c :: k => if bool_decide (c = c_caret) then (true, k) else (false, chunk')
              | [] => (false, chunk')
              end in
            m ← ranges (S (length chunk)) chunk r 0 false;
            let '(m, chunk) := m in
            matchChunk fuel chunk s (failed || eqb m negated)
          else if bool_decide (c = c_quest) then
            if failed then matchChunk fuel chunk' s true
            else
              let failed := bool_decide (head s = Some c_slash) in
              matchChunk fuel chunk' (drop (DecodeRune s).2 s) failed
          else
            let lit := if bool_decide (c = c_bslash) then chunk' else chunk in
            match lit with
            | [] => None
            | l :: chunk' =>
                if failed then matchChunk fuel chunk' s true
                else matchChunk fuel chunk' (drop 1 s) (negb (bool_decide (head s = Some l)))
            end
      end
  end.
Definition match_chunk (chunk s : bytes) : option (option bytes) :=
  matchChunk (S (length chunk)) chunk s false.

(** Skip [i+1] bytes after a star; cannot skip the separator.  [last]: no
    pattern remains, so the name must be exhausted. *)
Fixpoint starMatch (chunk name : bytes) (last_ : bool) : option (option bytes) :=
  match name with
  | [] => Some None
  | c :: name' =>
      if bool_decide (c = c_slash) then Some None
      else
        r ← match_chunk chunk name';
        match r with
        | Some t => if last_ && negb (bool_decide (t = [])) then starMatch chunk name' last_ else Some (Some t)
        | None => starMatch chunk name' last_
        end
  end.

(** The rest of a failed pattern is still checked for syntax. *)
Fixpoint checkRest (fuel : nat) (pattern : bytes) : option bool :=
  match fuel with
  | O => Some false
  | S fuel =>
      if bool_decide (pattern = []) then Some false
      else
        let '(_, chunk, pattern) := scanChunk pattern in
        _ ← match_chunk chunk [];
        checkRest fuel pattern
  end.

Fixpoint matchLoop (fuel : nat) (pattern name : bytes) : option bool :=
  match fuel with
  | O => None
  | S fuel =>
      if bool_decide (pattern = []) then Some (bool_decide (name = []))
      else
        let '(star, chunk, pattern) := scanChunk pattern in
        if star && bool_decide (chunk = []) then Some (negb (bool_decide (c_slash ∈ name)))
        else
          r ← match_chunk chunk name;
          let last_ := bool_decide (pattern = []) in
          match r with
          | Some t =>
              if bool_decide (t = []) || negb last_ then matchLoop fuel pattern t
              else if star then
                r ← starMatch chunk name last_;
                match r with Some t => matchLoop fuel pattern t | None => checkRest (length pattern) pattern end
              else checkRest (length pattern) pattern
          | None =>
              if star then
                r ← starMatch chunk name last_;
                match r with Some t => matchLoop fuel pattern t | None => checkRest (length pattern) pattern end
              else checkRest (length pattern) pattern
          end
  end.
Definition Match (pattern name : bytes) : option bool := matchLoop (S (length pattern)) pattern name.

Example match_star : Match (bs "*.txt") (bs "a.txt") = Some true. Proof. vm_compute. reflexivity. Qed.
Example match_dir : Match (bs "*.txt") (bs "d/a.txt") = Some false. Proof. vm_compute. reflexivity. Qed.
Example match_class : Match (bs "a[b-d]?\*") (bs "acx*") = Some true. Proof. vm_compute. reflexivity. Qed.
Example match_neg : Match (bs "[^a-c]x*y*z") (bs "dxQyyzz") = Some true. Proof. vm_compute. reflexivity. Qed.
Example match_bad : Match (bs "a*[") (bs "") = None. Proof. vm_compute. reflexivity. Qed.
Example match_bad2 : Match (bs "a\") (bs "b") = None. Proof. vm_compute. reflexivity. Qed.
Example base_ex : Base (bs "a/b//") = bs "b". Proof. vm_compute. reflexivity. Qed.
Example valid_ex : utf8_Valid (bs "a") = true ∧ utf8_Valid [Byte.xff] = false. Proof. vm_compute. done. Qed.

(** ** The order of [bytes.Compare] *)
Definition bytes_le (a b : bytes) : Prop := bytes_Compare a b ≠ Gt.
#[global] Instance bytes_le_dec a b : Decision (bytes_le a b).
Proof. unfold bytes_le. destruct (bytes_Compare a b); [left|left|right]; naive_solver. Defined.

Lemma bytes_Compare_antisym a b : bytes_Compare b a = CompOpp (bytes_Compare a b).
Proof.
  revert b. induction a as [|x a IH]; intros [|y b]; cbn; [done..|].
  rewrite (Z.compare_antisym (Z_of_byte x) (Z_of_byte y)).
  destruct (Z_of_byte x ?= Z_of_byte y); cbn; [apply IH|done|done].
Qed.

Lemma bytes_Compare_eq a b : bytes_Compare a b = Eq ↔ a = b.
Proof.
  revert b. induction a as [|x a IH]; intros [|y b]; cbn; [done..|].
  destruct (Z.compare_spec (Z_of_byte x) (Z_of_byte y)) as [E|E|E].
  - apply Z_of_byte_inj in E as ->. rewrite IH. naive_solver.
  - split; [done|]. intros [= -> ->]. lia.
  - split; [done|]. intros [= -> ->]. lia.
Qed.

Lemma bytes_le_total a b : bytes_le a b ∨ bytes_le b a.
Proof. unfold bytes_le. rewrite (bytes_Compare_antisym a b). destruct (bytes_Compare a b); naive_solver. Qed.

Lemma bytes_le_antisym a b : bytes_le a b → bytes_le b a → a = b.
Proof.
  unfold bytes_le. rewrite (bytes_Compare_antisym a b), <- bytes_Compare_eq.
  destruct (bytes_Compare a b); cbn; naive_solver.
Qed.

Lemma bytes_le_trans a b c : bytes_le a b → bytes_le b c → bytes_le a c.
Proof.
  unfold bytes_le. revert b c. induction a as [|x a IH]; intros [|y b] [|z c]; cbn; try done.
  destruct (Z.compare_spec (Z_of_byte x) (Z_of_byte y));
  destruct (Z.compare_spec (Z_of_byte y) (Z_of_byte z));
  destruct (Z.compare_spec (Z_of_byte x) (Z_of_byte z)); try done; try lia. apply IH.
Qed.
