(* ===== verification/Plan.v ===== *)
(** * Plan: from walker entries to the ordered, grouped, digested plan
    (src/internal/plan: plan.go, filter.go, sysfiles.go)

    [Build] in its two passes, the system-file rules, the user filters, the
    grouping with its three limits, the manifest digest and the lookups.  Unicode
    NFC is third-party code and SHA-256 a hash used as an opaque function: both
    are the interface [PlanEnv].  Paths are the Unix ones (separator [/]). *)
From S2P Require Import Prelude Fault Codec Record Wire Glob.
From Stdlib Require Import Sorting.Sorted.

(** ** Entries (plan.go) *)
Inductive EType := TypeFile | TypeDir | TypeSymlink.
#[global] Instance EType_eq_dec : EqDecision EType.
Proof. solve_decision. Defined.
Definition byte_of_type (t : EType) : Z :=
  match t with TypeFile => 0 | TypeDir => 1 | TypeSymlink => 2 end.

Definition FlagHasHardlinkKey : Z := 1.
Definition FlagNameNonUTF8 : Z := 2.
Definition FlagSparseHint : Z := 4.
Definition FlagExecutable : Z := 8.

Record Entry := mkEntry {
  RelPath : bytes; Typ : EType; Flags : Z; Size : Z; Mode : Z;
  MtimeSec : Z; MtimeNsec : Z; Dev : Z; Ino : Z; LinkTarget : bytes; HardlinkKey : Z;
}.
#[global] Instance Entry_eq_dec : EqDecision Entry.
Proof. solve_decision. Defined.

Definition maxGroupEntries : Z := 1024.
Definition defaultGroupBytes : Z := 512 * 2 ^ 20.
Definition protocolVersion : Z := 2.
Definition hashAlg : bytes := bs "md5".
Definition sysExcludeTag : bytes := bs "sys-v1".

(** ** System files (sysfiles.go) *)
Inductive sysKind := sysExact | sysPrefix | sysSuffix.
Record sysRule := mkSysRule {
  sr_name : string; sr_pat : bytes; sr_kind : sysKind;
  sr_dir : bool; sr_rootOnly : bool; sr_winFold : bool;
}.

Definition sysRules : list sysRule := [
  mkSysRule "macos:.DS_Store" (bs ".DS_Store") sysExact false false false;
  mkSysRule "macos:._*" (bs "._") sysPrefix false false false;
  mkSysRule "macos:.AppleDouble" (bs ".AppleDouble") sysExact true false false;
  mkSysRule "macos:.AppleDB" (bs ".AppleDB") sysExact true false false;
  mkSysRule "macos:.AppleDesktop" (bs ".AppleDesktop") sysExact true false false;
  mkSysRule "macos:__MACOSX" (bs "__MACOSX") sysExact true false false;
  mkSysRule "macos:.Spotlight-V100" (bs ".Spotlight-V100") sysExact true false false;
  mkSysRule "macos:.DocumentRevisions-V100" (bs ".DocumentRevisions-V100") sysExact true false false;
  mkSysRule "macos:.fseventsd" (bs ".fseventsd") sysExact true false false;
  mkSysRule "macos:.TemporaryItems" (bs ".TemporaryItems") sysExact true false false;
  mkSysRule "macos:.Trashes" (bs ".Trashes") sysExact true false false;
  mkSysRule "macos:.Trash" (bs ".Trash") sysExact true false false;
  mkSysRule "macos:.apdisk" (bs ".apdisk") sysExact false false false;
  mkSysRule "macos:.VolumeIcon.icns" (bs ".VolumeIcon.icns") sysExact false true false;
  mkSysRule "macos:.com.apple.timemachine.donotpresent" (bs ".com.apple.timemachine.donotpresent") sysExact false false false;
  mkSysRule "macos:.PKInstallSandboxManager" (bs ".PKInstallSandboxManager") sysExact true false false;
  mkSysRule "macos:.PKInstallSandboxManager-SystemSoftware" (bs ".PKInstallSandboxManager-SystemSoftware") sysExact true false false;
  mkSysRule "macos:.localized" (bs ".localized") sysExact false false false;
  mkSysRule "windows:Thumbs.db" (bs "Thumbs.db") sysExact false false true;
  mkSysRule "windows:ehthumbs.db" (bs "ehthumbs.db") sysExact false false true;
  mkSysRule "windows:ehthumbs_vista.db" (bs "ehthumbs_vista.db") sysExact false false true;
  mkSysRule "windows:desktop.ini" (bs "desktop.ini") sysExact false false true;
  mkSysRule "windows:$RECYCLE.BIN" (bs "$RECYCLE.BIN") sysExact true true true;
  mkSysRule "windows:RECYCLER" (bs "RECYCLER") sysExact true true true;
  mkSysRule "windows:RECYCLED" (bs "RECYCLED") sysExact true true true;
  mkSysRule "windows:System Volume Information" (bs "System Volume Information") sysExact true true true;
  mkSysRule "windows:hiberfil.sys" (bs "hiberfil.sys") sysExact false true true;
  mkSysRule "windows:pagefile.sys" (bs "pagefile.sys") sysExact false true true;
  mkSysRule "windows:swapfile.sys" (bs "swapfile.sys") sysExact false true true;
  mkSysRule "windows:$AttrDef" (bs "$AttrDef") sysExact false true true;
  mkSysRule "windows:$BadClus" (bs "$BadClus") sysExact false true true;
  mkSysRule "windows:$Bitmap" (bs "$Bitmap") sysExact false true true;
  mkSysRule "windows:$Boot" (bs "$Boot") sysExact false true true;
  mkSysRule "windows:$LogFile" (bs "$LogFile") sysExact false true true;
  mkSysRule "windows:$MFT" (bs "$MFT") sysExact false true true;
  mkSysRule "windows:$MFTMirr" (bs "$MFTMirr") sysExact false true true;
  mkSysRule "windows:$Secure" (bs "$Secure") sysExact false true true;
  mkSysRule "windows:$UpCase" (bs "$UpCase") sysExact false true true;
  mkSysRule "windows:$Volume" (bs "$Volume") sysExact false true true;
  mkSysRule "windows:$Extend" (bs "$Extend") sysExact true true true;
  mkSysRule "linux:.Trash-*" (bs ".Trash-") sysPrefix true false false;
  mkSysRule "linux:lost+found" (bs "lost+found") sysExact true true false;
  mkSysRule "linux:.directory" (bs ".directory") sysExact false false false;
  mkSysRule "linux:.nfs*" (bs ".nfs") sysPrefix false false false;
  mkSysRule "linux:.fuse_hidden*" (bs ".fuse_hidden") sysPrefix false false false;
  mkSysRule "linux:.gvfs" (bs ".gvfs") sysExact true false false
]%string.

Definition asciiLower (c : byte) : byte :=
  let z := Z_of_byte c in if (65 <=? z) && (z <=? 90) then byte_of_Z (z + 32) else c.

Definition sysEqual (a b : bytes) (fold : bool) : bool :=
  (length a =? length b)%nat &&
  forallb (λ '(x, y), bool_decide ((if fold then asciiLower x else x) = (if fold then asciiLower y else y))) (zip a b).

Definition sysNameMatches (r : sysRule) (name : bytes) : bool :=
  let n := length (sr_pat r) in
  match sr_kind r with
  | sysExact => sysEqual name (sr_pat r) (sr_winFold r)
  | sysPrefix => (n <=? length name)%nat && sysEqual (take n name) (sr_pat r) (sr_winFold r)
  | sysSuffix => (n <=? length name)%nat && sysEqual (drop (length name - n) name) (sr_pat r) (sr_winFold r)
  end.

Fixpoint MatchSystemFile_go (rules : list sysRule) (finalComp : bytes) (isDir atRoot : bool) :
    option (string * bool) :=
  match rules with
  | [] => None
  | r :: rules =>
      if sr_rootOnly r && negb atRoot then MatchSystemFile_go rules finalComp isDir atRoot
      else if sysNameMatches r finalComp then Some (sr_name r, sr_dir r && isDir)
      else MatchSystemFile_go rules finalComp isDir atRoot
  end.
(** [Some (rule, prune)] when matched. *)
Definition MatchSystemFile (finalComp : bytes) (isDir atRoot : bool) : option (string * bool) :=
  MatchSystemFile_go sysRules finalComp isDir atRoot.

(** ** Filters (filter.go) *)
Record FilterRule := mkFilter { Include : bool; Pattern : bytes }.
Record Options := mkOptions { KeepSystemFiles : bool; Filters : list FilterRule; GroupBytes : Z }.

Definition signRule (r : FilterRule) : bytes := (if Include r then bs "+" else bs "-") ++ Pattern r.
Fixpoint signRules (i : nat) (rs : list FilterRule) : bytes :=
  match rs with
  | [] => []
  | r :: rs => (if (0 <? i)%nat then bs "," else []) ++ signRule r ++ signRules (S i) rs
  end.
Definition FilterSignature (o : Options) : bytes :=
  bs "sysexclude=" ++ (if KeepSystemFiles o then bs "off" else sysExcludeTag) ++
  bs ";filters=" ++ signRules 0 (Filters o).

Definition validateFilters (rules : list FilterRule) : option gerr :=
  match List.find (λ r, match Match (TrimPrefix (TrimSuffix (Pattern r) (bs "/")) (bs "/")) [] with
                        | None => true | Some _ => false end) rules with
  | Some r => Some (fault E1007 "compile filter pattern" (Pattern r) (Some (EStd (StdOther "syntax error in pattern"))))
  | None => None
  end.

Definition matched (m : option bool) : bool := default false m.

Definition filterRuleMatches (pattern p : bytes) (isDir : bool) : bool :=
  if HasSuffix pattern (bs "/") && negb isDir then false
  else
    let pattern := if HasSuffix pattern (bs "/") then TrimSuffix pattern (bs "/") else pattern in
    if HasPrefix pattern (bs "/") then matched (Match (TrimPrefix pattern (bs "/")) p)
    else if bool_decide (c_slash ∈ pattern) then matched (Match pattern p)
    else matched (Match pattern (Base p)).

(** Last match wins; the second component is the matching pattern. *)
Definition filterAdmits (o : Options) (slashPath : bytes) (isDir : bool) : bool * bytes :=
  foldl (λ '(admits, rule) r,
    if filterRuleMatches (Pattern r) slashPath isDir then (Include r, Pattern r) else (admits, rule))
    (true, []) (Filters o).

(** ** Paths (plan.go) *)
Definition PathSeparator : byte := c_slash.
Definition toSlash (p : bytes) : bytes :=
  if bool_decide (PathSeparator = c_slash) then p
  else (λ c, if bool_decide (c = PathSeparator) then c_slash else c) <$> p.
Definition finalComponent (slash : bytes) : bytes :=
  match LastIndexByte slash c_slash with Some i => drop (i + 1) slash | None => slash end.
Definition atRoot (slash : bytes) : bool :=
  match IndexByte slash c_slash with Some _ => false | None => true end.

(** Ancestors are tested from the root down: every prefix before a slash. *)
Fixpoint underPruned_go (fuel : nat) (pruned : gset bytes) (slash : bytes) (start : nat) : bool :=
  match fuel with
  | O => false
  | S fuel =>
      match IndexByte (drop start slash) c_slash with
      | None => false
      | Some j =>
          if bool_decide (take (start + j) slash ∈ pruned) then true
          else underPruned_go fuel pruned slash (start + j + 1)
      end
  end.
Definition underPruned (pruned : gset bytes) (slash : bytes) : bool :=
  underPruned_go (S (length slash)) pruned slash 0.

(** ** Grouping (plan.go) *)
Definition groupTarget (n : Z) : Z := if n <=? 0 then defaultGroupBytes else n.
Definition maxGroupManifestEntryBytes : Z := MaxGroupManifestEntryBytes.
Definition hasKey (e : Entry) : bool := negb (Z.land (Flags e) FlagHasHardlinkKey =? 0).

Definition manifestEntrySize (e : Entry) : Z :=
  let digestLen := if bool_decide (Typ e = TypeFile) then MaxDigestBytes else 0 in
  let isSymlink := bool_decide (Typ e = TypeSymlink) in
  let linkLen := if isSymlink then Z.of_nat (length (LinkTarget e)) else 0 in
  ManifestEntrySize (Z.of_nat (length (RelPath e))) digestLen isSymlink linkLen (hasKey e).

Definition fileBytes (e : Entry) : Z := if bool_decide (Typ e = TypeFile) then Size e else 0.

Fixpoint groups_go (i : nat) (es : list Entry) (target acc manifestAcc count : Z) : list nat :=
  match es with
  | [] => [i]
  | e :: es =>
      let sz := fileBytes e in
      let mSize := manifestEntrySize e in
      if (0 <? count) && ((maxGroupEntries <=? count) || (target <? wrap_i 64 (acc + sz)) ||
                          (maxGroupManifestEntryBytes <? wrap_i 64 (manifestAcc + mSize)))
      then i :: groups_go (S i) es target sz mSize 1
      else groups_go (S i) es target (wrap_i 64 (acc + sz)) (wrap_i 64 (manifestAcc + mSize)) (count + 1)
  end.
Definition computeGroups (entries : list Entry) (target : Z) : list nat :=
  if bool_decide (entries = []) then [0%nat] else 0%nat :: groups_go 0 entries target 0 0 0.

(** ** The plan *)
Record Exclusion := mkExcl { ex_Path : bytes; ex_Rule : bytes; ex_Prune : bool }.
Record Plan := mkPlan {
  entries : list Entry; keys : list bytes; idByKey : gmap bytes Z; groupStart : list nat;
  exclusions : list Exclusion; filterSig : bytes; digest : bytes;
  TotalFiles : Z; TotalBytes : Z; ExcludedCount : Z;
}.

Class PlanEnv := { NFC : bytes → bytes; planSha256 : bytes → bytes }.

Section plan.
Context `{PlanEnv}.

Definition orderingKey (slash : bytes) : bytes * bool :=
  if negb (utf8_Valid slash) then (slash, true) else (NFC slash, false).

Definition digestEntry (x : Entry * bytes) : bytes :=
  let '(e, k) := x in
  be 4 (wrap_u 32 (Z.of_nat (length k))) ++ k ++ be 1 (byte_of_type (Typ e)) ++
  be 8 (wrap_u 64 (Size e)) ++ be 8 (wrap_u 64 (MtimeSec e)) ++ be 4 (MtimeNsec e).

Definition computeDigest (entries : list Entry) (keys : list bytes) (filterSig : bytes) : bytes :=
  planSha256 (bs "esync/v1 manifest" ++ be 2 protocolVersion ++ hashAlg ++ be 4 0 ++ be 4 0 ++
    filterSig ++ sysExcludeTag ++ mjoin (digestEntry <$> zip entries keys)).

(** *** Pass 1: classify *)
Record dec := mkDec { d_e : Entry; d_slash : bytes; d_rule : bytes; d_pruneDir : bool; d_dropped : bool }.

Definition isDir (e : Entry) : bool := bool_decide (Typ e = TypeDir).

Definition classify (opts : Options) (e : Entry) : dec :=
  let slash := toSlash (RelPath e) in
  let d := mkDec e slash [] false false in
  let d := if KeepSystemFiles opts then d else
    match MatchSystemFile (finalComponent slash) (isDir e) (atRoot slash) with
    | Some (rule, prune) => mkDec e slash (bs rule) prune true
    | None => d
    end in
  if d_dropped d then d else
  let '(admits, rule) := filterAdmits opts slash (isDir e) in
  if admits then d else mkDec e slash (bs "filter:" ++ rule) (isDir e) true.

Definition pass1 (opts : Options) (es : list Entry) : list dec * gset bytes :=
  foldl (λ '(decs, pruned) e,
    let d := classify opts e in
    (decs ++ [d], if d_pruneDir d then {[d_slash d]} ∪ pruned else pruned)) ([], ∅) es.

(** *** Pass 2: apply *)
Record keyed := mkKeyed { k_e : Entry; k_key : bytes; k_orig : bytes }.

Definition setFlag (e : Entry) (f : Z) : Entry :=
  mkEntry (RelPath e) (Typ e) (Z.lor (Flags e) f) (Size e) (Mode e) (MtimeSec e) (MtimeNsec e)
    (Dev e) (Ino e) (LinkTarget e) (HardlinkKey e).

Definition keyOf (d : dec) : keyed :=
  let '(key, nonUTF8) := orderingKey (d_slash d) in
  mkKeyed (if nonUTF8 then setFlag (d_e d) FlagNameNonUTF8 else d_e d) key (d_slash d).

Definition pass2 (pruned : gset bytes) (decs : list dec) : list keyed * list Exclusion * Z :=
  foldl (λ '(ks, ex, n) d,
    if underPruned pruned (d_slash d) then (ks, ex, n)
    else if d_dropped d
    then (ks, ex ++ [mkExcl (RelPath (d_e d)) (d_rule d) (d_pruneDir d)], n + 1)
    else (ks ++ [keyOf d], ex, n)) ([], [], 0) decs.

(** *** Sorting: [slices.SortFunc] with the comparator of [Build] *)
Definition keyed_le (a b : keyed) : Prop :=
  match bytes_Compare (k_key a) (k_key b) with
  | Lt => True
  | Gt => False
  | Eq => bytes_le (k_orig a) (k_orig b)
  end.
#[global] Instance keyed_le_dec a b : Decision (keyed_le a b).
Proof. unfold keyed_le. destruct (bytes_Compare _ _); apply _. Defined.
Definition sortKeyed (ks : list keyed) : list keyed := merge_sort keyed_le ks.

(** *** Assembly *)
Fixpoint indexKeys (i : Z) (keys : list bytes) (m : gmap bytes Z) : gmap bytes Z :=
  match keys with
  | [] => m
  | k :: keys => indexKeys (i + 1) keys (match m !! k with Some _ => m | None => <[k := i]> m end)
  end.

Definition countFiles (es : list Entry) : Z * Z :=
  foldl (λ '(n, b) e, if bool_decide (Typ e = TypeFile)
                      then (wrap_u 64 (n + 1), wrap_u 64 (b + wrap_u 64 (Size e))) else (n, b)) (0, 0) es.

Definition Build (es : list Entry) (opts : Options) : result gerr Plan :=
  match validateFilters (Filters opts) with
  | Some e => Err e
  | None =>
      let filterSig := FilterSignature opts in
      let '(decs, pruned) := pass1 opts es in
      let '(ks, exclusions, excluded) := pass2 pruned decs in
      let ks := sortKeyed ks in
      let entries := k_e <$> ks in
      let keys := k_key <$> ks in
      let '(files, bytes_) := countFiles entries in
      Ok (mkPlan entries keys (indexKeys 0 keys ∅) (computeGroups entries (groupTarget (GroupBytes opts)))
            exclusions filterSig (computeDigest entries keys filterSig) files bytes_ excluded)
  end.

(** ** Queries *)
Definition NumGroups (p : Plan) : nat :=
  if (length (groupStart p) <? 2)%nat then 0 else length (groupStart p) - 1.
Definition startAt (p : Plan) (i : nat) : nat := default 0%nat (groupStart p !! i).
(** [p.entries[p.groupStart[i]:p.groupStart[i+1]]]. *)
Definition Group (p : Plan) (i : nat) : list Entry :=
  take (startAt p (S i) - startAt p i) (drop (startAt p i) (entries p)).
Definition Groups (p : Plan) : list (list Entry) := Group p <$> seq 0 (NumGroups p).
Definition GroupFirstID (p : Plan) (i : nat) : Z := Z.of_nat (startAt p i).
Definition GroupFirsts (p : Plan) : list Z := GroupFirstID p <$> seq 0 (NumGroups p).
Definition FileID (p : Plan) (relSlashPath : bytes) : option Z :=
  idByKey p !! (orderingKey relSlashPath).1.

(** [sort.Search]. *)
Fixpoint search_go (fuel i j : nat) (f : nat → bool) : nat :=
  match fuel with
  | O => i
  | S fuel =>
      if (i <? j)%nat then
        let h := ((i + j) / 2)%nat in
        if negb (f h) then search_go fuel (h + 1) j f else search_go fuel i h f
      else i
  end.
Definition Search (n : nat) (f : nat → bool) : nat := search_go n 0 n f.
Definition GroupID (p : Plan) (fileID : Z) : Z :=
  Z.of_nat (Search (NumGroups p) (λ k, fileID <? Z.of_nat (startAt p (k + 1)))).
End plan.

(** ** Specification of the two passes *)
Section passes.
Context `{PlanEnv}.
Implicit Types (e : Entry) (es : list Entry) (opts : Options).

Lemma toSlash_id p : toSlash p = p.
Proof. done. Qed.

(** The directories whose subtrees are dropped. *)
Definition prunedDirs opts es : gset bytes :=
  list_to_set (d_slash <$> filter (λ d, d_pruneDir d = true) (classify opts <$> es)).

Definition admitted opts es (d : dec) : Prop :=
  underPruned (prunedDirs opts es) (d_slash d) = false ∧ d_dropped d = false.
Definition excluded opts es (d : dec) : Prop :=
  underPruned (prunedDirs opts es) (d_slash d) = false ∧ d_dropped d = true.
Definition excl (d : dec) : Exclusion := mkExcl (RelPath (d_e d)) (d_rule d) (d_pruneDir d).

#[global] Instance admitted_dec opts es d : Decision (admitted opts es d).
Proof. unfold admitted. apply _. Defined.
#[global] Instance excluded_dec opts es d : Decision (excluded opts es d).
Proof. unfold excluded. apply _. Defined.

Lemma classify_slash opts e : d_slash (classify opts e) = RelPath e ∧ d_e (classify opts e) = e.
Proof.
  unfold classify. rewrite toSlash_id. destruct (KeepSystemFiles opts); cbn [d_dropped].
  - destruct (filterAdmits _ _ _) as [[] ?]; done.
  - destruct (MatchSystemFile _ _ _) as [[? ?]|]; cbn [d_dropped]; [done|].
    destruct (filterAdmits _ _ _) as [[] ?]; done.
Qed.

(** Only a dropped directory prunes. *)
Lemma classify_prune opts e :
  d_pruneDir (classify opts e) = true → d_dropped (classify opts e) = true ∧ Typ e = TypeDir.
Proof.
  unfold classify. rewrite toSlash_id.
  assert (Hdir : isDir e = true → Typ e = TypeDir).
  { unfold isDir. intros ?. by bool_to_prop. }
  assert (Hgo : ∀ rules fc b, match MatchSystemFile_go rules fc (isDir e) b with
                              | Some (_, true) => isDir e = true | _ => True end).
  { induction rules as [|r rules IH]; intros fc b; cbn; [done|].
    destruct (_ && _); [apply IH|]. destruct (sysNameMatches r fc); [|apply IH].
    by destruct (sr_dir r), (isDir e). }
  destruct (KeepSystemFiles opts); cbn [d_dropped].
  - destruct (filterAdmits _ _ _) as [[] ?]; cbn; auto. done.
  - unfold MatchSystemFile. specialize (Hgo sysRules (finalComponent (RelPath e)) (atRoot (RelPath e))).
    destruct (MatchSystemFile_go _ _ _ _) as [[? []]|]; cbn [d_dropped d_pruneDir]; auto; [done|].
    destruct (filterAdmits _ _ _) as [[] ?]; cbn; auto. done.
Qed.

Lemma pass1_spec opts es : pass1 opts es = (classify opts <$> es, prunedDirs opts es).
Proof.
  unfold pass1.
  cut (∀ ds P, foldl (λ '(decs, pruned) e,
      let d := classify opts e in
      (decs ++ [d], if d_pruneDir d then {[d_slash d]} ∪ pruned else pruned)) (ds, P) es =
    (ds ++ (classify opts <$> es), prunedDirs opts es ∪ P)).
  { intros Hc. rewrite Hc. by rewrite app_nil_l, (right_id_L ∅ (∪)). }
  induction es as [|e es IH]; intros ds P; cbn [foldl].
  - unfold prunedDirs; cbn. by rewrite app_nil_r, (left_id_L ∅ (∪)).
  - rewrite IH, <- app_assoc. f_equal. unfold prunedDirs. rewrite fmap_cons, filter_cons.
    destruct (d_pruneDir (classify opts e)) eqn:E; [rewrite decide_True by done|rewrite decide_False by done].
    + rewrite fmap_cons, list_to_set_cons. set_solver.
    + done.
Qed.

Lemma pass2_spec opts es :
  pass2 (prunedDirs opts es) (classify opts <$> es) =
  (keyOf <$> filter (admitted opts es) (classify opts <$> es),
   excl <$> filter (excluded opts es) (classify opts <$> es),
   Z.of_nat (length (filter (excluded opts es) (classify opts <$> es)))).
Proof.
  unfold pass2. generalize (classify opts <$> es) as ds. intros ds.
  match goal with |- foldl ?f _ _ = _ =>
    cut (∀ ks ex n, foldl f (ks, ex, n) ds =
      (ks ++ (keyOf <$> filter (admitted opts es) ds), ex ++ (excl <$> filter (excluded opts es) ds),
       n + Z.of_nat (length (filter (excluded opts es) ds)))) end.
  { intros Hc. by rewrite Hc. }
  induction ds as [|d ds IH]; intros ks ex n; cbn [foldl].
  - cbn. by rewrite !app_nil_r, Z.add_0_r.
  - rewrite !filter_cons.
    assert (Ha : admitted opts es d ↔ underPruned (prunedDirs opts es) (d_slash d) = false ∧ d_dropped d = false) by done.
    assert (Hx : excluded opts es d ↔ underPruned (prunedDirs opts es) (d_slash d) = false ∧ d_dropped d = true) by done.
    destruct (decide (admitted opts es d)) as [A|A], (decide (excluded opts es d)) as [X|X].
    + apply Ha in A as [_ A]. apply Hx in X as [_ X]. congruence.
    + apply Ha in A as [-> ->]. rewrite IH, fmap_cons. by rewrite <- app_assoc.
    + apply Hx in X as [-> ->]. rewrite IH, fmap_cons. rewrite <- app_assoc. cbn [length app].
      f_equal. lia.
    + destruct (underPruned _ (d_slash d)) eqn:E1; [by rewrite IH|].
      destruct (d_dropped d) eqn:E2; [by destruct X; apply Hx|by destruct A; apply Ha].
Qed.

(** What [Build] returns, in closed form. *)
Definition kept opts es : list keyed :=
  sortKeyed (keyOf <$> filter (admitted opts es) (classify opts <$> es)).

Definition planOf opts es : Plan :=
  let ks := kept opts es in
  mkPlan (k_e <$> ks) (k_key <$> ks) (indexKeys 0 (k_key <$> ks) ∅)
    (computeGroups (k_e <$> ks) (groupTarget (GroupBytes opts)))
    (excl <$> filter (excluded opts es) (classify opts <$> es)) (FilterSignature opts)
    (computeDigest (k_e <$> ks) (k_key <$> ks) (FilterSignature opts))
    (countFiles (k_e <$> ks)).1 (countFiles (k_e <$> ks)).2
    (Z.of_nat (length (filter (excluded opts es) (classify opts <$> es)))).

Lemma Build_eq es opts :
  Build es opts = match validateFilters (Filters opts) with
                  | Some e => Err e
                  | None => Ok (planOf opts es)
                  end.
Proof.
  unfold Build. destruct (validateFilters _); [done|]. rewrite pass1_spec, pass2_spec.
  fold (kept opts es). unfold planOf. by destruct (countFiles _).
Qed.

(** ** The order *)
#[global] Instance keyed_le_total : Total keyed_le.
Proof.
  intros a b. unfold keyed_le. rewrite (bytes_Compare_antisym (k_key a) (k_key b)).
  destruct (bytes_Compare (k_key a) (k_key b)); cbn; [apply bytes_le_total|by left|by right].
Qed.

Lemma keyed_le_antisym a b : keyed_le a b → keyed_le b a → k_key a = k_key b ∧ k_orig a = k_orig b.
Proof.
  unfold keyed_le. rewrite (bytes_Compare_antisym (k_key a) (k_key b)).
  destruct (bytes_Compare (k_key a) (k_key b)) eqn:E; cbn; [|done..].
  apply bytes_Compare_eq in E. split; [done|]. by apply bytes_le_antisym.
Qed.

#[global] Instance keyed_le_trans : Transitive keyed_le.
Proof.
  intros a b c. unfold keyed_le.
  destruct (bytes_Compare (k_key a) (k_key b)) eqn:E1; [|intros _|done].
  - apply bytes_Compare_eq in E1 as ->. destruct (bytes_Compare (k_key b) (k_key c)); [|done..].
    apply bytes_le_trans.
  - destruct (bytes_Compare (k_key b) (k_key c)) eqn:E2; [apply bytes_Compare_eq in E2 as <-; by rewrite E1|intros _|done].
    assert (Hle : bytes_le (k_key a) (k_key c)).
    { apply (bytes_le_trans _ (k_key b)); unfold bytes_le; by rewrite ?E1, ?E2. }
    destruct (bytes_Compare (k_key a) (k_key c)) eqn:E3; [|done|by destruct Hle].
    apply bytes_Compare_eq in E3. rewrite E3 in E1.
    rewrite bytes_Compare_antisym, E1 in E2. done.
Qed.

Lemma kept_sorted opts es : StronglySorted keyed_le (kept opts es).
Proof. apply StronglySorted_merge_sort; apply _. Qed.
Lemma kept_perm opts es :
  kept opts es ≡ₚ keyOf <$> filter (admitted opts es) (classify opts <$> es).
Proof. apply merge_sort_Permutation. Qed.

Lemma keyOf_orig d : k_orig (keyOf d) = d_slash d.
Proof. unfold keyOf. by destruct (orderingKey _). Qed.
Lemma keyOf_key d : k_key (keyOf d) = (orderingKey (d_slash d)).1.
Proof. unfold keyOf. by destruct (orderingKey _). Qed.
Lemma keyOf_path opts e : RelPath (k_e (keyOf (classify opts e))) = RelPath e.
Proof.
  unfold keyOf. destruct (orderingKey _) as [? []]; cbn;
    by destruct (classify_slash opts e) as [_ ->].
Qed.

Lemma kept_elem opts es k :
  k ∈ kept opts es ↔ ∃ e, e ∈ es ∧ admitted opts es (classify opts e) ∧ k = keyOf (classify opts e).
Proof.
  rewrite kept_perm, list_elem_of_fmap. split.
  - intros (d & -> & Hd). apply list_elem_of_filter in Hd as [Ha Hd].
    apply list_elem_of_fmap in Hd as (e & -> & He). by exists e.
  - intros (e & He & Ha & ->). exists (classify opts e). split; [done|].
    apply list_elem_of_filter. split; [done|]. apply list_elem_of_fmap. by exists e.
Qed.

(** ** Independence of the input order *)
Lemma prunedDirs_perm opts es1 es2 : es1 ≡ₚ es2 → prunedDirs opts es1 = prunedDirs opts es2.
Proof. intros Hp. unfold prunedDirs. apply list_to_set_perm_L. by rewrite Hp. Qed.

Lemma NoDup_path_inj es e1 e2 :
  NoDup (RelPath <$> es) → e1 ∈ es → e2 ∈ es → RelPath e1 = RelPath e2 → e1 = e2.
Proof.
  intros Hnd H1 H2 E. apply list_elem_of_lookup in H1 as [i Hi], H2 as [j Hj].
  assert (i = j); [|by simplify_eq].
  eapply NoDup_lookup; [exact Hnd|..]; rewrite list_lookup_fmap; [by rewrite Hi|rewrite Hj; cbn; by rewrite E].
Qed.

Lemma admitted_perm opts es1 es2 d : es1 ≡ₚ es2 → admitted opts es1 d ↔ admitted opts es2 d.
Proof. intros Hp. unfold admitted. by rewrite (prunedDirs_perm _ _ _ Hp). Qed.
Lemma excluded_perm opts es1 es2 d : es1 ≡ₚ es2 → excluded opts es1 d ↔ excluded opts es2 d.
Proof. intros Hp. unfold excluded. by rewrite (prunedDirs_perm _ _ _ Hp). Qed.

Lemma filter_perm_iff {A} (P Q : A → Prop) `{!∀ x, Decision (P x), !∀ x, Decision (Q x)} l1 l2 :
  (∀ x, P x ↔ Q x) → l1 ≡ₚ l2 → filter P l1 ≡ₚ filter Q l2.
Proof.
  intros HPQ Hl. rewrite Hl. clear Hl l1. induction l2 as [|x l IH]; [done|].
  rewrite !filter_cons. destruct (decide (P x)), (decide (Q x)); rewrite ?IH; naive_solver.
Qed.

Lemma kept_order opts es1 es2 :
  es1 ≡ₚ es2 → NoDup (RelPath <$> es1) → kept opts es1 = kept opts es2.
Proof.
  intros Hp Hnd. eapply StronglySorted_unique_strong; [|apply kept_sorted..|].
  - intros x1 x2 H1 H2 L1 L2. apply kept_elem in H1 as (e1 & He1 & _ & ->), H2 as (e2 & He2 & _ & ->).
    destruct (keyed_le_antisym _ _ L1 L2) as [_ Ho]. rewrite !keyOf_orig in Ho.
    rewrite !(proj1 (classify_slash _ _)) in Ho.
    rewrite <- Hp in He2. by rewrite (NoDup_path_inj es1 e1 e2).
  - rewrite !kept_perm. apply fmap_Permutation, filter_perm_iff; [|by rewrite Hp].
    intros d. by apply admitted_perm.
Qed.
End passes.

(** ** Grouping: a reference that builds the groups themselves *)
Definition sumB (g : list Entry) : Z := foldr (λ e a, fileBytes e + a) 0 g.
Definition sumM (g : list Entry) : Z := foldr (λ e a, manifestEntrySize e + a) 0 g.

(** What the walker produces on a platform with a 4096-byte path limit. *)
Definition entryOk (e : Entry) : Prop :=
  0 <= Size e < 2 ^ 62 ∧ Z.of_nat (length (RelPath e)) <= maxPathBytes ∧
  Z.of_nat (length (LinkTarget e)) <= maxPathBytes.

Definition full (target : Z) (cur : list Entry) (e : Entry) : bool :=
  (0 <? Z.of_nat (length cur)) &&
  ((maxGroupEntries <=? Z.of_nat (length cur)) || (target <? sumB cur + fileBytes e) ||
   (maxGroupManifestEntryBytes <? sumM cur + manifestEntrySize e)).

Fixpoint pack (target : Z) (cur es : list Entry) : list (list Entry) :=
  match es with
  | [] => [cur]
  | e :: es => if full target cur e then cur :: pack target [e] es else pack target (cur ++ [e]) es
  end.

(** The limits a group respects; a single entry is never split. *)
Definition groupOk (target : Z) (g : list Entry) : Prop :=
  g ≠ [] ∧ Z.of_nat (length g) <= maxGroupEntries ∧
  (length g = 1%nat ∨ sumB g <= target) ∧ (length g = 1%nat ∨ sumM g <= maxGroupManifestEntryBytes).

Fixpoint bounds (s : nat) (gs : list (list Entry)) : list nat :=
  match gs with
  | [] => []
  | g :: gs => (s + length g)%nat :: bounds (s + length g) gs
  end.

Lemma sumB_app g1 g2 : sumB (g1 ++ g2) = sumB g1 + sumB g2.
Proof. unfold sumB. induction g1 as [|e g1 IH]; cbn; [lia|]. rewrite IH. lia. Qed.
Lemma sumM_app g1 g2 : sumM (g1 ++ g2) = sumM g1 + sumM g2.
Proof. unfold sumM. induction g1 as [|e g1 IH]; cbn; [lia|]. rewrite IH. lia. Qed.
Lemma sumB_one e : sumB [e] = fileBytes e.
Proof. cbn. lia. Qed.
Lemma sumM_one e : sumM [e] = manifestEntrySize e.
Proof. cbn. lia. Qed.

Lemma entryOk_sizes e :
  entryOk e → 0 <= fileBytes e < 2 ^ 62 ∧ 0 <= manifestEntrySize e <= 8300.
Proof.
  intros (Hs & Hp & Hl). unfold maxPathBytes in *. split.
  { unfold fileBytes. case_bool_decide; lia. }
  unfold manifestEntrySize, ManifestEntrySize, ManifestEntryFixedBytes, ManifestEntryLinkTargetPrefix,
    ManifestEntryHardlinkKeyBytes, MaxDigestBytes, maxDigest.
  repeat case_bool_decide; destruct (hasKey e); lia.
Qed.

Lemma concat_pack target es cur : mjoin (pack target cur es) = cur ++ es.
Proof.
  revert cur. induction es as [|e es IH]; intros cur; cbn [pack].
  - cbn. by rewrite !app_nil_r.
  - destruct (full target cur e); cbn [mjoin list_join].
    + rewrite IH. done.
    + by rewrite IH, <- app_assoc.
Qed.

Lemma groupOk_one target e : groupOk target [e].
Proof. unfold groupOk. split_and!; auto; done. Qed.

Lemma groupOk_snoc target cur e :
  cur = [] ∨ groupOk target cur → full target cur e = false → groupOk target (cur ++ [e]).
Proof.
  intros [->|Hg] Hf; [apply groupOk_one|]. destruct Hg as (Hne & Hl & _ & _).
  unfold full in Hf. rewrite (proj2 (Z.ltb_lt 0 _)) in Hf by (destruct cur; [done|cbn; lia]).
  cbn [andb] in Hf. bool_to_prop. unfold groupOk.
  rewrite length_app, sumB_app, sumM_app, sumB_one, sumM_one. cbn [length].
  split_and!; [by destruct cur|lia|right; lia|right; lia].
Qed.

Lemma pack_ok target es cur :
  groupOk target cur ∨ (cur = [] ∧ es ≠ []) → Forall (groupOk target) (pack target cur es).
Proof.
  revert cur. induction es as [|e es IH]; intros cur Hc; cbn [pack].
  - destruct Hc as [?|[_ ?]]; [|done]. by constructor.
  - destruct (full target cur e) eqn:E.
    + constructor; [|apply IH; left; apply groupOk_one].
      destruct Hc as [?|[-> _]]; done.
    + apply IH. left. apply groupOk_snoc; [|done]. naive_solver.
Qed.

(** The index computation of the source is the packing. *)
Lemma groups_pack target es : ∀ cur i,
  0 < target < 2 ^ 62 → Forall entryOk es → 0 <= sumB cur < 2 ^ 62 → 0 <= sumM cur < 2 ^ 62 →
  (length cur <= i)%nat →
  groups_go i es target (sumB cur) (sumM cur) (Z.of_nat (length cur)) =
  bounds (i - length cur) (pack target cur es).
Proof.
  induction es as [|e es IH]; intros cur i Ht Hes HB HM Hi; cbn [groups_go pack].
  { cbn. f_equal. lia. }
  inversion Hes as [|? ? He Hes']; subst.
  destruct (entryOk_sizes e He) as [Hb Hm].
  rewrite <- (sumB_one e), <- (sumM_one e) in *.
  rewrite !(wrap_i_id 64) by (lia || (unfold in_i; lia)). rewrite sumB_one, sumM_one in *. fold (full target cur e).
  destruct (full target cur e) eqn:E; cbn [bounds].
  - f_equal; [lia|]. replace (i - length cur + length cur)%nat with (S i - length [e])%nat by (cbn; lia).
    rewrite <- (IH [e]); rewrite ?sumB_one, ?sumM_one; try done; try lia. cbn; lia.
  - replace (i - length cur)%nat with (S i - length (cur ++ [e]))%nat by (rewrite length_app; cbn; lia).
    rewrite <- (IH (cur ++ [e])); try done.
    + rewrite sumB_app, sumM_app, sumB_one, sumM_one, length_app. cbn [length]. f_equal. lia.
    + rewrite sumB_app, sumB_one. unfold full in E. destruct cur as [|c cur]; [cbn in *; lia|].
      rewrite (proj2 (Z.ltb_lt 0 _)) in E by (cbn; lia). cbn [andb] in E. bool_to_prop. lia.
    + rewrite sumM_app, sumM_one. unfold full in E. destruct cur as [|c cur]; [cbn in *; lia|].
      rewrite (proj2 (Z.ltb_lt 0 _)) in E by (cbn; lia). cbn [andb] in E. bool_to_prop.
      unfold maxGroupManifestEntryBytes in *.
      assert (MaxGroupManifestEntryBytes < 2 ^ 62) by (vm_compute; reflexivity). lia.
    + rewrite length_app. cbn. lia.
Qed.

(** ** Slicing by the group starts *)
Lemma bounds_lookup gs : ∀ s i, (i <= length gs)%nat →
  (s :: bounds s gs) !! i = Some (s + length (mjoin (take i gs)))%nat.
Proof.
  induction gs as [|g gs IH]; intros s i Hi.
  - cbn in Hi. assert (i = 0%nat) as -> by lia. cbn. f_equal. lia.
  - destruct i as [|i]; [cbn; f_equal; lia|]. cbn [bounds length] in *.
    change ((s :: (s + length g)%nat :: bounds (s + length g) gs) !! S i)
      with (((s + length g)%nat :: bounds (s + length g) gs) !! i).
    rewrite IH by lia. cbn [take]. rewrite mjoin_cons, length_app. f_equal. lia.
Qed.

Lemma length_bounds s gs : length (bounds s gs) = length gs.
Proof. revert s. induction gs; intros s; cbn; auto. Qed.

Lemma join_middle (gs : list (list Entry)) i g :
  gs !! i = Some g → mjoin gs = mjoin (take i gs) ++ g ++ mjoin (drop (S i) gs).
Proof. intros Hg. by rewrite <- mjoin_cons, <- join_app, take_drop_middle. Qed.

Lemma join_slice (gs : list (list Entry)) i g :
  gs !! i = Some g →
  take (length (mjoin (take (S i) gs)) - length (mjoin (take i gs))) (drop (length (mjoin (take i gs))) (mjoin gs)) = g.
Proof.
  intros Hg. assert (Hlen := lookup_lt_Some _ _ _ Hg).
  rewrite (take_S_r _ _ _ Hg), join_app, mjoin_one, length_app, Nat.add_comm, Nat.add_sub.
  rewrite <- (take_drop_middle gs i g Hg) at 2. by rewrite join_app, drop_app_length, mjoin_cons, take_app_length.
Qed.

(** ** [sort.Search] *)
Lemma search_go_spec f n : ∀ fuel i j,
  (i <= j <= n)%nat → (j - i <= fuel)%nat →
  (∀ a b, (a <= b < n)%nat → f a = true → f b = true) →
  (∀ k, (k < i)%nat → f k = false) → (j = n ∨ f j = true) →
  let r := search_go fuel i j f in
  (i <= r <= j)%nat ∧ (∀ k, (k < r)%nat → f k = false) ∧ (r = n ∨ f r = true).
Proof.
  induction fuel as [|fuel IH]; intros i j Hij Hf Hm Hlo Hhi; cbn [search_go].
  { assert (i = j) as -> by lia. split_and!; auto with lia. }
  destruct (Nat.ltb_spec i j) as [Hlt|]; [|assert (i = j) as -> by lia; split_and!; auto with lia].
  pose proof (Nat.div_mod_eq (i + j) 2) as Hd. pose proof (Nat.mod_upper_bound (i + j) 2 ltac:(lia)) as Hu.
  set (h := ((i + j) / 2)%nat) in *.
  assert (i <= h < j)%nat by lia.
  destruct (f h) eqn:Eh; cbn [negb].
  - destruct (IH i h ltac:(lia) ltac:(lia) Hm Hlo ltac:(auto)) as (? & ? & ?). split_and!; auto with lia.
  - destruct (IH (h + 1)%nat j ltac:(lia) ltac:(lia) Hm) as (? & ? & ?); [|done|split_and!; auto with lia].
    intros k Hk. destruct (f k) eqn:Ek; [|done]. rewrite (Hm k h) in Eh; [done|lia|done].
Qed.

Lemma Search_spec n f :
  (∀ a b, (a <= b < n)%nat → f a = true → f b = true) →
  (Search n f <= n)%nat ∧ (∀ k, (k < Search n f)%nat → f k = false) ∧ (Search n f = n ∨ f (Search n f) = true).
Proof.
  intros Hm. destruct (search_go_spec f n n 0 n) as (? & ? & ?); auto with lia.
  split_and!; auto. unfold Search. lia.
Qed.

(** ** The key index *)
Lemma indexKeys_spec ks : ∀ i m k,
  indexKeys i ks m !! k =
  match m !! k with
  | Some x => Some x
  | None => (λ p, i + Z.of_nat p.1) <$> list_find (λ k', k' = k) ks
  end.
Proof.
  induction ks as [|k0 ks IH]; intros i m k; cbn [indexKeys].
  { by destruct (m !! k). }
  rewrite IH. cbn [list_find]. destruct (m !! k0) eqn:E0.
  - destruct (m !! k) eqn:Ek; [done|]. rewrite decide_False by congruence.
    destruct (list_find _ ks) as [[n x]|]; cbn; [f_equal; lia|done].
  - destruct (decide (k0 = k)) as [->|Hne].
    + rewrite lookup_insert_eq, E0. cbn. f_equal. lia.
    + rewrite lookup_insert_ne by done. destruct (m !! k); [done|].
      destruct (list_find _ ks) as [[n x]|]; cbn; [f_equal; lia|done].
Qed.

(** ** The groups of a plan *)
Section groups.
Context `{PlanEnv}.

Definition planGroups opts es : list (list Entry) :=
  let l := k_e <$> kept opts es in
  if bool_decide (l = []) then [] else pack (groupTarget (GroupBytes opts)) [] l.

Definition limitsOk (opts : Options) (es : list Entry) : Prop :=
  GroupBytes opts < 2 ^ 62 ∧ Forall entryOk es.

Lemma keyOf_entryOk opts e : entryOk e → entryOk (k_e (keyOf (classify opts e))).
Proof.
  unfold entryOk, keyOf. destruct (orderingKey _) as [? []]; cbn; by destruct (classify_slash opts e) as [_ ->].
Qed.

Lemma kept_entryOk opts es : Forall entryOk es → Forall entryOk (k_e <$> kept opts es).
Proof.
  intros Hok. apply Forall_fmap, Forall_forall. intros k Hk.
  apply kept_elem in Hk as (e & He & _ & ->). apply keyOf_entryOk. by eapply Forall_forall in Hok.
Qed.

Lemma planOf_starts opts es :
  limitsOk opts es → groupStart (planOf opts es) = 0%nat :: bounds 0 (planGroups opts es).
Proof.
  intros [Hg Hok]. cbn. unfold computeGroups, planGroups. case_bool_decide as E; [done|].
  f_equal. apply (groups_pack _ _ [] 0); cbn [length sumB sumM foldr]; try done; try lia.
  - unfold groupTarget, defaultGroupBytes. destruct (Z.leb_spec (GroupBytes opts) 0); lia.
  - by apply kept_entryOk.
Qed.

Lemma planOf_entries opts es : entries (planOf opts es) = mjoin (planGroups opts es).
Proof.
  cbn. unfold planGroups. case_bool_decide as E; [by rewrite E|]. by rewrite concat_pack.
Qed.

Lemma planOf_startAt opts es i :
  limitsOk opts es → (i <= length (planGroups opts es))%nat →
  startAt (planOf opts es) i = length (mjoin (take i (planGroups opts es))).
Proof. intros Hl Hi. unfold startAt. rewrite planOf_starts by done. by rewrite bounds_lookup. Qed.

Lemma planOf_NumGroups opts es : limitsOk opts es → NumGroups (planOf opts es) = length (planGroups opts es).
Proof.
  intros Hl. unfold NumGroups. rewrite planOf_starts by done. cbn [length]. rewrite length_bounds.
  destruct (length (planGroups opts es)) eqn:E; cbn; lia.
Qed.

Lemma planOf_Groups opts es : limitsOk opts es → Groups (planOf opts es) = planGroups opts es.
Proof.
  intros Hl. unfold Groups. rewrite planOf_NumGroups by done. apply list_eq. intros i.
  rewrite list_lookup_fmap. destruct (planGroups opts es !! i) as [g|] eqn:Eg.
  - assert (Hi := lookup_lt_Some _ _ _ Eg). rewrite lookup_seq_lt by done. cbn. f_equal.
    unfold Group. rewrite !planOf_startAt, planOf_entries by (done || lia). by apply join_slice.
  - rewrite lookup_seq_ge; [done|]. by apply lookup_ge_None.
Qed.

Lemma planGroups_ok opts es : Forall (groupOk (groupTarget (GroupBytes opts))) (planGroups opts es).
Proof. unfold planGroups. case_bool_decide; [constructor|]. apply pack_ok. by right. Qed.

Lemma lookup_mjoin_group (gs : list (list Entry)) n :
  (n < length (mjoin gs))%nat →
  ∃ i, (i < length gs)%nat ∧ (length (mjoin (take i gs)) <= n < length (mjoin (take (S i) gs)))%nat.
Proof.
  revert n. induction gs as [|g gs IH]; intros n; [cbn; lia|].
  rewrite mjoin_cons, length_app. intros Hn. destruct (decide (n < length g)%nat).
  - exists 0%nat. cbn [take]. rewrite take_0, mjoin_one. cbn. lia.
  - destruct (IH (n - length g)%nat) as (i & Hi & Hb); [lia|]. exists (S i). cbn [take length].
    rewrite !mjoin_cons, !length_app. cbn [take] in Hb. lia.
Qed.

Lemma length_mjoin_mono (gs : list (list Entry)) i j :
  (i <= j)%nat → (length (mjoin (take i gs)) <= length (mjoin (take j gs)))%nat.
Proof.
  intros Hij. replace (take i gs) with (take i (take j gs)) by (rewrite take_take; f_equal; lia).
  rewrite <- (take_drop i (take j gs)) at 2. rewrite join_app, length_app. lia.
Qed.

Lemma planOf_GroupID opts es n :
  limitsOk opts es → (n < length (entries (planOf opts es)))%nat →
  ∃ g, GroupID (planOf opts es) (Z.of_nat n) = Z.of_nat g ∧ (g < NumGroups (planOf opts es))%nat ∧
       (startAt (planOf opts es) g <= n < startAt (planOf opts es) (S g))%nat.
Proof.
  intros Hl Hn. set (gs := planGroups opts es). set (p := planOf opts es).
  assert (HN : NumGroups p = length gs) by by apply planOf_NumGroups.
  assert (Hst : ∀ i, (i <= length gs)%nat → startAt p i = length (mjoin (take i gs)))
    by (intros; by apply planOf_startAt).
  unfold GroupID. set (f := λ k, Z.of_nat n <? Z.of_nat (startAt p (k + 1))).
  assert (Hmono : ∀ a b, (a <= b < NumGroups p)%nat → f a = true → f b = true).
  { unfold f. intros a b Hab Ha. bool_to_prop. apply Z.ltb_lt.
    rewrite Hst in Ha by lia. rewrite Hst by lia. pose proof (length_mjoin_mono gs (a + 1) (b + 1) ltac:(lia)). lia. }
  destruct (Search_spec (NumGroups p) f Hmono) as (Hle & Hlo & Hhi).
  set (r := Search (NumGroups p) f) in *.
  rewrite planOf_entries in Hn. fold gs in Hn.
  destruct (lookup_mjoin_group gs n Hn) as (i & Hi & Hb).
  assert (Hfi : f i = true).
  { unfold f. apply Z.ltb_lt. rewrite Hst, Nat.add_1_r by lia. lia. }
  assert (Hr : (r <= i)%nat).
  { destruct (decide (r <= i)%nat); [done|]. rewrite (Hlo i) in Hfi by lia. done. }
  exists r. split; [done|]. split; [lia|]. destruct Hhi as [Hhi|Hhi]; [lia|].
  unfold f in Hhi. bool_to_prop. rewrite Nat.add_1_r in Hhi. split; [|lia].
  destruct r as [|r']; [rewrite Hst, take_0 by lia; apply Nat.le_0_l|].
  specialize (Hlo r' ltac:(lia)). unfold f in Hlo. bool_to_prop.
  rewrite Nat.add_1_r in Hlo. lia.
Qed.
End groups.

(** ** Properties *)
Section plan_theorems.
Context `{PlanEnv}.

(** C35: the plan is a function of the set of entries, not of the order the walker
    delivered them in: for two permutations of entries with distinct paths,
    [Build] fails alike or yields the same entries in the same order, the same
    ids, groups, totals and manifest digest, and the same exclusions up to
    order. *)
Theorem Build_order_independent es1 es2 opts :
  es1 ≡ₚ es2 → NoDup (RelPath <$> es1) →
  match Build es1 opts, Build es2 opts with
  | Ok p1, Ok p2 =>
      entries p1 = entries p2 ∧ keys p1 = keys p2 ∧ idByKey p1 = idByKey p2 ∧
      groupStart p1 = groupStart p2 ∧ digest p1 = digest p2 ∧ TotalFiles p1 = TotalFiles p2 ∧
      TotalBytes p1 = TotalBytes p2 ∧ ExcludedCount p1 = ExcludedCount p2 ∧
      exclusions p1 ≡ₚ exclusions p2
  | Err e1, Err e2 => e1 = e2
  | _, _ => False
  end.
Proof.
  intros Hp Hnd. rewrite !Build_eq. destruct (validateFilters _); [done|].
  cbn. rewrite (kept_order opts es1 es2 Hp Hnd).
  assert (Hx : filter (excluded opts es1) (classify opts <$> es1) ≡ₚ
               filter (excluded opts es2) (classify opts <$> es2)).
  { apply filter_perm_iff; [intros; by apply excluded_perm|by rewrite Hp]. }
  split_and!; try done; by rewrite Hx.
Qed.

(** An entry is planned exactly when neither the system set nor the user
    filters drop it and no directory on the path above it was dropped, whatever
    order the entries came in: a filter cannot re-admit anything below an
    excluded directory. Every other entry is reported as an exclusion unless it
    lies below one. *)
Theorem Build_admission es opts p :
  Build es opts = Ok p →
  (∀ path, path ∈ RelPath <$> entries p ↔
     ∃ e, e ∈ es ∧ RelPath e = path ∧ d_dropped (classify opts e) = false ∧
          underPruned (prunedDirs opts es) path = false) ∧
  (∀ path, path ∈ ex_Path <$> exclusions p ↔
     ∃ e, e ∈ es ∧ RelPath e = path ∧ d_dropped (classify opts e) = true ∧
          underPruned (prunedDirs opts es) path = false) ∧
  (∀ dir, dir ∈ prunedDirs opts es →
     ∃ e, e ∈ es ∧ RelPath e = dir ∧ Typ e = TypeDir ∧ d_dropped (classify opts e) = true).
Proof.
  rewrite Build_eq. destruct (validateFilters _); [done|]. intros E.
  assert (p = planOf opts es) as -> by congruence.
  clear E. split_and!.
  - intros path. cbn. rewrite <- list_fmap_compose, list_elem_of_fmap. split.
    + intros (k & -> & Hk). apply kept_elem in Hk as (e & He & [Hu Hd] & ->). exists e. cbn.
      rewrite keyOf_path. rewrite (proj1 (classify_slash opts e)) in Hu. by split_and!.
    + intros (e & He & <- & Hd & Hu). exists (keyOf (classify opts e)). cbn. rewrite keyOf_path.
      split; [done|]. apply kept_elem. exists e. split_and!; [done| |done]. split; [|done].
      by rewrite (proj1 (classify_slash opts e)).
  - intros path. cbn. rewrite <- list_fmap_compose, list_elem_of_fmap. split.
    + intros (d & -> & Hd). apply list_elem_of_filter in Hd as [[Hu Hx] Hd].
      apply list_elem_of_fmap in Hd as (e & -> & He). exists e. cbn.
      destruct (classify_slash opts e) as [E1 E2]. rewrite E1 in Hu. rewrite E2. by split_and!.
    + intros (e & He & <- & Hd & Hu). exists (classify opts e). cbn.
      destruct (classify_slash opts e) as [E1 E2]. rewrite E2. split; [done|].
      apply list_elem_of_filter. split; [|apply list_elem_of_fmap; by exists e].
      split; [by rewrite E1|done].
  - intros dir Hd. apply elem_of_list_to_set, list_elem_of_fmap in Hd as (d & -> & Hd).
    apply list_elem_of_filter in Hd as [Hp Hd]. apply list_elem_of_fmap in Hd as (e & -> & He).
    apply classify_prune in Hp as [? ?]. exists e.
    rewrite (proj1 (classify_slash opts e)). by split_and!.
Qed.

(** C36: the groups cut the plan's entries, in order and without gap or overlap,
    into non-empty runs of at most 1024 entries; a group of more than one entry
    is within the byte target and within the manifest byte budget. *)
Theorem Groups_partition es opts p :
  Build es opts = Ok p → limitsOk opts es →
  mjoin (Groups p) = entries p ∧ length (Groups p) = NumGroups p ∧
  Forall (groupOk (groupTarget (GroupBytes opts))) (Groups p).
Proof.
  rewrite Build_eq. destruct (validateFilters _); [done|]. intros E.
  assert (p = planOf opts es) as -> by congruence.
  clear E. intros Hl.
  rewrite planOf_Groups, planOf_entries, planOf_NumGroups by done.
  split_and!; [done..|apply planGroups_ok].
Qed.

(** File ids and groups can be looked up: the id of a path is the position
    of the first entry with its normalised key, every entry's own path finds its
    id when keys are distinct, and [GroupID] (a binary search over the group
    starts) names the one group whose id range contains a file id. *)
Theorem lookups_correct es opts p :
  Build es opts = Ok p → limitsOk opts es →
  (∀ path id, FileID p path = Some id ↔
     ∃ n, id = Z.of_nat n ∧ keys p !! n = Some (orderingKey path).1 ∧
          ∀ j, (j < n)%nat → keys p !! j ≠ Some (orderingKey path).1) ∧
  (NoDup (keys p) → ∀ n e, entries p !! n = Some e → FileID p (RelPath e) = Some (Z.of_nat n)) ∧
  (∀ n, (n < length (entries p))%nat →
     ∃ g, GroupID p (Z.of_nat n) = Z.of_nat g ∧ (g < NumGroups p)%nat ∧
          GroupFirstID p g <= Z.of_nat n < GroupFirstID p g + Z.of_nat (length (Group p g))).
Proof.
  rewrite Build_eq. destruct (validateFilters _); [done|]. intros E.
  assert (p = planOf opts es) as -> by congruence.
  clear E. intros Hl.
  assert (HF : ∀ path id, FileID (planOf opts es) path = Some id ↔
     ∃ n, id = Z.of_nat n ∧ keys (planOf opts es) !! n = Some (orderingKey path).1 ∧
          ∀ j, (j < n)%nat → keys (planOf opts es) !! j ≠ Some (orderingKey path).1).
  { intros path id. unfold FileID. cbn [idByKey planOf keys]. rewrite indexKeys_spec, lookup_empty.
    rewrite fmap_Some. split.
    - intros ([n k] & Hf & ->). apply list_find_Some in Hf as (Hn & -> & Hlo). exists n.
      split_and!; [cbn; lia|done|]. intros j Hj Hk. by eapply Hlo.
    - intros (n & -> & Hn & Hlo). exists (n, (orderingKey path).1). split; [|cbn; lia].
      apply list_find_Some. split_and!; [done..|]. intros j y Hy Hj ->. by eapply Hlo. }
  split_and!; [exact HF| |].
  - intros Hnd n e He. apply HF. exists n.
    assert (Hk : keys (planOf opts es) !! n = Some (orderingKey (RelPath e)).1).
    { change (entries (planOf opts es)) with (k_e <$> kept opts es) in He.
      change (keys (planOf opts es)) with (k_key <$> kept opts es).
      rewrite list_lookup_fmap in He. rewrite list_lookup_fmap.
      destruct (kept opts es !! n) as [k|] eqn:Ek; [|done]. cbn in He |- *. injection He as <-.
      f_equal. apply list_elem_of_lookup_2 in Ek. apply kept_elem in Ek as (e0 & _ & _ & ->).
      rewrite keyOf_key, keyOf_path. by rewrite (proj1 (classify_slash opts e0)). }
    split_and!; [done..|]. intros j Hj Hkj.
    assert (j = n) by (by eapply NoDup_lookup). lia.
  - intros n Hn. destruct (planOf_GroupID opts es n Hl Hn) as (g & Hg & Hlt & Hb).
    exists g. split_and!; [done..|unfold GroupFirstID; lia|]. unfold GroupFirstID, Group.
    rewrite length_take, length_drop, planOf_entries.
    rewrite planOf_NumGroups in Hlt by done.
    assert (startAt (planOf opts es) (S g) <= length (mjoin (planGroups opts es)))%nat; [|lia].
    rewrite planOf_startAt by (done || lia).
    pose proof (length_mjoin_mono (planGroups opts es) (S g) (length (planGroups opts es)) ltac:(lia)) as Hm.
    by rewrite firstn_all in Hm.
Qed.
End plan_theorems.

(** ** The filter signature is ambiguous

    [FilterSignature] joins the rules with commas but does not escape a comma
    inside a pattern: two rule lists that treat a path differently can have the
    same signature. *)
Lemma FilterSignature_ambiguous :
  ∃ o1 o2, FilterSignature o1 = FilterSignature o2 ∧
           filterAdmits o1 (bs "b") false = (true, []) ∧ filterAdmits o2 (bs "b") false = (false, bs "b").
Proof.
  exists (mkOptions false [mkFilter true (bs "a,-b")] 0),
         (mkOptions false [mkFilter true (bs "a"); mkFilter false (bs "b")] 0).
  by vm_compute.
Qed.

(** *** Witnesses *)
#[local] Instance toy_plan_env : PlanEnv := {| NFC s := s; planSha256 s := be 32 (unbe s) |}.

Definition ex_file (p : string) (size : Z) : Entry :=
  mkEntry (bs p) TypeFile 0 size 420 0 0 1 1 [] 0.
Definition ex_dir (p : string) : Entry := mkEntry (bs p) TypeDir 0 0 493 0 0 1 2 [] 0.
Definition ex_entries : list Entry :=
  [ex_file "b.txt" 5; ex_dir "a"; ex_file "a/x" 700; ex_dir "skip"; ex_file "skip/keep.txt" 1; ex_file ".DS_Store" 1].
Definition ex_opts : Options :=
  mkOptions false [mkFilter false (bs "skip/"); mkFilter true (bs "keep.txt")] 600.
Definition ex_plan : Plan := planOf ex_opts ex_entries.

Example ex_plan_paths : RelPath <$> entries ex_plan = [bs "a"; bs "a/x"; bs "b.txt"] ∧ groupStart ex_plan = [0; 1; 2; 3]%nat.
Proof. vm_compute. done. Qed.

Lemma ex_Build : Build ex_entries ex_opts = Ok ex_plan.
Proof. rewrite Build_eq. vm_compute. reflexivity. Qed.
Lemma ex_limits : limitsOk ex_opts ex_entries.
Proof. split; [vm_compute; done|]. repeat constructor; vm_compute; done. Qed.

Lemma Build_order_independent_witness :
  match Build ex_entries ex_opts, Build (rev ex_entries) ex_opts with
  | Ok p1, Ok p2 => digest p1 = digest p2
  | _, _ => False
  end.
Proof.
  pose proof (Build_order_independent ex_entries (rev ex_entries) ex_opts (Permutation_rev _)) as P.
  assert (Hnd : NoDup (RelPath <$> ex_entries)) by (refine (bool_decide_eq_true_1 (NoDup _) _); vm_compute; reflexivity).
  specialize (P Hnd). rewrite !Build_eq in P |- *.
  assert (Hv : validateFilters (Filters ex_opts) = None) by (vm_compute; reflexivity).
  rewrite Hv in P |- *. apply P.
Defined.

Lemma Build_admission_witness :
  bs "a/x" ∈ RelPath <$> entries ex_plan ∧ bs "skip/keep.txt" ∉ RelPath <$> entries ex_plan.
Proof.
  destruct (Build_admission ex_entries ex_opts ex_plan ex_Build) as (Ha & _ & _). split.
  - apply Ha. exists (ex_file "a/x" 700). split_and!; [|done|by vm_compute..].
    apply list_elem_of_In. cbn. tauto.
  - intros (e & _ & _ & _ & Hu)%Ha. vm_compute in Hu. discriminate.
Defined.

Lemma Groups_partition_witness : mjoin (Groups ex_plan) = entries ex_plan ∧ length (Groups ex_plan) = 3%nat.
Proof.
  destruct (Groups_partition ex_entries ex_opts ex_plan ex_Build ex_limits) as (E & Hn & _).
  split; [exact E|]. rewrite Hn. vm_compute. reflexivity.
Defined.

Lemma lookups_correct_witness : FileID ex_plan (bs "b.txt") = Some 2 ∧ ∃ g, GroupID ex_plan 2 = Z.of_nat g.
Proof.
  destruct (lookups_correct ex_entries ex_opts ex_plan ex_Build ex_limits) as (_ & Hf & Hg). split.
  - apply (Hf ltac:(refine (bool_decide_eq_true_1 (NoDup _) _); vm_compute; reflexivity) 2%nat (ex_file "b.txt" 5)).
    vm_compute. reflexivity.
  - destruct (Hg 2%nat) as (g & E & _); [vm_compute; lia|]. by exists g.
Defined.
