(* ===== verification/Journal.v ===== *)
(** * Journal: the resume journal (src/internal/fsx/journal.go)

    The record codec of complete.log, the parser that stops at the first corrupt
    record, and [Open]/[MarkComplete]/[Close]/[remove] on the state of the
    [.esync] directory.  session.json is represented by the value it decodes to
    ([encoding/json] writes and reads the same struct), or [None] when it is not
    valid JSON. *)
From S2P Require Import Prelude Fault Strconv.

(** ** Records and their lines *)
Record JRecord := mkJRecord { FileID : Z; Path : bytes; Digest : bytes; Size : Z }.

Definition recordBody (r : JRecord) : bytes :=
  FormatUint (FileID r) 10 ++ bs " " ++ FormatInt (Size r) 10 ++ bs " " ++
  hex_encode (Digest r) ++ bs " " ++ b64_encode (Path r).
Definition encodeRecord (r : JRecord) : bytes :=
  let body := recordBody r in
  let crc := crc32 IEEE body in
  body ++ bs " " ++ FormatUint crc 16 ++ [newline].

Definition decodeRecord (line : bytes) : option JRecord :=
  match Fields line with
  | [f0; f1; f2; f3; f4] =>
      let body := f0 ++ bs " " ++ f1 ++ bs " " ++ f2 ++ bs " " ++ f3 in
      match ParseUint f4 16 32 with
      | None => None
      | Some crc =>
          if negb (wrap_u 32 crc =? crc32 IEEE body) then None
          else
            match ParseUint f0 10 64, ParseInt f1, hex_decode f2, b64_decode f3 with
            | Some fid, (size, None), Some dig, Some pth => Some (mkJRecord fid pth dig size)
            | _, _, _, _ => None
            end
      end
  | _ => None
  end.

(** The lines of the log up to the first corrupt one; [break] stops the loop. *)
Fixpoint parseLines (lines : list bytes) : list JRecord :=
  match lines with
  | [] => []
  | ln :: lines =>
      if bool_decide (ln = []) then parseLines lines
      else match decodeRecord ln with
           | None => []
           | Some r => r :: parseLines lines
           end
  end.
Definition index (rs : list JRecord) : gmap Z JRecord := foldl (λ m r, <[FileID r := r]> m) ∅ rs.
Definition parseCompleteLog (data : bytes) : gmap Z JRecord := index (parseLines (Split newline data)).

(** ** The directory and the journal handle *)
Record sessionInfo := mkSession {
  si_SessionID : bytes; si_ManifestDigest : bytes; si_SourceRootName : bytes;
  si_ProtocolVersion : Z; si_StartedAt : bytes;
}.
(** session.json ([Some None]: not valid JSON), complete.log, parts/. *)
Record jdir := mkJdir { jd_session : option (option sessionInfo); jd_log : option bytes; jd_parts : bool }.
Definition emptyJdir : jdir := mkJdir None None false.

(** [.esync] under the destination root, and whether the log file is open. *)
Record Journal := mkJournal { j_open : bool; Resumed : bool }.

(** What the file system answers to the calls of [Open] that can fail; a failed
    [RemoveAll]+[Mkdir] or [WriteFile] also says what it leaves behind. *)
Record openEnv := mkOpenEnv {
  oe_root : option stdErr; oe_mkdir : option stdErr; oe_recreate : option (stdErr * option jdir);
  oe_write : option (stdErr * option (option sessionInfo)); oe_parts : option stdErr;
  oe_log : option stdErr; oe_now : bytes;
}.
Definition diskErr (op : string) (subject : bytes) (e : stdErr) : gerr :=
  fault (diskCode e E7007) op subject (Some (EStd e)).
(** A file-system call on [.esync]: on failure the directory is [left]. *)
Definition call (env : option (stdErr * option jdir)) (op : string) (subject : bytes) (ok : jdir) :
    SE (option jdir) gerr jdir := λ _,
  match env with
  | Some (e, left_) => (Err (diskErr op subject e), left_)
  | None => (Ok ok, Some ok)
  end.

(** [Open] on the [.esync] directory ([None]: absent): the journal and the prior
    records, or the error; and the directory afterwards. *)
Definition Open (env : openEnv) (sessionID digestHex : bytes) :
    SE (option jdir) gerr (Journal * gmap Z JRecord) :=
  _ ← liftS (match oe_root env with
             | Some e => Err (fault E1006 "open destination root" [] (Some (EStd e)))
             | None => Ok ()
             end);
  disk ← getS;
  d ← match disk with
      | Some d => mret d
      | None => call (option_map (λ e, (e, None)) (oe_mkdir env)) "create journal directory" (bs ".esync") emptyJdir
      end;
  let recreate :=
    d ← call (oe_recreate env) "recreate journal directory" (bs ".esync") emptyJdir;
    mret (false, ∅, d) in
  '(resumed, prior, d) ←
    match jd_session d with
    | None => mret (false, ∅, d)
    | Some (Some si) =>
        if bool_decide (si_ManifestDigest si = digestHex)
        then mret (true, match jd_log d with Some lg => parseCompleteLog lg | None => ∅ end, d)
        else recreate
    | Some None => recreate
    end;
  d ← (if resumed : bool then mret d else
         call (option_map (λ '(e, left_), (e, Some (mkJdir left_ (jd_log d) (jd_parts d)))) (oe_write env))
           "write session.json" (bs "session.json")
           (mkJdir (Some (Some (mkSession sessionID digestHex [] 2 (oe_now env)))) (jd_log d) (jd_parts d)));
  d ← (if jd_parts d then mret d else
         call (option_map (λ e, (e, Some d)) (oe_parts env)) "create parts directory" (bs "parts")
           (mkJdir (jd_session d) (jd_log d) true));
  _ ← call (option_map (λ e, (e, Some d)) (oe_log env)) "open complete.log" (bs "complete.log")
        (mkJdir (jd_session d) (Some (default [] (jd_log d))) (jd_parts d));
  mret (mkJournal true resumed, prior).

(** Append to the log opened with O_APPEND; a failed write may leave the first
    [n] bytes behind. *)
Definition MarkComplete (env : option (stdErr * nat)) (j : Journal) (d : jdir) (r : JRecord) : option gerr * jdir :=
  if negb (j_open j) then
    (Some (fault E7007 "journal write" (bs "complete.log") (Some (EStd (StdOther "journal closed")))), d)
  else
    let line := encodeRecord r in
    let append b := mkJdir (jd_session d) (Some (default [] (jd_log d) ++ b)) (jd_parts d) in
    match env with
    | Some (e, n) => (Some (fault E7007 "journal write" (bs "complete.log") (Some (EStd e))), append (take n line))
    | None => (None, append line)
    end.

Definition Sync (env : option stdErr) (j : Journal) : option gerr :=
  if negb (j_open j) then None
  else match env with Some e => Some (fault E7007 "journal sync" (bs "complete.log") (Some (EStd e))) | None => None end.

(** [Discard] and [Clear]. *)
Definition remove (env : option stdErr) (j : Journal) (disk : option jdir) : option gerr * Journal * option jdir :=
  let j := mkJournal false (Resumed j) in
  match env with
  | Some e => (Some (fault E7007 "remove journal directory" (bs ".esync") (Some (EStd e))), j, disk)
  | None => (None, j, None)
  end.

Definition Close (env : option stdErr) (j : Journal) : option gerr * Journal :=
  let j' := mkJournal false (Resumed j) in
  if j_open j then
    (match env with Some e => Some (fault E7007 "close complete.log" (bs "complete.log") (Some (EStd e))) | None => None end, j')
  else (None, j').

Fixpoint MarkAll (j : Journal) (d : jdir) (rs : list JRecord) : jdir :=
  match rs with
  | [] => d
  | r :: rs => MarkAll j (MarkComplete None j d r).2 rs
  end.

(** ** Lemmas: one line *)

(** What a receiver journals: a published file, with its streamed digest. *)
Definition recordOk (r : JRecord) : Prop :=
  in_u 64 (FileID r) ∧ in_i 64 (Size r) ∧ Digest r ≠ [] ∧ Path r ≠ [].

Lemma digits_head c t ds : digits_of 10 (c :: t) = Some ds → c ≠ byte_of_Z 43 ∧ c ≠ byte_of_Z 45.
Proof.
  unfold digits_of. cbn [mapM]. intros E.
  destruct (digit_val c ≫= _) eqn:Ec; [|done]. split; intros ->; vm_compute in Ec; done.
Qed.

Lemma ParseInt_FormatInt n : in_i 64 n → ParseInt (FormatInt n 10) = (n, None).
Proof.
  unfold in_i. intros Hn. unfold FormatInt. destruct (Z.ltb_spec n 0) as [Hneg|Hpos].
  - destruct (FormatUint_digits 10 (- n)) as (ds & Hds & Hv & _); [lia|unfold in_u; lia|].
    pose proof (FormatUint_nonempty (- n) 10) as Hne.
    change (bs "-") with [byte_of_Z 45]. cbn [app ParseInt].
    rewrite bool_decide_false, bool_decide_true by (done || by vm_compute).
    destruct (FormatUint (- n) 10) as [|c t]; [done|]. rewrite Hds, Hv. cbn [negb andb].
    rewrite (proj2 (Z.ltb_ge (2 ^ 63) _)) by lia. f_equal. lia.
  - destruct (FormatUint_digits 10 n) as (ds & Hds & Hv & _); [lia|unfold in_u; lia|].
    pose proof (FormatUint_nonempty n 10) as Hne.
    destruct (FormatUint n 10) as [|c t] eqn:E; [done|]. destruct (digits_head _ _ _ Hds) as [H1 H2].
    unfold ParseInt. rewrite !bool_decide_false by done. rewrite Hds, Hv. cbn [negb andb].
    rewrite (proj2 (Z.leb_gt _ _)) by lia. done.
Qed.

Lemma FormatInt_token n : in_i 64 n → token (FormatInt n 10).
Proof.
  unfold in_i. intros Hn. unfold FormatInt, token. destruct (Z.ltb_spec n 0).
  - split; [done|]. apply Forall_app. split; [repeat constructor; by vm_compute|].
    apply FormatUint_plain; [lia|unfold in_u; lia].
  - split; [apply FormatUint_nonempty|]. apply FormatUint_plain; [lia|unfold in_u; lia].
Qed.

Definition toks (r : JRecord) : list bytes :=
  [FormatUint (FileID r) 10; FormatInt (Size r) 10; hex_encode (Digest r); b64_encode (Path r);
   FormatUint (crc32 IEEE (recordBody r)) 16].
Definition line (r : JRecord) : bytes := join (toks r).

Lemma crc_u64 l : in_u 64 (crc32 IEEE l).
Proof.
  assert (in_u 32 (crc32 IEEE l)) as [? ?] by (apply crc32_range; by vm_compute). unfold in_u. lia.
Qed.
Lemma crc_u32 l : in_u 32 (crc32 IEEE l).
Proof. apply crc32_range; by vm_compute. Qed.

Lemma toks_ok r : recordOk r → Forall token (toks r).
Proof.
  intros (Hid & Hsz & Hd & Hp). unfold toks. repeat (apply Forall_cons; split); try apply Forall_nil_2.
  - split; [apply FormatUint_nonempty|apply FormatUint_plain; [lia|done]].
  - by apply FormatInt_token.
  - split; [by rewrite hex_encode_nil|apply hex_encode_plain].
  - split; [by rewrite b64_encode_nil|apply b64_encode_plain].
  - split; [apply FormatUint_nonempty|apply FormatUint_plain; [lia|apply crc_u64]].
Qed.

Lemma encodeRecord_line r : encodeRecord r = line r ++ [newline].
Proof.
  unfold encodeRecord, line, toks. cbn zeta. generalize (FormatUint (crc32 IEEE (recordBody r)) 16) as c.
  intros c. unfold recordBody. cbn [join]. change (bs " ") with [space].
  by repeat (rewrite <- ?app_assoc; cbn [app]).
Qed.

Lemma recordBody_join r : recordBody r = join (take 4 (toks r)).
Proof. done. Qed.

Lemma decode_toks r p f4 :
  recordOk r → Fields p = take 4 (toks r) ++ f4 →
  decodeRecord p =
    match f4 with
    | [f4] => if bool_decide (ParseUint f4 16 32 = Some (crc32 IEEE (recordBody r))) then Some r else None
    | _ => None
    end.
Proof.
  intros (Hid & Hsz & _) HF. unfold decodeRecord. rewrite HF. cbn [take toks app].
  destruct f4 as [|f4 [|? ?]]; [done| |done]. change (_ ++ bs " " ++ _) with (recordBody r).
  destruct (ParseUint f4 16 32) as [crc|] eqn:E; [|done].
  assert (in_u 32 crc).
  { apply ParseUint_spec in E as (_ & ds & Hds & <- & Hlt). split; [|done]. apply of_digits_nonneg; [done|].
    eapply Forall_impl; [by eapply digits_of_nonneg|]. naive_solver. }
  rewrite wrap_u_id by done.
  destruct (Z.eqb_spec crc (crc32 IEEE (recordBody r))) as [->|Hne]; cbn [negb].
  - rewrite bool_decide_true by done. unfold in_u in Hid.
    rewrite ParseUint_FormatUint, ParseInt_FormatInt, hex_decode_encode, b64_decode_encode by (done || lia).
    by destruct r.
  - rewrite bool_decide_false by congruence. done.
Qed.

Lemma decode_short p : (length (Fields p) < 5)%nat → decodeRecord p = None.
Proof.
  unfold decodeRecord. destruct (Fields p) as [|? [|? [|? [|? [|? ?]]]]]; cbn [length]; done || lia.
Qed.

Lemma decode_line r : recordOk r → decodeRecord (line r) = Some r.
Proof.
  intros H. rewrite (decode_toks r _ [FormatUint (crc32 IEEE (recordBody r)) 16]) by
    (done || unfold line; by rewrite Fields_join by by apply toks_ok).
  rewrite bool_decide_true; [done|]. apply ParseUint_FormatUint; [lia|apply crc_u64|].
  apply (crc_u32 (recordBody r)).
Qed.

Lemma join_snoc ts t : ts ≠ [] → join (ts ++ [t]) = join ts ++ space :: t.
Proof.
  induction ts as [|a ts IH]; [done|]. intros _. destruct ts as [|b ts]; [done|].
  cbn [app]. rewrite !join_cons2. change (b :: ts ++ [t]) with ((b :: ts) ++ [t]).
  rewrite IH by done. by rewrite <- app_assoc.
Qed.

(** A line that is cut short never decodes. *)
Lemma decode_torn r p : recordOk r → p `prefix_of` line r → p ≠ line r → decodeRecord p = None.
Proof.
  intros H Hp Hne. pose proof (toks_ok r H) as Ht.
  destruct (Fields_prefix_join _ _ Ht Hp) as (n & t & Hu & Hn & HF & HE).
  change (length (toks r)) with 5%nat in Hn.
  assert (length (flush t) <= 1)%nat by (destruct t; simpl; lia).
  destruct (decide (n < 4)%nat) as [|Hn4].
  { apply decode_short. rewrite HF, length_app, length_take. lia. }
  destruct (decide (n = 4%nat)) as [->|Hn5].
  - rewrite (decode_toks r p (flush t)) by done. destruct t as [|c t]; [done|]. cbn [flush].
    destruct Hu as [|(t' & Ht' & q & Hq)]; [done|]. change (Some (FormatUint (crc32 IEEE (recordBody r)) 16) = Some t') in Ht'.
    injection Ht' as Ht'. subst t'. rewrite bool_decide_false; [done|].
    apply (ParseUint_strict_prefix _ q); [lia|apply crc_u64|done|]. intros ->.
    apply Hne. rewrite app_nil_r in Hq. by rewrite HE, <- Hq.
  - assert (n = 5%nat) as -> by lia. exfalso. rewrite (take_ge (toks r)) in HE by done.
    rewrite join_snoc in HE by done. apply prefix_length in Hp. rewrite HE, length_app in Hp.
    fold (line r) in Hp. simpl in Hp. lia.
Qed.

Lemma plain_join ts : Forall token ts → newline ∉ join ts.
Proof.
  induction 1 as [|t ts [_ Ht] Hts IH]; [by apply not_elem_of_nil|].
  pose proof (plain_not_newline t Ht). destruct ts; [done|]. rewrite join_cons2.
  intros [?|[E|?]%elem_of_cons]%elem_of_app; done.
Qed.

Lemma line_ne r : line r ≠ [].
Proof. unfold line, toks. rewrite join_cons2. intros [E _]%app_nil. by apply FormatUint_nonempty in E. Qed.

Lemma parse_line r rest :
  recordOk r → parseLines (Split newline (encodeRecord r ++ rest)) = r :: parseLines (Split newline rest).
Proof.
  intros H. rewrite encodeRecord_line, <- app_assoc. cbn [app].
  rewrite Split_line by by apply plain_join, toks_ok.
  cbn [parseLines]. by rewrite bool_decide_false, decode_line by (done || apply line_ne).
Qed.

Lemma parse_torn r p :
  recordOk r → p `prefix_of` line r →
  parseLines (Split newline p) = if bool_decide (p = line r) then [r] else [].
Proof.
  intros H Hp. pose proof (plain_join _ (toks_ok r H)) as Hnl.
  rewrite Split_last.
  2:{ destruct Hp as [q Hq]. intros Hin. apply Hnl. change (join (toks r)) with (line r).
      rewrite Hq. apply elem_of_app. by left. }
  cbn [parseLines]. destruct (bool_decide_reflect (p = line r)) as [->|Hne].
  - by rewrite bool_decide_false, decode_line by (done || apply line_ne).
  - rewrite (decode_torn r p) by done. by case_bool_decide.
Qed.

Definition logOf (rs : list JRecord) : bytes := mjoin (encodeRecord <$> rs).

Lemma parse_log rs rest :
  Forall recordOk rs → parseLines (Split newline (logOf rs ++ rest)) = rs ++ parseLines (Split newline rest).
Proof.
  induction 1 as [|r rs Hr Hrs IH]; [done|].
  unfold logOf in *. cbn [fmap list_fmap]. rewrite mjoin_cons, <- app_assoc.
  by rewrite parse_line, IH.
Qed.

Lemma parse_prefix rs p :
  Forall recordOk rs → p `prefix_of` logOf rs →
  ∃ k, (k <= length rs)%nat ∧ parseLines (Split newline p) = take k rs ∧
       ∀ i, (i <= length rs)%nat → (i <= k ↔ length (logOf (take i rs)) <= length p + 1)%nat.
Proof.
  intros H. revert p. induction H as [|r rs Hr Hrs IH]; intros p Hp.
  { apply prefix_nil_inv in Hp as ->. exists 0%nat. split_and!; [done|done|].
    intros i Hi. rewrite take_nil. split; [simpl; lia|done]. }
  unfold logOf in Hp. cbn [fmap list_fmap] in Hp. rewrite mjoin_cons in Hp.
  assert (Hlen : length (encodeRecord r) = S (length (line r))).
  { rewrite encodeRecord_line, length_app. simpl. lia. }
  assert (Hl : ∀ i, length (logOf (take (S i) (r :: rs))) = (S (length (line r)) + length (logOf (take i rs)))%nat).
  { intros i. unfold logOf. cbn [take fmap list_fmap]. by rewrite mjoin_cons, length_app, Hlen. }
  assert (Hfull : ∀ p', p = encodeRecord r ++ p' → p' `prefix_of` logOf rs → ∃ k,
    (k <= length (r :: rs))%nat ∧ parseLines (Split newline p) = take k (r :: rs) ∧
       ∀ i, (i <= length (r :: rs))%nat → (i <= k ↔ length (logOf (take i (r :: rs))) <= length p + 1)%nat).
  { intros p' -> Hp'. destruct (IH p' Hp') as (k & Hk & HP & Hi).
    exists (S k). split_and!; [simpl; lia|by rewrite parse_line, HP|].
    intros [|i] Hi'; [simpl; lia|]. rewrite Hl, length_app, Hlen. specialize (Hi i). simpl in Hi'. lia. }
  apply prefix_app_cases in Hp as [Hp|(p' & -> & Hp')]; [|by eapply Hfull].
  rewrite encodeRecord_line in Hp. apply prefix_app_cases in Hp as [Hp|([|c p'] & -> & Hp')].
  - exists (if bool_decide (p = line r) then 1 else 0)%nat. rewrite (parse_torn r p) by done.
    split_and!; [case_bool_decide; simpl; lia|by case_bool_decide|].
    intros i Hi. assert (length p <= length (line r))%nat by by apply prefix_length.
    assert (p ≠ line r → length p < length (line r))%nat as H1.
    { intros Hne. destruct Hp as [[|c q] E]; [by rewrite app_nil_r in E|].
      rewrite E, length_app. simpl. lia. }
    destruct i as [|i]; [simpl; lia|]. rewrite Hl.
    destruct i as [|i]; [change (length (logOf (take 0 rs))) with 0%nat; case_bool_decide as E; [subst; lia|specialize (H1 E); lia]|].
    destruct rs as [|r' rs']; [simpl in Hi; lia|]. unfold logOf. cbn [take fmap list_fmap].
    rewrite mjoin_cons, encodeRecord_line, !length_app. pose proof (line_ne r').
    destruct (line r'); [done|]. case_bool_decide as E; [subst; simpl; lia|specialize (H1 E); simpl; lia].
  - exists 1%nat. rewrite app_nil_r, (parse_torn r (line r)), bool_decide_true by done.
    split_and!; [simpl; lia|done|].
    intros i Hi. destruct i as [|i]; [simpl; lia|]. rewrite Hl.
    destruct i as [|i]; [change (length (logOf (take 0 rs))) with 0%nat; lia|].
    destruct rs as [|r' rs']; [simpl in Hi; lia|]. unfold logOf. cbn [take fmap list_fmap].
    rewrite mjoin_cons, encodeRecord_line, !length_app. pose proof (line_ne r').
    destruct (line r'); [done|]. simpl; lia.
  - apply prefix_cons_inv_1 in Hp' as Hc. apply prefix_cons_inv_2 in Hp'. apply prefix_nil_inv in Hp' as ->.
    apply (Hfull []); [|apply prefix_nil]. by rewrite encodeRecord_line, app_nil_r, Hc.
Qed.

(** ** What [MarkComplete] and [Open] do to the directory *)
Lemma MarkAll_log j d rs :
  j_open j = true →
  MarkAll j d rs = match rs with [] => d | _ => mkJdir (jd_session d) (Some (default [] (jd_log d) ++ logOf rs)) (jd_parts d) end.
Proof.
  intros Hj. revert d. induction rs as [|r rs IH]; intros d; [done|]. cbn [MarkAll].
  unfold MarkComplete. rewrite Hj; cbn [negb snd]. rewrite IH. unfold logOf. cbn [fmap list_fmap].
  rewrite mjoin_cons, app_assoc. destruct rs; [by rewrite app_nil_r|done].
Qed.

Definition calmEnv (now : bytes) : openEnv := mkOpenEnv None None None None None None now.

(** The directory a fresh session starts from. *)
Definition freshDir (now sessionID digestHex : bytes) : jdir :=
  mkJdir (Some (Some (mkSession sessionID digestHex [] 2 now))) (Some []) true.

Lemma Open_fresh now sid dg : Open (calmEnv now) sid dg None = (Ok (mkJournal true false, ∅), Some (freshDir now sid dg)).
Proof. done. Qed.

Lemma Open_session now sid dg si lg :
  Open (calmEnv now) sid dg (Some (mkJdir (Some (Some si)) (Some lg) true)) =
  if bool_decide (si_ManifestDigest si = dg)
  then (Ok (mkJournal true true, parseCompleteLog lg), Some (mkJdir (Some (Some si)) (Some lg) true))
  else (Ok (mkJournal true false, ∅), Some (freshDir now sid dg)).
Proof.
  unfold Open. cbv beta iota zeta delta [oe_root calmEnv liftS mbind SE_bind getS jd_session mret SE_ret].
  by destruct (bool_decide (si_ManifestDigest si = dg)).
Qed.

(** A crash: the log keeps some prefix of the bytes written. *)
Definition crash (n : nat) (d : jdir) : jdir :=
  mkJdir (jd_session d) (take n <$> jd_log d) (jd_parts d).

(** A complete.log that a crash cut at any byte parses to exactly the
    records written before the cut, in order, up to the last one whose line is
    complete (its final newline may be missing): a torn record is never taken
    for a record, and no completed record is lost. *)
Theorem torn_log_prefix rs p :
  Forall recordOk rs → p `prefix_of` logOf rs →
  ∃ k, (k <= length rs)%nat ∧ parseCompleteLog p = index (take k rs) ∧
       ∀ i, (i <= length rs)%nat → (i <= k ↔ length (logOf (take i rs)) <= length p + 1)%nat.
Proof.
  intros H Hp. destruct (parse_prefix rs p H Hp) as (k & Hk & HP & Hi).
  exists k. unfold parseCompleteLog. by rewrite HP.
Qed.

(** What a crash leaves of a fresh session that journalled [rs], and what [Open]
    makes of it under the same digest. *)
Definition crashedDir (now sid dg : bytes) (rs : list JRecord) (n : nat) : jdir :=
  mkJdir (jd_session (freshDir now sid dg)) (Some (take n (logOf rs))) true.
Lemma crash_fresh now sid dg rs n : Forall recordOk rs →
  crash n (MarkAll (mkJournal true false) (freshDir now sid dg) rs) = crashedDir now sid dg rs n.
Proof. intros H. rewrite MarkAll_log by done. destruct rs; [by destruct n|done]. Qed.
Lemma Open_resumes now now' sid sid' dg rs n : Forall recordOk rs → ∃ k, (k <= length rs)%nat ∧
  Open (calmEnv now') sid' dg (Some (crashedDir now sid dg rs n)) =
    (Ok (mkJournal true true, index (take k rs)), Some (crashedDir now sid dg rs n)) ∧
  (∀ i, (i <= length rs)%nat → (length (logOf (take i rs)) <= n)%nat → (i <= k)%nat).
Proof.
  intros H. destruct (parse_prefix rs (take n (logOf rs)) H) as (k & Hk & HP & Hi).
  { exists (drop n (logOf rs)). by rewrite take_drop. }
  exists k. unfold crashedDir, freshDir. cbn [jd_session]. split_and!; [done| |].
  - rewrite Open_session. unfold parseCompleteLog. by rewrite bool_decide_true, HP.
  - intros i Hi' Hn. apply Hi; [done|]. rewrite length_take.
    assert (length (logOf (take i rs)) <= length (logOf rs))%nat; [|lia].
    rewrite <- (take_drop i rs) at 2. unfold logOf. rewrite fmap_app, join_app, length_app. lia.
Qed.

(** C34: a run that journalled [rs] and crashed after any number of log bytes
    resumes, under the same manifest digest, with the index of a prefix of [rs]
    that contains every record whose line reached the disk; under any other
    digest the old journal is discarded and a fresh empty one opened. *)
Theorem Open_after_crash now now' sid sid' dg dg' rs n :
  Forall recordOk rs →
  let disk := crash n (MarkAll (mkJournal true false) (freshDir now sid dg) rs) in
  (dg' = dg → ∃ k, (k <= length rs)%nat ∧
     Open (calmEnv now') sid' dg' (Some disk) = (Ok (mkJournal true true, index (take k rs)), Some disk) ∧
     (∀ i, (i <= length rs)%nat → (length (logOf (take i rs)) <= n)%nat → (i <= k)%nat)) ∧
  (dg' ≠ dg → Open (calmEnv now') sid' dg' (Some disk) =
              (Ok (mkJournal true false, ∅), Some (freshDir now' sid' dg'))).
Proof.
  intros H. cbv zeta. rewrite crash_fresh by done. split; intros Hdg.
  - subst dg'. by apply Open_resumes.
  - unfold crashedDir, freshDir. cbn [jd_session]. rewrite Open_session. by rewrite bool_decide_false.
Qed.

Definition ex_rec1 : JRecord := mkJRecord 7 (bs "a/b") (bs "0123") 42.
Definition ex_rec2 : JRecord := mkJRecord 8 (bs "c") (bs "9") (-1).
Lemma ex_recs_ok : Forall recordOk [ex_rec1; ex_rec2].
Proof. repeat constructor; by vm_compute. Qed.

Lemma torn_log_prefix_witness :
  ∃ k, (k <= 2)%nat ∧ parseCompleteLog (take 40 (logOf [ex_rec1; ex_rec2])) = index (take k [ex_rec1; ex_rec2]) ∧
       ∀ i, (i <= 2)%nat → (i <= k ↔ length (logOf (take i [ex_rec1; ex_rec2])) <=
                                    length (take 40 (logOf [ex_rec1; ex_rec2])) + 1)%nat.
Proof.
  apply (torn_log_prefix [ex_rec1; ex_rec2] (take 40 (logOf [ex_rec1; ex_rec2]))); [apply ex_recs_ok|].
  exists (drop 40 (logOf [ex_rec1; ex_rec2])). symmetry. apply take_drop.
Defined.

Lemma Open_after_crash_witness :
  let disk := crash 40 (MarkAll (mkJournal true false) (freshDir (bs "t0") (bs "s") (bs "d1")) [ex_rec1; ex_rec2]) in
  Open (calmEnv (bs "t1")) (bs "s2") (bs "d2") (Some disk) =
    (Ok (mkJournal true false, ∅), Some (freshDir (bs "t1") (bs "s2") (bs "d2"))).
Proof.
  apply (Open_after_crash (bs "t0") (bs "t1") (bs "s") (bs "s2") (bs "d1") (bs "d2") [ex_rec1; ex_rec2] 40 ex_recs_ok).
  discriminate.
Defined.

(** A torn tail is not cut off when the log is reopened in append mode: a record
    appended after it continues the torn line, and the next run's parse stops
    there.  Here run 1 crashes inside its only record, run 2 resumes and journals
    another file completely, and run 3 resumes with nothing. *)
Lemma append_after_torn_tail_lost :
  let run1 := crash 20 (MarkAll (mkJournal true false) (freshDir (bs "t") (bs "s") (bs "d")) [ex_rec1]) in
  Open (calmEnv (bs "t")) (bs "s") (bs "d") (Some run1) = (Ok (mkJournal true true, ∅), Some run1) ∧
  let run2 := MarkAll (mkJournal true true) run1 [ex_rec2] in
  Open (calmEnv (bs "t")) (bs "s") (bs "d") (Some run2) = (Ok (mkJournal true true, ∅), Some run2).
Proof. by vm_compute. Qed.
