(* ===== verification/Paths.v ===== *)
(** * Paths: what the receiver accepts as a destination path

    [ValidatePath] (src/internal/fsx/validate.go) and the collision set
    (src/internal/fsx/collision.go).  The Unicode case tables and NFC are
    parameters: Go's fast paths for ASCII strings are written out, the rest of
    [strings.ToUpper]/[ToLower] and [norm.NFC.String] is a class. *)
From S2P Require Import Prelude Fault Strconv Glob.

Inductive Platform := PlatformLinux | PlatformDarwin | PlatformWindows.
#[global] Instance Platform_eq_dec : EqDecision Platform.
Proof. solve_decision. Defined.

Record pathLimits := mkLimits { component : Z; total : Z }.
Definition limitsFor (p : Platform) : pathLimits :=
  match p with
  | PlatformWindows => mkLimits 255 260
  | PlatformDarwin => mkLimits 255 1024
  | PlatformLinux => mkLimits 255 4096
  end.

(** [strings.FieldsFunc(s, f)] for a predicate that only holds of ASCII runes. *)
Fixpoint fieldsFunc_go (f : byte → bool) (s cur : bytes) : list bytes :=
  match s with
  | [] => flush cur
  | c :: s => if f c then flush cur ++ fieldsFunc_go f s [] else fieldsFunc_go f s (cur ++ [c])
  end.
Definition FieldsFunc (f : byte → bool) (s : bytes) : list bytes := fieldsFunc_go f s [].

Definition isSlash (c : byte) : bool := bool_decide (c = c_slash).
Definition isSep (c : byte) : bool := bool_decide (c = c_slash) || bool_decide (c = c_bslash).

Definition isASCIILetter (b : byte) : bool :=
  let z := Z_of_byte b in ((97 <=? z) && (z <=? 122)) || ((65 <=? z) && (z <=? 90)).

(** ** Case mapping and normalisation *)
Definition isASCII (s : bytes) : bool := forallb (λ b, Z_of_byte b <? 128) s.
Definition upperASCII (b : byte) : byte :=
  if (97 <=? Z_of_byte b) && (Z_of_byte b <=? 122) then byte_of_Z (Z_of_byte b - 32) else b.
Definition lowerASCII (b : byte) : byte :=
  if (65 <=? Z_of_byte b) && (Z_of_byte b <=? 90) then byte_of_Z (Z_of_byte b + 32) else b.

(** The Unicode tables, for strings with a non-ASCII byte, and NFC. *)
Class Unicode := { upperMap : bytes → bytes; lowerMap : bytes → bytes; normNFC : bytes → bytes }.

Section paths.
Context `{Unicode}.

Definition ToUpper (s : bytes) : bytes := if isASCII s then upperASCII <$> s else upperMap s.
Definition ToLower (s : bytes) : bytes := if isASCII s then lowerASCII <$> s else lowerMap s.

(** [strings.TrimRight(s, " ")]. *)
Fixpoint trimRightSpaces (s : bytes) : bytes :=
  match s with
  | [] => []
  | c :: s => let t := trimRightSpaces s in
      if bool_decide (t = []) && bool_decide (c = space) then [] else c :: t
  end.

Definition isWindowsReserved (c : bytes) : bool :=
  let name := ToUpper c in
  let name := match IndexByte name (byte_of_Z 46) with Some i => take i name | None => name end in
  let name := trimRightSpaces name in
  if bool_decide (name ∈ [bs "CON"; bs "PRN"; bs "AUX"; bs "NUL"]) then true
  else match name with
       | [_; _; _; d] =>
           if (49 <=? Z_of_byte d) && (Z_of_byte d <=? 57) && (HasPrefix name (bs "COM") || HasPrefix name (bs "LPT"))
           then true else false
       | _ => false
       end.

Definition reject (p : bytes) (msg : string) : option gerr :=
  Some (fault E7010 "validate path" p (Some (EStd (StdOther msg)))).
Definition tooLong (p : bytes) (msg : string) : option gerr :=
  Some (fault E7014 "validate path" p (Some (EStd (StdOther msg)))).

(** The loop over the components; [None] when it finishes. *)
Fixpoint validateComps (p : bytes) (plat : Platform) (comps : list bytes) : option gerr :=
  match comps with
  | [] => None
  | c :: comps =>
      if bool_decide (c ∈ [bs "."; bs ".."]) then reject p "dot component"
      else if bool_decide (c = bs ".esync") then reject p ".esync component"
      else if bool_decide (plat = PlatformWindows) && isWindowsReserved c then reject p "Windows-reserved name"
      else if component (limitsFor plat) <? Z.of_nat (length c) then tooLong p "path component too long"
      else validateComps p plat comps
  end.

Definition ValidatePath (p : bytes) (plat : Platform) : option gerr :=
  if bool_decide (p = []) then reject p "empty path"
  else if bool_decide (Byte.x00 ∈ p) then reject p "NUL byte in path"
  else if HasPrefix p (bs "\\") then reject p "UNC path"
  else if HasPrefix p (bs "/") || HasPrefix p (bs "\") then reject p "absolute path"
  else if match p with c :: d :: _ => bool_decide (d = byte_of_Z 58) && isASCIILetter c | _ => false end
  then reject p "drive-letter path"
  else match validateComps p plat (FieldsFunc isSep p) with
       | Some e => Some e
       | None =>
           if total (limitsFor plat) <? Z.of_nat (length p)
           then tooLong p "path too long for destination platform" else None
       end.

(** ** Collisions *)
Record Collisions := mkCollisions {
  caseInsensitive : bool; normalise : bool; seen : gmap bytes bytes;
}.
Definition NewCollisions (plat : Platform) : Collisions :=
  mkCollisions (bool_decide (plat = PlatformWindows ∨ plat = PlatformDarwin))
    (bool_decide (plat = PlatformDarwin)) ∅.

Definition effective (c : Collisions) (relPath : bytes) : bytes :=
  let e := if normalise c then normNFC relPath else relPath in
  if caseInsensitive c then ToLower e else e.

Definition Add (c : Collisions) (relPath : bytes) : option gerr * Collisions :=
  let eff := effective c relPath in
  let ok := (None, mkCollisions (caseInsensitive c) (normalise c) (<[eff := relPath]> (seen c))) in
  match seen c !! eff with
  | Some first =>
      if negb (bool_decide (first = relPath))
      then (Some (fault E7012 "destination name collision" relPath None), c) else ok
  | None => ok
  end.

(** Adding a list of paths: the errors, in order, and the final set. *)
Fixpoint AddAll (c : Collisions) (ps : list bytes) : list (option gerr) * Collisions :=
  match ps with
  | [] => ([], c)
  | p :: ps => let '(e, c) := Add c p in let '(es, c) := AddAll c ps in (e :: es, c)
  end.

(** ** What an accepted path means

    The lexical walk of a path from the root: [".."] goes up, and [None] says
    that the walk leaves the root. *)
Fixpoint walk (stack comps : list bytes) : option (list bytes) :=
  match comps with
  | [] => Some (reverse stack)
  | c :: comps =>
      if bool_decide (c = bs ".") then walk stack comps
      else if bool_decide (c = bs "..") then match stack with [] => None | _ :: s => walk s comps end
      else walk (c :: stack) comps
  end.

Definition plainComp (c : bytes) : Prop := c ≠ [] ∧ c ≠ bs "." ∧ c ≠ bs ".." ∧ c ≠ bs ".esync".

(** *** Lemmas *)
Lemma walk_plain stack comps : Forall plainComp comps → walk stack comps = Some (reverse stack ++ comps).
Proof.
  intros Hc. revert stack. induction Hc as [|c comps (Hne & H1 & H2 & _) Hcs IH]; intros stack; cbn [walk].
  { by rewrite app_nil_r. }
  rewrite !bool_decide_false, IH, reverse_cons, <- app_assoc by done. done.
Qed.

Lemma fieldsFunc_ne f s cur : Forall (λ c, c ≠ []) (fieldsFunc_go f s cur).
Proof.
  revert cur. induction s as [|c s IH]; intros cur; cbn [fieldsFunc_go].
  - by destruct cur; repeat constructor.
  - destruct (f c); [|done]. apply Forall_app. split; [by destruct cur; repeat constructor|done].
Qed.

Lemma fieldsFunc_chars f s cur c :
  Forall (λ b, f b = false) cur → c ∈ fieldsFunc_go f s cur → Forall (λ b, f b = false) c.
Proof.
  assert (Hfl : ∀ cur, Forall (λ b, f b = false) cur → c ∈ flush cur → Forall (λ b, f b = false) c).
  { intros [|b l] Hl Hin; [by apply elem_of_nil in Hin|]. by apply list_elem_of_singleton in Hin as ->. }
  revert cur. induction s as [|b s IH]; intros cur Hcur Hin; cbn [fieldsFunc_go] in Hin; [by eapply Hfl|].
  destruct (f b) eqn:E.
  - apply elem_of_app in Hin as [Hin|Hin]; [by eapply Hfl|]. eapply (IH []); [by apply Forall_nil|done].
  - eapply IH; [|done]. apply Forall_app. split; [done|]. by apply Forall_singleton.
Qed.


(** A slash field without a backslash is a field of the finer split. *)
Lemma fieldsFunc_refine f g s cur1 cur2 c :
  (∀ b, f b = true → g b = true) → (Forall (λ b, g b = false) cur1 → cur2 = cur1) →
  Forall (λ b, g b = false) c → c ∈ fieldsFunc_go f s cur1 → c ∈ fieldsFunc_go g s cur2.
Proof.
  intros Hfg. assert (Hfl : ∀ cur1 cur2, (Forall (λ b, g b = false) cur1 → cur2 = cur1) →
    Forall (λ b, g b = false) c → c ∈ flush cur1 → c ∈ flush cur2).
  { intros [|b l] k Hk Hc Hin; [by apply elem_of_nil in Hin|].
    apply list_elem_of_singleton in Hin as ->. rewrite Hk by done. by apply list_elem_of_singleton. }
  revert cur1 cur2. induction s as [|b s IH]; intros cur1 cur2 Hcur Hc Hin; cbn [fieldsFunc_go] in *; [by eapply Hfl|].
  destruct (f b) eqn:Ef.
  - rewrite (Hfg _ Ef). apply elem_of_app in Hin as [Hin|Hin]; apply elem_of_app; [left; by eapply Hfl|right].
    by eapply IH.
  - destruct (g b) eqn:Eg.
    + apply elem_of_app; right. eapply IH; [|done|exact Hin].
      intros [_ Hb%Forall_inv]%Forall_app. congruence.
    + eapply IH; [|done|exact Hin]. intros [H1 _]%Forall_app. by rewrite Hcur.
Qed.

Lemma fieldsFunc_nonempty f s cur : cur ≠ [] → fieldsFunc_go f s cur ≠ [].
Proof.
  revert cur. induction s as [|b s IH]; intros cur Hcur; cbn [fieldsFunc_go]; [by destruct cur|].
  destruct (f b); [by destruct cur|]. apply IH. by destruct cur.
Qed.

Definition compOk (plat : Platform) (c : bytes) : Prop :=
  c ≠ bs "." ∧ c ≠ bs ".." ∧ c ≠ bs ".esync" ∧
  (plat = PlatformWindows → isWindowsReserved c = false) ∧ Z.of_nat (length c) <= component (limitsFor plat).

Lemma validateComps_None p plat comps : validateComps p plat comps = None ↔ Forall (compOk plat) comps.
Proof.
  induction comps as [|c comps IH]; cbn [validateComps]; [split; [constructor|done]|].
  rewrite Forall_cons, <- IH. unfold compOk, reject, tooLong.
  destruct (bool_decide_reflect (c ∈ [bs "."; bs ".."])) as [Hd|Hd].
  { split; [done|]. intros [(? & ? & _) _]. by apply elem_of_cons in Hd as [?|?%list_elem_of_singleton]. }
  apply not_elem_of_cons in Hd as [Hd1 Hd2%not_elem_of_cons]. destruct Hd2 as [Hd2 _].
  destruct (bool_decide_reflect (c = bs ".esync")); [naive_solver|].
  destruct (bool_decide_reflect (plat = PlatformWindows)); cbn [andb]; [destruct (isWindowsReserved c); [naive_solver|]|];
    (destruct (Z.ltb_spec (component (limitsFor plat)) (Z.of_nat (length c)));
     [split; [done|intros [(_ & _ & _ & _ & ?) _]; lia]|naive_solver]).
Qed.

Lemma HasPrefix_1 c p : HasPrefix p [c] = match p with b :: _ => bool_decide (b = c) | [] => false end.
Proof.
  unfold HasPrefix. destruct p as [|b p]; [done|]. cbn [length take]. rewrite take_0.
  apply bool_decide_ext. split; [by intros [= ->]|by intros ->].
Qed.

Definition startsAbsolute (p : bytes) : bool := match p with b :: _ => isSep b | [] => true end.

Lemma ValidatePath_None p plat :
  ValidatePath p plat = None → startsAbsolute p = false ∧ (Byte.x00 ∉ p) ∧
  Forall (compOk plat) (FieldsFunc isSep p) ∧ Z.of_nat (length p) <= total (limitsFor plat).
Proof.
  unfold ValidatePath, reject, tooLong. destruct (bool_decide_reflect (p = [])); [done|].
  destruct (bool_decide_reflect (Byte.x00 ∈ p)); [done|]. destruct (HasPrefix p (bs "\\")); [done|].
  change (bs "/") with [c_slash]. change (bs "\") with [c_bslash]. rewrite !HasPrefix_1.
  destruct p as [|b p]; [done|]. unfold startsAbsolute, isSep.
  destruct (bool_decide (b = c_slash)); [done|]. destruct (bool_decide (b = c_bslash)); [done|]. cbn [orb].
  destruct (match p with d :: _ => bool_decide (d = byte_of_Z 58) && isASCIILetter b | [] => false end) eqn:E;
    [by destruct p; rewrite ?E|].
  replace (match b :: p with c :: d :: _ => bool_decide (d = byte_of_Z 58) && isASCIILetter c | _ => false end)
    with false by by destruct p. 
  destruct (validateComps _ _ _) eqn:Ev; [done|]. apply validateComps_None in Ev.
  destruct (Z.ltb_spec (total (limitsFor plat)) (Z.of_nat (length (b :: p)))); [done|]. naive_solver.
Qed.

Lemma fields_plain plat p f :
  (∀ b, f b = true → isSep b = true) → Forall (compOk plat) (FieldsFunc isSep p) → Forall plainComp (FieldsFunc f p).
Proof.
  intros Hf Hall. rewrite !Forall_forall in *. intros c Hc.
  assert (Hno : ∀ d, Forall (λ b, isSep b = false) d → ¬ compOk plat d → c ≠ d).
  { intros d Hd Hbad ->. apply Hbad, Hall. by eapply fieldsFunc_refine. }
  split; [|split_and!].
  - pose proof (fieldsFunc_ne f p []) as Hne. rewrite Forall_forall in Hne. by apply Hne.
  - apply Hno; [by repeat constructor|]. unfold compOk. naive_solver.
  - apply Hno; [by repeat constructor|]. unfold compOk. naive_solver.
  - apply Hno; [by repeat constructor|]. unfold compOk. naive_solver.
Qed.

(** C39: an accepted path is confined: on either separator convention its
    components are not empty, lexical resolution from the root never goes up
    (it returns the components themselves), no component is [.esync], and
    the NUL byte and the platform's length limits are respected. *)
Theorem ValidatePath_confined p plat :
  ValidatePath p plat = None →
  (∀ f, f = isSlash ∨ f = isSep →
     FieldsFunc f p ≠ [] ∧ walk [] (FieldsFunc f p) = Some (FieldsFunc f p) ∧ bs ".esync" ∉ FieldsFunc f p) ∧
  (Byte.x00 ∉ p) ∧ startsAbsolute p = false ∧
  Forall (λ c, Z.of_nat (length c) <= component (limitsFor plat)) (FieldsFunc isSep p) ∧
  Z.of_nat (length p) <= total (limitsFor plat).
Proof.
  intros (Habs & Hnul & Hall & Hlen)%ValidatePath_None. split_and!; try done.
  2:{ eapply Forall_impl; [exact Hall|]. unfold compOk. naive_solver. }
  intros f Hf. assert (Hsep : ∀ b, f b = true → isSep b = true).
  { intros b Hb. destruct Hf as [-> | ->]; [|done]. unfold isSlash in Hb. unfold isSep. by rewrite Hb. }
  pose proof (fields_plain plat p f Hsep Hall) as Hp. split_and!.
  - destruct p as [|b p]; [done|]. unfold startsAbsolute in Habs. unfold FieldsFunc. cbn [fieldsFunc_go].
    destruct (f b) eqn:E; [apply Hsep in E; congruence|]. by apply fieldsFunc_nonempty.
  - by rewrite walk_plain.
  - intros Hin. rewrite Forall_forall in Hp. by destruct (Hp _ Hin) as (_ & _ & _ & ?).
Qed.

Lemma validateComps_Some p plat comps e :
  validateComps p plat comps = Some e →
  GetCode e = E7010 ∧ IsRetryable e = false ∧ IsFatal (Some e) = false ∨
  GetCode e = E7014 ∧ IsRetryable e = false ∧ IsFatal (Some e) = false ∧
  ∃ c, c ∈ comps ∧ component (limitsFor plat) < Z.of_nat (length c).
Proof.
  induction comps as [|c comps IH]; cbn [validateComps]; [done|]. unfold reject, tooLong.
  destruct (bool_decide (c ∈ _)); [intros [= <-]; by left|].
  destruct (bool_decide (c = _)); [intros [= <-]; by left|].
  destruct (_ && isWindowsReserved c); [intros [= <-]; by left|].
  destruct (Z.ltb_spec (component (limitsFor plat)) (Z.of_nat (length c))).
  { intros [= <-]. right. split_and!; [done..|]. exists c. split; [by left|done]. }
  intros [?|(? & ? & ? & d & Hd & ?)]%IH; [by left|right]. split_and!; [done..|].
  exists d. split; [by right|done].
Qed.

(** Every rejection is a per-item, non-retryable error, E7010 or E7014, and
    E7014 only for a component or a path over the platform's limit. *)
Theorem ValidatePath_rejection p plat e :
  ValidatePath p plat = Some e →
  (GetCode e = E7010 ∨ GetCode e = E7014 ∧
     ((∃ c, c ∈ FieldsFunc isSep p ∧ component (limitsFor plat) < Z.of_nat (length c)) ∨
      total (limitsFor plat) < Z.of_nat (length p))) ∧
  IsRetryable e = false ∧ IsFatal (Some e) = false ∧ ExitCode (Some e) = 1.
Proof.
  assert (Hx : (GetCode e = E7010 ∨ GetCode e = E7014) → IsRetryable e = false → IsFatal (Some e) = false →
    (∃ c s m, e = fault c "validate path" s m) → ExitCode (Some e) = 1).
  { intros [Hc|Hc] _ _ (c & s & m & ->); rewrite GetCode_fault in Hc; subst; by vm_compute. }
  unfold ValidatePath, reject, tooLong.
  repeat match goal with
  | |- (if ?b then Some _ else _) = _ → _ =>
      destruct b; [intros [= <-]; split; [by left|]; split_and!; [done..|]; apply Hx; by eauto|]
  end.
  destruct (validateComps _ _ _) as [e'|] eqn:Ev.
  - intros [= ->]. assert (∃ c s m, e = fault c "validate path" s m).
    { clear Hx. revert Ev. induction (FieldsFunc isSep p) as [|c comps IH]; cbn [validateComps]; [done|].
      unfold reject, tooLong.
      repeat match goal with |- (if ?b then _ else _) = _ → _ => destruct b; [intros [= <-]; by eauto|] end. done. }
    apply validateComps_Some in Ev as [(? & ? & ?)|(? & ? & ? & c & ? & ?)]; split_and!; eauto 10.
  - destruct (Z.ltb_spec (total (limitsFor plat)) (Z.of_nat (length p))); [|done].
    intros [= <-]. split; [right; split; [done|by right]|]. split_and!; [done..|]. apply Hx; by eauto.
Qed.

(** *** Collisions *)
Definition cinv (c : Collisions) : Prop := ∀ e p, seen c !! e = Some p → effective c p = e.

Lemma Add_flags c p : caseInsensitive (Add c p).2 = caseInsensitive c ∧ normalise (Add c p).2 = normalise c.
Proof. unfold Add. repeat case_match; done. Qed.

Lemma effective_flags c c' p :
  caseInsensitive c' = caseInsensitive c → normalise c' = normalise c → effective c' p = effective c p.
Proof. unfold effective. by intros -> ->. Qed.

Lemma effective_Add c p q : effective (Add c p).2 q = effective c q.
Proof. by apply effective_flags; apply Add_flags. Qed.

Lemma Add_inv c p : cinv c → cinv (Add c p).2.
Proof.
  intros Hc e q. rewrite effective_Add. unfold Add.
  destruct (seen c !! effective c p) as [first|] eqn:E.
  - destruct (bool_decide_reflect (first = p)) as [->|]; cbn [negb snd seen]; [|apply Hc].
    intros [[<- <-]|[_ ?]]%lookup_insert_Some; [done|by apply Hc].
  - cbn [snd seen]. intros [[<- <-]|[_ ?]]%lookup_insert_Some; [done|by apply Hc].
Qed.

Lemma Add_spec c p :
  cinv c →
  ((Add c p).1 = None ↔ ∀ q, seen c !! effective c p = Some q → q = p) ∧
  ((Add c p).1 = None → ∀ e q, seen (Add c p).2 !! e = Some q ↔ (e = effective c p ∧ q = p) ∨ (e ≠ effective c p ∧ seen c !! e = Some q)) ∧
  ((Add c p).1 ≠ None → (Add c p).2 = c ∧ (Add c p).1 = Some (fault E7012 "destination name collision" p None)).
Proof.
  intros Hc. unfold Add.
  destruct (seen c !! effective c p) as [first|] eqn:E.
  - destruct (bool_decide_reflect (first = p)) as [->|]; cbn [negb fst snd seen].
    + split_and!; [naive_solver| |done]. intros _ e q. rewrite lookup_insert_Some. naive_solver.
    + split_and!; [naive_solver|done|done].
  - cbn [fst snd seen]. split_and!; [naive_solver| |done]. intros _ e q. rewrite lookup_insert_Some. naive_solver.
Qed.

(** The paths accepted so far occupy their effective names. *)
Definition accepted (c : Collisions) (p : bytes) : Prop := seen c !! effective c p = Some p.

(** What one path leaves: nothing seen is forgotten, and its name is taken. *)
Lemma Add_grows c x : cinv c →
  (∀ k q, seen c !! k = Some q → is_Some (seen (Add c x).2 !! k)) ∧
  is_Some (seen (Add c x).2 !! effective c x) ∧
  (∀ q, accepted (Add c x).2 q → accepted c q ∨ q = x).
Proof.
  intros Hc. pose proof (Add_spec c x Hc) as (H1 & H2 & H3). pose proof (effective_Add c x) as Heff.
  unfold accepted. setoid_rewrite Heff. destruct (Add c x) as [[e|] c1]; cbn [fst snd] in *.
  - destruct H3 as [-> _]; [done|]. split_and!; [by eauto| |by left].
    destruct (seen c !! effective c x) as [y|] eqn:E; [by eauto|]. exfalso. by assert (Some e = None) by (apply H1; naive_solver).
  - specialize (H2 eq_refl). split_and!.
    + intros k q Hk. destruct (decide (k = effective c x)) as [->|]; eexists; apply H2; [by left|by right].
    + eexists. apply H2. by left.
    + intros q [[_ ->]|[_ ?]]%H2; [by right|by left].
Qed.

Lemma AddAll_inv ps : ∀ c0, cinv c0 →
  let c := (AddAll c0 ps).2 in
  cinv c ∧ (∀ q, effective c q = effective c0 q) ∧
  (∀ q, accepted c q → accepted c0 q ∨ q ∈ ps) ∧
  (∀ e q, seen c0 !! e = Some q → is_Some (seen c !! e)) ∧
  (∀ q, q ∈ ps → is_Some (seen c !! effective c0 q)).
Proof.
  induction ps as [|x ps IH]; intros c0 Hc; cbn [AddAll].
  { split_and!; [done|done|by left|by eauto|by intros q Hq%elem_of_nil]. }
  pose proof (Add_inv c0 x Hc) as Hc1. pose proof (Add_grows c0 x Hc) as (Hg & Hx & Ha).
  pose proof (effective_Add c0 x) as Heff. destruct (Add c0 x) as [e c1]. cbn [fst snd] in *.
  specialize (IH c1 Hc1). destruct (AddAll c1 ps) as [es c]. cbn [snd] in *.
  destruct IH as (IH1 & IH2 & IH3 & IH4 & IH5). split_and!; [done|intros q; by rewrite IH2| | |].
  - intros q [Hq|Hq]%IH3; [|by right; right]. apply Ha in Hq as [?| ->]; [by left|right; by left].
  - intros k q Hk. destruct (Hg _ _ Hk) as [q' Hq']. by eapply IH4.
  - intros q [->|Hq]%elem_of_cons; [destruct Hx as [q' Hq']; by eapply IH4|]. rewrite <- Heff. by apply IH5.
Qed.

Lemma cinv_new plat : cinv (NewCollisions plat).
Proof. intros e q Hq. cbn in Hq. by rewrite lookup_empty in Hq. Qed.

(** Over any sequence of paths, a path is refused, with E7012, exactly when
    another path accepted before it has the same effective name; so all accepted
    paths have distinct effective names, and a refusal changes nothing. *)
Theorem collisions_exact plat ps p :
  let c := (AddAll (NewCollisions plat) ps).2 in
  ((Add c p).1 = None ∨ (Add c p).1 = Some (fault E7012 "destination name collision" p None) ∧ (Add c p).2 = c) ∧
  ((Add c p).1 ≠ None ↔ ∃ q, accepted c q ∧ q ≠ p ∧ effective c q = effective c p) ∧
  (∀ q1 q2, accepted c q1 → accepted c q2 → effective c q1 = effective c q2 → q1 = q2) ∧
  (∀ q, accepted c q → q ∈ ps) ∧
  (∀ q, q ∈ ps → ∃ q', accepted c q' ∧ effective c q' = effective c q).
Proof.
  pose proof (AddAll_inv ps _ (cinv_new plat)) as Hinv. cbv zeta in *.
  destruct (AddAll (NewCollisions plat) ps) as [es c]. cbn [snd] in *.
  destruct Hinv as (Hc & Heff & Hacc & _ & Hps). pose proof (Add_spec c p Hc) as (H1 & _ & H3).
  split_and!.
  - destruct ((Add c p).1) as [e|] eqn:E; [right; destruct H3 as [? ?]; [done|]; by split|by left].
  - rewrite H1. split.
    + intros Hn. destruct (seen c !! effective c p) as [q|] eqn:E; [|by destruct Hn; intros].
      exists q. pose proof (Hc _ _ E) as Hq. split_and!; [unfold accepted; by rewrite Hq|naive_solver|done].
    + intros (q & Hq & Hne & Heq) Hall. apply Hne, Hall. by rewrite <- Heq.
  - unfold accepted. intros q1 q2 Hq1 Hq2 Heq. rewrite Heq in Hq1. congruence.
  - intros q Hq. destruct (Hacc q Hq) as [Ha|]; [|done]. unfold accepted in Ha. cbn in Ha. by rewrite lookup_empty in Ha.
  - intros q Hq. destruct (Hps q Hq) as [q' Hq']. rewrite <- Heff in Hq'.
    pose proof (Hc _ _ Hq') as He. exists q'. unfold accepted. by rewrite He.
Qed.

End paths.

(** An instance for the witnesses: no normalisation and no case mapping beyond
    ASCII. *)
#[local] Instance ascii_unicode : Unicode := {| upperMap := id; lowerMap := id; normNFC := id |}.

Lemma ValidatePath_confined_witness :
  ValidatePath (bs "a//b\c") PlatformLinux = None ∧ bs ".esync" ∉ FieldsFunc isSlash (bs "a//b\c").
Proof.
  split; [by vm_compute|].
  apply (ValidatePath_confined (bs "a//b\c") PlatformLinux); [by vm_compute|by left].
Defined.

Lemma ValidatePath_rejection_witness :
  ∃ e, ValidatePath (bs "a/../b") PlatformLinux = Some e ∧ ExitCode (Some e) = 1.
Proof.
  destruct (ValidatePath (bs "a/../b") PlatformLinux) as [e|] eqn:E; [|by vm_compute in E].
  exists e. split; [done|]. by apply (ValidatePath_rejection (bs "a/../b") PlatformLinux).
Defined.

(** The reserved directory is matched case-sensitively, although the collision
    set treats Darwin and Windows destinations as case-insensitive: this path is
    accepted, and names the journal of such a destination. *)
Lemma reserved_name_case :
  ValidatePath (bs ".ESYNC/complete.log") PlatformDarwin = None ∧
  effective (NewCollisions PlatformDarwin) (bs ".ESYNC/complete.log") = bs ".esync/complete.log".
Proof. by vm_compute. Qed.
