(* ===== verification/Digest.v ===== *)
(** * Digest: content digests and the advisory digest cache (src/internal/digest)

    [Algo], [New], [Len] (algo.go), [HashFile] and [openFault] (hash.go), and the
    on-disk cache (cache.go): its record format, [load], [OpenCache], [Get],
    [Put] and [Close].  A streaming hash is the list of bytes written so far;
    MD5 and SHA-256 themselves are the class [HashFns]. *)
From S2P Require Import Prelude Fault Strconv HandshakeWire Record.

(** ** Algorithms *)
Abbreviation Algo := Z (only parsing).
Definition MD5 : Algo := 0.
Definition BLAKE3 : Algo := 1.
Definition SHA256 : Algo := 2.

Definition algoString (a : Algo) : bytes :=
  if a =? MD5 then bs "md5" else if a =? BLAKE3 then bs "blake3"
  else if a =? SHA256 then bs "sha256" else bs "unknown".

(** [Len]. *)
Definition digestLen (a : Algo) : nat :=
  if a =? MD5 then 16 else if (a =? BLAKE3) || (a =? SHA256) then 32 else 0.

Class HashFns := { md5 : bytes → bytes; sha256 : bytes → bytes }.
(** A [hash.Hash]: the algorithm and what was written to it. *)
Record Hash := mkHash { hAlgo : Algo; hWritten : bytes }.

Definition New (a : Algo) : result gerr Hash :=
  if a =? MD5 then Ok (mkHash MD5 [])
  else if a =? SHA256 then Ok (mkHash SHA256 [])
  else Err (fault E1007 "select hash algorithm" (algoString a) None).

Definition hashWrite (h : Hash) (p : bytes) : Hash := mkHash (hAlgo h) (hWritten h ++ p).

(** ** The cache *)
Definition cacheMagic : bytes := bs "esync digest cache v2" ++ [newline].
Definition keyLen : nat := 57.
Definition maxDigest : nat := 32.

Record CacheKey := mkKey {
  Dev : Z; Ino : Z; ckSize : Z; MtimeSec : Z; MtimeNsec : Z; CtimeSec : Z; CtimeNsec : Z; ckAlgo : Algo;
}.
#[global] Instance CacheKey_eq_dec : EqDecision CacheKey.
Proof. solve_decision. Defined.
#[global] Instance CacheKey_countable : Countable CacheKey.
Proof.
  refine (inj_countable'
    (λ k, (Dev k, Ino k, ckSize k, MtimeSec k, MtimeNsec k, CtimeSec k, CtimeNsec k, ckAlgo k))
    (λ '(a, b, c, d, e, f, g, h), mkKey a b c d e f g h) _). by intros [].
Defined.

Definition appendKey (k : CacheKey) : bytes :=
  be 8 (Dev k) ++ be 8 (Ino k) ++ be 8 (ckSize k) ++ be 8 (wrap_u 64 (MtimeSec k)) ++
  be 8 (wrap_u 64 (MtimeNsec k)) ++ be 8 (wrap_u 64 (CtimeSec k)) ++ be 8 (wrap_u 64 (CtimeNsec k)) ++
  be 1 (ckAlgo k).

Definition u64_at (i : nat) (b : bytes) : Z := unbe (slice i (i + 8) b).
Definition decodeKey (b : bytes) : CacheKey :=
  mkKey (u64_at 0 b) (u64_at 8 b) (u64_at 16 b) (wrap_i 64 (u64_at 24 b)) (wrap_i 64 (u64_at 32 b))
    (wrap_i 64 (u64_at 40 b)) (wrap_i 64 (u64_at 48 b)) (at_ 56 b).

(** [c.m], the append handle [c.f] (open or nil) and the file behind it ([None]:
    absent); [warned] is the one-time E8005 warning. *)
Record Cache := mkCache { m : gmap CacheKey bytes; f : bool; disk : option bytes; warned : bool }.

(** The bytes one [Put] appends. *)
Definition cacheRecord (k : CacheKey) (dg : bytes) : bytes :=
  let rec := appendKey k ++ be 1 (Z.of_nat (length dg)) ++ dg in
  rec ++ be 4 (crc32 IEEE rec).

(** The record loop of [load]: the map, and whether it warned. *)
Fixpoint loadLoop (fuel : nat) (p : bytes) (mp : gmap CacheKey bytes) : gmap CacheKey bytes * bool :=
  match fuel with
  | O => (mp, false)
  | S fuel =>
      if bool_decide (p = []) then (mp, false)
      else if (length p <? keyLen + 1)%nat then (mp, true)
      else
        let dl := Z.to_nat (at_ keyLen p) in
        let recLen := (keyLen + 1 + dl + 4)%nat in
        if (maxDigest <? dl)%nat || (length p <? recLen)%nat then (mp, true)
        else
          let want := unbe (slice (keyLen + 1 + dl) recLen p) in
          if negb (crc32 IEEE (take (keyLen + 1 + dl) p) =? want) then (mp, true)
          else loadLoop fuel (drop recLen p)
                 (<[decodeKey (take keyLen p) := slice (keyLen + 1) (keyLen + 1 + dl) p]> mp)
  end.

(** [load]: the map, the warning, and whether writing may be enabled.  [rerr] is a
    read error other than not-exist.  The record loop consumes at least one
    byte a turn, so the length of the data is enough fuel. *)
Definition load (rerr : bool) (data : option bytes) : gmap CacheKey bytes * bool * bool :=
  match data with
  | None => (∅, false, true)
  | Some data =>
      if rerr then (∅, true, false)
      else if (length data <? length cacheMagic)%nat || negb (bool_decide (take (length cacheMagic) data = cacheMagic))
      then (∅, true, false)
      else let p := drop (length cacheMagic) data in
           let '(mp, w) := loadLoop (length p) p ∅ in (mp, w, true)
  end.

(** [OpenCache]: [rerr]/[mkerr]/[operr] are failures of the file system;
    [hdr] is how much of the magic line reached a new file when writing it failed. *)
Definition OpenCache (rerr mkerr operr : bool) (hdr : option nat) (data : option bytes) : Cache :=
  let '(mp, w, ok) := load rerr data in
  if negb ok || mkerr || operr then mkCache mp false data w
  else if bool_decide (default [] data = []) then
    match hdr with
    | Some n => mkCache mp false (Some (take n cacheMagic)) w
    | None => mkCache mp true (Some cacheMagic) w
    end
  else mkCache mp true data w.

(** A nil cache is [None]. *)
Definition Get (c : option Cache) (key : CacheKey) : option bytes :=
  match c with None => None | Some c => m c !! key end.

(** [werr]: the write fails after that many bytes. *)
Definition Put (werr : option nat) (c : option Cache) (key : CacheKey) (dg : bytes) : option Cache :=
  match c with
  | None => None
  | Some c =>
      if bool_decide (dg = []) || (maxDigest <? length dg)%nat then Some c
      else if bool_decide (is_Some (m c !! key)) then Some c
      else
        let mp := <[key := dg]> (m c) in
        if negb (f c) then Some (mkCache mp false (disk c) (warned c))
        else
          let rec := cacheRecord key dg in
          match werr with
          | Some n => Some (mkCache mp false (Some (default [] (disk c) ++ take n rec)) (warned c))
          | None => Some (mkCache mp true (Some (default [] (disk c) ++ rec)) (warned c))
          end
  end.

Definition CloseCache (c : option Cache) : option Cache :=
  match c with Some c => Some (mkCache (m c) false (disk c) (warned c)) | None => None end.

(** ** Hashing a file *)
Definition openFault (path : bytes) (e : stdErr) : gerr :=
  EFault (match e with
          | StdNotExist => Wrap E6002 "open source file" path (EStd e)
          | StdPermission => Wrap E6001 "open source file" path (EStd e)
          | _ => Wrap E6004 "open source file" path (EStd e)
          end).

(** One turn of the read loop: the context is done, or [Read] returns bytes with
    or without an error other than [io.EOF].  The end of the list is [io.EOF]. *)
Inductive readEvent := RdCancel (e : stdErr) | RdData (p : bytes) | RdFail (p : bytes) (e : stdErr).

Fixpoint readLoop (path : bytes) (h : Hash) (reads : list readEvent) : result gerr Hash :=
  match reads with
  | [] => Ok h
  | RdCancel e :: _ => Err (EFault (Wrap E6004 "hash source file" path (EStd e)))
  | RdData p :: reads => readLoop path (hashWrite h p) reads
  | RdFail p e :: _ => Err (EFault (Wrap E6004 "read source file" path (EStd e)))
  end.

Section hashing.
Context `{HashFns}.

(** [h.Sum(nil)]. *)
Definition Sum (h : Hash) : bytes := if hAlgo h =? MD5 then md5 (hWritten h) else sha256 (hWritten h).
(** The digest of a whole content. *)
Definition hashOf (a : Algo) (content : bytes) : bytes := Sum (mkHash a content).

(** [key] is [statKey(fi, algo)]: [None] where the platform has no stat. *)
Definition HashFile (path : bytes) (algo : Algo) (opened stat : option stdErr) (key : option CacheKey)
    (reads : list readEvent) (werr : option nat) (cache : option Cache) : result gerr bytes * option Cache :=
  match New algo with
  | Err e => (Err e, cache)
  | Ok h =>
  match opened with
  | Some e => (Err (openFault path e), cache)
  | None =>
  match stat with
  | Some e => (Err (EFault (Wrap E6004 "stat source file" path (EStd e))), cache)
  | None =>
      let haveKey := match cache with Some _ => key | None => None end in
      match haveKey ≫= Get cache with
      | Some d => (Ok d, cache)
      | None =>
          match readLoop path h reads with
          | Err e => (Err e, cache)
          | Ok h =>
              let sum := Sum h in
              (Ok sum, match haveKey with Some k => Put werr cache k sum | None => cache end)
          end
      end
  end end end.

End hashing.

(** ** The record codec *)
Definition keyOk (k : CacheKey) : Prop :=
  in_u 64 (Dev k) ∧ in_u 64 (Ino k) ∧ in_u 64 (ckSize k) ∧ in_i 64 (MtimeSec k) ∧
  in_i 64 (MtimeNsec k) ∧ in_i 64 (CtimeSec k) ∧ in_i 64 (CtimeNsec k) ∧ in_u 8 (ckAlgo k).
Definition digestOk (d : bytes) : Prop := (0 < length d <= maxDigest)%nat.
Definition entryOk (e : CacheKey * bytes) : Prop := keyOk e.1 ∧ digestOk e.2.

Lemma length_appendKey k : length (appendKey k) = keyLen.
Proof. unfold appendKey. by autorewrite with esync_len. Qed.

Lemma u64_here z c : in_u 64 z → u64_at 0 (be 8 z ++ c) = z.
Proof. intros Hz. unfold u64_at. rewrite slice_here by (by rewrite length_be). by apply unbe_be_id. Qed.
Lemma u64_skip (a c : bytes) p : (length a <= p)%nat → u64_at p (a ++ c) = u64_at (p - length a) c.
Proof. intros Hp. unfold u64_at. rewrite slice_skip by lia. by replace (p + 8 - length a)%nat with (p - length a + 8)%nat by lia. Qed.

Ltac u64_field := repeat (rewrite u64_skip by (rewrite ?length_be; lia)); rewrite ?length_be; cbn [Nat.sub];
  first [rewrite u64_here by done|rewrite u64_here by (apply wrap_u_range; lia); rewrite wrap_i_u by (done || lia)]; done.

Lemma decodeKey_appendKey k : keyOk k → decodeKey (appendKey k) = k.
Proof.
  intros (H1 & H2 & H3 & H4 & H5 & H6 & H7 & H8). unfold decodeKey, appendKey. destruct k; cbn in *. f_equal.
  all: try u64_field.
  repeat (rewrite at_skip by (rewrite ?length_be; lia)); rewrite ?length_be; cbn [Nat.sub].
  unfold at_. rewrite <- (app_nil_r (be 1 _)), slice_here by (by rewrite length_be). by apply unbe_be_id.
Qed.

Lemma length_cacheRecord k d : length (cacheRecord k d) = (keyLen + 1 + length d + 4)%nat.
Proof. unfold cacheRecord. cbn zeta. rewrite !length_app, length_appendKey, !length_be. lia. Qed.

(** What the loop reads at the head of a prefix of a record. *)
Lemma record_head k d p rest :
  digestOk d → p `prefix_of` cacheRecord k d ++ rest → (keyLen + 1 <= length p)%nat → Z.to_nat (at_ keyLen p) = length d.
Proof.
  intros Hd [q Hq] Hlen. assert (at_ keyLen p = at_ keyLen (cacheRecord k d ++ rest)) as ->.
  { rewrite Hq. unfold at_, slice. f_equal. rewrite drop_app_le, take_app_le; [done| |lia]. rewrite length_drop. lia. }
  unfold cacheRecord. cbn zeta. rewrite <- !app_assoc, at_skip by by rewrite length_appendKey.
  rewrite length_appendKey, Nat.sub_diag. unfold at_. rewrite slice_here by by rewrite length_be.
  rewrite unbe_be_id by (unfold digestOk, maxDigest in Hd; unfold in_u; lia). lia.
Qed.

Lemma load_record k d rest fuel mp :
  keyOk k → digestOk d → loadLoop (S fuel) (cacheRecord k d ++ rest) mp = loadLoop fuel rest (<[k:=d]> mp).
Proof.
  intros Hk Hd. cbn [loadLoop].
  assert (Hl : (length (cacheRecord k d ++ rest) = keyLen + 1 + length d + 4 + length rest)%nat).
  { rewrite length_app, length_cacheRecord. lia. }
  rewrite bool_decide_false; [|intros E; rewrite E in Hl; simpl in Hl; lia].
  rewrite (proj2 (Nat.ltb_ge _ _)) by lia.
  rewrite (record_head k d _ rest) by (done || lia).
  rewrite (proj2 (Nat.ltb_ge _ _)) by (unfold digestOk in Hd; lia).
  rewrite (proj2 (Nat.ltb_ge _ _)) by lia. cbn [orb].
  set (rec := appendKey k ++ be 1 (Z.of_nat (length d)) ++ d).
  assert (Hrec : length rec = (keyLen + 1 + length d)%nat).
  { unfold rec. rewrite !length_app, length_appendKey, length_be. lia. }
  assert (HE : cacheRecord k d ++ rest = rec ++ be 4 (crc32 IEEE rec) ++ rest).
  { unfold cacheRecord. cbn zeta. fold rec. by rewrite <- app_assoc. }
  rewrite HE. clear HE. unfold slice.
  rewrite (drop_app_length' rec), (take_app_length' rec) by done.
  replace (keyLen + 1 + length d + 4 - (keyLen + 1 + length d))%nat with 4%nat by lia.
  rewrite take_app_length' by by rewrite length_be.
  rewrite unbe_be_id by (apply crc32_range; by vm_compute). rewrite Z.eqb_refl. cbn [negb].
  rewrite (app_assoc rec), drop_app_length' by (rewrite length_app, Hrec, length_be; lia). f_equal. f_equal.
  - rewrite <- app_assoc. rewrite take_app_le by lia. unfold rec. rewrite take_app_length' by by rewrite length_appendKey.
    by apply decodeKey_appendKey.
  - rewrite <- app_assoc. replace (keyLen + 1 + length d - (keyLen + 1))%nat with (length d) by lia.
    unfold rec. rewrite (app_assoc (appendKey k)), <- app_assoc.
    rewrite drop_app_length' by (rewrite length_app, length_appendKey, length_be; lia). apply take_app_length.
Qed.

(** A record that is cut short ends the loop. *)
Lemma load_torn k d p fuel mp :
  digestOk d → p `prefix_of` cacheRecord k d → p ≠ cacheRecord k d →
  (loadLoop fuel p mp).1 = mp.
Proof.
  intros Hd Hp Hne. assert (Hlt : (length p < length (cacheRecord k d))%nat).
  { destruct Hp as [[|c q] E]; [by rewrite app_nil_r in E|]. rewrite E, length_app. simpl. lia. }
  destruct fuel as [|fuel]; cbn [loadLoop]; [done|]. destruct (bool_decide (p = [])); [done|].
  destruct (Nat.ltb_spec (length p) (keyLen + 1)) as [|Hlen]; [done|].
  rewrite (record_head k d p []) by (rewrite ?app_nil_r; done). rewrite length_cacheRecord in Hlt.
  rewrite (proj2 (Nat.ltb_lt (length p) _)) by lia. by rewrite orb_true_r.
Qed.

Definition recordsOf (es : list (CacheKey * bytes)) : bytes := mjoin ((λ e, cacheRecord e.1 e.2) <$> es).
Definition entries (mp : gmap CacheKey bytes) (es : list (CacheKey * bytes)) : gmap CacheKey bytes :=
  foldl (λ acc e, <[e.1 := e.2]> acc) mp es.

Lemma recordsOf_cons e es : recordsOf (e :: es) = cacheRecord e.1 e.2 ++ recordsOf es.
Proof. apply mjoin_cons. Qed.
Lemma recordsOf_app es es' : recordsOf (es ++ es') = recordsOf es ++ recordsOf es'.
Proof. unfold recordsOf. by rewrite fmap_app, join_app. Qed.

Lemma load_prefix es p fuel mp :
  Forall entryOk es → p `prefix_of` recordsOf es → (length p <= fuel)%nat →
  ∃ k, (k <= length es)%nat ∧ (loadLoop fuel p mp).1 = entries mp (take k es) ∧
       ∀ i, (i <= length es)%nat → (i <= k ↔ length (recordsOf (take i es)) <= length p)%nat.
Proof.
  intros Hes. revert p fuel mp. induction Hes as [|[key d] es [Hk Hd] Hes IH]; intros p fuel mp Hp Hf.
  { apply prefix_nil_inv in Hp as ->. exists 0%nat. split_and!; [done|by destruct fuel|].
    intros i Hi. rewrite take_nil. split; [simpl; lia|]. simpl in Hi. lia. }
  cbn [fst snd] in Hk, Hd. rewrite recordsOf_cons in Hp. cbn [fst snd] in Hp.
  assert (Hl : ∀ i, length (recordsOf (take (S i) ((key, d) :: es))) = (length (cacheRecord key d) + length (recordsOf (take i es)))%nat).
  { intros i. cbn [take]. by rewrite recordsOf_cons, length_app. }
  assert (Hdec : p `prefix_of` cacheRecord key d ∧ p ≠ cacheRecord key d ∨
                 ∃ p', p = cacheRecord key d ++ p' ∧ p' `prefix_of` recordsOf es).
  { apply prefix_app_cases in Hp as [Hp|(p' & -> & Hp')]; [|right; by eauto].
    destruct (decide (p = cacheRecord key d)) as [->|]; [|by left].
    right. exists []. split; [by rewrite app_nil_r|apply prefix_nil]. }
  destruct Hdec as [[Hp' Hne]|(p' & -> & Hp')].
  - exists 0%nat. split_and!; [lia|by eapply load_torn|]. intros [|i] Hi; [simpl; lia|]. rewrite Hl.
    assert (length p < length (cacheRecord key d))%nat; [|lia].
    destruct Hp' as [[|c q] E]; [by rewrite app_nil_r in E|]. rewrite E, length_app. simpl. lia.
  - rewrite length_app in Hf. rewrite length_cacheRecord in Hf. destruct fuel as [|fuel]; [lia|].
    rewrite load_record by done.
    destruct (IH p' fuel (<[key:=d]> mp) Hp' ltac:(lia)) as (k & Hk' & HL & Hi).
    exists (S k). split_and!; [simpl; lia|done|]. intros [|i] Hi'; [simpl; lia|].
    rewrite Hl, length_app. specialize (Hi i). simpl in Hi'. lia.
Qed.

(** ** Filling a cache *)
Definition PutAll (c : option Cache) (es : list (CacheKey * bytes)) : option Cache :=
  foldl (λ c e, Put None c e.1 e.2) c es.

Lemma PutAll_disk mp data w es :
  Forall entryOk es → NoDup es.*1 → (∀ e, e ∈ es → mp !! e.1 = None) →
  PutAll (Some (mkCache mp true (Some data) w)) es =
    Some (mkCache (entries mp es) true (Some (data ++ recordsOf es)) w).
Proof.
  intros Hes. revert mp data. induction Hes as [|[key d] es [Hk Hd] Hes IH]; intros mp data Hnd Hmiss.
  { unfold PutAll. cbn [foldl]. change (recordsOf []) with (@nil byte). by rewrite app_nil_r. }
  rewrite recordsOf_cons, app_assoc. unfold PutAll, entries in *. cbn [foldl fst snd].
  cbn [fmap list_fmap fst] in Hnd. apply list.NoDup_cons in Hnd as [Hni Hnd].
  unfold Put at 2. cbn [m f disk warned]. unfold digestOk in Hd. cbn [snd] in Hd.
  rewrite bool_decide_false by (intros ->; simpl in Hd; lia).
  rewrite (proj2 (Nat.ltb_ge _ _)) by lia. cbn [orb].
  pose proof (Hmiss (key, d) ltac:(by left)) as Hm. cbn [fst] in Hm.
  rewrite bool_decide_false by (rewrite Hm; by intros [? ?]).
  cbn [negb default from_option id]. apply IH; [done|].
  intros e He. rewrite lookup_insert_ne; [apply Hmiss; by right|].
  intros Heq. apply Hni. rewrite Heq. apply list_elem_of_fmap. by exists e.
Qed.

Lemma entries_lookup mp es key d :
  NoDup es.*1 → entries mp es !! key = Some d ↔ (key, d) ∈ es ∨ ((key ∉ es.*1) ∧ mp !! key = Some d).
Proof.
  revert mp. induction es as [|[k' d'] es IH]; intros mp Hnd.
  { unfold entries. cbn. rewrite !elem_of_nil. naive_solver. }
  cbn [fmap list_fmap fst] in *. apply list.NoDup_cons in Hnd as [Hni Hnd].
  unfold entries in *. cbn [foldl fst snd]. rewrite IH by done.
  rewrite lookup_insert_Some, !elem_of_cons.
  assert (∀ d, (key, d) ∈ es → key ∈ es.*1) by (intros d0 ?; apply list_elem_of_fmap; by exists (key, d0)).
  split.
  - intros [?|(? & [[-> ->]|[? ?]])]; [by left; right|by left; left|right]. split; [|done].
    intros [?|?]; congruence.
  - intros [[[= -> ->]|?]|[Hn ?]]; [right; split; [done|by left]|by left|right].
    split; [tauto|right; split; [|done]]. intros ->. apply Hn. by left.
Qed.

(** The digest cache of a fresh run. *)
Definition newCache : Cache := OpenCache false false false None None.

(** A cache file cut at any byte reopens with exactly the digests whose
    records are complete: every hit is a digest that was stored for that very
    key, none that was completely written is lost, and a file without its whole
    header is left alone (empty cache, writing disabled). *)
Theorem cache_survives_crash es p :
  Forall entryOk es → NoDup es.*1 → p `prefix_of` default [] (PutAll (Some newCache) es ≫= disk) →
  let c := OpenCache false false false None (Some p) in
  ∃ k, (k <= length es)%nat ∧
    (∀ key d, Get (Some c) key = Some d ↔ (key, d) ∈ take k es) ∧
    (length cacheMagic <= length p →
       ∀ i, i <= length es → (i <= k ↔ length cacheMagic + length (recordsOf (take i es)) <= length p))%nat ∧
    (f c = true ↔ length cacheMagic <= length p)%nat.
Proof.
  intros Hes Hnd Hp. change newCache with (mkCache ∅ true (Some cacheMagic) false) in Hp.
  rewrite PutAll_disk in Hp by (try done; intros; apply lookup_empty).
  cbn [mbind option_bind disk default from_option id] in Hp. cbv zeta.
  assert (Hdup : ∀ k, NoDup (take k es).*1).
  { intros k. rewrite <- (take_drop k es), fmap_app in Hnd. by apply list.NoDup_app in Hnd as (? & _). }
  unfold OpenCache, load. cbn [Get default from_option id].
  destruct (Nat.ltb_spec (length p) (length cacheMagic)) as [Hlt|Hge]; cbn [orb negb].
  - exists 0%nat. split_and!; [lia| |lia|].
    + intros key d. cbn [m take]. rewrite lookup_empty, elem_of_nil. naive_solver.
    + cbn [f]. split; [done|lia].
  - assert (∃ p', p = cacheMagic ++ p' ∧ p' `prefix_of` recordsOf es) as (p' & Hpp & Hp').
    { apply prefix_app_cases in Hp as [[q Hq]|?]; [|done]. exists []. split; [|apply prefix_nil].
      rewrite app_nil_r. apply (f_equal length) in Hq as Hl. rewrite length_app in Hl.
      destruct q; [by rewrite app_nil_r in Hq|]. cbn [length] in Hl. lia. }
    assert (Hhd : take (length cacheMagic) p = cacheMagic) by (rewrite Hpp; apply take_app_length).
    rewrite bool_decide_true by done. cbn [negb orb].
    assert (Hdrop : drop (length cacheMagic) p = p') by (rewrite Hpp; apply drop_app_length).
    destruct (load_prefix es (drop (length cacheMagic) p) (length (drop (length cacheMagic) p)) ∅ Hes)
      as (k & Hk & HL & Hi).
    { by rewrite Hdrop. }
    { done. }
    destruct (loadLoop _ _ _) as [mp w]. cbn [fst] in HL. subst mp. cbn [negb orb].
    assert (Hne : p ≠ []) by (intros ->; simpl in Hge; lia). rewrite bool_decide_false by done. cbn [m f].
    exists k. split_and!; [done| | |].
    + intros key d. rewrite entries_lookup by done. rewrite lookup_empty. naive_solver.
    + intros _ i Hi'. rewrite (Hi i Hi'), length_drop. lia.
    + done.
Qed.

(** ** Cached hashing is transparent *)
Section transparent.
Context `{HashFns} (version : CacheKey → bytes).

(** Every cached digest is the digest of that version of the file. *)
Definition coherent (c : option Cache) : Prop :=
  ∀ k d, Get c k = Some d → d = hashOf (ckAlgo k) (version k).

Lemma readLoop_data path h chunks : readLoop path h (RdData <$> chunks) = Ok (mkHash (hAlgo h) (hWritten h ++ mjoin chunks)).
Proof.
  revert h. induction chunks as [|p chunks IH]; intros h; cbn [fmap list_fmap readLoop].
  { destruct h. cbn. by rewrite app_nil_r. }
  rewrite IH, mjoin_cons. unfold hashWrite. cbn [hAlgo hWritten]. by rewrite app_assoc.
Qed.

Lemma readLoop_err path h reads e : readLoop path h reads = Err e → GetCode e = E6004.
Proof.
  revert h. induction reads as [|[e'|p|p e'] reads IH]; intros h; cbn [readLoop]; [done| |by apply IH|];
    by intros [= <-].
Qed.

Lemma Put_coherent werr c k :
  coherent c → coherent (Put werr c k (hashOf (ckAlgo k) (version k))).
Proof.
  intros Hc k' d'. destruct c as [c|]; [|done]. unfold Put. specialize (Hc k' d'). cbn [Get] in Hc.
  destruct (_ || _); [done|]. destruct (bool_decide _); [done|].
  destruct (f c); [destruct werr|]; cbn [Get m negb]; intros [[<- <-]|[_ ?]]%lookup_insert_Some; auto.
Qed.

Lemma New_ok algo h : New algo = Ok h → h = mkHash algo [].
Proof.
  unfold New. destruct (Z.eqb_spec algo MD5) as [->|]; [by intros [= <-]|].
  by destruct (Z.eqb_spec algo SHA256) as [->|]; [intros [= <-]|].
Qed.

(** A digest that comes back is the digest of the content, cached or not. *)
Lemma HashFile_value path algo opened stat key chunks werr cache d cache' :
  coherent cache → (∀ k, key = Some k → ckAlgo k = algo ∧ mjoin chunks = version k) →
  HashFile path algo opened stat key (RdData <$> chunks) werr cache = (Ok d, cache') →
  d = hashOf algo (mjoin chunks) ∧ coherent cache'.
Proof.
  intros Hc Hkey. unfold HashFile. destruct (New algo) as [h|e] eqn:En; [|done]. apply New_ok in En as ->.
  destruct opened; [done|]. destruct stat; [done|].
  set (haveKey := match cache with Some _ => key | None => None end).
  assert (Hhave : ∀ k, haveKey = Some k → ckAlgo k = algo ∧ mjoin chunks = version k).
  { unfold haveKey. destruct cache; [|done]. intros k Hk. by auto. }
  destruct (haveKey ≫= Get cache) as [d0|] eqn:Eg.
  - destruct haveKey as [k|]; [|done]. cbn in Eg. destruct (Hhave k eq_refl) as [Ha ->]. intros [= <- <-].
    by rewrite (Hc k d0 Eg), Ha.
  - rewrite readLoop_data. intros [= <- <-]. cbn [hAlgo hWritten app]. split; [done|].
    destruct haveKey as [k|]; [|done]. destruct (Hhave k eq_refl) as [Ha ->].
    change (Sum (mkHash algo (version k))) with (hashOf algo (version k)). rewrite <- Ha. by apply Put_coherent.
Qed.

(** With a coherent cache, hashing a file returns the digest of its content
    whether or not the cache answers, and leaves the cache coherent, also when
    the cache file cannot be written; a failed read is E6004, an unsupported
    algorithm E1007, and an error leaves the cache as it was. *)
Theorem HashFile_transparent path algo opened stat key reads werr cache :
  coherent cache → (∀ k, key = Some k → ckAlgo k = algo) →
  let '(r, cache') := HashFile path algo opened stat key reads werr cache in
  (∀ chunks d, reads = RdData <$> chunks → (∀ k, key = Some k → mjoin chunks = version k) →
     r = Ok d → d = hashOf algo (mjoin chunks) ∧ coherent cache') ∧
  (∀ chunks, reads = RdData <$> chunks → algo = MD5 ∨ algo = SHA256 → opened = None → stat = None → is_ok r = true) ∧
  (∀ e, r = Err e → cache' = cache ∧
     (GetCode e = E1007 ∧ algo ≠ MD5 ∧ algo ≠ SHA256 ∨
      GetCode e = E6002 ∧ opened = Some StdNotExist ∨ GetCode e = E6001 ∧ opened = Some StdPermission ∨
      GetCode e = E6004)).
Proof.
  intros Hc Hkey. destruct (HashFile _ _ _ _ _ _ _ _) as [r cache'] eqn:E. split_and!.
  { intros chunks d -> Hv ->. eapply HashFile_value; [exact Hc| |exact E]. intros k Hk. auto. }
  all: unfold HashFile in E; destruct (New algo) as [h|e] eqn:En.
  2,4: unfold New in En; destruct (Z.eqb_spec algo MD5); [done|]; destruct (Z.eqb_spec algo SHA256); [done|].
  - intros chunks -> _ -> ->. destruct (_ ≫= Get cache); [by injection E as <- _|].
    rewrite readLoop_data in E. by injection E as <- _.
  - intros ? _ [?|?]; done.
  - injection En as <-. injection E as <- <-. intros e [= <-]. split; [done|by left].
  - destruct opened as [e|].
    { injection E as <- <-. intros e' [= <-]. split; [done|]. right. destruct e; naive_solver. }
    destruct stat as [e|]; [injection E as <- <-; intros e' [= <-]; split; [done|by right; right; right]|].
    destruct (_ ≫= Get cache); [by injection E as <- _|].
    destruct (readLoop path h reads) as [h'|e] eqn:Er; [by injection E as <- _|].
    injection E as <- <-. intros e' [= <-]. apply readLoop_err in Er. split; [done|by right; right; right].
Qed.
End transparent.

(** ** Concrete inputs *)
#[local] Instance toy_hash : HashFns := {| md5 c := take 16 (c ++ replicate 16 Byte.x00); sha256 c := take 32 (c ++ replicate 32 Byte.x00) |}.
Definition ex_key (i : Z) : CacheKey := mkKey 1 i 3 100 5 (-7) 9 MD5.
Definition ex_cached : list (CacheKey * bytes) := [(ex_key 1, bs "0123456789abcdef"); (ex_key 2, bs "fedcba9876543210")].

Lemma cache_survives_crash_witness :
  let c := OpenCache false false false None (Some (take 110 (cacheMagic ++ recordsOf ex_cached))) in
  Forall entryOk ex_cached ∧ Get (Some c) (ex_key 1) = Some (bs "0123456789abcdef").
Proof.
  assert (He : Forall entryOk ex_cached) by (repeat constructor; vm_compute; done).
  split; [exact He|].
  destruct (cache_survives_crash ex_cached (take 110 (cacheMagic ++ recordsOf ex_cached)) He) as (k & Hk & HG & Hi & _).
  - refine (bool_decide_eq_true_1 (NoDup _) _). by vm_compute.
  - exists (drop 110 (cacheMagic ++ recordsOf ex_cached)). by vm_compute.
  - apply HG. destruct (Hi ltac:(vm_compute; lia) 1%nat ltac:(vm_compute; lia)) as [_ H1].
    specialize (H1 ltac:(vm_compute; lia)). destruct k as [|k]; [lia|]. by left.
Defined.

Lemma HashFile_transparent_witness :
  let '(r, c) := HashFile (bs "f") MD5 None None (Some (ex_key 1)) [RdData (bs "ab"); RdData (bs "c")] None (Some newCache) in
  ∀ d, r = Ok d → d = hashOf MD5 (bs "abc").
Proof.
  pose proof (HashFile_transparent (λ _, bs "abc") (bs "f") MD5 None None (Some (ex_key 1))
    [RdData (bs "ab"); RdData (bs "c")] None (Some newCache)) as H.
  destruct (HashFile _ _ _ _ _ _ _ _) as [r c]. intros d Hd.
  destruct H as [H _]; [intros k d' E; cbn in E; by rewrite lookup_empty in E|intros k [= <-]; done|].
  by apply (H [bs "ab"; bs "c"] d).
Defined.

(** A torn tail is not cut off when the cache is reopened for appending: records
    stored after it are never read back. *)
Lemma cache_append_after_torn_tail_lost :
  let c1 := OpenCache false false false None (Some (take 40 (cacheMagic ++ recordsOf ex_cached))) in
  let c2 := Put None (Some c1) (ex_key 3) (bs "x") in
  Get c2 (ex_key 3) = Some (bs "x") ∧
  ∀ d, (c2 ≫= disk) = Some d → Get (Some (OpenCache false false false None (Some d))) (ex_key 3) = None.
Proof. split; [by vm_compute|]. intros d E. vm_compute in E. injection E as <-. by vm_compute. Qed.
