(* ===== verification/Tracker.v ===== *)
(** * Tracker: the sender's shared state (src/internal/sender/state.go)

    [digestStore], [creditGate] and [tracker], the accounting that decides when a
    session is over.  Each Go method holds the mutex from entry to exit, so a
    run is a sequence of method calls; [wait]'s select loop is a function of the
    schedule of its wake-ups.  A closed channel is a boolean. *)
From S2P Require Import Prelude Fault Strconv Codec Wire Digest.

(** ** digestStore *)
Module digestStore.
Definition t : Type := gmap Z bytes.
Definition new : t := ∅.
Definition set (id : Z) (dg : bytes) (d : t) : t := <[id := dg]> d.
(** [get], whose nil slice on a miss is [[]]. *)
Definition get (id : Z) (d : t) : bytes * bool :=
  match d !! id with Some dg => (dg, true) | None => ([], false) end.
End digestStore.

(** ** tracker *)
Record tracker := mkTracker {
  totalGroups : Z; groupFirst : list Z; fileGroup : gmap Z Z; groupsDecided : Z;
  decidedSet : gset Z; needed : gset Z; resolved : gset Z; reqToFile : gmap Z Z;
  inflight : Z; completed : list Z; completedSet : gset Z; failedSet : gset Z;
  bytesTotal : Z; skippedCount : Z; rejectedCount : Z;
  decidedDone : bool;   (** allDecidedCh is closed *)
  doneClosed : bool;    (** doneCh is closed *)
  progress : Z;
}.

Definition reevalLocked (t : tracker) : tracker :=
  let dd := decidedDone t || (totalGroups t <=? groupsDecided t) in
  let dc :=
    doneClosed t ||
    (negb ((groupsDecided t <? totalGroups t) || (0 <? inflight t)) &&
     bool_decide (needed t ⊆ resolved t)) in
  mkTracker (totalGroups t) (groupFirst t) (fileGroup t) (groupsDecided t) (decidedSet t) (needed t)
    (resolved t) (reqToFile t) (inflight t) (completed t) (completedSet t) (failedSet t) (bytesTotal t)
    (skippedCount t) (rejectedCount t) dd dc (progress t).

Definition newTracker (groupFirst : list Z) : tracker :=
  reevalLocked (mkTracker (Z.of_nat (length groupFirst)) groupFirst ∅ 0 ∅ ∅ ∅ ∅ 0 [] ∅ ∅ 0 0 0 false false 0).

Definition groupSubject (g : Z) : bytes := bs "group " ++ FormatInt g 10.

Definition decision (v : GroupDecision.t) (t : tracker) : option gerr * tracker :=
  let g := GroupDecision.GroupID v in
  match groupFirst t !! Z.to_nat g with
  | None => (Some (fault E5001 "group decision" (groupSubject g) None), t)
  | Some first =>
      if bool_decide (g ∈ decidedSet t) then (Some (fault E5009 "group decision" (groupSubject g) None), t)
      else
        let fids := (λ idx, wrap_u 64 (first + idx)) <$> GroupDecision.Needed v in
        (None, reevalLocked (mkTracker (totalGroups t) (groupFirst t)
          (foldl (λ fg fid, <[fid := g]> fg) (fileGroup t) fids) (groupsDecided t + 1)
          ({[g]} ∪ decidedSet t) (needed t ∪ list_to_set fids)
          (resolved t) (reqToFile t) (inflight t) (completed t) (completedSet t) (failedSet t) (bytesTotal t)
          (wrap_u 64 (skippedCount t + GroupDecision.SkippedCount v))
          (wrap_u 64 (rejectedCount t + Z.of_nat (length (GroupDecision.Rejected v))))
          (decidedDone t) (doneClosed t) (progress t)))
  end.

Definition bump (t : tracker) : tracker :=
  mkTracker (totalGroups t) (groupFirst t) (fileGroup t) (groupsDecided t) (decidedSet t) (needed t)
    (resolved t) (reqToFile t) (inflight t) (completed t) (completedSet t) (failedSet t) (bytesTotal t)
    (skippedCount t) (rejectedCount t) (decidedDone t) (doneClosed t) (wrap_u 64 (progress t + 1)).

Definition reqStarted (reqID fileID : Z) (t : tracker) : tracker :=
  bump (mkTracker (totalGroups t) (groupFirst t) (fileGroup t) (groupsDecided t) (decidedSet t) (needed t)
    (resolved t) (<[reqID := fileID]> (reqToFile t)) (inflight t + 1) (completed t) (completedSet t)
    (failedSet t) (bytesTotal t) (skippedCount t) (rejectedCount t) (decidedDone t) (doneClosed t) (progress t)).

Definition finishLocked (reqID : Z) (resolve : bool) (t : tracker) : tracker :=
  match reqToFile t !! reqID with
  | None => t
  | Some fid =>
      mkTracker (totalGroups t) (groupFirst t) (fileGroup t) (groupsDecided t) (decidedSet t) (needed t)
        (if resolve then {[fid]} ∪ resolved t else resolved t) (delete reqID (reqToFile t)) (inflight t - 1)
        (completed t) (completedSet t) (failedSet t) (bytesTotal t) (skippedCount t) (rejectedCount t)
        (decidedDone t) (doneClosed t) (progress t)
  end.

Definition reqCompleted (reqID fileID bytesSent : Z) (t : tracker) : tracker :=
  let t := finishLocked reqID true t in
  let t :=
    if bool_decide (fileID ∈ completedSet t) then t
    else mkTracker (totalGroups t) (groupFirst t) (fileGroup t) (groupsDecided t) (decidedSet t) (needed t)
           (resolved t) (reqToFile t) (inflight t) (completed t ++ [fileID]) ({[fileID]} ∪ completedSet t)
           (failedSet t) (wrap_u 64 (bytesTotal t + bytesSent)) (skippedCount t) (rejectedCount t)
           (decidedDone t) (doneClosed t) (progress t) in
  bump (reevalLocked t).

Definition reqFailed (reqID : Z) (resolve permanent : bool) (t : tracker) : tracker :=
  let found := reqToFile t !! reqID in
  let t := finishLocked reqID resolve t in
  let t :=
    match found with
    | Some fid =>
        if permanent then
          mkTracker (totalGroups t) (groupFirst t) (fileGroup t) (groupsDecided t) (decidedSet t) (needed t)
            (resolved t) (reqToFile t) (inflight t) (completed t) (completedSet t) ({[fid]} ∪ failedSet t)
            (bytesTotal t) (skippedCount t) (rejectedCount t) (decidedDone t) (doneClosed t) (progress t)
        else t
    | None => t
    end in
  bump (reevalLocked t).

Definition reqCancelled (reqID : Z) (t : tracker) : tracker :=
  bump (reevalLocked (finishLocked reqID true t)).

(** Ascending ids of the groups with an unresolved needed file. *)
Definition inProgressGroups (t : tracker) : list Z :=
  let open_ := elements (needed t ∖ resolved t) in
  merge_sort Z.le (elements (list_to_set ((λ fid, default 0 (fileGroup t !! fid)) <$> open_) : gset Z)).

(** The bytes hashed by [completionDigest], and the digest. *)
Definition completionInput (ids : list Z) : bytes := mjoin (be 8 <$> merge_sort Z.le ids).
Definition completionDigest `{HashFns} (t : tracker) : bytes := sha256 (completionInput (completed t)).

(** transferred, skipped, failed, bytesSent. *)
Definition counts (t : tracker) : Z * Z * Z * Z :=
  (Z.of_nat (size (completedSet t)), skippedCount t, Z.of_nat (size (failedSet t)), bytesTotal t).

(** ** The calls a session makes *)
Inductive op :=
| OpDecision (v : GroupDecision.t)
| OpStarted (reqID fileID : Z)
| OpCompleted (reqID fileID bytesSent : Z)
| OpFailed (reqID : Z) (resolve permanent : bool)
| OpCancelled (reqID : Z)
| OpBump.

Definition apply (o : op) (t : tracker) : tracker :=
  match o with
  | OpDecision v => (decision v t).2
  | OpStarted r fid => reqStarted r fid t
  | OpCompleted r fid n => reqCompleted r fid n t
  | OpFailed r resolve permanent => reqFailed r resolve permanent t
  | OpCancelled r => reqCancelled r t
  | OpBump => bump t
  end.
Definition exec (ops : list op) (t : tracker) : tracker := foldl (λ t o, apply o t) t ops.

(** [wait]: the two select loops.  An event is a call of another goroutine, the
    drain timer, or the select choosing one of its ready channels; a choice of
    a channel that is not ready does not happen, so it changes nothing. *)
Inductive waiting := AwaitDecided | AwaitDone (last : Z) | Returned (e : option gerr).
Inductive event := Call (o : op) | SelDone | SelCtx (e : stdErr) | SelDecided | SelTimeout.

Definition waitStep (ev : event) (s : tracker * waiting) : tracker * waiting :=
  let '(t, w) := s in
  match ev, w with
  | Call o, _ => (apply o t, w)
  | _, Returned _ => (t, w)
  | SelDone, _ => (t, if doneClosed t then Returned None else w)
  | SelCtx e, _ => (t, Returned (Some (EStd e)))
  | SelDecided, AwaitDecided => (t, if decidedDone t then AwaitDone (progress t) else w)
  | SelDecided, AwaitDone _ => (t, w)
  | SelTimeout, AwaitDecided => (t, w)
  | SelTimeout, AwaitDone last =>
      if progress t =? last then (t, Returned (Some (fault E9002 "drain watchdog" [] None)))
      else (t, AwaitDone (progress t))
  end.
Definition wait (evs : list event) (t : tracker) : tracker * waiting :=
  foldl (λ s ev, waitStep ev s) (t, AwaitDecided) evs.

(** ** creditGate *)
Module creditGate.
Record t := mk { avail : Z }.
Definition new (initial : Z) : t := mk initial.
Definition add (n : Z) (g : t) : t := mk (avail g + n).
(** One turn of [acquire]'s loop: [None] is [cond.Wait]. *)
Definition acquire (ctxErr : option stdErr) (g : t) : option (option stdErr * t) :=
  if avail g <=? 0 then
    match ctxErr with Some e => Some (Some e, g) | None => None end
  else Some (None, mk (avail g - 1)).

Inductive ev := Add (n : Z) | Acquire (ctxErr : option stdErr).
(** Credit granted and credit consumed along a run. *)
Definition step (e : ev) (s : t * Z * Z) : t * Z * Z :=
  let '(g, granted, used) := s in
  match e with
  | Add n => (add n g, granted + n, used)
  | Acquire c =>
      match acquire c g with
      | Some (None, g) => (g, granted, used + 1)
      | _ => (g, granted, used)
      end
  end.
Definition run (initial : Z) (evs : list ev) : t * Z * Z := foldl (λ s e, step e s) (new initial, initial, 0) evs.
End creditGate.

(** ** Invariant *)
Definition allDecided (t : tracker) : Prop := totalGroups t <= groupsDecided t.
Definition quiescent (t : tracker) : Prop := allDecided t ∧ inflight t <= 0 ∧ needed t ⊆ resolved t.

(** What every method keeps, apart from the two channels. *)
Record coreOk (t : tracker) : Prop := {
  ok_total : totalGroups t = Z.of_nat (length (groupFirst t));
  ok_decided : groupsDecided t = Z.of_nat (size (decidedSet t));
  ok_range : ∀ g, g ∈ decidedSet t → 0 <= g < totalGroups t;
  ok_inflight : inflight t = Z.of_nat (size (reqToFile t));
  ok_nodup : NoDup (completed t);
  ok_completed : ∀ f, f ∈ completed t ↔ f ∈ completedSet t;
  ok_dd : decidedDone t = true → allDecided t;
  ok_done : doneClosed t = true → allDecided t ∧ needed t ⊆ resolved t;
}.
Record trackerOk (t : tracker) : Prop := {
  ok_core : coreOk t;
  ok_allDecided : allDecided t → decidedDone t = true;
  ok_quiescent : quiescent t → doneClosed t = true;
}.

Lemma reeval_ok t : coreOk t → trackerOk (reevalLocked t).
Proof.
  intros [H1 H2 H3 H4 H5 H6 H7 H8]. unfold allDecided in *.
  split; [split; try done; cbn|cbn|]; unfold reevalLocked, quiescent, allDecided; cbn.
  - intros [?|?%Z.leb_le]%orb_prop; auto.
  - intros [?|[Hn Hs]%andb_prop]%orb_prop; [by auto|]. apply bool_decide_eq_true in Hs.
    apply negb_true_iff, orb_false_iff in Hn as [?%Z.ltb_ge _]. by split.
  - intros Ha. rewrite (proj2 (Z.leb_le _ _) Ha). apply orb_true_r.
  - intros (Ha & Hi & Hs). rewrite (proj2 (Z.ltb_ge _ _) Ha), (proj2 (Z.ltb_ge 0 _)) by lia.
    rewrite bool_decide_true by done. apply orb_true_r.
Qed.

Lemma bump_ok t : trackerOk t → trackerOk (bump t).
Proof. intros [[H1 H2 H3 H4 H5 H6 H7 H8] Hd Hq]. by split; [split|..]. Qed.

Lemma newTracker_ok firsts : trackerOk (newTracker firsts).
Proof. apply reeval_ok. split; cbn; try done; try set_solver. constructor. Qed.

Lemma finish_core r resolve t : coreOk t → coreOk (finishLocked r resolve t).
Proof.
  intros Hc. unfold finishLocked. destruct (reqToFile t !! r) as [fid|] eqn:E; [|done].
  destruct Hc as [H1 H2 H3 H4 H5 H6 H7 H8]. split; cbn; try done.
  - rewrite H4. rewrite map_size_delete_Some by by eexists.
    assert (size (reqToFile t) ≠ 0%nat); [|lia]. intros Hz%map_size_empty_inv. by rewrite Hz, lookup_empty in E.
  - intros Hd. destruct (H8 Hd) as [? ?]. split; [done|]. destruct resolve; [set_solver|done].
Qed.

(** All groups decided means every group id is. *)
Lemma allDecided_full t g : coreOk t → allDecided t → 0 <= g < totalGroups t → g ∈ decidedSet t.
Proof.
  intros [H1 H2 H3 _ _ _ _ _] Ha Hg. destruct (decide (g ∈ decidedSet t)) as [|Hn]; [done|exfalso].
  assert (Hsub : {[g]} ∪ decidedSet t ⊆ list_to_set (seqZ 0 (totalGroups t))).
  { intros x Hx. apply elem_of_list_to_set, elem_of_seqZ.
    apply elem_of_union in Hx as [->%elem_of_singleton|Hx%H3]; lia. }
  apply subseteq_size in Hsub. rewrite size_union, size_singleton in Hsub by set_solver.
  rewrite size_list_to_set, length_seqZ in Hsub by apply NoDup_seqZ.
  unfold allDecided in Ha. lia.
Qed.

Lemma decision_ok v t : 0 <= GroupDecision.GroupID v → trackerOk t → trackerOk (decision v t).2.
Proof.
  intros Hg [Hc Hd Hq]. unfold decision. destruct (groupFirst t !! _) as [first|] eqn:E; [|done].
  destruct (bool_decide_reflect (GroupDecision.GroupID v ∈ decidedSet t)) as [|Hn]; [done|].
  cbn [snd]. apply reeval_ok. apply lookup_lt_Some in E.
  pose proof (ok_total t Hc) as Ht. pose proof (allDecided_full t (GroupDecision.GroupID v) Hc) as Hfull.
  destruct Hc as [H1 H2 H3 H4 H5 H6 H7 H8]. split; cbn; try done.
  - rewrite size_union, size_singleton by set_solver. lia.
  - intros g [->%elem_of_singleton|?%H3]%elem_of_union; lia.
  - unfold allDecided. cbn. intros ?%H7. unfold allDecided in *. lia.
  - intros [Ha _]%H8. exfalso. apply Hn, Hfull; [done|lia].
Qed.

Lemma reqStarted_ok r fid t : reqToFile t !! r = None → trackerOk t → trackerOk (reqStarted r fid t).
Proof.
  intros Hf [Hc Hd Hq]. apply bump_ok. destruct Hc as [H1 H2 H3 H4 H5 H6 H7 H8]. split; [split; cbn; try done| |].
  - rewrite map_size_insert_None by done. lia.
  - done.
  - unfold quiescent. cbn. intros (_ & ? & _). lia.
Qed.

Lemma apply_ok o t :
  trackerOk t →
  match o with
  | OpStarted r _ => reqToFile t !! r = None
  | OpDecision v => 0 <= GroupDecision.GroupID v
  | _ => True
  end → trackerOk (apply o t).
Proof.
  intros Hok Ho. destruct o as [v|r fid|r fid n|r resolve perm|r|]; cbn [apply];
    [by apply decision_ok|by apply reqStarted_ok|..|by apply bump_ok];
    apply bump_ok, reeval_ok; pose proof (finish_core r true t (ok_core t Hok)) as Hc.
  - unfold reqCompleted. case_bool_decide as Hin; [done|].
    destruct Hc as [H1 H2 H3 H4 H5 H6 H7 H8]. split; cbn; try done.
    + apply list.NoDup_app. split_and!; [done| |apply NoDup_singleton].
      intros x Hx ->%list_elem_of_singleton. by apply Hin, H6.
    + intros f. rewrite elem_of_app, list_elem_of_singleton, H6. set_solver.
  - pose proof (finish_core r resolve t (ok_core t Hok)) as Hc'.
    destruct (reqToFile t !! r); [|done]. destruct perm; [|done]. by destruct Hc'.
  - done.
Qed.

(** Requests in flight have distinct ids. *)
Fixpoint freshRun (ops : list op) (t : tracker) : Prop :=
  match ops with
  | [] => True
  | o :: ops =>
      match o with
      | OpStarted r _ => reqToFile t !! r = None
      | OpDecision v => 0 <= GroupDecision.GroupID v
      | _ => True
      end ∧ freshRun ops (apply o t)
  end.

Lemma exec_ok ops t : trackerOk t → freshRun ops t → trackerOk (exec ops t).
Proof.
  revert t. induction ops as [|o ops IH]; intros t Hok; [done|]. intros [Ho Hf].
  apply IH; [by apply apply_ok|done].
Qed.

Lemma finish_static r b t :
  totalGroups (finishLocked r b t) = totalGroups t ∧ groupFirst (finishLocked r b t) = groupFirst t ∧
  decidedSet (finishLocked r b t) = decidedSet t ∧ progress (finishLocked r b t) = progress t.
Proof. unfold finishLocked. by destruct (reqToFile t !! r). Qed.

Lemma apply_static o t : totalGroups (apply o t) = totalGroups t ∧ groupFirst (apply o t) = groupFirst t.
Proof.
  destruct o as [v|r fid|r fid n|r b perm|r|]; cbn [apply]; [|done| | | |done].
  - unfold decision. destruct (groupFirst t !! _); [|done]. by destruct (bool_decide _).
  - destruct (finish_static r true t) as (H1 & H2 & _). unfold reqCompleted. by destruct (bool_decide _).
  - destruct (finish_static r b t) as (H1 & H2 & _). unfold reqFailed. destruct (reqToFile t !! r); [|done]. by destruct perm.
  - destruct (finish_static r true t) as (H1 & H2 & _). done.
Qed.

Lemma exec_static ops t : totalGroups (exec ops t) = totalGroups t ∧ groupFirst (exec ops t) = groupFirst t.
Proof.
  revert t. induction ops as [|o ops IH]; intros t; [done|]. unfold exec in *. cbn [foldl].
  destruct (IH (apply o t)) as [-> ->]. apply apply_static.
Qed.


(** ** Decisions *)
Lemma apply_decidedSet o t :
  decidedSet (apply o t) =
    match o with
    | OpDecision v => if bool_decide (is_Some (groupFirst t !! Z.to_nat (GroupDecision.GroupID v)))
                      then {[GroupDecision.GroupID v]} ∪ decidedSet t else decidedSet t
    | _ => decidedSet t
    end.
Proof.
  destruct o as [v|r fid|r fid n|r b perm|r|]; cbn [apply]; [|done| | | |done].
  - unfold decision. destruct (groupFirst t !! _) as [first|]; [|by rewrite bool_decide_false by by intros [? ?]].
    rewrite (bool_decide_true (is_Some (Some first))) by by eexists.
    destruct (bool_decide_reflect (GroupDecision.GroupID v ∈ decidedSet t)); [|done].
    cbn [snd]. apply set_eq. intros x. rewrite elem_of_union, elem_of_singleton. naive_solver.
  - destruct (finish_static r true t) as (_ & _ & H & _). unfold reqCompleted. by destruct (bool_decide _).
  - destruct (finish_static r b t) as (_ & _ & H & _). unfold reqFailed. destruct (reqToFile t !! r); [|done]. by destruct perm.
  - by destruct (finish_static r true t) as (_ & _ & H & _).
Qed.

Lemma exec_decidedSet ops t g :
  g ∈ decidedSet (exec ops t) ↔
  g ∈ decidedSet t ∨ is_Some (groupFirst t !! Z.to_nat g) ∧ ∃ v, OpDecision v ∈ ops ∧ GroupDecision.GroupID v = g.
Proof.
  revert t. induction ops as [|o ops IH]; intros t.
  { unfold exec. cbn. setoid_rewrite elem_of_nil. naive_solver. }
  change (exec (o :: ops) t) with (exec ops (apply o t)).
  rewrite IH, apply_decidedSet. destruct (apply_static o t) as [_ ->]. setoid_rewrite elem_of_cons.
  destruct o; try naive_solver. case_bool_decide; set_solver.
Qed.

(** After any run, a GROUP_DECISION is refused with E5001 exactly when its
    group id is out of range, and with E5009 exactly when a decision for that
    group was made before; a refusal changes nothing, and an accepted decision
    adds exactly its file ids to the needed set. *)
Theorem decision_once firsts ops v :
  0 <= GroupDecision.GroupID v →
  let t := exec ops (newTracker firsts) in
  let g := GroupDecision.GroupID v in
  match (decision v t).1 with
  | Some e =>
      (decision v t).2 = t ∧ IsFatal (Some e) = true ∧
      (GetCode e = E5001 ∧ Z.of_nat (length firsts) <= g ∨
       GetCode e = E5009 ∧ g < Z.of_nat (length firsts) ∧ ∃ v', OpDecision v' ∈ ops ∧ GroupDecision.GroupID v' = g)
  | None =>
      g < Z.of_nat (length firsts) ∧ (∀ v', OpDecision v' ∈ ops → GroupDecision.GroupID v' ≠ g) ∧
      ∃ first, firsts !! Z.to_nat g = Some first ∧
        ∀ f, f ∈ needed (decision v t).2 ↔ f ∈ needed t ∨ ∃ idx, idx ∈ GroupDecision.Needed v ∧ f = wrap_u 64 (first + idx)
  end.
Proof.
  intros Hg. cbv zeta. set (t := exec ops (newTracker firsts)). set (g := GroupDecision.GroupID v).
  assert (Hgf : groupFirst t = firsts) by apply (exec_static ops (newTracker firsts)).
  pose proof (exec_decidedSet ops (newTracker firsts) g) as Hd. fold t in Hd.
  change (decidedSet (newTracker firsts)) with (∅ : gset Z) in Hd. change (groupFirst (newTracker firsts)) with firsts in Hd.
  unfold decision. fold g. rewrite Hgf. destruct (firsts !! Z.to_nat g) as [first|] eqn:E; cbn [fst snd].
  - apply lookup_lt_Some in E as Hlt. destruct (bool_decide_reflect (g ∈ decidedSet t)) as [Hin|Hn]; cbn [fst snd].
    + split_and!; [done|done|right]. split_and!; [done|lia|]. apply Hd in Hin as [?|[_ ?]]; [set_solver|done].
    + split_and!; [lia| |].
      * intros v' Hv' Heq. apply Hn, Hd. right. split; [by eexists|by exists v'].
      * exists first. split; [done|]. cbn. intros f. rewrite elem_of_union, elem_of_list_to_set, list_elem_of_fmap. naive_solver.
  - apply lookup_ge_None in E. split_and!; [done|done|left]. split; [done|lia].
Qed.

(** ** The completion digest *)
Lemma completionInput_perm ids1 ids2 : ids1 ≡ₚ ids2 → completionInput ids1 = completionInput ids2.
Proof.
  intros Hp. unfold completionInput. do 2 f_equal. apply (Sorted_unique Z.le); try apply _.
  - apply Sorted_merge_sort, _.
  - apply Sorted_merge_sort, _.
  - by rewrite !merge_sort_Permutation.
Qed.

Lemma be8_inj ids1 ids2 :
  Forall (in_u 64) ids1 → Forall (in_u 64) ids2 → mjoin (be 8 <$> ids1) = mjoin (be 8 <$> ids2) → ids1 = ids2.
Proof.
  intros H1. revert ids2. induction H1 as [|a ids1 Ha Hall IH]; intros [|b ids2] H2 E; cbn [fmap list_fmap] in E;
    rewrite ?mjoin_cons in E; [done|..].
  - apply (f_equal length) in E. rewrite length_app, length_be in E. simpl in E. lia.
  - apply (f_equal length) in E. rewrite length_app, length_be in E. simpl in E. lia.
  - apply app_inj_1 in E as [E1 E2]; [|by rewrite !length_be]. inversion H2; subst.
    rewrite (be_inj 8 a b) by done. f_equal. by apply IH.
Qed.

(** The hashed bytes determine the set of ids. *)
Lemma completionInput_inj ids1 ids2 f : Forall (in_u 64) ids1 → Forall (in_u 64) ids2 →
  completionInput ids1 = completionInput ids2 → f ∈ ids1 ↔ f ∈ ids2.
Proof.
  intros H1 H2 E. apply be8_inj in E; [|by rewrite merge_sort_Permutation..].
  by rewrite <- (merge_sort_Permutation Z.le ids1), E, merge_sort_Permutation.
Qed.

(** Two sides compute the same completion digest exactly when they completed
    the same set of files, whatever order the files completed in, as long as
    SHA-256 does not collide on the two inputs. *)
Theorem completion_digest_agrees `{HashFns} t ids :
  coreOk t → NoDup ids → Forall (in_u 64) (completed t) → Forall (in_u 64) ids →
  (sha256 (completionInput (completed t)) = sha256 (completionInput ids) →
   completionInput (completed t) = completionInput ids) →
  completionDigest t = sha256 (completionInput ids) ↔ (∀ f, f ∈ completedSet t ↔ f ∈ ids).
Proof.
  intros Hc Hnd Hu1 Hu2 Hinj. unfold completionDigest. split.
  - intros E f. rewrite <- (ok_completed t Hc). apply completionInput_inj; [done..|by apply Hinj].
  - intros Heq. f_equal. apply completionInput_perm. apply NoDup_Permutation; [apply (ok_nodup t Hc)|done|].
    intros f. by rewrite (ok_completed t Hc), Heq.
Qed.

(** ** The watchdog *)
Definition bumps (o : op) : Z := match o with OpDecision _ => 0 | _ => 1 end.
Definition bumpsOf (evs : list event) : Z :=
  foldr (λ ev n, n + match ev with Call o => bumps o | _ => 0 end) 0 evs.

Lemma apply_progress o t : in_u 64 (progress t) → progress (apply o t) = wrap_u 64 (progress t + bumps o).
Proof.
  intros Hp. destruct o as [v|r fid|r fid n|r b perm|r|]; cbn [apply bumps]; [|done| | | |done].
  - rewrite Z.add_0_r, wrap_u_id by done. unfold decision. destruct (groupFirst t !! _); [|done]. by destruct (bool_decide _).
  - destruct (finish_static r true t) as (_ & _ & _ & E). unfold reqCompleted. rewrite <- E. by destruct (bool_decide _).
  - destruct (finish_static r b t) as (_ & _ & _ & E). unfold reqFailed. rewrite <- E.
    destruct (reqToFile t !! r); [|done]. by destruct perm.
  - destruct (finish_static r true t) as (_ & _ & _ & E). rewrite <- E. done.
Qed.

Lemma wait_snoc evs ev t : wait (evs ++ [ev]) t = waitStep ev (wait evs t).
Proof. unfold wait. by rewrite foldl_app. Qed.

Lemma bumpsOf_app a b : bumpsOf (a ++ b) = bumpsOf a + bumpsOf b.
Proof. unfold bumpsOf. induction a as [|ev a IH]; [done|]. cbn [app foldr]. lia. Qed.
Lemma bumpsOf_nonneg a : 0 <= bumpsOf a <= Z.of_nat (length a).
Proof.
  unfold bumpsOf. induction a as [|ev a IH]; [done|]. cbn [foldr length].
  assert (0 <= match ev with Call o => bumps o | _ => 0 end <= 1) by (destruct ev as [[]| | | |]; cbn; lia). lia.
Qed.

(** The last event takes a sample of the counter: the select sees decidedCh closed, or
    a timeout finds progress. *)
Definition sampled (evs : list event) (t0 : tracker) : Prop :=
  ∃ pre ev, evs = pre ++ [ev] ∧
    (ev = SelDecided ∧ (wait pre t0).2 = AwaitDecided ∨ ev = SelTimeout ∧ ∃ l, (wait pre t0).2 = AwaitDone l) ∧
    (wait evs t0).2 = AwaitDone (progress (wait evs t0).1).

(** Between two samples of the counter, it moved by the number of bumps. *)
Lemma wait_sample evs t0 :
  in_u 64 (progress t0) →
  in_u 64 (progress (wait evs t0).1) ∧
  ∀ last, (wait evs t0).2 = AwaitDone last → ∃ pre mid, evs = pre ++ mid ∧
    sampled pre t0 ∧ progress (wait pre t0).1 = last ∧ (SelTimeout ∉ mid) ∧
    progress (wait evs t0).1 = wrap_u 64 (last + bumpsOf mid).
Proof.
  intros H0. induction evs as [|ev evs IH] using rev_ind; [done|].
  destruct (wait evs t0) as [t w] eqn:Ew. destruct IH as [Hp IH]. cbn [fst snd] in *.
  assert (Hkeep : ∀ ev', bumpsOf [ev'] = 0 → ev' ≠ SelTimeout → ∀ last, w = AwaitDone last → ∃ pre mid, evs ++ [ev'] = pre ++ mid ∧
    sampled pre t0 ∧ progress (wait pre t0).1 = last ∧ (SelTimeout ∉ mid) ∧ progress t = wrap_u 64 (last + bumpsOf mid)).
  { intros ev' Hev Hne last Hw. destruct (IH last Hw) as (pre & mid & -> & H1 & H2 & H3 & H4).
    exists pre, (mid ++ [ev']). rewrite app_assoc, bumpsOf_app, Hev, Z.add_0_r. split_and!; try done. set_solver. }
  assert (Hnow : ∀ ev', (ev' = SelDecided ∧ w = AwaitDecided ∨ ev' = SelTimeout ∧ ∃ l, w = AwaitDone l) →
    waitStep ev' (t, w) = (t, AwaitDone (progress t)) →
    ∃ pre mid, evs ++ [ev'] = pre ++ mid ∧ sampled pre t0 ∧ progress (wait pre t0).1 = progress t ∧
      (SelTimeout ∉ mid) ∧ progress t = wrap_u 64 (progress t + bumpsOf mid)).
  { intros ev' Hev Hs. assert (Hw : wait (evs ++ [ev']) t0 = (t, AwaitDone (progress t))) by by rewrite wait_snoc, Ew, Hs.
    exists (evs ++ [ev']), []. rewrite app_nil_r. split_and!; [done| |by rewrite Hw|set_solver|cbn; by rewrite Z.add_0_r, wrap_u_id].
    exists evs, ev'. rewrite Hw. split_and!; [done|by rewrite Ew|done]. }
  rewrite wait_snoc, Ew. destruct ev as [o| | | |]; cbn [waitStep fst snd].
  - split; [rewrite apply_progress by done; apply wrap_u_range; lia|].
    intros last Hw. destruct (IH last Hw) as (pre & mid & -> & H1 & H2 & H3 & H4).
    exists pre, (mid ++ [Call o]). rewrite app_assoc, bumpsOf_app. split_and!; [done|done|done|set_solver|].
    rewrite apply_progress, H4 by done. unfold wrap_u. rewrite Zplus_mod_idemp_l. f_equal. cbn. lia.
  - destruct w; (split; [done|]); cbn [snd]; destruct (doneClosed t); try done; intros l [= <-]; by apply Hkeep.
  - by destruct w.
  - destruct w; (split; [done|]); cbn [snd]; try done; [|intros l [= <-]; by apply Hkeep].
    destruct (decidedDone t) eqn:Hd; [|done]. intros l [= <-]. apply Hnow; [by left|cbn; by rewrite Hd].
  - destruct w as [|last|]; [done|..|done]. destruct (Z.eqb_spec (progress t) last) as [|Hne]; [done|].
    split; [done|]. intros l [= <-]. apply Hnow; [right; eauto|cbn; by rewrite (proj2 (Z.eqb_neq _ _) Hne)].
Qed.

(** Decisions do not count as progress. *)
Lemma wait_quiet pre mid t0 l :
  (wait pre t0).2 = AwaitDone l → SelTimeout ∉ mid → (∀ o, Call o ∈ mid → ∃ v, o = OpDecision v) →
  progress (wait (pre ++ mid) t0).1 = progress (wait pre t0).1 ∧
  ((wait (pre ++ mid) t0).2 = AwaitDone l ∨ ∃ e, (wait (pre ++ mid) t0).2 = Returned e).
Proof.
  intros Hw. induction mid as [|ev mid IH] using rev_ind; intros Hn Hc; [rewrite app_nil_r; auto|].
  destruct IH as [H1 H2]; [set_solver|set_solver|]. rewrite app_assoc, wait_snoc.
  destruct (wait (pre ++ mid) t0) as [t w]. cbn [fst snd] in *. rewrite <- H1.
  destruct ev as [o| |e| |]; cbn [waitStep].
  - cbn [fst snd]. destruct (Hc o) as [v ->]; [set_solver|]. split; [|done]. cbn [apply]. unfold decision.
    destruct (groupFirst t !! _); [|done]. by destruct (bool_decide _).
  - destruct H2 as [->|[e ->]]; (split; [done|]); cbn; [destruct (doneClosed t)|]; eauto.
  - destruct H2 as [->|[e' ->]]; (split; [done|]); cbn; eauto.
  - destruct H2 as [->|[e ->]]; (split; [done|]); cbn; eauto.
  - set_solver.
Qed.

Lemma wrap_cancel a b : in_u 64 a → 0 <= b < 2 ^ 64 → a = wrap_u 64 (a + b) → b = 0.
Proof.
  unfold in_u, wrap_u. intros Ha Hb E. destruct (decide (a + b < 2 ^ 64)) as [|Hge].
  - rewrite Z.mod_small in E by lia. lia.
  - rewrite <- (Z_mod_plus_full _ (-1)), Z.mod_small in E by lia. lia.
Qed.

Lemma apply_done o t : doneClosed t = true → doneClosed (apply o t) = true.
Proof.
  assert (Hf : ∀ r b t, doneClosed (finishLocked r b t) = doneClosed t).
  { intros r b t0. unfold finishLocked. by destruct (reqToFile t0 !! r). }
  intros Hd. destruct o as [v|r fid|r fid n|r b perm|r|]; cbn [apply]; [|done| | | |done].
  - unfold decision. destruct (groupFirst t !! _); [|done]. destruct (bool_decide _); [done|]. cbn. by rewrite Hd.
  - unfold reqCompleted. destruct (bool_decide _); cbn; by rewrite Hf, Hd.
  - unfold reqFailed. destruct (reqToFile t !! r); [destruct perm|]; cbn; by rewrite Hf, Hd.
  - unfold reqCancelled. cbn. by rewrite Hf, Hd.
Qed.

(** The tracker at the end of a wait is that of the calls made; a wait that
    returned nil found it done, and it stays so. *)
Definition calls (evs : list event) : list op := omap (λ ev, match ev with Call o => Some o | _ => None end) evs.
Lemma wait_exec evs t : (wait evs t).1 = exec (calls evs) t.
Proof.
  induction evs as [|ev evs IH] using rev_ind; [done|]. rewrite wait_snoc. unfold calls, exec. rewrite omap_app, foldl_app.
  fold (calls evs) (exec (calls evs) t). rewrite <- IH. destruct (wait evs t) as [t' w].
  destruct ev, w; cbn; try done; by repeat case_match.
Qed.
Lemma wait_done evs t t' : wait evs t = (t', Returned None) → doneClosed t' = true.
Proof.
  revert t'. induction evs as [|ev evs IH] using rev_ind; intros t'; [done|]. rewrite wait_snoc. destruct (wait evs t) as [t1 w].
  destruct ev as [o| |ce| |]; cbn [waitStep].
  - intros [= <- ->]. by apply apply_done, IH.
  - destruct w as [| |e]; [destruct (doneClosed t1) eqn:Hd; [by intros [= <-]|done]..|]. intros [= <- ->]. by apply IH.
  - destruct w; [done..|]. intros [= <- ->]. by apply IH.
  - destruct w as [| |e]; [by destruct (decidedDone t1)|done|]. intros [= <- ->]. by apply IH.
  - destruct w as [|last|e]; [done|by destruct (_ =? _)|]. intros [= <- ->]. by apply IH.
Qed.
(** So every group was decided and every needed file resolved. *)
Lemma wait_done_all firsts evs t : freshRun (calls evs) (newTracker firsts) → wait evs (newTracker firsts) = (t, Returned None) →
  coreOk t ∧ (∀ g, 0 <= g < Z.of_nat (length firsts) → g ∈ decidedSet t) ∧ needed t ⊆ resolved t.
Proof.
  intros Hf E. pose proof (wait_done _ _ _ E) as Hd. pose proof (wait_exec evs (newTracker firsts)) as Ht. rewrite E in Ht. cbn [fst] in Ht.
  pose proof (exec_ok _ _ (newTracker_ok firsts) Hf) as [Hc _ _]. destruct (exec_static (calls evs) (newTracker firsts)) as [Htot _].
  rewrite <- Ht in Hc, Htot. split; [done|]. destruct (ok_done t Hc Hd) as [Ha Hs]. split; [|done].
  intros g Hg. apply allDecided_full; [done..|]. rewrite Htot. exact Hg.
Qed.

(** Without a bump all calls are decisions. *)
Lemma bumpsOf_zero mid o : bumpsOf mid = 0 → Call o ∈ mid → ∃ v, o = OpDecision v.
Proof.
  induction mid as [|ev mid IH]; intros Hm Ho; [by apply elem_of_nil in Ho|].
  change (bumpsOf (ev :: mid)) with (bumpsOf mid + match ev with Call o => bumps o | _ => 0 end) in Hm.
  pose proof (bumpsOf_nonneg mid). assert (0 <= match ev with Call o => bumps o | _ => 0 end) by (destruct ev as [[]| | | |]; cbn; lia).
  apply elem_of_cons in Ho as [<-|Ho]; [|apply IH; done || lia]. destruct o; cbn in Hm; try lia. by eexists.
Qed.
Lemma watchdog_fired firsts evs t e :
  Z.of_nat (length evs) < 2 ^ 64 → wait evs (newTracker firsts) = (t, Returned (Some e)) → GetCode e = E9002 →
  ∃ pre mid post, evs = pre ++ mid ++ SelTimeout :: post ∧ sampled pre (newTracker firsts) ∧
    (SelTimeout ∉ mid) ∧ ∀ o, Call o ∈ mid → ∃ v, o = OpDecision v.
Proof.
  intros Hlen E He. revert t Hlen E. induction evs as [|ev evs IH] using rev_ind; intros t Hlen E; [done|].
  rewrite wait_snoc in E. rewrite length_app in Hlen. cbn [length] in Hlen.
  pose proof (wait_sample evs (newTracker firsts) ltac:(done)) as [Hp Hs].
  destruct (wait evs (newTracker firsts)) as [t' w] eqn:Ew. cbn [fst snd] in Hp, Hs.
  assert (Hold : w = Returned (Some e) → ∃ pre mid post, evs ++ [ev] = pre ++ mid ++ SelTimeout :: post ∧
    sampled pre (newTracker firsts) ∧ (SelTimeout ∉ mid) ∧ ∀ o, Call o ∈ mid → ∃ v, o = OpDecision v).
  { intros ->. destruct (IH t' ltac:(lia) eq_refl) as (pre & mid & post & -> & H1 & H2 & H3). exists pre, mid, (post ++ [ev]).
    split_and!; [|done..]. by rewrite <- !app_assoc. }
  destruct ev as [o| |ce| |]; cbn [waitStep] in E.
  - injection E as _ ->. by apply Hold.
  - destruct w as [|last|e0]; [by destruct (doneClosed t')..|]. injection E as _ ->. by apply Hold.
  - destruct w as [|last|e0]; [injection E as _ <-; by vm_compute in He..|]. injection E as _ ->. by apply Hold.
  - destruct w as [|last|e0]; [by destruct (decidedDone t')|done|]. injection E as _ ->. by apply Hold.
  - destruct w as [|last|e0]; [done| |injection E as _ ->; by apply Hold].
    destruct (Z.eqb_spec (progress t') last) as [Heq|]; [|done].
    destruct (Hs last eq_refl) as (pre & mid & -> & H1 & H2 & H3 & H4). exists pre, mid, []. rewrite <- app_assoc.
    split_and!; [done..|]. intros o. apply bumpsOf_zero. rewrite length_app in Hlen.
    pose proof (bumpsOf_nonneg mid). apply (wrap_cancel last); [by rewrite <- Heq|lia|congruence].
Qed.


(** The credit gate keeps INV-2: however grants and acquisitions interleave,
    the manifests published never exceed the credit granted, and [acquire] waits
    exactly while all of it is used. *)
Theorem credit_never_exceeded initial evs :
  0 <= initial → (∀ n, creditGate.Add n ∈ evs → 0 <= n) →
  let '(g, granted, used) := creditGate.run initial evs in
  used <= granted ∧ creditGate.avail g = granted - used ∧
  (creditGate.acquire None g = None ↔ used = granted).
Proof.
  intros Hi Hn. assert (Hinv : let '(g, granted, used) := creditGate.run initial evs in
    creditGate.avail g = granted - used ∧ 0 <= creditGate.avail g).
  { induction evs as [|ev evs IH] using rev_ind; [cbn; lia|].
    unfold creditGate.run in *. rewrite foldl_app. cbn [foldl].
    assert (Hn' : ∀ n, creditGate.Add n ∈ evs → 0 <= n) by (intros n Hin; apply Hn, elem_of_app; by left).
    specialize (IH Hn'). destruct (foldl _ _ evs) as [[g granted] used].
    destruct ev as [n|c]; unfold creditGate.step.
    - assert (0 <= n) by (apply Hn, elem_of_app; right; by left). cbn. lia.
    - unfold creditGate.acquire. destruct (Z.leb_spec (creditGate.avail g) 0); [by destruct c|cbn; lia]. }
  destruct (creditGate.run initial evs) as [[g granted] used]. destruct Hinv as [Ha Hp].
  split_and!; [lia|done|]. unfold creditGate.acquire. destruct (Z.leb_spec (creditGate.avail g) 0); split; intros; done || lia.
Qed.

(** ** Concrete inputs *)
Definition ex_ops : list op :=
  [OpDecision (GroupDecision.mk 0 [0; 2] 1 []); OpStarted 1 10; OpStarted 2 12; OpCompleted 2 12 5;
   OpFailed 1 false false; OpStarted 3 10; OpDecision (GroupDecision.mk 1 [] 0 []); OpCompleted 3 10 7].


Lemma decision_once_witness :
  0 <= 1 ∧ ∃ e, (decision (GroupDecision.mk 1 [] 0 []) (exec ex_ops (newTracker [10; 20]))).1 = Some e ∧ IsFatal (Some e) = true.
Proof.
  split; [lia|]. pose proof (decision_once [10; 20] ex_ops (GroupDecision.mk 1 [] 0 []) ltac:(cbn; lia)) as H.
  cbv zeta in H. destruct (decision _ _) as [[e|] t] eqn:E; [|by vm_compute in E].
  exists e. split; [done|]. by destruct H as (_ & H & _).
Defined.

#[local] Instance id_hash : HashFns := {| md5 := id; sha256 := id |}.
Lemma completion_digest_agrees_witness :
  completionDigest (exec ex_ops (newTracker [10; 20])) = sha256 (completionInput [12; 10]) ↔
  ∀ f, f ∈ completedSet (exec ex_ops (newTracker [10; 20])) ↔ f ∈ [12; 10].
Proof.
  apply completion_digest_agrees.
  - apply exec_ok; [apply newTracker_ok|vm_compute; naive_solver].
  - refine (bool_decide_eq_true_1 (NoDup _) _). by vm_compute.
  - refine (bool_decide_eq_true_1 (Forall _ _) _). by vm_compute.
  - refine (bool_decide_eq_true_1 (Forall _ _) _). by vm_compute.
  - done.
Defined.

Definition ex_waiting : list event :=
  [SelDecided; Call OpBump; SelTimeout; Call (OpDecision (GroupDecision.mk 9 [] 0 [])); SelTimeout].

Lemma credit_never_exceeded_witness :
  let '(g, granted, used) := creditGate.run 1 [creditGate.Acquire None; creditGate.Acquire None; creditGate.Add 2] in
  used <= granted.
Proof.
  pose proof (credit_never_exceeded 1 [creditGate.Acquire None; creditGate.Acquire None; creditGate.Add 2] ltac:(lia)) as H.
  destruct (creditGate.run _ _) as [[g granted] used]. apply H.
  intros n Hn. apply elem_of_cons in Hn as [?|Hn]; [done|]. apply elem_of_cons in Hn as [?|Hn]; [done|].
  apply list_elem_of_singleton in Hn. injection Hn as ->. lia.
Defined.
