(* ===== verification/Manifest.v ===== *)
(** * Manifest: publishing the plan (src/internal/sender/manifest.go)

    [publishGroup] turns a group of plan entries into the GROUP_MANIFEST it
    sends and fills the digest store; hashing a file is the parameter [hash] (the
    file id's digest, or [None] when [digest.HashFile] fails).  [run] is the
    publisher's loop with its credit waits and its send failures.  The
    cross-layer theorem says that what the planner groups, the codec encodes and
    the record layer carries. *)
From S2P Require Import Prelude Fault Codec Record Wire Glob Plan Tracker.

Definition toSlashBytes (rel : bytes) : bytes :=
  if bool_decide (PathSeparator = c_slash) then rel
  else (λ c, if bool_decide (c = PathSeparator) then c_slash else c) <$> rel.

(** [e.Mode.Perm()]. *)
Definition Perm (mode : Z) : Z := Z.land mode 511.

(** What the hashing goroutine of an entry finds: nothing for an entry that is not
    hashed or whose hashing fails. *)
Definition hashed (quick : bool) (hash : Z → option bytes) (fileID : Z) (e : Entry) : option bytes :=
  if negb (bool_decide (Typ e = TypeFile)) || quick || (Plan.Size e =? 0) then None else hash fileID.

Definition manifestEntry (quick : bool) (hash : Z → option bytes) (fileID : Z) (e : Entry) : ManifestEntry.t :=
  ManifestEntry.mk (byte_of_type (Typ e)) (wrap_u 16 (Plan.Flags e)) (toSlashBytes (RelPath e))
    (wrap_u 64 (Plan.Size e)) (Perm (Plan.Mode e)) (Plan.MtimeSec e) (Plan.MtimeNsec e)
    (default [] (hashed quick hash fileID e))
    (if bool_decide (Typ e = TypeSymlink) then Plan.LinkTarget e else [])
    (if hasKey e then Plan.HardlinkKey e else 0).

Definition publishGroup (quick : bool) (hash : Z → option bytes) (p : Plan) (gi : nat) (es : list Entry) : GroupManifest.t :=
  let firstID := GroupFirstID p gi in
  GroupManifest.mk (wrap_u 32 (Z.of_nat gi)) firstID
    (imap (λ i e, manifestEntry quick hash (firstID + Z.of_nat i) e) es).

(** The digests the group's goroutines store; each has its own key, so their order
    does not matter. *)
Fixpoint hashGroup (quick : bool) (hash : Z → option bytes) (id : Z) (es : list Entry) (d : digestStore.t) : digestStore.t :=
  match es with
  | [] => d
  | e :: es =>
      hashGroup quick hash (id + 1) es
        (match hashed quick hash id e with Some dg => digestStore.set id dg d | None => d end)
  end.

Definition scanComplete (p : Plan) (skipped : Z) : ScanComplete.t :=
  ScanComplete.mk (TotalFiles p) (TotalBytes p) (wrap_u 32 (Z.of_nat (NumGroups p))) skipped (digest p).

(** What happens to the publisher: the fate of the SCAN_COMPLETE, of each wait for
    a credit and of each manifest it sends. *)
Record penv := mkPenv {
  scanSend : option gerr; creditWait : nat → option stdErr; groupSend : nat → option gerr;
}.

(** The loop of [run] from group [gi] on: what is sent, the error it returns and
    the digest store. *)
Fixpoint publishLoop (env : penv) (quick : bool) (hash : Z → option bytes) (p : Plan) (gi : nat)
    (gs : list (list Entry)) (d : digestStore.t) : list Message * option gerr * digestStore.t :=
  match gs with
  | [] => ([], None, d)
  | es :: gs =>
      match creditWait env gi with
      | Some e => ([], Some (EStd e), d)
      | None =>
          let d := hashGroup quick hash (GroupFirstID p gi) es d in
          match groupSend env gi with
          | Some e => ([], Some e, d)
          | None =>
              let '(ms, r, d) := publishLoop env quick hash p (S gi) gs d in
              (MGroupManifest (publishGroup quick hash p gi es) :: ms, r, d)
          end
      end
  end.
Definition run (env : penv) (quick : bool) (hash : Z → option bytes) (p : Plan) (skipped : Z) :
    list Message * option gerr * digestStore.t :=
  match scanSend env with
  | Some e => ([], Some e, digestStore.new)
  | None =>
      let '(ms, r, d) := publishLoop env quick hash p 0 (Groups p) digestStore.new in
      (MScanComplete (scanComplete p skipped) :: ms, r, d)
  end.

(** The control messages of a whole run, in order: SCAN_COMPLETE, then one
    GROUP_MANIFEST per group. *)
Definition manifests (quick : bool) (hash : Z → option bytes) (p : Plan) : list Message :=
  imap (λ gi es, MGroupManifest (publishGroup quick hash p gi es)) (Groups p).

(** ** Lemmas *)
Definition wireOk (e : Entry) : Prop :=
  entryOk e ∧ in_i 64 (Plan.MtimeSec e) ∧ in_u 32 (Plan.MtimeNsec e) ∧ in_u 64 (Plan.HardlinkKey e) ∧ 0 <= Plan.Mode e.

Lemma land1_wrap x : Z.land (wrap_u 16 x) 1 = Z.land x 1.
Proof.
  change 1 with (Z.ones 1) at 1 2. rewrite !Z.land_ones by lia. unfold wrap_u.
  change (2 ^ 16) with (2 ^ 1 * 2 ^ 15). rewrite Z.rem_mul_r by lia.
  by rewrite Z.mul_comm, Z.mod_add, Z.mod_mod by lia.
Qed.

Lemma hasKey_wire e quick hash id : hasHardlinkKey (ManifestEntry.Flags (manifestEntry quick hash id e)) = hasKey e.
Proof.
  unfold hasHardlinkKey, hasKey, ManifestFlagHasHardlinkKey, FlagHasHardlinkKey. cbn [ManifestEntry.Flags manifestEntry].
  by rewrite land1_wrap.
Qed.

Lemma symlink_wire e quick hash id :
  (ManifestEntry.EntryType (manifestEntry quick hash id e) =? 2) = bool_decide (Typ e = TypeSymlink).
Proof. cbn. by destruct (Typ e). Qed.

Lemma digest_short e quick (hash : Z → option bytes) id :
  (∀ i d, hash i = Some d → short maxDigest d) →
  short maxDigest (ManifestEntry.Digest (manifestEntry quick hash id e)) ∧
  (Typ e ≠ TypeFile → ManifestEntry.Digest (manifestEntry quick hash id e) = []).
Proof.
  intros Hh. cbn [ManifestEntry.Digest manifestEntry]. unfold hashed. split.
  - destruct (_ || _); [by vm_compute|]. destruct (hash id) eqn:E; [by eapply Hh|by vm_compute].
  - intros Hne. by rewrite bool_decide_false.
Qed.

(** The planner's estimate is an upper bound of what is written. *)
Lemma manifestEntry_size e quick (hash : Z → option bytes) id :
  (∀ i d, hash i = Some d → short maxDigest d) →
  Z.of_nat (length (encodeManifestEntry (manifestEntry quick hash id e))) <= manifestEntrySize e.
Proof.
  intros Hh. destruct (digest_short e quick hash id Hh) as [Hs Hd].
  rewrite length_entry, hasKey_wire, symlink_wire.
  unfold manifestEntrySize, ManifestEntrySize, MaxDigestBytes, short in *.
  cbn [ManifestEntry.Path ManifestEntry.LinkTarget manifestEntry] in *.
  change (toSlashBytes (RelPath e)) with (RelPath e).
  destruct (decide (Typ e = TypeFile)) as [E|E].
  - rewrite E in *. cbn [bool_decide] in *. repeat case_bool_decide; try done; destruct (hasKey e); lia.
  - rewrite (Hd E). cbn [length]. repeat case_bool_decide; try done; destruct (hasKey e); lia.
Qed.

Lemma manifestEntry_wf e quick hash id :
  wireOk e → (∀ i d, hash i = Some d → short maxDigest d) → wf_entry (manifestEntry quick hash id e).
Proof.
  intros ((Hs & Hp & Hl) & Hm & Hn & Hk & Hmode) Hh. unfold wf_entry. rewrite hasKey_wire, symlink_wire.
  destruct (digest_short e quick hash id Hh) as [Hd _].
  cbn [ManifestEntry.EntryType ManifestEntry.Flags ManifestEntry.Path ManifestEntry.Size ManifestEntry.Mode
       ManifestEntry.MtimeSec ManifestEntry.MtimeNsec ManifestEntry.LinkTarget ManifestEntry.HardlinkKey manifestEntry] in *.
  split_and!; try done.
  - by destruct (Typ e).
  - apply wrap_u_range; lia.
  - apply wrap_u_range; lia.
  - unfold Perm. change 511 with (Z.ones 9). rewrite Z.land_ones by lia.
    pose proof (Z.mod_pos_bound (Plan.Mode e) (2 ^ 9)). unfold in_u. lia.
  - by case_bool_decide.
  - by destruct (hasKey e).
Qed.

Lemma encoded_group quick hash : (∀ i d, hash i = Some d → short maxDigest d) → ∀ es (f : nat → Z),
  Z.of_nat (length (mjoin (encodeManifestEntry <$> imap (λ i e, manifestEntry quick hash (f i) e) es))) <= sumM es.
Proof.
  intros Hh. induction es as [|e es IH]; intros f; [cbn; lia|].
  rewrite imap_cons, fmap_cons, mjoin_cons, length_app.
  pose proof (manifestEntry_size e quick hash (f 0%nat) Hh). specialize (IH (f ∘ S)).
  change (sumM (e :: es)) with (manifestEntrySize e + sumM es). unfold compose in *. lia.
Qed.

Lemma group_size target g : groupOk target g → Forall entryOk g → sumM g <= MaxGroupManifestEntryBytes.
Proof.
  intros (_ & _ & _ & [Hl|Hm]) Hok; [|exact Hm].
  destruct g as [|e [|]]; try done. rewrite sumM_one.
  rewrite Forall_singleton in Hok. apply entryOk_sizes in Hok as [_ ?].
  assert (8300 <= MaxGroupManifestEntryBytes) by (vm_compute; discriminate). lia.
Qed.

(** ** Properties *)
Section manifest_theorems.
Context `{PlanEnv}.

Definition entriesOk (opts : Options) (es : list Entry) : Prop :=
  GroupBytes opts < 2 ^ 62 ∧ Forall wireOk es ∧ Z.of_nat (length es) < 2 ^ 32.

Lemma kept_wireOk opts es : Forall wireOk es → Forall wireOk (entries (planOf opts es)).
Proof.
  intros Hok. apply Forall_fmap, Forall_forall. intros k Hk.
  apply kept_elem in Hk as (e & He & _ & ->). eapply Forall_forall in Hok; [|exact He].
  destruct Hok as (He1 & Hrest). split; [by apply keyOf_entryOk|].
  cbn. unfold keyOf. destruct (orderingKey _) as [? []]; cbn; by destruct (classify_slash opts e) as [_ ->].
Qed.

Lemma kept_length opts es : (length (entries (planOf opts es)) <= length es)%nat.
Proof.
  cbn. rewrite length_fmap, kept_perm, length_fmap.
  etrans; [apply length_filter|]. by rewrite length_fmap.
Qed.

Lemma wireOk_limits opts es : entriesOk opts es → limitsOk opts es.
Proof. intros (? & Hw & _). split; [done|]. eapply Forall_impl; [exact Hw|]. by intros e []. Qed.

Lemma group_lookup_ok opts es p gi g :
  p = planOf opts es → entriesOk opts es → Groups p !! gi = Some g →
  groupOk (groupTarget (GroupBytes opts)) g ∧ Forall wireOk g ∧
  GroupFirstID p gi = Z.of_nat (length (mjoin (take gi (Groups p)))) ∧
  (length (mjoin (take gi (Groups p))) + length g <= length es)%nat ∧ (gi < length es)%nat.
Proof.
  intros -> Hok Hg. pose proof (wireOk_limits _ _ Hok) as Hl. destruct Hok as (_ & Hw & _).
  rewrite planOf_Groups in * by done.
  assert (Hgi := lookup_lt_Some _ _ _ Hg).
  assert (Hgo : groupOk (groupTarget (GroupBytes opts)) g).
  { eapply Forall_lookup_1; [apply planGroups_ok|exact Hg]. }
  assert (Hlen : length (entries (planOf opts es)) =
    (length (mjoin (take gi (planGroups opts es))) + (length g + length (mjoin (drop (S gi) (planGroups opts es)))))%nat).
  { by rewrite planOf_entries, (join_middle _ _ _ Hg), !length_app. }
  pose proof (kept_length opts es) as Hk.
  split_and!; [done| | |lia|].
  - pose proof (kept_wireOk opts es Hw) as Hall.
    rewrite planOf_entries, (join_middle _ _ _ Hg), !Forall_app in Hall. tauto.
  - unfold GroupFirstID. rewrite planOf_startAt by (done || lia). done.
  - assert (Hpos : ∀ n (l : list (list Entry)), (n <= length l)%nat → Forall (λ g, g ≠ []) l → (n <= length (mjoin (take n l)))%nat).
    { induction n as [|n IH]; intros [|x l] Hn Hf; cbn [take length] in *; try lia.
      inversion Hf; subst. rewrite mjoin_cons, length_app. destruct x; [done|]. cbn [length].
      specialize (IH l ltac:(lia) ltac:(done)). lia. }
    assert (gi <= length (mjoin (take gi (planGroups opts es))))%nat.
    { apply Hpos; [lia|]. eapply Forall_impl; [apply planGroups_ok|]. by intros ? []. }
    destruct Hgo as (Hne & _). destruct g; [done|]. cbn [length] in Hlen. lia.
Qed.

(** C29: every GROUP_MANIFEST the sender publishes for a plan gets through: its
    frame is below the control channel's record ceiling, so the record writer
    accepts it, and the peer's [Unmarshal] returns exactly the manifest that was
    sent, whatever the file digests turn out to be (at most 64 bytes). *)
Theorem group_manifests_delivered es opts p quick hash gi g :
  Build es opts = Ok p → entriesOk opts es →
  (∀ i d, hash i = Some d → short maxDigest d) → Groups p !! gi = Some g →
  let m := MGroupManifest (publishGroup quick hash p gi g) in
  Marshal m ≠ [] ∧ Z.of_nat (length (Marshal m)) < maxCT 0 ∧ Unmarshal (Marshal m) = Ok m.
Proof.
  rewrite Build_eq. destruct (validateFilters _); [done|]. intros E.
  assert (p = planOf opts es) as -> by congruence. clear E. intros Hok Hh Hg m.
  destruct (group_lookup_ok opts es _ gi g eq_refl Hok Hg) as (Hgo & Hw & Hfirst & Hlen & Hgi).
  destruct Hok as (_ & _ & Hn).
  assert (Hsum : sumM g <= MaxGroupManifestEntryBytes).
  { eapply group_size; [exact Hgo|]. eapply Forall_impl; [exact Hw|]. by intros e []. }
  pose proof (encoded_group quick hash Hh g (λ i, GroupFirstID (planOf opts es) gi + Z.of_nat i)) as Henc.
  assert (Hl : Z.of_nat (length (Marshal m)) <= MaxGroupManifestFrameBytes).
  { unfold m, publishGroup. rewrite length_GroupManifest.
    unfold MaxGroupManifestEntryBytes in Hsum. lia. }
  split_and!.
  - intros E. pose proof (length_Marshal m) as Hm. rewrite E in Hm. unfold FrameHeaderLen in Hm. cbn [length] in Hm. lia.
  - eapply Z.le_lt_trans; [exact Hl|]. by vm_compute.
  - apply unmarshal_frame.
    2:{ etrans; [exact Hl|]. by vm_compute. }
    unfold m, publishGroup; cbn [wf_message]. split_and!.
    + apply wrap_u_range; lia.
    + rewrite Hfirst. unfold in_u. lia.
    + rewrite length_imap. destruct Hgo as (_ & Hc & _). exact Hc.
    + apply Forall_lookup_2. intros i e He. rewrite list_lookup_imap in He.
      destruct (g !! i) as [e0|] eqn:E0; [|done]. cbn in He. injection He as <-.
      apply manifestEntry_wf; [|done]. by eapply Forall_lookup_1 in Hw.
Qed.

(** Both ends mean the same file by a file id: entry [i] of the manifest of a
    group describes the plan entry whose position is the manifest's first file
    id plus [i], and every plan entry is described by some group's manifest under
    its own position. *)
Theorem manifests_cover_plan es opts p quick hash :
  Build es opts = Ok p → entriesOk opts es →
  (∀ gi g i me, Groups p !! gi = Some g →
     GroupManifest.Entries (publishGroup quick hash p gi g) !! i = Some me →
     ∃ n e, GroupManifest.FirstFileID (publishGroup quick hash p gi g) + Z.of_nat i = Z.of_nat n ∧
            entries p !! n = Some e ∧ me = manifestEntry quick hash (Z.of_nat n) e) ∧
  (∀ n e, entries p !! n = Some e →
     ∃ gi g i, Groups p !! gi = Some g ∧
       GroupManifest.FirstFileID (publishGroup quick hash p gi g) + Z.of_nat i = Z.of_nat n ∧
       GroupManifest.Entries (publishGroup quick hash p gi g) !! i = Some (manifestEntry quick hash (Z.of_nat n) e)).
Proof.
  rewrite Build_eq. destruct (validateFilters _); [done|]. intros E.
  assert (p = planOf opts es) as -> by congruence. clear E. intros Hok.
  pose proof (wireOk_limits _ _ Hok) as Hl.
  assert (Hsl : ∀ gi g i, Groups (planOf opts es) !! gi = Some g → (i < length g)%nat →
    let n := (length (mjoin (take gi (Groups (planOf opts es)))) + i)%nat in
    GroupFirstID (planOf opts es) gi + Z.of_nat i = Z.of_nat n ∧ entries (planOf opts es) !! n = g !! i).
  { intros gi g i Hg Hi. destruct (group_lookup_ok opts es _ gi g eq_refl Hok Hg) as (_ & _ & -> & _).
    cbn zeta. split; [lia|]. rewrite planOf_Groups in * by done.
    rewrite planOf_entries, (join_middle _ _ _ Hg).
    by rewrite lookup_app_r, Nat.add_comm, Nat.add_sub, lookup_app_l by lia. }
  split.
  - intros gi g i me Hg He. cbn [GroupManifest.Entries GroupManifest.FirstFileID publishGroup] in *.
    rewrite list_lookup_imap in He. destruct (g !! i) as [e|] eqn:Ei; [|done]. cbn in He. injection He as <-.
    destruct (Hsl gi g i Hg) as [Hn He]; [by eapply lookup_lt_Some|].
    eexists _, e. rewrite Hn. split_and!; [done|by rewrite He|done].
  - intros n e He. assert (Hn := lookup_lt_Some _ _ _ He).
    rewrite planOf_entries in Hn. destruct (lookup_mjoin_group _ _ Hn) as (gi & Hgi & Hb).
    destruct (lookup_lt_is_Some_2 _ _ Hgi) as [g Hg].
    rewrite (take_S_r _ _ _ Hg), join_app, mjoin_one, length_app in Hb.
    rewrite <- planOf_Groups in Hg, Hb by done.
    set (i := (n - length (mjoin (take gi (Groups (planOf opts es)))))%nat).
    destruct (Hsl gi g i Hg) as [Hid Hei]; [unfold i; lia|]. cbn zeta in *.
    replace (length (mjoin (take gi (Groups (planOf opts es)))) + i)%nat with n in * by (unfold i; lia).
    exists gi, g, i. cbn [GroupManifest.Entries GroupManifest.FirstFileID publishGroup].
    split_and!; [done|done|]. rewrite list_lookup_imap, <- Hei, He. cbn. by rewrite Hid.
Qed.

(** What the digest store holds after a group: its hashes on the group's ids, and
    what it held elsewhere. *)
Lemma hashGroup_lookup quick hash es id d k :
  hashGroup quick hash id es d !! k =
    if bool_decide (id <= k < id + Z.of_nat (length es)) then
      match es !! Z.to_nat (k - id) ≫= hashed quick hash k with Some dg => Some dg | None => d !! k end
    else d !! k.
Proof.
  revert id d. induction es as [|e es IH]; intros id d; cbn [hashGroup length].
  { by rewrite bool_decide_false by lia. }
  rewrite IH. destruct (decide (k = id)) as [->|Hne].
  - rewrite bool_decide_false, bool_decide_true by lia. rewrite Z.sub_diag.
    change ((e :: es) !! Z.to_nat 0) with (Some e). cbn [mbind option_bind].
    destruct (hashed quick hash id e); [apply lookup_insert_eq|done].
  - assert (Hd : (match hashed quick hash id e with Some dg => digestStore.set id dg d | None => d end : digestStore.t) !! k = d !! k).
    { destruct (hashed _ _ _ _); [by apply lookup_insert_ne|done]. }
    rewrite Hd. destruct (decide (id + 1 <= k < id + 1 + Z.of_nat (length es))).
    + rewrite !bool_decide_true by lia. by replace (Z.to_nat (k - id)) with (S (Z.to_nat (k - (id + 1)))) by lia.
    + rewrite !bool_decide_false by lia. done.
Qed.

(** The groups' first ids are consecutive from group [gi] on. *)
Definition firstIDs (p : Plan) (gi : nat) (gs : list (list Entry)) : Prop :=
  ∀ j g, gs !! j = Some g → GroupFirstID p (gi + j) = GroupFirstID p gi + Z.of_nat (length (mjoin (take j gs))).

Lemma publishLoop_spec env quick hash p gs : ∀ gi d ms r d',
  firstIDs p gi gs → publishLoop env quick hash p gi gs d = (ms, r, d') →
  (∃ k, ms = take k (imap (λ j es, MGroupManifest (publishGroup quick hash p (gi + j) es)) gs)) ∧
  (r = None → length ms = length gs) ∧
  (∀ k, gs = [] ∨ k < GroupFirstID p gi → d' !! k = d !! k) ∧
  (∀ j g i e, (j < length ms)%nat → gs !! j = Some g → g !! i = Some e →
     creditWait env (gi + j) = None ∧
     (d !! (GroupFirstID p (gi + j) + Z.of_nat i) = None →
      d' !! (GroupFirstID p (gi + j) + Z.of_nat i) = hashed quick hash (GroupFirstID p (gi + j) + Z.of_nat i) e)).
Proof.
  induction gs as [|es gs IH]; intros gi d ms r d' Hf E; cbn [publishLoop] in E.
  { injection E as <- <- <-. split_and!; [by exists 0%nat|done|done|]. intros j g i e Hj. by cbn in Hj; lia. }
  destruct (creditWait env gi) as [e|] eqn:Ec.
  { injection E as <- <- <-. split_and!; [by exists 0%nat|done|done|]. intros j g i e' Hj. by cbn in Hj; lia. }
  destruct (groupSend env gi) as [e|] eqn:Es.
  { injection E as <- <- <-. split_and!; [by exists 0%nat|done| |].
    - intros k [?|Hk]; [done|]. rewrite hashGroup_lookup. by rewrite bool_decide_false by lia.
    - intros j g i e' Hj. by cbn in Hj; lia. }
  destruct (publishLoop env quick hash p (S gi) gs _) as [[ms0 r0] d0] eqn:E0. injection E as <- <- <-.
  assert (Hnext : gs ≠ [] → GroupFirstID p (S gi) = GroupFirstID p gi + Z.of_nat (length es)).
  { intros Hne. destruct gs as [|g gs]; [done|]. specialize (Hf 1%nat g eq_refl). rewrite Nat.add_1_r in Hf.
    rewrite Hf. cbn [take]. by rewrite mjoin_one. }
  assert (Hf' : firstIDs p (S gi) gs).
  { intros j g Hg. assert (Hne : gs ≠ []) by by destruct gs.
    specialize (Hf (S j) g Hg). rewrite Nat.add_succ_r in Hf. rewrite Nat.add_succ_l, Hf, Hnext by done.
    cbn [take]. rewrite mjoin_cons, length_app. lia. }
  apply IH in E0 as ((k & ->) & Hlen & Hlow & Hids); [|exact Hf'].
  assert (Hlow' : ∀ k, k < GroupFirstID p gi + Z.of_nat (length es) → d0 !! k = hashGroup quick hash (GroupFirstID p gi) es d !! k).
  { intros k' Hk'. apply Hlow. destruct gs; [by left|right]. rewrite Hnext by done. lia. }
  split_and!.
  - exists (S k). rewrite imap_cons, Nat.add_0_r. cbn [take]. do 2 f_equal. apply imap_ext. intros j g _. cbn. by rewrite Nat.add_succ_r.
  - intros Hr. cbn [length]. by rewrite Hlen.
  - intros k' [?|Hk']; [done|]. rewrite Hlow' by lia. rewrite hashGroup_lookup. by rewrite bool_decide_false by lia.
  - intros [|j] g i e Hj Hg Hi.
    + injection Hg as <-. rewrite Nat.add_0_r. split; [done|]. intros Hd.
      pose proof (lookup_lt_Some _ _ _ Hi). rewrite Hlow' by lia.
      rewrite hashGroup_lookup, bool_decide_true by lia.
      replace (Z.to_nat _) with i by lia. rewrite Hi. cbn. rewrite Hd. by destruct (hashed _ _ _ _).
    + cbn [length] in Hj. rewrite Nat.add_succ_r. destruct (Hids j g i e) as [Hc Hh]; [lia|done|done|].
      rewrite Nat.add_succ_l in *. split; [done|]. intros Hd. apply Hh.
      rewrite hashGroup_lookup, bool_decide_false; [done|].
      assert (Hne : gs ≠ []) by by destruct gs. specialize (Hf' j g Hg). rewrite Nat.add_succ_l, Hnext in Hf' by done. lia.
Qed.

Lemma publishLoop_exit env quick hash p gs : ∀ gi d ms r d',
  publishLoop env quick hash p gi gs d = (ms, r, d') → length ms = length gs → r = None.
Proof.
  induction gs as [|es gs IH]; intros gi d ms r d' E Hl; cbn [publishLoop] in E; [by injection E|].
  destruct (creditWait env gi); [by injection E as <-|]. destruct (groupSend env gi); [by injection E as <-|].
  destruct (publishLoop _ _ _ _ _ _ _) as [[ms0 r0] d0] eqn:E0. injection E as <- <- <-.
  eapply IH; [exact E0|]. by injection Hl.
Qed.

(** Whatever wait or send fails, the publisher sends SCAN_COMPLETE and then the
    group manifests in order, up to the failure and no further, each manifest
    only after its credit; it returns no error exactly when everything went out;
    and the digest in a published entry is the one the digest store keeps for
    serving that file. *)
Theorem publisher_run es opts p env quick hash skipped ms r d :
  Build es opts = Ok p → entriesOk opts es → run env quick hash p skipped = (ms, r, d) →
  let all := MScanComplete (scanComplete p skipped) :: manifests quick hash p in
  (∃ k, ms = take k all) ∧ (r = None ↔ ms = all) ∧
  (∀ gi gm i me, ms !! S gi = Some (MGroupManifest gm) → GroupManifest.Entries gm !! i = Some me →
     creditWait env gi = None ∧
     (digestStore.get (GroupManifest.FirstFileID gm + Z.of_nat i) d).1 = ManifestEntry.Digest me).
Proof.
  rewrite Build_eq. destruct (validateFilters _); [done|]. intros E.
  assert (p = planOf opts es) as -> by congruence. clear E. intros Hok E. cbv zeta.
  unfold run in E. destruct (scanSend env); [injection E as <- <- <-; split_and!; [by exists 0%nat|done|]; intros ?????; done|].
  destruct (publishLoop _ _ _ _ _ _ _) as [[ms0 r0] d0] eqn:E0. injection E as <- <- <-.
  assert (Hfirst : firstIDs (planOf opts es) 0 (Groups (planOf opts es))).
  { intros j g Hg. change (0 + j)%nat with j. assert (Hfst := group_lookup_ok opts es _ j g eq_refl Hok Hg). destruct Hfst as (_ & _ & -> & _).
    destruct (lookup_lt_is_Some_2 (Groups (planOf opts es)) 0) as [g0 Hg0]; [apply lookup_lt_Some in Hg; lia|].
    destruct (group_lookup_ok opts es _ 0 g0 eq_refl Hok Hg0) as (_ & _ & -> & _). done. }
  pose proof (publishLoop_exit _ _ _ _ _ _ _ _ _ _ E0) as Hexit.
  apply publishLoop_spec in E0 as ((k & Hms) & Hlen & _ & Hids); [|exact Hfirst].
  assert (Hall : manifests quick hash (planOf opts es) =
    imap (λ j es0, MGroupManifest (publishGroup quick hash (planOf opts es) (0 + j) es0)) (Groups (planOf opts es))) by done.
  split_and!.
  - exists (S k). by rewrite Hall, Hms.
  - rewrite Hall. split; intros Hr.
    + f_equal. rewrite Hms. apply take_ge. rewrite length_imap, <- Hlen by done. rewrite Hms, length_take, length_imap in *. lia.
    + apply Hexit. injection Hr as Hr. by rewrite Hr, length_imap.
  - intros gi gm i me Hgm Hme. cbn [lookup list_lookup] in Hgm. change (ms0 !! gi = Some (MGroupManifest gm)) in Hgm.
    assert (Hlt := lookup_lt_Some _ _ _ Hgm).
    rewrite Hms in Hgm. apply lookup_take_Some in Hgm as [Hgm _]. rewrite list_lookup_imap in Hgm.
    destruct (Groups _ !! gi) as [g|] eqn:Hg; [|done]. injection Hgm as <-.
    cbn [GroupManifest.Entries GroupManifest.FirstFileID publishGroup] in *. rewrite list_lookup_imap in Hme.
    destruct (g !! i) as [e|] eqn:He; [|done]. injection Hme as <-.
    destruct (Hids gi g i e Hlt Hg He) as [Hc Hh]. split; [exact Hc|]. cbn [Nat.add] in Hh.
    unfold digestStore.get. rewrite Hh by done. cbn [ManifestEntry.Digest manifestEntry]. by destruct (hashed _ _ _ _).
Qed.
End manifest_theorems.

(** *** Witnesses *)
#[local] Existing Instance toy_plan_env.
Definition ex_hash (id : Z) : option bytes := Some (replicate 16 (byte_of_Z id)).

Lemma ex_entriesOk : entriesOk ex_opts ex_entries.
Proof. split_and!; [vm_compute; done| |vm_compute; done]. repeat constructor; vm_compute; done. Qed.
Lemma ex_hash_ok i d : ex_hash i = Some d → short maxDigest d.
Proof. intros [= <-]. vm_compute. done. Qed.

Lemma group_manifests_delivered_witness :
  let m := MGroupManifest (publishGroup false ex_hash ex_plan 2 [ex_file "b.txt" 5]) in
  Unmarshal (Marshal m) = Ok m.
Proof.
  apply (group_manifests_delivered ex_entries ex_opts ex_plan false ex_hash 2 [ex_file "b.txt" 5]
           ex_Build ex_entriesOk ex_hash_ok).
  vm_compute. reflexivity.
Defined.

Lemma manifests_cover_plan_witness :
  ∃ gi g i, Groups ex_plan !! gi = Some g ∧
    GroupManifest.Entries (publishGroup false ex_hash ex_plan gi g) !! i =
      Some (manifestEntry false ex_hash 2 (ex_file "b.txt" 5)).
Proof.
  destruct (manifests_cover_plan ex_entries ex_opts ex_plan false ex_hash ex_Build ex_entriesOk) as [_ H].
  destruct (H 2%nat (ex_file "b.txt" 5)) as (gi & g & i & Hg & _ & He); [vm_compute; reflexivity|].
  exists gi, g, i. split; [exact Hg|exact He].
Defined.

(** The second group gets no credit: only the first manifest goes out. *)
Definition ex_penv : penv := mkPenv None (λ gi, if (gi =? 1)%nat then Some StdCanceled else None) (λ _, None).
Definition ex_run : list Message * option gerr * digestStore.t := run ex_penv false ex_hash ex_plan 0.
Lemma publisher_run_witness :
  length ex_run.1.1 = 2%nat ∧ bool_decide (ex_run.1.2 = None) = false ∧
  (∃ k, ex_run.1.1 = take k (MScanComplete (scanComplete ex_plan 0) :: manifests false ex_hash ex_plan)).
Proof.
  split; [vm_compute; reflexivity|]. split; [vm_compute; reflexivity|].
  assert (E : run ex_penv false ex_hash ex_plan 0 = (ex_run.1.1, ex_run.1.2, ex_run.2)).
  { change (ex_run = (ex_run.1.1, ex_run.1.2, ex_run.2)). by destruct ex_run as [[??]?]. }
  exact (proj1 (publisher_run ex_entries ex_opts ex_plan ex_penv false ex_hash 0 _ _ _ ex_Build ex_entriesOk E)).
Defined.
