(* ===== verification/Fs.v ===== *)
(** * Fs: the file system behind an [os.Root]

    The destination tree as the receiver sees it through Go's [os.Root]: names
    map to directories, inodes and symbolic links; every operation resolves its
    path component by component, follows a symbolic link only while it stays
    under the root, and may fail with an injected I/O fault instead of running.
    Also [path.Clean], [path.Dir] and [path.Join]. *)
From S2P Require Import Prelude Fault Strconv Glob.

Abbreviation path := (list bytes).
Definition dot : bytes := bs ".".
Definition dotdot : bytes := bs "..".

(** The components of a slash-separated name; empty ones and ["."] do not move. *)
Definition comps (s : bytes) : path := filter (λ c, c ≠ [] ∧ c ≠ dot) (Split c_slash s).

(** ** package path *)
Fixpoint joinWith (sep : bytes) (cs : list bytes) : bytes :=
  match cs with
  | [] => []
  | [c] => c
  | c :: cs => c ++ sep ++ joinWith sep cs
  end.

Definition rooted (s : bytes) : bool := HasPrefix s [c_slash].

(** [path.Clean] on components: [out] is the output so far, innermost first. *)
Fixpoint cleanComps (root : bool) (out : path) (cs : path) : path :=
  match cs with
  | [] => reverse out
  | c :: cs =>
      if bool_decide (c = dotdot) then
        match out with
        | o :: out' => if bool_decide (o = dotdot) then cleanComps root (dotdot :: out) cs else cleanComps root out' cs
        | [] => if root then cleanComps root [] cs else cleanComps root [dotdot] cs
        end
      else cleanComps root (c :: out) cs
  end.
Definition Clean (s : bytes) : bytes :=
  let r := rooted s in
  let body := joinWith [c_slash] (cleanComps r [] (comps s)) in
  if r then c_slash :: body else if bool_decide (body = []) then dot else body.
Definition Dir (s : bytes) : bytes :=
  Clean (match LastIndexByte s c_slash with Some i => take (S i) s | None => [] end).
Definition Join2 (a b : bytes) : bytes :=
  if bool_decide (a = []) then (if bool_decide (b = []) then [] else Clean b)
  else if bool_decide (b = []) then Clean a else Clean (a ++ [c_slash] ++ b).

(** ** The tree *)
Record meta := mkMeta { md_mode : Z; md_mtime : Z * Z }.
Record inode := mkInode { i_content : bytes; i_meta : meta }.
Inductive node := NDir (m : meta) | NFile (i : Z) | NLink (target : bytes).
Record fs := mkFs { nodes : gmap path node; inodes : gmap Z inode; nextIno : Z }.

Definition emptyFs : fs := mkFs {[ [] := NDir (mkMeta 493 (0, 0)) ]} ∅ 0.

Definition setNode (p : path) (n : node) (s : fs) : fs := mkFs (<[p := n]> (nodes s)) (inodes s) (nextIno s).
Definition delNode (p : path) (s : fs) : fs := mkFs (delete p (nodes s)) (inodes s) (nextIno s).
Definition setInode (i : Z) (x : inode) (s : fs) : fs := mkFs (nodes s) (<[i := x]> (inodes s)) (nextIno s).

Definition escapes : stdErr := StdOther "path escapes from parent".
Definition notDir : stdErr := StdOther "not a directory".
Definition tooManyLinks : stdErr := StdOther "too many levels of symbolic links".

(** Resolve [rest] from the directory [cur]; [follow]: also a final link.  The
    fuel is the number of links that may be followed. *)
Fixpoint resolve (links : nat) (s : fs) (follow : bool) : path → path → result stdErr path :=
  fix go (cur rest : path) {struct rest} : result stdErr path :=
    match rest with
    | [] => Ok cur
    | c :: rest =>
        if bool_decide (c = dotdot) then
          match reverse cur with [] => Err escapes | _ :: up => go (reverse up) rest end
        else
          match nodes s !! (cur ++ [c]) with
          | None => match rest with [] => Ok (cur ++ [c]) | _ => Err StdNotExist end
          | Some (NDir _) => go (cur ++ [c]) rest
          | Some (NFile _) => match rest with [] => Ok (cur ++ [c]) | _ => Err notDir end
          | Some (NLink t) =>
              if bool_decide (rest = []) && negb follow then Ok (cur ++ [c])
              else if rooted t then Err escapes
              else match links with
                   | O => Err tooManyLinks
                   | S links => resolve links s follow cur (comps t ++ rest)
                   end
          end
    end.
Definition maxLinks : nat := 255.
Definition locate (s : fs) (follow : bool) (rel : bytes) : result stdErr path := resolve maxLinks s follow [] (comps rel).

(** ** Operations *)
Inductive ioFault := FPermission | FNoSpace | FOther (msg : string).
Definition ioErr (x : ioFault) : stdErr :=
  match x with FPermission => StdPermission | FNoSpace => StdNoSpace | FOther m => StdOther m end.

(** The tree and the faults of the coming operations (none once exhausted). *)
Record world := mkWorld { w_fs : fs; w_faults : list (option ioFault) }.
Abbreviation IO := (SE world stdErr).

Definition sys {A} (m : fs → result stdErr A * fs) : IO A := λ w,
  match w_faults w with
  | Some x :: fl => (Err (ioErr x), mkWorld (w_fs w) fl)
  | fl => let '(r, s) := m (w_fs w) in (r, mkWorld s (tail fl))
  end.

(** The node a name resolves to. *)
Definition stat_ (follow : bool) (rel : bytes) (s : fs) : result stdErr (path * node) :=
  p ← locate s follow rel;
  match nodes s !! p with Some n => Ok (p, n) | None => Err StdNotExist end.

Definition Lstat (rel : bytes) : IO node := sys (λ s, (x ← stat_ false rel s; mret x.2, s)).
Definition Readlink (rel : bytes) : IO bytes :=
  sys (λ s, (x ← stat_ false rel s; match x.2 with NLink t => Ok t | _ => Err (StdOther "invalid argument") end, s)).

(** [MkdirAll]: every missing directory of the path, left to right. *)
Fixpoint mkdirs (mode : Z) (cur rest : path) (s : fs) : result stdErr unit * fs :=
  match rest with
  | [] => (Ok (), s)
  | c :: rest =>
      match resolve maxLinks s true cur [c] with
      | Err e => (Err e, s)
      | Ok p =>
          match nodes s !! p with
          | Some (NDir _) => mkdirs mode p rest s
          | Some _ => (Err notDir, s)
          | None => mkdirs mode p rest (setNode p (NDir (mkMeta mode (0, 0))) s)
          end
      end
  end.
Definition MkdirAll (rel : bytes) (mode : Z) : IO unit := sys (mkdirs mode [] (comps rel)).

Definition updMeta (p : path) (n : node) (f : meta → meta) (s : fs) : fs :=
  match n with
  | NDir m => setNode p (NDir (f m)) s
  | NFile i => match inodes s !! i with Some x => setInode i (mkInode (i_content x) (f (i_meta x))) s | None => s end
  | NLink _ => s
  end.
Definition Chmod (rel : bytes) (mode : Z) : IO unit :=
  sys (λ s, match stat_ true rel s with
            | Ok (p, n) => (Ok (), updMeta p n (λ m, mkMeta mode (md_mtime m)) s)
            | Err e => (Err e, s)
            end).
(** A zero access time leaves it alone; only the modification time is kept. *)
Definition Chtimes (rel : bytes) (mtime : Z * Z) : IO unit :=
  sys (λ s, match stat_ true rel s with
            | Ok (p, n) => (Ok (), updMeta p n (λ m, mkMeta (md_mode m) mtime) s)
            | Err e => (Err e, s)
            end).

(** The directory of a resolved path exists. *)
Definition parentOk (p : path) (s : fs) : bool :=
  match reverse p with
  | [] => false
  | _ :: up => match nodes s !! reverse up with Some (NDir _) => true | _ => false end
  end.

(** A new file: a fresh inode under a name that was free. *)
Definition createFile (p : path) (x : inode) (s : fs) : fs :=
  mkFs (<[p := NFile (nextIno s)]> (nodes s)) (<[nextIno s := x]> (inodes s)) (nextIno s + 1).
(** [OpenFile(O_CREATE|O_WRONLY)]: the inode, created empty when absent. *)
Definition OpenCreate (rel : bytes) (mode : Z) : IO Z :=
  sys (λ s, match locate s true rel with
            | Err e => (Err e, s)
            | Ok p =>
                match nodes s !! p with
                | Some (NFile i) => (Ok i, s)
                | Some _ => (Err (StdOther "is a directory"), s)
                | None =>
                    if parentOk p s then
                      (Ok (nextIno s), createFile p (mkInode [] (mkMeta mode (0, 0))) s)
                    else (Err StdNotExist, s)
                end
            end).
Definition OpenRead (rel : bytes) : IO Z :=
  sys (λ s, (x ← stat_ true rel s; match x.2 with NFile i => Ok i | _ => Err (StdOther "is a directory") end, s)).
(** Writes to an open file. *)
Definition WriteInode (i : Z) (data : bytes) : IO unit :=
  sys (λ s, match inodes s !! i with
            | Some x => (Ok (), setInode i (mkInode (i_content x ++ data) (i_meta x)) s)
            | None => (Err (StdOther "bad file descriptor"), s)
            end).
Definition TruncateInode (i : Z) : IO unit :=
  sys (λ s, match inodes s !! i with
            | Some x => (Ok (), setInode i (mkInode [] (i_meta x)) s)
            | None => (Err (StdOther "bad file descriptor"), s)
            end).
(** [Sync], [Seek] and [Close]: nothing the tree shows, but they can fail. *)
Definition Flush : IO unit := sys (λ s, (Ok (), s)).

Definition hasChildren (p : path) (s : fs) : bool :=
  bool_decide (map_Exists (λ q _, length q = S (length p) ∧ take (length p) q = p) (nodes s)).

Definition RenameTo (old new : bytes) : IO unit :=
  sys (λ s, match stat_ false old s, locate s false new with
            | Err e, _ | _, Err e => (Err e, s)
            | Ok (po, n), Ok pn =>
                match n, nodes s !! pn with
                | NDir _, _ => (Err (StdOther "is a directory"), s)
                | _, Some (NDir _) => (Err StdExist, s)
                | NFile i, Some (NFile j) =>
                    (* two names of one file: rename(2) does nothing *)
                    if bool_decide (i = j) then (Ok (), s)
                    else if parentOk pn s then (Ok (), setNode pn n (delNode po s)) else (Err StdNotExist, s)
                | _, _ =>
                    if bool_decide (po = pn) then (Ok (), s)
                    else if parentOk pn s then (Ok (), setNode pn n (delNode po s)) else (Err StdNotExist, s)
                end
            end).
Definition Remove (rel : bytes) : IO unit :=
  sys (λ s, match stat_ false rel s with
            | Err e => (Err e, s)
            | Ok (p, NDir _) =>
                if bool_decide (p = []) || hasChildren p s then (Err (StdOther "directory not empty"), s)
                else (Ok (), delNode p s)
            | Ok (p, _) => (Ok (), delNode p s)
            end).
Definition Symlink (target rel : bytes) : IO unit :=
  sys (λ s, match locate s false rel with
            | Err e => (Err e, s)
            | Ok p =>
                if bool_decide (is_Some (nodes s !! p)) then (Err StdExist, s)
                else if parentOk p s then (Ok (), setNode p (NLink target) s) else (Err StdNotExist, s)
            end).
Definition Link (old new : bytes) : IO unit :=
  sys (λ s, match stat_ false old s, locate s false new with
            | Err e, _ | _, Err e => (Err e, s)
            | Ok (_, NDir _), _ => (Err StdPermission, s)
            | Ok (_, n), Ok pn =>
                if bool_decide (is_Some (nodes s !! pn)) then (Err StdExist, s)
                else if parentOk pn s then (Ok (), setNode pn n s) else (Err StdNotExist, s)
            end).

(** [_ = op]: the error is dropped. *)
Definition ignore {A} (m : IO A) : SE world gerr unit := λ w, (Ok (), (m w).2).
(** [x, err := op]: the error as a value. *)
Definition attempt {A} (m : IO A) : SE world gerr (result stdErr A) := λ w, let '(r, w) := m w in (Ok r, w).

(** ** Well-formed trees *)
Definition isDir (s : fs) (p : path) : Prop := ∃ m, nodes s !! p = Some (NDir m).
Definition nonLink (s : fs) (p : path) : Prop := ∀ t, nodes s !! p ≠ Some (NLink t).
Record fsOk (s : fs) : Prop := {
  ok_root : isDir s [];
  ok_parent : ∀ p c n, nodes s !! (p ++ [c]) = Some n → isDir s p;
  ok_inode : ∀ p i, nodes s !! p = Some (NFile i) → is_Some (inodes s !! i) ∧ i < nextIno s;
  ok_next : ∀ i x, inodes s !! i = Some x → i < nextIno s;
}.

Lemma isDir_nonLink s p : isDir s p → nonLink s p.
Proof. intros [m Hm] t Ht. congruence. Qed.

Lemma fsOk_prefix s p q n : fsOk s → nodes s !! (p ++ q) = Some n → q ≠ [] → isDir s p.
Proof.
  intros Hs. revert n. induction q as [|c q IH] using rev_ind; intros n Hn Hq; [done|].
  rewrite app_assoc in Hn. apply (ok_parent s Hs) in Hn as Hd. destruct q as [|d q]; [by rewrite app_nil_r in Hd|].
  destruct Hd as [m Hm]. by eapply IH.
Qed.

(** Without links on the way, a name resolves to itself. *)
Lemma resolve_nil l s follow cur : resolve l s follow cur [] = Ok cur.
Proof. by destruct l. Qed.
Lemma resolve_cons l s follow cur c rest :
  c ≠ dotdot → (rest = [] → follow = false ∨ nonLink s (cur ++ [c])) → (rest ≠ [] → nonLink s (cur ++ [c])) →
  resolve l s follow cur (c :: rest) =
  match nodes s !! (cur ++ [c]) with
  | None => match rest with [] => Ok (cur ++ [c]) | _ => Err StdNotExist end
  | Some (NDir _) => resolve l s follow (cur ++ [c]) rest
  | Some _ => match rest with [] => Ok (cur ++ [c]) | _ => Err notDir end
  end.
Proof.
  intros Hc H1 H2. destruct l; cbn [resolve]; rewrite bool_decide_false by done;
    destruct (nodes s !! (cur ++ [c])) as [[m|i|t]|] eqn:E; try done.
  all: destruct rest as [|d rest]; [|by destruct (H2 ltac:(done) t)].
  all: destruct (H1 eq_refl) as [->|Hn]; [|by destruct (Hn t)].
  all: by rewrite bool_decide_true.
Qed.

Lemma resolve_nolink l s follow cur rest p :
  Forall (λ c, c ≠ dotdot) rest →
  (∀ k, (0 < k < length rest)%nat → nonLink s (cur ++ take k rest)) →
  (follow = false ∨ nonLink s (cur ++ rest)) →
  resolve l s follow cur rest = Ok p → p = cur ++ rest.
Proof.
  intros Hd. revert cur. induction Hd as [|c rest Hc Hd IH]; intros cur Hk Hf.
  { rewrite resolve_nil. intros [= ->]. by rewrite app_nil_r. }
  assert (Hc1 : rest ≠ [] → nonLink s (cur ++ [c])).
  { intros Hne. destruct rest as [|d rest]; [done|]. apply (Hk 1%nat). simpl. lia. }
  rewrite resolve_cons; [|done|by intros ->|done].
  destruct (nodes s !! (cur ++ [c])) as [[m|i|t]|] eqn:E; try (destruct rest; [by intros [= <-]|done]).
  intros Hr. rewrite cons_middle, app_assoc. eapply IH; [| |exact Hr].
  - intros k Hk'. rewrite <- app_assoc. apply (Hk (S k)). simpl. lia.
  - by rewrite <- app_assoc.
Qed.

Lemma resolve_dirs l s follow cur rest :
  Forall (λ c, c ≠ dotdot) rest →
  (∀ k, (0 < k < length rest)%nat → isDir s (cur ++ take k rest)) →
  (follow = false ∨ nonLink s (cur ++ rest)) →
  resolve l s follow cur rest = Ok (cur ++ rest).
Proof.
  intros Hd. revert cur. induction Hd as [|c rest Hc Hd IH]; intros cur Hk Hf.
  { by rewrite resolve_nil, app_nil_r. }
  assert (Hc1 : rest ≠ [] → isDir s (cur ++ [c])).
  { intros Hne. destruct rest as [|d rest]; [done|]. apply (Hk 1%nat). simpl. lia. }
  rewrite resolve_cons; [|done|by intros ->|by intros ?; apply isDir_nonLink, Hc1].
  destruct rest as [|d rest].
  - destruct (nodes s !! (cur ++ [c])) as [[m|i|t]|]; by rewrite ?resolve_nil.
  - destruct (Hc1 ltac:(done)) as [m ->]. replace (cur ++ c :: d :: rest) with ((cur ++ [c]) ++ d :: rest) by by rewrite <- app_assoc.
    apply IH.
    + intros k Hk'. rewrite <- app_assoc. apply (Hk (S k)). simpl in *. lia.
    + by rewrite <- app_assoc.
Qed.

(** A name that does not resolve to a link resolves the same way when the last
    link is followed. *)
Lemma resolve_follow l s : ∀ cur rest p,
  resolve l s false cur rest = Ok p → nonLink s p → resolve l s true cur rest = Ok p.
Proof.
  induction l as [|l IHl]; intros cur rest; revert cur;
    (induction rest as [|c rest IHr]; intros cur p; [by cbn|]); cbn [resolve];
    (destruct (bool_decide (c = dotdot)); [destruct (reverse cur); [done|by apply IHr]|]);
    destruct (nodes s !! (cur ++ [c])) as [[m|i|t]|] eqn:E; try done; try (by apply IHr).
  all: destruct (bool_decide_reflect (rest = [])) as [->|]; cbn [andb negb]; [intros [= <-] Hn; by destruct (Hn t)|].
  all: destruct (rooted t); [done|]; first [done|apply IHl].
Qed.

(** ** Names *)
Definition plainName (c : bytes) : Prop := c ≠ [] ∧ c ≠ dot ∧ c ≠ dotdot ∧ c_slash ∉ c.
#[global] Instance plainName_dec c : Decision (plainName c).
Proof. unfold plainName. apply _. Defined.
Lemma Split_joinWith_noslash cs : cs ≠ [] → Forall (λ c, c_slash ∉ c) cs → Split c_slash (joinWith [c_slash] cs) = cs.
Proof.
  intros Hne H. induction H as [|c cs Hc H IH]; [done|].
  destruct cs as [|d cs]; [by apply Split_last|].
  change (joinWith [c_slash] (c :: d :: cs)) with (c ++ c_slash :: joinWith [c_slash] (d :: cs)).
  rewrite Split_line by done. by rewrite IH.
Qed.

Lemma Split_joinWith cs : cs ≠ [] → Forall plainName cs → Split c_slash (joinWith [c_slash] cs) = cs.
Proof.
  intros Hne H. apply Split_joinWith_noslash; [done|]. eapply Forall_impl; [exact H|]. by intros c (_ & _ & _ & ?).
Qed.

Lemma filter_plain (cs : list bytes) : Forall plainName cs → filter (λ c, c ≠ [] ∧ c ≠ dot) cs = cs.
Proof. induction 1 as [|c cs (H1 & H2 & _) H IH]; [done|]. rewrite filter_cons_True by done. by rewrite IH. Qed.

Lemma comps_joinWith cs : Forall plainName cs → comps (joinWith [c_slash] cs) = cs.
Proof.
  intros H. destruct cs as [|c cs]; [done|]. unfold comps. rewrite Split_joinWith by done. by apply filter_plain.
Qed.

Lemma joinWith_not_dot cs : cs ≠ [] → Forall plainName cs → ¬ (joinWith [c_slash] cs = [] ∨ joinWith [c_slash] cs = dot).
Proof.
  intros Hne H E. apply Hne. rewrite <- (comps_joinWith cs H). by destruct E as [-> | ->]; vm_compute.
Qed.

Lemma joinWith_snoc cs c : cs ≠ [] → joinWith [c_slash] (cs ++ [c]) = joinWith [c_slash] cs ++ c_slash :: c.
Proof.
  induction cs as [|a cs IH]; [done|]. intros _. destruct cs as [|b cs]; [done|].
  change (joinWith [c_slash] ((a :: b :: cs) ++ [c])) with (a ++ c_slash :: joinWith [c_slash] ((b :: cs) ++ [c])).
  rewrite IH by done. change (joinWith [c_slash] (a :: b :: cs)) with (a ++ c_slash :: joinWith [c_slash] (b :: cs)).
  by rewrite <- app_assoc.
Qed.

Lemma joinWith_ne cs : cs ≠ [] → Forall plainName cs → ∃ b t, joinWith [c_slash] cs = b :: t ∧ b ≠ c_slash.
Proof.
  intros Hne H. destruct H as [|c cs (Hc & _ & _ & Hs) H]; [done|]. destruct c as [|b c]; [done|].
  apply not_elem_of_cons in Hs as [Hb _]. destruct cs as [|d cs]; eexists _, _; split; try done;
    (intros E; apply Hb; by rewrite E).
Qed.

Lemma cleanComps_plain root out cs : Forall plainName cs → cleanComps root out cs = reverse out ++ cs.
Proof.
  intros H. revert out. induction H as [|c cs (_ & _ & Hc & _) H IH]; intros out; cbn [cleanComps].
  { by rewrite app_nil_r. }
  rewrite bool_decide_false, IH, reverse_cons, <- app_assoc by done. done.
Qed.

Lemma Clean_join cs (tl : bytes) :
  cs ≠ [] → Forall plainName cs → tl = [] ∨ tl = [c_slash] → Clean (joinWith [c_slash] cs ++ tl) = joinWith [c_slash] cs.
Proof.
  intros Hne H Htl. destruct (joinWith_ne cs Hne H) as (b & t & Ej & Hb).
  assert (Hr : rooted (joinWith [c_slash] cs ++ tl) = false).
  { unfold rooted, HasPrefix. rewrite Ej. cbn [app length take]. rewrite take_0. apply bool_decide_eq_false. by intros [= ->]. }
  assert (Hc : comps (joinWith [c_slash] cs ++ tl) = cs).
  { destruct Htl as [->| ->]; [rewrite app_nil_r; by apply comps_joinWith|].
    assert (Hg : ∀ s cur, split_go c_slash (s ++ [c_slash]) cur = split_go c_slash s cur ++ [[]]).
    { intros s. induction s as [|x s IH]; intros cur; cbn [split_go app].
      - by rewrite bool_decide_true.
      - case_bool_decide; by rewrite IH. }
    unfold comps, Split. rewrite Hg. fold (Split c_slash (joinWith [c_slash] cs)).
    rewrite Split_joinWith, filter_app, filter_plain by done. cbn. apply app_nil_r. }
  unfold Clean. rewrite Hr, Hc, cleanComps_plain by done. cbn [reverse rev_append app]. rewrite Ej.
  by rewrite bool_decide_false.
Qed.

Lemma split_go_app sep a b cur : split_go sep (a ++ sep :: b) cur = split_go sep a cur ++ split_go sep b [].
Proof.
  revert cur. induction a as [|x a IH]; intros cur; cbn [split_go app]; [by rewrite bool_decide_true|].
  case_bool_decide; by rewrite IH.
Qed.
Lemma comps_app (a b : bytes) : comps (a ++ c_slash :: b) = comps a ++ comps b.
Proof. unfold comps, Split. by rewrite split_go_app, filter_app. Qed.

Lemma split_go_noslash sep s cur : sep ∉ cur → Forall (λ c, sep ∉ c) (split_go sep s cur).
Proof.
  revert cur. induction s as [|x s IH]; intros cur Hc; cbn [split_go]; [by apply Forall_singleton|].
  case_bool_decide as Hx; [apply Forall_cons; split; [done|]|]; apply IH; [by apply not_elem_of_nil|].
  intros [?|E%list_elem_of_singleton]%elem_of_app; [done|]. by apply Hx.
Qed.
Lemma comps_ok s : Forall (λ c, c ≠ [] ∧ c ≠ dot ∧ (c_slash ∉ c)) (comps s).
Proof.
  unfold comps. apply Forall_forall. intros c [Hc Hin]%list_elem_of_filter.
  pose proof (split_go_noslash c_slash s [] (not_elem_of_nil _)) as H. rewrite Forall_forall in H.
  specialize (H c Hin). tauto.
Qed.

Lemma LastIndexByte_last (a b : bytes) c : c ∉ b → LastIndexByte (a ++ c :: b) c = Some (length a).
Proof.
  intros Hb. unfold LastIndexByte. rewrite reverse_app, reverse_cons, <- app_assoc.
  rewrite list_find_app_r; [|].
  2:{ apply list_find_None. apply Forall_forall. intros x Hx ->. by apply Hb, elem_of_reverse. }
  cbn [app list_find]. rewrite decide_True by done. cbn. f_equal.
  rewrite length_app, length_reverse. cbn. lia.
Qed.

Lemma LastIndexByte_None (b : bytes) c : c ∉ b → LastIndexByte b c = None.
Proof.
  intros Hb. unfold LastIndexByte. rewrite (proj2 (list_find_None _ _)); [done|].
  apply Forall_forall. intros x Hx ->. by apply Hb, elem_of_reverse.
Qed.

(** [path.Dir] of a plain name. *)
Lemma Dir_join cs c : cs ≠ [] → Forall plainName (cs ++ [c]) → Dir (joinWith [c_slash] (cs ++ [c])) = joinWith [c_slash] cs.
Proof.
  intros Hne [H (_ & _ & _ & Hc)%Forall_singleton]%Forall_app. unfold Dir. rewrite joinWith_snoc by done.
  rewrite LastIndexByte_last by done.
  replace (S (length (joinWith [c_slash] cs))) with (length (joinWith [c_slash] cs) + 1)%nat by lia.
  rewrite take_app_add. apply Clean_join; [done|done|by right].
Qed.

Lemma sys_inv {A} (m : fs → result stdErr A * fs) w r w' :
  sys m w = (r, w') → (∃ x, r = Err (ioErr x) ∧ w_fs w' = w_fs w) ∨ m (w_fs w) = (r, w_fs w').
Proof.
  unfold sys. destruct (w_faults w) as [|[x|] fl]; [|intros [= <- <-]; left; by eauto|];
    destruct (m (w_fs w)) as [r0 s0]; intros [= <- <-]; by right.
Qed.

Lemma attempt_inv {A} (m : IO A) w r w' :
  attempt m w = (r, w') → ∃ r0, r = Ok r0 ∧ m w = (r0, w').
Proof. unfold attempt. destruct (m w) as [r0 w0]. intros [= <- <-]. by eauto. Qed.

(** *** Creating directories *)

(** [s'] is [s] with some missing directories [cur ++ take k rest] created. *)
Record grows (cur rest : path) (s s' : fs) : Prop := {
  gr_nodes : ∀ p, nodes s' !! p = nodes s !! p ∨
    (nodes s !! p = None ∧ isDir s' p ∧ ∃ k, (0 < k <= length rest)%nat ∧ p = cur ++ take k rest);
  gr_inodes : inodes s' = inodes s;
  gr_next : nextIno s' = nextIno s;
}.

Lemma grows_refl cur rest s : grows cur rest s s.
Proof. split; [by left|done..]. Qed.

(** A new name for a directory or for a file that has a name already. *)
Lemma fsOk_addNode p n s :
  fsOk s → nodes s !! p = None → parentOk p s = true → (∀ i, n = NFile i → ∃ q, nodes s !! q = Some (NFile i)) →
  fsOk (setNode p n s).
Proof.
  intros Hs Hn Hp Hi. unfold parentOk in Hp. destruct (reverse p) as [|c up] eqn:E; [done|].
  apply (f_equal reverse) in E. rewrite reverse_involutive, reverse_cons in E.
  assert (Hup : isDir s (reverse up)).
  { destruct (nodes s !! reverse up) as [[m'| |]|] eqn:E'; try done. by exists m'. }
  assert (Hkeep : ∀ q, isDir s q → isDir (setNode p n s) q).
  { intros q [m' Hq]. unfold isDir, setNode. cbn. destruct (decide (p = q)) as [->|]; [congruence|].
    rewrite lookup_insert_ne by done. by eauto. }
  split.
  - apply Hkeep, Hs.
  - intros q d nd. unfold setNode at 1. cbn. intros [[Hq _]|[_ Hq]]%lookup_insert_Some.
    + rewrite E in Hq. apply app_inj_tail in Hq as [<- _]. by apply Hkeep.
    + apply (ok_parent s Hs) in Hq. by apply Hkeep.
  - intros q i. unfold setNode. cbn. intros [[_ ->]|[_ Hq]]%lookup_insert_Some; [|by apply (ok_inode s Hs q)].
    destruct (Hi i eq_refl) as [q' Hq']. by eapply (ok_inode s Hs).
  - intros i x. apply (ok_next s Hs).
Qed.
Lemma fsOk_add p m s : fsOk s → nodes s !! p = None → parentOk p s = true → fsOk (setNode p (NDir m) s).
Proof. intros Hs Hn Hp. by apply fsOk_addNode. Qed.

(** A name is removed: not the root, and no directory that holds something. *)
Lemma fsOk_delNode p s : fsOk s → p ≠ [] → (isDir s p → hasChildren p s = false) → fsOk (delNode p s).
Proof.
  intros Hs Hne Hc.
  assert (Hkeep : ∀ q, q ≠ p → isDir s q → isDir (delNode p s) q).
  { intros q Hq [m Hm]. exists m. unfold delNode. cbn. by rewrite lookup_delete_ne. }
  split.
  - apply Hkeep, Hs. done.
  - intros q c n. unfold delNode at 1. cbn. intros [_ Hq]%lookup_delete_Some. apply (ok_parent s Hs) in Hq as Hd.
    apply Hkeep; [|done]. intros ->. specialize (Hc Hd). apply bool_decide_eq_false in Hc. destruct Hc.
    exists (p ++ [c]), n. split; [done|]. by rewrite length_app, take_app_length, Nat.add_1_r.
  - intros q i. unfold delNode. cbn. intros [_ Hq]%lookup_delete_Some. by apply (ok_inode s Hs q).
  - intros i x. apply (ok_next s Hs).
Qed.

Lemma parentOk_snoc s p c : isDir s p → parentOk (p ++ [c]) s = true.
Proof. intros [m Hm]. unfold parentOk. by rewrite reverse_snoc, reverse_involutive, Hm. Qed.
Lemma parentOk_isDir s p c : parentOk (p ++ [c]) s = true → isDir s p.
Proof.
  unfold parentOk. rewrite reverse_snoc, reverse_involutive.
  destruct (nodes s !! p) as [[m| |]|] eqn:E; try done. by exists m.
Qed.

Lemma grows_cons cur c rest s s1 s' :
  (∀ p, nodes s1 !! p = nodes s !! p ∨ (nodes s !! p = None ∧ isDir s1 p ∧ p = cur ++ [c])) →
  inodes s1 = inodes s → nextIno s1 = nextIno s → grows (cur ++ [c]) rest s1 s' →
  grows cur (c :: rest) s s' ∧ ∀ p, isDir s1 p → isDir s' p.
Proof.
  intros Hn Hi Hx [Hg1 Hg2 Hg3].
  assert (Hdir : ∀ p, isDir s1 p → isDir s' p).
  { intros p [m Hm]. destruct (Hg1 p) as [Hp|(Hp & _)]; [|congruence]. exists m. by rewrite Hp. }
  split; [|done]. split; [|congruence|congruence]. intros p. destruct (Hg1 p) as [Hp|(Hp & Hdp & k & Hk' & ->)].
  - destruct (Hn p) as [Hq|(Hq & Hdp & ->)]; [left; congruence|right].
    split_and!; [done|by apply Hdir|exists 1%nat; split; [simpl; lia|done]].
  - right. rewrite <- app_assoc in *. cbn [app] in *. split_and!; [|done|exists (S k); split; [simpl; lia|done]].
    destruct (Hn (cur ++ c :: take k rest)) as [<-|(? & _)]; done.
Qed.

Lemma mkdirs_grows mode cur rest s r s' :
  fsOk s → isDir s cur → Forall (λ c, c ≠ dotdot) rest →
  (∀ k, (0 < k <= length rest)%nat → nonLink s (cur ++ take k rest)) →
  mkdirs mode cur rest s = (r, s') →
  fsOk s' ∧ grows cur rest s s' ∧ (r = Ok () → ∀ k, (k <= length rest)%nat → isDir s' (cur ++ take k rest)).
Proof.
  intros Hs Hcur Hd. revert cur s Hs Hcur. induction Hd as [|c rest Hc Hd IH]; intros cur s Hs Hcur Hk E; cbn [mkdirs] in E.
  { injection E as <- <-. split_and!; [done|apply grows_refl|]. intros _ k _. by rewrite take_nil, app_nil_r. }
  assert (Hn1 : nonLink s (cur ++ [c])) by (apply (Hk 1%nat); simpl; lia).
  rewrite resolve_cons in E by (done || by right).
  assert (Hres : match nodes s !! (cur ++ [c]) with Some (NDir _) => resolve maxLinks s true (cur ++ [c]) []
    | _ => Ok (cur ++ [c]) end = Ok (cur ++ [c])).
  { destruct (nodes s !! (cur ++ [c])) as [[| |]|]; by rewrite ?resolve_nil. }
  assert (Hstep : ∀ s1, fsOk s1 → isDir s1 (cur ++ [c]) → isDir s1 cur →
     (∀ p, nodes s1 !! p = nodes s !! p ∨ (nodes s !! p = None ∧ isDir s1 p ∧ p = cur ++ [c])) →
     inodes s1 = inodes s → nextIno s1 = nextIno s → mkdirs mode (cur ++ [c]) rest s1 = (r, s') →
     fsOk s' ∧ grows cur (c :: rest) s s' ∧ (r = Ok () → ∀ k, (k <= length (c :: rest))%nat → isDir s' (cur ++ take k (c :: rest)))).
  { intros s1 Hs1 Hd1 Hc1 Hn Hi Hx E1. apply IH in E1 as (Hs' & Hg & Hok); [|done|done|].
    2:{ intros k Hk' t. rewrite <- app_assoc. cbn [app].
        destruct (Hn (cur ++ c :: take k rest)) as [->|(_ & [m Hm] & _)]; [|congruence].
        apply (Hk (S k)). simpl. lia. }
    destruct (grows_cons cur c rest s s1 s' Hn Hi Hx Hg) as [Hg' Hdir]. split_and!; [done|done|].
    intros -> k Hk'. destruct k as [|k]; [cbn [take]; rewrite app_nil_r; by apply Hdir|].
      replace (cur ++ take (S k) (c :: rest)) with ((cur ++ [c]) ++ take k rest) by (by rewrite <- app_assoc).
      apply Hok; [done|simpl in Hk'; lia]. }
  destruct (nodes s !! (cur ++ [c])) as [[m|i|t]|] eqn:En.
  - rewrite resolve_nil, En in E. apply (Hstep s); try done; [by eexists|by left].
  - rewrite En in E. injection E as <- <-. split_and!; [done|apply grows_refl|done].
  - by destruct (Hn1 t).
  - rewrite En in E. apply (Hstep (setNode (cur ++ [c]) (NDir (mkMeta mode (0, 0))) s)); try done.
    + apply fsOk_add; [done|done|]. by apply parentOk_snoc.
    + unfold isDir, setNode. cbn. rewrite lookup_insert_eq. by eauto.
    + destruct Hcur as [m Hm]. exists m. unfold setNode. cbn. rewrite lookup_insert_ne; [done|congruence].
    + intros p. unfold isDir, setNode. cbn. destruct (decide (cur ++ [c] = p)) as [<-|].
      * right. rewrite lookup_insert_eq. split_and!; [done|by eauto|done].
      * left. by rewrite lookup_insert_ne.
Qed.

(** *** Files *)
Lemma locate_file s follow cs i :
  fsOk s → Forall plainName cs → nodes s !! cs = Some (NFile i) → locate s follow (joinWith [c_slash] cs) = Ok cs.
Proof.
  intros Hs Hp Hn. unfold locate. rewrite comps_joinWith by done.
  apply (resolve_dirs maxLinks s follow []).
  - eapply Forall_impl; [exact Hp|]. by intros c (_ & _ & ? & _).
  - intros k Hk. cbn [app]. eapply (fsOk_prefix s (take k cs) (drop k cs)); [done|by rewrite take_drop|].
    intros E. apply (f_equal length) in E. rewrite length_drop in E. simpl in E. lia.
  - right. cbn [app]. intros t Ht. congruence.
Qed.

Lemma locate_dirs s follow cs c :
  Forall plainName (cs ++ [c]) → (∀ k, (k <= length cs)%nat → isDir s (take k cs)) → follow = false →
  locate s follow (joinWith [c_slash] (cs ++ [c])) = Ok (cs ++ [c]).
Proof.
  intros Hp Hd ->. unfold locate. rewrite comps_joinWith by done. apply (resolve_dirs maxLinks s false []); [| |by left].
  - eapply Forall_impl; [exact Hp|]. by intros x (_ & _ & ? & _).
  - intros k Hk. rewrite length_app in Hk. simpl in Hk. cbn [app]. rewrite take_app_le by lia. apply Hd. lia.
Qed.

Lemma isDir_setInode i x s p : isDir (setInode i x s) p ↔ isDir s p.
Proof. done. Qed.

Lemma fsOk_setInode i x y s : inodes s !! i = Some y → fsOk s → fsOk (setInode i x s).
Proof.
  intros Hi [H1 H2 H3 H4]. split; [done|done| |].
  - intros p j Hp. apply H3 in Hp as [[z Hz] ?]. split; [|done]. unfold setInode. cbn.
    destruct (decide (i = j)) as [->|]; [rewrite lookup_insert_eq; by eexists|rewrite lookup_insert_ne by done; by eexists].
  - intros j z. unfold setInode. cbn. intros [[<- _]|[_ ?]]%lookup_insert_Some; [by eapply H4|by eapply H4].
Qed.

(** Moving a file over a name that is not a directory. *)
Lemma fsOk_move s po pn i :
  fsOk s → nodes s !! po = Some (NFile i) → ¬ isDir s pn → parentOk pn s = true →
  fsOk (setNode pn (NFile i) (delNode po s)).
Proof.
  intros Hs Hpo Hpn Hpar. set (s' := setNode pn (NFile i) (delNode po s)).
  assert (Hkeep : ∀ q, isDir s q → isDir s' q).
  { intros q [m Hq]. exists m. unfold s', setNode, delNode. cbn.
    rewrite lookup_insert_ne by (intros ->; apply Hpn; by eexists). rewrite lookup_delete_ne; [done|congruence]. }
  assert (Hnodes : ∀ q n, nodes s' !! q = Some n → (q = pn ∧ n = NFile i) ∨ nodes s !! q = Some n).
  { intros q n. unfold s', setNode, delNode. cbn. intros [[<- <-]|[_ [_ ?]%lookup_delete_Some]]%lookup_insert_Some; auto. }
  split.
  - apply Hkeep, Hs.
  - intros q c n Hq. apply Hkeep. destruct (Hnodes _ _ Hq) as [[<- _]|Hq']; [by apply parentOk_isDir in Hpar|].
    by eapply (ok_parent s Hs).
  - intros q j Hq. destruct (Hnodes _ _ Hq) as [[_ [= ->]]|Hq']; by eapply (ok_inode s Hs).
  - apply (ok_next s Hs).
Qed.

Lemma fsOk_create p x s : fsOk s → nodes s !! p = None → parentOk p s = true → fsOk (createFile p x s).
Proof.
  intros Hs Hn Hp.
  assert (Hkeep : ∀ q, isDir s q → isDir (createFile p x s) q).
  { intros q [m Hq]. exists m. cbn. rewrite lookup_insert_ne; [done|congruence]. }
  split.
  - apply Hkeep, Hs.
  - intros q c n. cbn. intros [[Hq _]|[_ Hq]]%lookup_insert_Some; apply Hkeep.
    + subst p. by apply parentOk_isDir in Hp.
    + by eapply (ok_parent s Hs).
  - intros q j. cbn. intros [[_ [= <-]]|[_ Hq]]%lookup_insert_Some; [rewrite lookup_insert_eq; split; [by eexists|lia]|].
    apply (ok_inode s Hs) in Hq as [[y Hy] ?]. rewrite lookup_insert_ne by lia. split; [by eexists|lia].
  - intros j y. cbn. intros [[<- _]|[_ Hy%(ok_next s Hs)]]%lookup_insert_Some; lia.
Qed.
Lemma createFile_fresh p q x s : fsOk s → nodes (createFile p x s) !! q = Some (NFile (nextIno s)) → q = p.
Proof.
  intros Hs. cbn. intros [[-> _]|[_ Hq]]%lookup_insert_Some; [done|]. apply (ok_inode s Hs) in Hq as [_ ?]. lia.
Qed.

(** [stat_] and [updMeta] of a file. *)
Lemma stat_file s follow cs i :
  fsOk s → Forall plainName cs → nodes s !! cs = Some (NFile i) → stat_ follow (joinWith [c_slash] cs) s = Ok (cs, NFile i).
Proof. intros Hs Hp Hn. unfold stat_. rewrite (locate_file s follow cs i) by done. cbn. by rewrite Hn. Qed.

(** A change of the metadata of inode [i] only. *)
Record metaOnly (i : Z) (s s' : fs) : Prop := {
  mo_nodes : nodes s' = nodes s;
  mo_next : nextIno s' = nextIno s;
  mo_other : ∀ j, j ≠ i → inodes s' !! j = inodes s !! j;
  mo_this : ∀ x, inodes s !! i = Some x → ∃ x', inodes s' !! i = Some x' ∧ i_content x' = i_content x;
  mo_none : inodes s !! i = None → inodes s' !! i = None;
}.
Lemma metaOnly_refl i s : metaOnly i s s.
Proof. split; try done. by eauto. Qed.
Lemma metaOnly_trans i s1 s2 s3 : metaOnly i s1 s2 → metaOnly i s2 s3 → metaOnly i s1 s3.
Proof.
  intros [H1 H2 H3 H4 H5] [K1 K2 K3 K4 K5]. split; [congruence|congruence| | |by auto].
  - intros j Hj. by rewrite K3, H3.
  - intros x Hx. destruct (H4 x Hx) as (x' & Hx' & Hc). destruct (K4 x' Hx') as (x'' & ? & ?). exists x''. split; congruence.
Qed.
Lemma updMeta_file p i f s : metaOnly i s (updMeta p (NFile i) f s).
Proof.
  unfold updMeta. destruct (inodes s !! i) as [x|] eqn:E; [|apply metaOnly_refl].
  split; unfold setInode; cbn; try done.
  - intros j Hj. by rewrite lookup_insert_ne.
  - intros y Hy. rewrite lookup_insert_eq. eexists. split; [done|]. cbn. congruence.
  - congruence.
Qed.
Lemma fsOk_metaOnly i s s' : metaOnly i s s' → fsOk s → fsOk s'.
Proof.
  intros [H1 H2 H3 H4 H5] [K1 K2 K3 K4].
  assert (Hd : ∀ j, is_Some (inodes s !! j) ↔ is_Some (inodes s' !! j)).
  { intros j. destruct (decide (j = i)) as [->|Hj]; [|by rewrite H3].
    split; intros [x Hx]; [destruct (H4 x Hx) as (? & ? & _); by eauto|].
    destruct (inodes s !! i) as [y|]; [by eauto|]. by rewrite H5 in Hx. }
  split; unfold isDir in *; rewrite ?H1, ?H2; try done.
  - intros p j Hp. apply K3 in Hp as [??]. split; [by apply Hd|done].
  - intros j x Hx. destruct (proj2 (Hd j)) as [y Hy]; [by eauto|]. by eapply K4.
Qed.

(** The two metadata calls on a file. *)
Lemma Chmod_file cs i mode w r w' :
  fsOk (w_fs w) → Forall plainName cs → nodes (w_fs w) !! cs = Some (NFile i) →
  Chmod (joinWith [c_slash] cs) mode w = (r, w') → metaOnly i (w_fs w) (w_fs w').
Proof.
  intros Hs Hp Hn E. apply sys_inv in E as [(x & _ & ->)|E]; [apply metaOnly_refl|].
  rewrite (stat_file _ true cs i) in E by done. injection E as _ <-.
  exact (updMeta_file cs i (λ m, mkMeta mode (md_mtime m)) (w_fs w)).
Qed.
Lemma Chtimes_file cs i mtime w r w' :
  fsOk (w_fs w) → Forall plainName cs → nodes (w_fs w) !! cs = Some (NFile i) →
  Chtimes (joinWith [c_slash] cs) mtime w = (r, w') → metaOnly i (w_fs w) (w_fs w').
Proof.
  intros Hs Hp Hn E. apply sys_inv in E as [(x & _ & ->)|E]; [apply metaOnly_refl|].
  rewrite (stat_file _ true cs i) in E by done. injection E as _ <-.
  exact (updMeta_file cs i (λ m, mkMeta (md_mode m) mtime) (w_fs w)).
Qed.

(** Renaming a file into existing directories: nothing, or the move. *)
Lemma RenameTo_file po pn c i w r w' :
  fsOk (w_fs w) → Forall plainName po → Forall plainName (pn ++ [c]) →
  (∀ k, (k <= length pn)%nat → isDir (w_fs w) (take k pn)) →
  nodes (w_fs w) !! po = Some (NFile i) → nodes (w_fs w) !! (pn ++ [c]) ≠ Some (NFile i) →
  RenameTo (joinWith [c_slash] po) (joinWith [c_slash] (pn ++ [c])) w = (r, w') →
  (∃ e, r = Err e ∧ w_fs w' = w_fs w) ∨
  (r = Ok () ∧ ¬ isDir (w_fs w) (pn ++ [c]) ∧ w_fs w' = setNode (pn ++ [c]) (NFile i) (delNode po (w_fs w))).
Proof.
  intros Hs Hpo Hpn Hd Hi Hne E. apply sys_inv in E as [(x & -> & Hw)|E]; [left; by eauto|].
  rewrite (stat_file _ false po i), locate_dirs in E by done.
  assert (Hp : parentOk (pn ++ [c]) (w_fs w) = true).
  { apply parentOk_snoc. rewrite <- (firstn_all pn). by apply Hd. }
  rewrite Hp in E. destruct (nodes (w_fs w) !! (pn ++ [c])) as [[m|j|t]|] eqn:En.
  - injection E as <- Hw. left. by eauto.
  - rewrite bool_decide_false in E by congruence. injection E as <- Hw. right. split_and!; [done| |done]. intros [m Hm]. congruence.
  - rewrite bool_decide_false in E by congruence. injection E as <- Hw. right. split_and!; [done| |done]. intros [m Hm]. congruence.
  - rewrite bool_decide_false in E by congruence. injection E as <- Hw. right. split_and!; [done| |done]. intros [m Hm]. congruence.
Qed.
