(* ===== verification/Dest.v ===== *)
(** * Dest: confined destination access (src/internal/fsx/dest.go)

    Every method of [Dest] on the file system of Fs, in the order of the Go
    calls.  The theorems say that publishing a part is atomic and confined
    whatever I/O operation fails; the section on hard links says what making the
    names of one file leaves of the tree, and that nothing stops it without faults. *)
From S2P Require Import Prelude Fault Strconv Glob Fs Paths.

Record Dest := mkDest { noFsync : bool; dir : bytes }.
Abbreviation M := (SE world gerr).

Definition toGo {A} (k : stdErr → gerr) (r : result stdErr A) : M A :=
  liftS (match r with Ok a => Ok a | Err e => Err (k e) end).
(** [if err := op; err != nil { return fault.New(code, op, subject, err) }] *)
Definition orFault {A} (code : stdErr → Code) (op : string) (subject : bytes) (m : IO A) : M A :=
  r ← attempt m; toGo (λ e, fault (code e) op subject (Some (EStd e))) r.

(** The proper prefixes of [rel], as [strings.Join(comps[:i], "/")]. *)
Definition parents (rel : bytes) : list bytes :=
  let cs := Split c_slash rel in
  (λ i, joinWith [c_slash] (take i cs)) <$> seq 1 (length cs - 1).

Fixpoint checkParents (ps : list bytes) : M unit :=
  match ps with
  | [] => mret ()
  | parent :: ps =>
      if bool_decide (parent = [] ∨ parent = dot) then checkParents ps
      else
        r ← attempt (Lstat parent);
        match r with
        | Err StdNotExist => mret ()
        | Err e => failS (fault E7013 "lstat destination path component" parent (Some (EStd e)))
        | Ok (NLink _) => failS (fault E7013 "symlink on destination path" parent None)
        | Ok _ => checkParents ps
        end
  end.
Definition checkParentSymlinks (rel : bytes) : M unit := checkParents (parents rel).

Definition mkParents (rel : bytes) : M unit :=
  let d := Dir rel in
  if bool_decide (d = dot ∨ d = []) then mret ()
  else orFault (λ e, diskCode e E7008) "create parent directory" d (MkdirAll d 511).

Definition EnsureDir (relDir : bytes) (mode : Z) : M unit :=
  if bool_decide (relDir = [] ∨ relDir = dot) then mret ()
  else
    _ ← checkParentSymlinks relDir;
    _ ← orFault (λ e, diskCode e E7008) "create directory" relDir (MkdirAll relDir 511);
    orFault (λ _, E7006) "apply directory mode" relDir (Chmod relDir mode).

Definition partName (fileID : Z) : bytes := bs ".esync/parts/" ++ FormatUint fileID 10 ++ bs ".part".

Definition OpenPart (fileID : Z) : M Z :=
  _ ← orFault (λ e, diskCode e E7008) "create parts directory" (bs ".esync/parts") (MkdirAll (bs ".esync/parts") 448);
  let name := partName fileID in
  orFault (λ e, diskCode e E7001) "open part file" name (OpenCreate name 384).

(** The flush before the rename; its errors are dropped. *)
Definition syncPart (d : Dest) (part : bytes) : M unit :=
  if noFsync d then mret ()
  else
    r ← attempt (OpenRead part);
    match r with Ok _ => _ ← ignore Flush; ignore Flush | Err _ => mret () end.

Definition PublishPart (d : Dest) (fileID : Z) (finalRel : bytes) (mode : Z) (mtime : Z * Z) : M unit :=
  let part := partName fileID in
  _ ← syncPart d part;
  _ ← checkParentSymlinks finalRel;
  _ ← mkParents finalRel;
  r1 ← attempt (Chmod part mode);
  r2 ← attempt (Chtimes part mtime);
  let metaErr := match r2, r1 with Err e, _ => Some e | Ok _, Err e => Some e | Ok _, Ok _ => None end in
  _ ← orFault (λ e, diskCode e E7005) "atomic publish" finalRel (RenameTo part finalRel);
  match metaErr with
  | Some e => failS (fault E7006 "apply file metadata" finalRel (Some (EStd e)))
  | None => mret ()
  end.

Definition ApplyMeta (rel : bytes) (mode : Z) (mtime : Z * Z) : M unit :=
  r1 ← attempt (Chmod rel mode);
  r2 ← attempt (Chtimes rel mtime);
  match r2, r1 with
  | Err e, _ | Ok _, Err e => failS (fault E7006 "apply metadata" rel (Some (EStd e)))
  | Ok _, Ok _ => mret ()
  end.

Definition absoluteTarget (t : bytes) : bool :=
  HasPrefix t [c_slash] || HasPrefix t [c_bslash] ||
  match t with c :: d :: _ => bool_decide (d = byte_of_Z 58) && isASCIILetter c | _ => false end.

(** The lexical target check of [MakeSymlink]. *)
Definition unsafeTarget (relPath target : bytes) : option string :=
  if absoluteTarget target then Some "symlink target is absolute"%string
  else
    let resolved := Join2 (Dir relPath) target in
    if bool_decide (resolved = dotdot) || HasPrefix resolved (bs "../")
    then Some "symlink target escapes destination root"%string else None.

Definition MakeSymlink (relPath target : bytes) (allowUnsafeLinks : bool) : M unit :=
  _ ← checkParentSymlinks relPath;
  _ ← match (if allowUnsafeLinks then None else unsafeTarget relPath target) with
      | Some msg => failS (fault E7011 msg relPath None)
      | None => mret ()
      end;
  _ ← mkParents relPath;
  _ ← ignore (Remove relPath);
  orFault (λ e, diskCode e E7001) "create symlink" relPath (Symlink target relPath).

Definition MakeHardlink (relPath existingRel : bytes) : M unit :=
  _ ← checkParentSymlinks relPath;
  _ ← (λ w, match mkParents relPath w with
            | (Err e, w) => (Err (fault E7009 "create parent for hard link" relPath (Some e)), w)
            | r => r
            end);
  _ ← ignore (Remove relPath);
  orFault (λ _, E7009) "create hard link" relPath (Link existingRel relPath).

(** ** Inversion of the monadic calls *)
Lemma orFault_inv {A} code op subject (m : IO A) w r w' :
  orFault code op subject m w = (r, w') →
  (∃ e, m w = (Err e, w') ∧ r = Err (fault (code e) op subject (Some (EStd e)))) ∨ (∃ a, m w = (Ok a, w') ∧ r = Ok a).
Proof.
  unfold orFault. intros [(e & E & _)|(x & w1 & E & E')]%SE_bind_inv.
  { apply attempt_inv in E as (? & ? & _). done. }
  apply attempt_inv in E as (r0 & [= ->] & E). destruct r0 as [a|e]; injection E' as <- <-; [right|left]; by eauto.
Qed.

(** ** The checks on the way to a destination name *)
Definition relOf (cs : path) : bytes := joinWith [c_slash] cs.

Lemma parents_relOf cs : cs ≠ [] → Forall plainName cs →
  parents (relOf cs) = (λ k, relOf (take k cs)) <$> seq 1 (length cs - 1).
Proof. intros Hne H. unfold parents, relOf. by rewrite Split_joinWith. Qed.

Lemma notdd cs : Forall plainName cs → Forall (λ c, c ≠ dotdot) cs.
Proof. intros H. eapply Forall_impl; [exact H|]. by intros c (_ & _ & ? & _). Qed.

(** A missing prefix has nothing below it. *)
Lemma below_missing s cs k j :
  fsOk s → nodes s !! take k cs = None → (k < j)%nat → (k < length cs)%nat → nodes s !! take j cs = None.
Proof.
  intros Hs Hn Hj Hk. destruct (nodes s !! take j cs) as [n|] eqn:E; [|done].
  replace (take j cs) with (take k cs ++ drop k (take j cs)) in E.
  2:{ rewrite <- (take_drop k (take j cs)) at 2. by rewrite take_take, Nat.min_l by lia. }
  apply (fsOk_prefix s) in E as [m Hm]; [congruence|done|].
  intros E'. apply (f_equal length) in E'. rewrite length_drop, length_take in E'. simpl in E'. lia.
Qed.

Lemma take_ne {A} (cs : list A) k : (0 < k)%nat → (k <= length cs)%nat → take k cs ≠ [].
Proof. intros ? ? E. apply (f_equal length) in E. rewrite length_take in E. simpl in E. lia. Qed.

(** Without a link on the way the check reaches the prefix itself ... *)
Lemma locate_prefix s cs k p :
  Forall plainName cs → (k <= length cs)%nat → (∀ j, (0 < j < k)%nat → nonLink s (take j cs)) →
  locate s false (relOf (take k cs)) = Ok p → p = take k cs.
Proof.
  intros Hp Hk Hprev. assert (Hpk : Forall plainName (take k cs)) by by apply Forall_take.
  unfold locate, relOf. rewrite comps_joinWith by done. intros El.
  eapply resolve_nolink in El; [exact El|by apply notdd| |by left].
  intros j Hj. rewrite length_take in Hj. cbn [app]. rewrite take_take, Nat.min_l by lia. apply Hprev. lia.
Qed.

(** ... and what is there is found. *)
Lemma locate_present s cs k e :
  fsOk s → Forall plainName cs → (k <= length cs)%nat → locate s false (relOf (take k cs)) = Err e → nodes s !! take k cs = None.
Proof.
  intros Hs Hp Hk. destruct (nodes s !! take k cs) as [nd|] eqn:En; [|done].
  assert (Hpk : Forall plainName (take k cs)) by by apply Forall_take.
  unfold locate, relOf. rewrite comps_joinWith by done.
  rewrite (resolve_dirs maxLinks s false []); [done|by apply notdd| |by left].
  intros j Hj. rewrite length_take in Hj. cbn [app]. rewrite take_take, Nat.min_l by lia.
  eapply (fsOk_prefix _ (take j cs) (drop j (take k cs))); [done| |].
  - replace (take j cs ++ drop j (take k cs)) with (take k cs); [done|].
    rewrite <- (take_drop j (take k cs)) at 1. by rewrite take_take, Nat.min_l by lia.
  - intros E'. apply (f_equal length) in E'. rewrite length_drop, length_take in E'. simpl in E'. lia.
Qed.

Lemma missing_nonLink s cs k n :
  fsOk s → (k + S n = length cs)%nat → (∀ j, (0 < j < k)%nat → nonLink s (take j cs)) →
  nodes s !! take k cs = None → ∀ j, (0 < j < k + S n)%nat → nonLink s (take j cs).
Proof.
  intros Hs Hlen Hprev Hn j Hj t. destruct (decide (j < k)%nat) as [|Hge]; [apply Hprev; lia|].
  destruct (decide (j = k)) as [->|]; [congruence|]. rewrite (below_missing _ cs k j) by (done || lia). done.
Qed.

Lemma checkParents_spec cs k n w r w' :
  fsOk (w_fs w) → Forall plainName cs → (0 < k)%nat → (k + n = length cs)%nat ∨ n = 0%nat →
  (∀ j, (0 < j < k)%nat → nonLink (w_fs w) (take j cs)) →
  checkParents ((λ j, relOf (take j cs)) <$> seq k n) w = (r, w') →
  w_fs w' = w_fs w ∧
  (r = Ok () → ∀ j, (0 < j < k + n)%nat → nonLink (w_fs w) (take j cs)) ∧
  (∀ e, r = Err e → GetCode e = E7013).
Proof.
  intros Hs Hp. revert k w Hs. induction n as [|n IH]; intros k w Hs Hk Hlen Hprev E; cbn [seq fmap list_fmap checkParents] in E.
  { injection E as <- <-. split_and!; [done| |done]. intros _ j Hj. apply Hprev. lia. }
  destruct Hlen as [Hlen|]; [|done].
  rewrite bool_decide_false in E by (apply joinWith_not_dot; [apply take_ne; lia|by apply Forall_take]).
  apply SE_bind_inv in E as [(e & E & _)|(x & w1 & E & E')].
  { apply attempt_inv in E as (? & ? & _). done. }
  apply attempt_inv in E as (r0 & [= ->] & E).
  apply sys_inv in E as [(x & -> & Hw)|E].
  { destruct x; cbn in E'; injection E' as <- <-; split_and!; try done; by intros e [= <-]. }
  injection E as Hr Hw. pose proof (missing_nonLink _ cs k n Hs Hlen Hprev) as Hmiss.
  unfold stat_ in Hr. destruct (locate (w_fs w) false (relOf (take k cs))) as [p|e] eqn:El.
  - apply locate_prefix in El as ->; [|done|lia|done].
    assert (Hnext : nonLink (w_fs w) (take k cs) →
      checkParents ((λ j, relOf (take j cs)) <$> seq (S k) n) w1 = (r, w') →
      w_fs w' = w_fs w ∧ (r = Ok () → ∀ j, (0 < j < k + S n)%nat → nonLink (w_fs w) (take j cs)) ∧
      (∀ e, r = Err e → GetCode e = E7013)).
    { intros Hnl E1. apply IH in E1; rewrite <- ?Hw; [|done|lia|left; lia|].
      - rewrite <- Hw in E1. destruct E1 as (H1 & H2 & H3). split_and!; [done| |done].
        intros Hok j Hj. apply H2; [done|lia].
      - intros j Hj. destruct (decide (j = k)) as [->|]; [done|apply Hprev; lia]. }
    cbn in Hr. destruct (nodes (w_fs w) !! take k cs) as [nd|] eqn:En; cbn in Hr; subst r0.
    + destruct nd as [m|i|t]; [apply Hnext; [|done]; intros t Ht; congruence..|].
      injection E' as <- <-. split_and!; [done|done|by intros e [= <-]].
    + injection E' as <- <-. split_and!; [done| |done]. intros _. by apply Hmiss.
  - cbn in Hr. subst r0. destruct (decide (e = StdNotExist)) as [->|Hne'].
    + injection E' as <- <-. split_and!; [done| |done]. intros _. apply Hmiss. eapply locate_present; [done|done|lia|done].
    + assert (r = Err (fault E7013 "lstat destination path component" (relOf (take k cs)) (Some (EStd e))) ∧ w' = w1) as [-> ->].
      { destruct e; injection E' as <- <-; done. }
      split_and!; [done|done|by intros ? [= <-]].
Qed.

Lemma checkParentSymlinks_spec cs w r w' :
  fsOk (w_fs w) → cs ≠ [] → Forall plainName cs → checkParentSymlinks (relOf cs) w = (r, w') →
  w_fs w' = w_fs w ∧
  (r = Ok () → ∀ j, (0 < j < length cs)%nat → nonLink (w_fs w) (take j cs)) ∧
  (∀ e, r = Err e → GetCode e = E7013).
Proof.
  intros Hs Hne Hp E. unfold checkParentSymlinks in E. rewrite parents_relOf in E by done.
  assert (0 < length cs)%nat by (destruct cs; [done|simpl; lia]).
  apply checkParents_spec in E as (H1 & H2 & H3); [|done|done|lia|left; lia|intros; lia].
  split_and!; [done| |done]. intros Hok j Hj. apply H2; [done|lia].
Qed.

(** Creating the missing parents of [relOf (cs ++ [c])]. *)
Lemma mkParents_spec cs c w r w' :
  fsOk (w_fs w) → Forall plainName (cs ++ [c]) →
  (∀ j, (0 < j < length (cs ++ [c]))%nat → nonLink (w_fs w) (take j (cs ++ [c]))) →
  mkParents (relOf (cs ++ [c])) w = (r, w') →
  fsOk (w_fs w') ∧ grows [] cs (w_fs w) (w_fs w') ∧
  (r = Ok () → ∀ k, (k <= length cs)%nat → isDir (w_fs w') (take k cs)) ∧
  (∀ e, r = Err e → GetCode e ∈ [E7003; E7002; E7008]).
Proof.
  intros Hs Hp Hnl E. unfold mkParents in E. destruct (decide (cs = [])) as [->|Hne].
  - assert (Hd : Dir (relOf ([] ++ [c])) = dot).
    { apply Forall_singleton in Hp as (_ & _ & _ & Hc). unfold Dir, relOf. cbn [app joinWith]. by rewrite LastIndexByte_None. }
    rewrite Hd, bool_decide_true in E by by left. injection E as <- <-.
    split_and!; [done|apply grows_refl| |done]. intros _ k Hk. rewrite take_nil. apply Hs.
  - unfold relOf in E. rewrite Dir_join in E by done. apply Forall_app in Hp as [Hp _].
    rewrite bool_decide_false in E.
    2:{ intros Hj. by apply (joinWith_not_dot cs Hne Hp); naive_solver. }
    apply orFault_inv in E. assert (Hm : ∃ r0, MkdirAll (joinWith [c_slash] cs) 511 w = (r0, w') ∧ (r = Ok () → r0 = Ok ()) ∧
      (∀ e, r = Err e → GetCode e ∈ [E7003; E7002; E7008])).
    { destruct E as [(e & E & ->)|([] & E & ->)]; eexists; split_and!; [exact E|done| |exact E|done|done].
      intros e' [= <-]. rewrite GetCode_fault. unfold diskCode. rewrite !elem_of_cons. destruct e; tauto. }
    clear E. destruct Hm as (r0 & E & Hr & He). apply sys_inv in E as [(x & -> & ->)|E].
    { split_and!; [done|apply grows_refl|by intros ?%Hr|done]. }
    rewrite comps_joinWith in E by done. apply mkdirs_grows in E as (H1 & H2 & H3); [|done|apply Hs|by apply notdd|].
    2:{ intros k Hk. cbn [app]. rewrite <- (take_app_le cs [c]) by lia. apply Hnl. rewrite length_app. simpl. lia. }
    split_and!; [done|done| |done]. intros Hok k Hk. by apply H3; [apply Hr|].
Qed.

(** ** The part file *)
Definition partPath (fileID : Z) : path := [bs ".esync"; bs "parts"; FormatUint fileID 10 ++ bs ".part"].

Lemma FormatUint_no_slash n : in_u 64 n → c_slash ∉ FormatUint n 10.
Proof.
  intros Hn. destruct (FormatUint_digits 10 n ltac:(lia) Hn) as (ds & Hd & _). revert Hd.
  generalize (FormatUint n 10) as l. intros l Hd Hin. unfold digits_of in Hd. apply mapM_Some_1 in Hd.
  apply list_elem_of_lookup in Hin as [i Hi]. eapply Forall2_lookup_l in Hd as (d & _ & Hx); [|done]. by vm_compute in Hx.
Qed.

Lemma partPath_plain id : in_u 64 id → Forall plainName (partPath id).
Proof.
  intros Hid. pose proof (FormatUint_no_slash id Hid) as Hs. pose proof (FormatUint_nonempty id 10) as Hne.
  unfold partPath. repeat (apply Forall_cons; split); [| | |done].
  - repeat split; try (by vm_compute). refine (bool_decide_eq_true_1 _ _). by vm_compute.
  - repeat split; try (by vm_compute). refine (bool_decide_eq_true_1 _ _). by vm_compute.
  - assert (Hl : (5 < length (FormatUint id 10 ++ bs ".part"))%nat).
    { rewrite length_app. destruct (FormatUint id 10); [done|]. simpl. lia. }
    repeat split; try (intros E; rewrite E in Hl; simpl in Hl; lia).
    intros [?|Hin]%elem_of_app; [done|]. revert Hin. refine (bool_decide_eq_true_1 (_ ∉ _) _). by vm_compute.
Qed.

Lemma partName_rel id : partName id = relOf (partPath id).
Proof. done. Qed.

(** Membership of a concrete code in a list of codes, by computation. *)
Ltac code_in := refine (bool_decide_eq_true_1 (_ ∈ _) _); vm_compute; reflexivity.
Lemma mkParents_codes c :
  c ∈ [E7003; E7002; E7008] → c ≠ E7006 ∧ c ∈ [E7013; E7003; E7002; E7008; E7005].
Proof. rewrite !elem_of_cons, elem_of_nil. intros [-> |[-> |[-> |[]]]]; split; done || tauto. Qed.

(** What a publication may change: nothing but the part, the final name, missing
    parents of the final name, and the metadata of the part's inode. *)
Record onlyPublish (po pn : path) (c : bytes) (i : Z) (s s' : fs) : Prop := {
  op_nodes : ∀ p, p ≠ po → p ≠ pn ++ [c] → nodes s' !! p = nodes s !! p ∨
    (nodes s !! p = None ∧ isDir s' p ∧ ∃ k, (0 < k <= length pn)%nat ∧ p = take k pn);
  op_other : ∀ j, j ≠ i → inodes s' !! j = inodes s !! j;
  op_content : ∀ x, inodes s !! i = Some x → ∃ x', inodes s' !! i = Some x' ∧ i_content x' = i_content x;
}.

Lemma flush_fs w r w' : Flush w = (r, w') → w_fs w' = w_fs w.
Proof. intros E. by apply sys_inv in E as [(? & _ & ?)|[= _ ?]]. Qed.

Lemma sync_part_fs d part w r w' : syncPart d part w = (r, w') → r = Ok () ∧ w_fs w' = w_fs w.
Proof.
  unfold syncPart. destruct (noFsync d); [by intros [= <- <-]|].
  intros [(e & E & _)|(x & w1 & E & E')]%SE_bind_inv; [by apply attempt_inv in E as (? & ? & _)|].
  apply attempt_inv in E as (r0 & [= ->] & E).
  assert (Hw : w_fs w1 = w_fs w) by (by apply sys_inv in E as [(? & _ & ?)|[= _ ?]]).
  destruct r0 as [a|e]; [|by injection E' as <- <-].
  apply SE_bind_inv in E' as [(e & E' & _)|(u & w2 & E2 & E3)]; [done|].
  unfold ignore in E2, E3. destruct (Flush w1) as [ra wa] eqn:Ea. destruct (Flush w2) as [rb wb] eqn:Eb.
  apply flush_fs in Ea. apply flush_fs in Eb. cbn in E2, E3. injection E2 as _ <-. injection E3 as <- <-.
  split; [done|]. congruence.
Qed.

(** The way to a publication: the part in place, the final name as it was. *)
Record staged (po pn : path) (c : bytes) (i : Z) (s s' : fs) : Prop := {
  sg_ok : fsOk s';
  sg_only : onlyPublish po pn c i s s';
  sg_part : nodes s' !! po = Some (NFile i);
  sg_final : nodes s' !! (pn ++ [c]) = nodes s !! (pn ++ [c]);
}.
Definition dirsTo (pn : path) (s : fs) : Prop := ∀ k, (k <= length pn)%nat → isDir s (take k pn).

Lemma length_snoc (pn : path) c : length (pn ++ [c]) = S (length pn).
Proof. rewrite length_app. simpl. lia. Qed.

(** The part lies in a directory of its own. *)
Lemma part_apart id pn c : head (pn ++ [c]) ≠ Some (bs ".esync") →
  partPath id ≠ pn ++ [c] ∧ ∀ k, partPath id ≠ take k pn.
Proof.
  intros Hhd. split.
  - intros E. apply Hhd. by rewrite <- E.
  - intros k E. apply Hhd. destruct pn as [|x pn]; [by rewrite take_nil in E|]. destruct k; [done|].
    injection E as <- _. done.
Qed.

Section publishing.
Context (po pn : path) (c : bytes) (i : Z) (s : fs).
Hypothesis apart_name : po ≠ pn ++ [c].
Hypothesis apart_dirs : ∀ k, po ≠ take k pn.
#[local] Set Default Proof Using "Type*".

Lemma staged_refl : fsOk s → nodes s !! po = Some (NFile i) → staged po pn c i s s.
Proof. split; [done| |done|done]. split; [by left|done|by eauto]. Qed.

Lemma staged_grows s' :
  staged po pn c i s s → fsOk s' → grows [] pn s s' → staged po pn c i s s'.
Proof.
  intros [_ _ Hp _] Hs' [G1 G2 G3].
  assert (Hkeep : ∀ p, (∀ k, p ≠ take k pn) → nodes s' !! p = nodes s !! p).
  { intros p Hp'. destruct (G1 p) as [?|(_ & _ & k & _ & ->)]; [done|by destruct (Hp' k)]. }
  split; [done| |by rewrite Hkeep|].
  - split; rewrite ?G2; [intros p _ _; apply G1|done|by eauto].
  - apply Hkeep. intros k E. apply (f_equal length) in E. rewrite length_snoc, length_take in E. lia.
Qed.

Lemma staged_meta s1 s2 : staged po pn c i s s1 → metaOnly i s1 s2 → staged po pn c i s s2.
Proof.
  intros [K1 [O1 O2 O3] K3 K4] Hm. pose proof Hm as [M1 M2 M3 M4 M5].
  split; [by eapply fsOk_metaOnly| |by rewrite M1|by rewrite M1]. split.
  - intros p H1 H2. unfold isDir. rewrite M1. by apply O1.
  - intros j Hj. by rewrite M3, O2.
  - intros x Hx. destruct (O3 x Hx) as (y & Hy & Hc). destruct (M4 y Hy) as (z & ? & ?). exists z. split; congruence.
Qed.

(** The rename itself. *)
Lemma staged_rename s1 :
  staged po pn c i s s1 → dirsTo pn s1 → ¬ isDir s1 (pn ++ [c]) →
  let s2 := setNode (pn ++ [c]) (NFile i) (delNode po s1) in
  fsOk s2 ∧ onlyPublish po pn c i s s2 ∧ nodes s2 !! (pn ++ [c]) = Some (NFile i) ∧ nodes s2 !! po = None ∧ dirsTo pn s2.
Proof.
  intros [K1 [O1 O2 O3] K3 K4] Hd Hnd s2.
  assert (Hdirs : ∀ k, (k <= length pn)%nat → pn ++ [c] ≠ take k pn).
  { intros k Hk E. apply (f_equal length) in E. rewrite length_snoc, length_take in E. lia. }
  split_and!.
  - apply fsOk_move; try done. apply parentOk_snoc. rewrite <- (firstn_all pn). by apply Hd.
  - split; unfold s2, setNode, delNode; cbn; [|done|done].
    intros p Hp1 Hp2. rewrite lookup_insert_ne, lookup_delete_ne by done.
    destruct (O1 p Hp1 Hp2) as [?|(? & [m Hm] & Hk)]; [by left|right]. split_and!; [done| |done].
    exists m. cbn. by rewrite lookup_insert_ne, lookup_delete_ne.
  - apply lookup_insert_eq.
  - unfold s2, setNode, delNode. cbn. rewrite lookup_insert_ne by done. apply lookup_delete_eq.
  - intros k Hk. destruct (Hd k Hk) as [m Hm]. exists m. unfold s2, setNode, delNode. cbn.
    by rewrite lookup_insert_ne, lookup_delete_ne by auto.
Qed.
End publishing.

(** What every failure before the rename leaves. *)
Definition unpublished (po pn : path) (c : bytes) (i : Z) (s s' : fs) (e : gerr) : Prop :=
  staged po pn c i s s' ∧ GetCode e ≠ E7006 ∧ GetCode e ∈ [E7013; E7003; E7002; E7008; E7005].

(** Everything before the metadata calls. *)
Lemma publish_checks d id pn c i w r w' :
  fsOk (w_fs w) → in_u 64 id → Forall plainName (pn ++ [c]) → head (pn ++ [c]) ≠ Some (bs ".esync") →
  nodes (w_fs w) !! partPath id = Some (NFile i) →
  (_ ← syncPart d (partName id);
   _ ← checkParentSymlinks (relOf (pn ++ [c]));
   mkParents (relOf (pn ++ [c]))) w = (r, w') →
  match r with
  | Ok _ => staged (partPath id) pn c i (w_fs w) (w_fs w') ∧ dirsTo pn (w_fs w')
  | Err e => unpublished (partPath id) pn c i (w_fs w) (w_fs w') e
  end.
Proof.
  intros Hs Hid Hp Hhd Hpart E. destruct (part_apart id pn c Hhd) as [Ha1 Ha2].
  assert (Hne : pn ++ [c] ≠ []) by by destruct pn.
  pose proof (staged_refl (partPath id) pn c i (w_fs w) Ha1 Ha2 Hs Hpart) as Hst.
  apply SE_bind_inv in E as [(e & E & _)|(u & w1 & E1 & E)]; [by apply sync_part_fs in E as [? _]|].
  apply sync_part_fs in E1 as [_ Hw1].
  apply SE_bind_inv in E as [(e & E & ->)|(u2 & w2 & E2 & E)].
  { apply checkParentSymlinks_spec in E as (Hw & _ & Hc); [|by rewrite Hw1|done|done].
    unfold unpublished. rewrite Hw, Hw1, (Hc e eq_refl). split_and!; [done|done|code_in]. }
  apply checkParentSymlinks_spec in E2 as (Hw2 & Hnl & _); [|by rewrite Hw1|done|done].
  rewrite Hw1 in Hw2, Hnl. destruct u2. specialize (Hnl eq_refl).
  apply mkParents_spec in E as (H1 & H2 & H3 & Hc); [|by rewrite Hw2|done|by rewrite Hw2].
  rewrite Hw2 in H2. pose proof (staged_grows _ _ _ _ _ Ha1 Ha2 _ Hst H1 H2) as Hst'.
  destruct r as [[]|e]; [split; [done|exact (H3 eq_refl)]|]. destruct (mkParents_codes _ (Hc e eq_refl)). by split_and!.
Qed.

(** The metadata calls, the rename and the verdict. *)
Lemma publish_rename id pn c i mode mtime s w r w' :
  in_u 64 id → Forall plainName (pn ++ [c]) → head (pn ++ [c]) ≠ Some (bs ".esync") →
  staged (partPath id) pn c i s (w_fs w) → dirsTo pn (w_fs w) → nodes s !! (pn ++ [c]) ≠ Some (NFile i) →
  (r1 ← attempt (Chmod (partName id) mode);
   r2 ← attempt (Chtimes (partName id) mtime);
   let metaErr := match r2, r1 with Err e, _ => Some e | Ok _, Err e => Some e | Ok _, Ok _ => None end in
   _ ← orFault (λ e, diskCode e E7005) "atomic publish" (relOf (pn ++ [c])) (RenameTo (partName id) (relOf (pn ++ [c])));
   match metaErr with
   | Some e => failS (fault E7006 "apply file metadata" (relOf (pn ++ [c])) (Some (EStd e)))
   | None => mret ()
   end) w = (r, w') →
  (∃ e, r = Err e ∧ unpublished (partPath id) pn c i s (w_fs w') e) ∨
  ((∀ e, r = Err e → GetCode e = E7006) ∧ fsOk (w_fs w') ∧ onlyPublish (partPath id) pn c i s (w_fs w') ∧
   nodes (w_fs w') !! (pn ++ [c]) = Some (NFile i) ∧ nodes (w_fs w') !! partPath id = None ∧ dirsTo pn (w_fs w')).
Proof.
  intros Hid Hp Hhd Hst Hd Hfin E. destruct (part_apart id pn c Hhd) as [Ha1 Ha2]. rewrite partName_rel in E.
  pose proof (partPath_plain id Hid) as Hpp.
  apply SE_bind_inv in E as [(e & E & _)|(r1 & w4 & E4 & E)]; [by apply attempt_inv in E as (? & ? & _)|].
  apply attempt_inv in E4 as (r1' & [= <-] & E4). apply (Chmod_file _ i) in E4; [|apply Hst|done|apply Hst].
  apply (staged_meta _ _ _ _ _ Ha1 Ha2 _ _ Hst) in E4 as Hst4.
  apply SE_bind_inv in E as [(e & E & _)|(r2 & w5 & E5 & E)]; [by apply attempt_inv in E as (? & ? & _)|].
  apply attempt_inv in E5 as (r2' & [= <-] & E5). apply (Chtimes_file _ i) in E5; [|apply Hst4|done|apply Hst4].
  apply (staged_meta _ _ _ _ _ Ha1 Ha2 _ _ Hst4) in E5 as Hst5.
  assert (Hd5 : dirsTo pn (w_fs w5)).
  { intros k Hk. unfold isDir. rewrite (mo_nodes _ _ _ E5), (mo_nodes _ _ _ E4). by apply Hd. }
  assert (Hren : ∀ r0 w6, RenameTo (relOf (partPath id)) (relOf (pn ++ [c])) w5 = (r0, w6) → _) by
    (intros r0 w6; apply (RenameTo_file (partPath id) pn c i); try done; [apply Hst5|apply Hst5|by rewrite (sg_final _ _ _ _ _ _ Hst5)]).
  cbv zeta in E. apply SE_bind_inv in E as [(e & E & ->)|(u6 & w6 & E6 & E)].
  - left. apply orFault_inv in E as [(e' & E & [= ->])|(a & _ & ?)]; [|done].
    apply Hren in E as [(e'' & _ & Hw)|(? & _)]; [|done]. eexists. split; [done|].
    unfold unpublished. rewrite Hw, GetCode_fault. split_and!; [done|destruct e'; by vm_compute|destruct e'; code_in].
  - right. apply orFault_inv in E6 as [(e' & _ & ?)|(a & E6 & _)]; [done|].
    apply Hren in E6 as [(e'' & ? & Hw)|(_ & Hnd & Hw)]; [done|].
    destruct (staged_rename _ _ _ _ _ Ha1 Ha2 _ Hst5 Hd5 Hnd) as (R1 & R2 & R3 & R4 & R5). rewrite <- Hw in *.
    assert (w' = w6 ∧ ∀ e, r = Err e → GetCode e = E7006) as [-> Hcode].
    { destruct r2 as [?|e2], r1 as [?|e1]; injection E as <- <-; split; try done; by intros e [= <-]. }
    by split_and!.
Qed.

Lemma PublishPart_spec d id pn c i mode mtime w r w' :
  fsOk (w_fs w) → in_u 64 id → Forall plainName (pn ++ [c]) → head (pn ++ [c]) ≠ Some (bs ".esync") →
  nodes (w_fs w) !! partPath id = Some (NFile i) → nodes (w_fs w) !! (pn ++ [c]) ≠ Some (NFile i) →
  PublishPart d id (relOf (pn ++ [c])) mode mtime w = (r, w') →
  (∃ e, r = Err e ∧ unpublished (partPath id) pn c i (w_fs w) (w_fs w') e) ∨
  ((∀ e, r = Err e → GetCode e = E7006) ∧ fsOk (w_fs w') ∧ onlyPublish (partPath id) pn c i (w_fs w) (w_fs w') ∧
   nodes (w_fs w') !! (pn ++ [c]) = Some (NFile i) ∧ nodes (w_fs w') !! partPath id = None ∧ dirsTo pn (w_fs w')).
Proof.
  intros Hs Hid Hp Hhd Hpart Hfin E.
  pose proof (publish_checks d id pn c i w) as Hchk. unfold PublishPart in E.
  apply SE_bind_inv in E as [(e & E & _)|(u & w1 & E1 & E)]; [by apply sync_part_fs in E as [? _]|].
  apply SE_bind_inv in E as [(e & E & ->)|(u2 & w2 & E2 & E)].
  { left. exists e. split; [done|]. refine (Hchk (Err e) w' Hs Hid Hp Hhd Hpart _). rewrite (SE_bind_ok _ _ _ _ _ E1). exact (SE_bind_err _ _ _ _ _ E). }
  apply SE_bind_inv in E as [(e & E & ->)|(u3 & w3 & E3 & E)].
  { left. exists e. split; [done|]. refine (Hchk (Err e) w' Hs Hid Hp Hhd Hpart _).
    by rewrite (SE_bind_ok _ _ _ _ _ E1), (SE_bind_ok _ _ _ _ _ E2). }
  destruct (Hchk (Ok u3) w3 Hs Hid Hp Hhd Hpart) as [Hst Hd]; [by rewrite (SE_bind_ok _ _ _ _ _ E1), (SE_bind_ok _ _ _ _ _ E2)|].
  by eapply publish_rename.
Qed.

(** C33: publishing is atomic and confined, whichever I/O operations fail: if the
    result is success, or E7006 (only the metadata could not be applied), the
    final name is the part's file with its content and its parents are real
    directories; on any other error the final name is what it was before and the
    part is still there to retry.  Nothing else in the tree changes except that
    missing parents may be created, and no content changes at all. *)
Theorem PublishPart_atomic d id pn c i mode mtime w r w' :
  fsOk (w_fs w) → in_u 64 id → Forall plainName (pn ++ [c]) → head (pn ++ [c]) ≠ Some (bs ".esync") →
  nodes (w_fs w) !! partPath id = Some (NFile i) → nodes (w_fs w) !! (pn ++ [c]) ≠ Some (NFile i) →
  PublishPart d id (relOf (pn ++ [c])) mode mtime w = (r, w') →
  fsOk (w_fs w') ∧ onlyPublish (partPath id) pn c i (w_fs w) (w_fs w') ∧
  match r with
  | Err e =>
      if bool_decide (GetCode e = E7006) then
        nodes (w_fs w') !! (pn ++ [c]) = Some (NFile i) ∧ nodes (w_fs w') !! partPath id = None ∧
        (∀ k, (k <= length pn)%nat → isDir (w_fs w') (take k pn))
      else
        nodes (w_fs w') !! (pn ++ [c]) = nodes (w_fs w) !! (pn ++ [c]) ∧ nodes (w_fs w') !! partPath id = Some (NFile i) ∧
        GetCode e ∈ [E7013; E7003; E7002; E7008; E7005]
  | Ok _ =>
      nodes (w_fs w') !! (pn ++ [c]) = Some (NFile i) ∧ nodes (w_fs w') !! partPath id = None ∧
      (∀ k, (k <= length pn)%nat → isDir (w_fs w') (take k pn))
  end.
Proof.
  intros Hs Hid Hp Hhd Hpart Hfin E. apply PublishPart_spec with (c := c) (pn := pn) (i := i) in E; [|done..].
  destruct E as [(e & -> & [[K1 K2 K3 K4] [Hc1 Hc2]])|(Hc & H1 & H2 & H3 & H4 & H5)].
  - rewrite bool_decide_false by done. by split_and!.
  - split_and!; [done|done|]. destruct r as [u|e]; [done|]. by rewrite bool_decide_true by auto.
Qed.

(** ** Opening a part *)

(** A name outside the journal directory, and a tree that is the same there. *)
Definition outside (p : path) : Prop := head p ≠ Some (bs ".esync").
Record sameOutside (s s' : fs) : Prop := {
  so_nodes : ∀ p, outside p → nodes s' !! p = nodes s !! p;
  so_inodes : ∀ p j, outside p → nodes s !! p = Some (NFile j) → inodes s' !! j = inodes s !! j;
}.
Lemma sameOutside_refl s : sameOutside s s.
Proof. by split. Qed.
Lemma sameOutside_trans s1 s2 s3 : sameOutside s1 s2 → sameOutside s2 s3 → sameOutside s1 s3.
Proof.
  intros [A1 A2] [B1 B2]. split; intros p; [intros Hp; by rewrite B1, A1|].
  intros j Hp Hn. rewrite (B2 p j Hp); [by eapply A2|]. by rewrite A1.
Qed.

(** No link on the way to the part, and the part's file has no other name. *)
Record partSafe (id : Z) (s : fs) : Prop := {
  ps_links : ∀ k, (0 < k <= 3)%nat → nonLink s (take k (partPath id));
  ps_owned : ∀ p i, nodes s !! partPath id = Some (NFile i) → nodes s !! p = Some (NFile i) → p = partPath id;
}.
(** The open part: inode [i], which only the part names. *)
Record partOpen (id i : Z) (s : fs) : Prop := {
  po_ok : fsOk s;
  po_file : nodes s !! partPath id = Some (NFile i);
  po_owned : ∀ p, nodes s !! p = Some (NFile i) → p = partPath id;
}.

Lemma partOpen_outside id i s p : partOpen id i s → outside p → nodes s !! p ≠ Some (NFile i).
Proof. intros [_ _ Ho] Hp Hn. apply Ho in Hn as ->. by apply Hp. Qed.

Lemma MkdirAll_parts id w r w' :
  fsOk (w_fs w) → partSafe id (w_fs w) → MkdirAll (bs ".esync/parts") 448 w = (r, w') →
  fsOk (w_fs w') ∧ sameOutside (w_fs w) (w_fs w') ∧ nextIno (w_fs w') = nextIno (w_fs w) ∧
  (∀ p, length p = 3%nat → nodes (w_fs w') !! p = nodes (w_fs w) !! p) ∧
  (∀ p i, nodes (w_fs w') !! p = Some (NFile i) → nodes (w_fs w) !! p = Some (NFile i)) ∧
  (r = Ok () → ∀ k, (k <= 2)%nat → isDir (w_fs w') (take k [bs ".esync"; bs "parts"])).
Proof.
  intros Hs [Hl Ho] E. apply sys_inv in E as [(x & -> & ->)|E]; [split_and!; done || apply sameOutside_refl|].
  change (comps (bs ".esync/parts")) with [bs ".esync"; bs "parts"] in E.
  apply mkdirs_grows in E as (H1 & [G1 G2 G3] & H3); [|done|apply Hs|repeat constructor; by vm_compute|].
  2:{ intros k Hk. cbn [length] in Hk. replace ([] ++ take k [bs ".esync"; bs "parts"]) with (take k (partPath id)); [apply Hl; lia|].
      destruct k as [|[|[|k]]]; [done..|lia]. }
  assert (Hnew : ∀ p k, (0 < k <= 2)%nat → p = [] ++ take k [bs ".esync"; bs "parts"] → head p = Some (bs ".esync") ∧ (length p <= 2)%nat).
  { intros p k Hk ->. destruct k as [|[|[|k]]]; [lia|cbn; auto..|lia]. }
  split_and!; [done| |done| | |intros Hr k Hk; by apply H3].
  - split.
    + intros p Hp. destruct (G1 p) as [?|(_ & _ & k & Hk & Hpk)]; [done|]. by destruct (Hnew p k Hk Hpk).
    + intros p j _ _. by rewrite G2.
  - intros p Hp. destruct (G1 p) as [?|(_ & _ & k & Hk & Hpk)]; [done|]. destruct (Hnew p k Hk Hpk). lia.
  - intros p i Hp. destruct (G1 p) as [<-|(_ & [m Hm] & _)]; [done|congruence].
Qed.

Lemma OpenPart_spec id w r w' :
  fsOk (w_fs w) → in_u 64 id → partSafe id (w_fs w) → OpenPart id w = (r, w') →
  fsOk (w_fs w') ∧ sameOutside (w_fs w) (w_fs w') ∧
  match r with
  | Ok i => partOpen id i (w_fs w')
  | Err e => GetCode e ∈ [E7003; E7002; E7008; E7001]
  end.
Proof.
  intros Hs Hid Hsafe E. unfold OpenPart in E.
  assert (Hcode : ∀ d e' op subj, d ∈ [E7008; E7001] → GetCode (fault (diskCode e' d) op subj (Some (EStd e'))) ∈ [E7003; E7002; E7008; E7001]).
  { intros d e' op subj. rewrite GetCode_fault, !elem_of_cons. unfold diskCode. destruct e'; tauto. }
  apply SE_bind_inv in E as [(e & E & ->)|([] & w1 & E1 & E)].
  { apply orFault_inv in E as [(e' & E & [= ->])|(a & _ & ?)]; [|done].
    apply (MkdirAll_parts id) in E as (H1 & H2 & _); [|done..]. split_and!; [done..|]. apply Hcode. by left. }
  apply orFault_inv in E1 as [(e' & _ & ?)|([] & E1 & _)]; [done|].
  apply (MkdirAll_parts id) in E1 as (H1 & H2 & H3 & H4 & H5 & H6); [|done..]. specialize (H6 eq_refl).
  pose proof (partPath_plain id Hid) as Hpl. destruct Hsafe as [Hl Ho].
  apply orFault_inv in E as [(e' & E & ->)|(i & E & ->)]; (apply sys_inv in E as [(x & He & Hw)|E]; [try done|]).
  { rewrite Hw. split_and!; [done..|]. apply Hcode. right; by left. }
  all: assert (Hloc : locate (w_fs w1) true (partName id) = Ok (partPath id)) by
    (unfold locate; rewrite partName_rel; unfold relOf; rewrite comps_joinWith by done;
     apply (resolve_dirs maxLinks (w_fs w1) true []);
       [by apply notdd|intros k Hk; cbn in Hk; destruct k as [|[|[|k]]]; [lia|exact (H6 1%nat ltac:(lia))|exact (H6 2%nat ltac:(lia))|lia]
       |right; cbn [app]; intros t; rewrite H4 by done; apply (Hl 3%nat); lia]).
  all: rewrite Hloc, H4 in E by done.
  all: destruct (nodes (w_fs w) !! partPath id) as [[m|j|t]|] eqn:En; try done.
  all: try (assert (Hpar : parentOk (partPath id) (w_fs w1) = true) by (apply (parentOk_snoc _ [bs ".esync"; bs "parts"]); exact (H6 2%nat ltac:(lia)));
            rewrite Hpar in E).
  all: injection E as ? ?; try done; subst.
  1,2: replace (w_fs w') with (w_fs w1) by done; split_and!; [done..|]; apply Hcode; right; by left.
  - replace (w_fs w') with (w_fs w1) by done. split_and!; [done..|]. split; [done|by rewrite H4|].
    intros p Hp. by eapply Ho, H5.
  - replace (w_fs w') with (createFile (partPath id) (mkInode [] (mkMeta 384 (0, 0))) (w_fs w1)) by done.
    assert (Hn1 : nodes (w_fs w1) !! partPath id = None) by by rewrite H4.
    split_and!; [by apply fsOk_create| |].
    + eapply sameOutside_trans; [exact H2|]. split.
      * intros p Hp. cbn. rewrite lookup_insert_ne; [done|]. intros <-. by apply Hp.
      * intros p j _ Hj. cbn. rewrite lookup_insert_ne; [done|]. apply (ok_inode _ H1) in Hj as [_ ?]. lia.
    + split; [by apply fsOk_create|apply lookup_insert_eq|]. intros p Hp. by apply createFile_fresh in Hp.
Qed.

(** ** When no operation fails *)

(** Every proper or improper prefix but the empty one is absent or a directory. *)
Definition clearDirs (cs : path) (s : fs) : Prop :=
  ∀ k, (0 < k <= length cs)%nat → nodes s !! take k cs = None ∨ isDir s (take k cs).

Lemma sys_lucky {A} (m : fs → result stdErr A * fs) w :
  w_faults w = [] → sys m w = ((m (w_fs w)).1, mkWorld (m (w_fs w)).2 []).
Proof. intros Hw. unfold sys. rewrite Hw. by destruct (m (w_fs w)). Qed.
Lemma attempt_lucky {A} (m : IO A) w a w' : m w = (Ok a, w') → attempt m w = (Ok (Ok a), w').
Proof. intros Hm. unfold attempt. by rewrite Hm. Qed.
Lemma orFault_lucky {A} code op subj (m : IO A) w a w' : m w = (Ok a, w') → orFault code op subj m w = (Ok a, w').
Proof. intros Hm. unfold orFault. rewrite (SE_bind_ok _ _ _ _ _ (attempt_lucky _ _ _ _ Hm)). done. Qed.

Lemma mkdirs_lucky mode rest : ∀ cur s,
  fsOk s → isDir s cur → Forall (λ c, c ≠ dotdot) rest →
  (∀ k, (0 < k <= length rest)%nat → nodes s !! (cur ++ take k rest) = None ∨ isDir s (cur ++ take k rest)) →
  (mkdirs mode cur rest s).1 = Ok ().
Proof.
  induction rest as [|c rest IH]; intros cur s Hs Hcur Hd Hk; [done|]. cbn [mkdirs].
  apply Forall_cons in Hd as [Hc Hd]. pose proof (Hk 1%nat ltac:(simpl; lia)) as H1. change (take 1 (c :: rest)) with [c] in H1.
  assert (Hnl : nonLink s (cur ++ [c])) by (destruct H1 as [H1|H1]; [intros t; congruence|by apply isDir_nonLink]).
  assert (Hrest : ∀ k, cur ++ take (S k) (c :: rest) = (cur ++ [c]) ++ take k rest) by (intros k; by rewrite <- app_assoc).
  rewrite resolve_cons by (done || by right). destruct H1 as [Hn|[m Hm]].
  - rewrite Hn, Hn. apply IH; [| |done|].
    + apply fsOk_add; [done|done|by apply parentOk_snoc].
    + exists (mkMeta mode (0, 0)). apply lookup_insert_eq.
    + intros k Hk'. left. cbn. rewrite lookup_insert_ne.
      2:{ intros E. apply (f_equal length) in E. rewrite !length_app, length_take in E. simpl in E. lia. }
      destruct (nodes s !! ((cur ++ [c]) ++ take k rest)) as [n|] eqn:En; [|done].
      apply (fsOk_prefix s) in En as [m Hm]; [congruence|done|]. intros E. apply (f_equal length) in E. rewrite length_take in E. simpl in E. lia.
  - rewrite Hm, resolve_nil, Hm. apply IH; [done|by exists m|done|]. intros k Hk'. rewrite <- Hrest. apply Hk. simpl. lia.
Qed.
Lemma MkdirAll_lucky cs mode w :
  w_faults w = [] → fsOk (w_fs w) → Forall plainName cs → clearDirs cs (w_fs w) →
  ∃ w', MkdirAll (relOf cs) mode w = (Ok (), w') ∧ w_faults w' = [].
Proof.
  intros Hw Hs Hp Hc. unfold MkdirAll. rewrite sys_lucky by done. unfold relOf. rewrite comps_joinWith by done.
  rewrite (mkdirs_lucky mode cs [] (w_fs w)) by (done || apply Hs || by apply notdd). by eexists.
Qed.

Lemma stat_clear s cs k :
  fsOk s → Forall plainName cs → (∀ j, (j < k)%nat → isDir s (take j cs)) → (0 < k <= length cs)%nat →
  (nodes s !! take k cs = None ∨ isDir s (take k cs)) →
  stat_ false (relOf (take k cs)) s =
    match nodes s !! take k cs with Some n => Ok (take k cs, n) | None => Err StdNotExist end.
Proof.
  intros Hs Hp Hd Hk Hn. unfold stat_, locate, relOf. rewrite comps_joinWith by by apply Forall_take.
  rewrite (resolve_dirs maxLinks s false []); [done|by apply notdd, Forall_take| |by left].
  intros j Hj. rewrite length_take in Hj. cbn [app]. rewrite take_take, Nat.min_l by lia. apply Hd. lia.
Qed.
Lemma checkParents_lucky cs n : ∀ k w,
  w_faults w = [] → fsOk (w_fs w) → Forall plainName cs → (0 < k)%nat → (k + n <= length cs)%nat →
  (∀ j, (j < k)%nat → isDir (w_fs w) (take j cs)) →
  (∀ j, (0 < j < k + n)%nat → nodes (w_fs w) !! take j cs = None ∨ isDir (w_fs w) (take j cs)) →
  ∃ w', checkParents ((λ j, relOf (take j cs)) <$> seq k n) w = (Ok (), w') ∧ w_faults w' = [].
Proof.
  induction n as [|n IH]; intros k w Hw Hs Hp Hk Hlen Hd Hc; cbn [seq fmap list_fmap checkParents]; [by exists w|].
  assert (Hne : take k cs ≠ []).
  { intros E. apply (f_equal length) in E. rewrite length_take in E. simpl in E. lia. }
  rewrite bool_decide_false by (by apply joinWith_not_dot; [|apply Forall_take]).
  assert (Hst : stat_ false (relOf (take k cs)) (w_fs w) =
    match nodes (w_fs w) !! take k cs with Some n => Ok (take k cs, n) | None => Err StdNotExist end).
  { apply stat_clear; [done|done|done|lia|apply Hc; lia]. }
  unfold Lstat at 1, attempt at 1. unfold mbind at 1, SE_bind at 1. rewrite sys_lucky by done. cbn [fst snd]. rewrite Hst.
  destruct (Hc k ltac:(lia)) as [->|[m Hm]]; [by eexists|]. rewrite Hm. cbn.
  apply (IH (S k)); cbn [w_fs w_faults]; try done; try lia.
  - intros j Hj. destruct (decide (j = k)) as [->|]; [by exists m|apply Hd; lia].
  - intros j Hj. apply Hc. lia.
Qed.

Lemma syncPart_lucky d part w : w_faults w = [] → ∃ w', syncPart d part w = (Ok (), w') ∧ w_faults w' = [].
Proof.
  intros Hw. unfold syncPart. destruct (noFsync d); [by eexists|]. unfold attempt, mbind, SE_bind, OpenRead.
  rewrite sys_lucky by done. destruct (_ : result stdErr Z); [|by eexists]. unfold ignore, Flush.
  rewrite sys_lucky by done. cbn [fst snd]. rewrite sys_lucky by done. by eexists.
Qed.

(** A name whose directories exist or can be made, and that is not a directory. *)
Record publishable (pn : path) (c : bytes) (s : fs) : Prop := {
  pb_dirs : clearDirs pn s;
  pb_name : ¬ isDir s (pn ++ [c]);
}.

Lemma mkParents_lucky pn c w :
  w_faults w = [] → fsOk (w_fs w) → Forall plainName (pn ++ [c]) → clearDirs pn (w_fs w) →
  ∃ w', mkParents (relOf (pn ++ [c])) w = (Ok (), w') ∧ w_faults w' = [].
Proof.
  intros Hw Hs Hp Hc. unfold mkParents. destruct (decide (pn = [])) as [->|Hne].
  - assert (Hd : Dir (relOf ([] ++ [c])) = dot).
    { apply Forall_singleton in Hp as (_ & _ & _ & Hcs). unfold Dir, relOf. cbn [app joinWith]. by rewrite LastIndexByte_None. }
    rewrite Hd, bool_decide_true by by left. by eexists.
  - unfold relOf. rewrite Dir_join by done. apply Forall_app in Hp as [Hp _].
    rewrite bool_decide_false.
    2:{ intros Hj. by apply (joinWith_not_dot pn Hne Hp); naive_solver. }
    destruct (MkdirAll_lucky pn 511 w Hw Hs Hp Hc) as (w' & E & Hw'). exists w'. split; [|done]. by apply orFault_lucky.
Qed.

Lemma checkParentSymlinks_lucky pn c w :
  w_faults w = [] → fsOk (w_fs w) → Forall plainName (pn ++ [c]) → clearDirs pn (w_fs w) →
  ∃ w', checkParentSymlinks (relOf (pn ++ [c])) w = (Ok (), w') ∧ w_faults w' = [].
Proof.
  intros Hw Hs Hp Hc. unfold checkParentSymlinks. rewrite parents_relOf by (done || by destruct pn).
  rewrite length_snoc. cbn [Nat.sub]. rewrite Nat.sub_0_r. apply checkParents_lucky; try done; try lia.
  - rewrite length_snoc. lia.
  - intros j Hj. replace j with 0%nat by lia. apply Hs.
  - intros j Hj. rewrite take_app_le by lia. apply Hc. lia.
Qed.

(** The metadata calls and the rename on a staged part. *)
Lemma metaCall_lucky cs i (f : meta → meta) w :
  w_faults w = [] → fsOk (w_fs w) → Forall plainName cs → nodes (w_fs w) !! cs = Some (NFile i) →
  ∃ w', sys (λ s, match stat_ true (relOf cs) s with Ok (p, n) => (Ok (), updMeta p n f s) | Err e => (Err e, s) end) w = (Ok (), w') ∧
        w_faults w' = [].
Proof. intros Hw Hs Hp Hn. rewrite sys_lucky by done. unfold relOf. rewrite (stat_file _ true cs i) by done. by eexists. Qed.
Lemma RenameTo_lucky po pn c i w :
  w_faults w = [] → fsOk (w_fs w) → Forall plainName po → Forall plainName (pn ++ [c]) → dirsTo pn (w_fs w) →
  nodes (w_fs w) !! po = Some (NFile i) → nodes (w_fs w) !! (pn ++ [c]) ≠ Some (NFile i) → ¬ isDir (w_fs w) (pn ++ [c]) → po ≠ pn ++ [c] →
  ∃ w', RenameTo (relOf po) (relOf (pn ++ [c])) w = (Ok (), w') ∧ w_faults w' = [].
Proof.
  intros Hw Hs Hpo Hpn Hd Hi Hne Hnd Hpp. unfold RenameTo. rewrite sys_lucky by done. unfold relOf.
  rewrite (stat_file _ false po i), locate_dirs by done.
  assert (Hp : parentOk (pn ++ [c]) (w_fs w) = true) by (apply parentOk_snoc; rewrite <- (firstn_all pn); by apply Hd).
  rewrite Hp. destruct (nodes (w_fs w) !! (pn ++ [c])) as [[m|j|t]|] eqn:En; [by destruct Hnd; exists m|..];
    rewrite bool_decide_false by congruence; by eexists.
Qed.

(** Without faults a staged part is published. *)
Lemma PublishPart_lucky d id pn c i mode mtime w :
  w_faults w = [] → fsOk (w_fs w) → in_u 64 id → Forall plainName (pn ++ [c]) → outside (pn ++ [c]) →
  partOpen id i (w_fs w) → publishable pn c (w_fs w) →
  ∃ w', PublishPart d id (relOf (pn ++ [c])) mode mtime w = (Ok (), w') ∧ w_faults w' = [].
Proof.
  intros Hw Hs Hid Hp Hout Hpo [Hc Hnd]. destruct (part_apart id pn c Hout) as [Ha1 Ha2].
  pose proof (partPath_plain id Hid) as Hpl. pose proof (partOpen_outside id i _ _ Hpo Hout) as Hfin.
  pose proof (publish_checks d id pn c i w) as Hchk. unfold PublishPart.
  destruct (syncPart_lucky d (partName id) w Hw) as (w1 & E1 & Hw1). rewrite (SE_bind_ok _ _ _ _ _ E1).
  pose proof (sync_part_fs _ _ _ _ _ E1) as [_ Hf1].
  destruct (checkParentSymlinks_lucky pn c w1) as (w2 & E2 & Hw2); [done|by rewrite Hf1|done|by rewrite Hf1|].
  rewrite (SE_bind_ok _ _ _ _ _ E2). apply checkParentSymlinks_spec in E2 as Hf2; [|by rewrite Hf1|by destruct pn|done].
  destruct Hf2 as [Hf2 _].
  destruct (mkParents_lucky pn c w2) as (w3 & E3 & Hw3); [done|by rewrite Hf2, Hf1|done|by rewrite Hf2, Hf1|].
  rewrite (SE_bind_ok _ _ _ _ _ E3).
  destruct (Hchk (Ok ()) w3 Hs Hid Hp Hout (po_file _ _ _ Hpo)) as [Hst Hd];
    [by rewrite (SE_bind_ok _ _ _ _ _ E1), (SE_bind_ok _ _ _ _ _ E2)|].
  rewrite partName_rel. destruct (metaCall_lucky (partPath id) i (λ m, mkMeta mode (md_mtime m)) w3) as (w4 & E4 & Hw4); [done|apply Hst|done|apply Hst|].
  rewrite (SE_bind_ok _ _ _ _ _ (attempt_lucky (Chmod (relOf (partPath id)) mode) _ _ _ E4)).
  apply (Chmod_file _ i) in E4; [|apply Hst|done|apply Hst]. apply (staged_meta _ _ _ _ _ Ha1 Ha2 _ _ Hst) in E4 as Hst4.
  destruct (metaCall_lucky (partPath id) i (λ m, mkMeta (md_mode m) mtime) w4) as (w5 & E5 & Hw5); [done|apply Hst4|done|apply Hst4|].
  rewrite (SE_bind_ok _ _ _ _ _ (attempt_lucky (Chtimes (relOf (partPath id)) mtime) _ _ _ E5)).
  apply (Chtimes_file _ i) in E5; [|apply Hst4|done|apply Hst4]. apply (staged_meta _ _ _ _ _ Ha1 Ha2 _ _ Hst4) in E5 as Hst5.
  assert (Hd5 : dirsTo pn (w_fs w5)).
  { intros k Hk. unfold isDir. rewrite (mo_nodes _ _ _ E5), (mo_nodes _ _ _ E4). by apply Hd. }
  destruct (RenameTo_lucky (partPath id) pn c i w5) as (w6 & E6 & Hw6); [done|apply Hst5|done|done|done|apply Hst5| | |done|].
  { by rewrite (sg_final _ _ _ _ _ _ Hst5). }
  { unfold isDir. by rewrite (sg_final _ _ _ _ _ _ Hst5). }
  cbv zeta. rewrite (SE_bind_ok _ _ _ _ _ (orFault_lucky (λ e, diskCode e E7005) "atomic publish" (relOf (pn ++ [c])) _ _ _ _ E6)). by exists w6.
Qed.

(** Without faults the part opens. *)
Record partOpenable (id : Z) (s : fs) : Prop := {
  pa_dirs : clearDirs [bs ".esync"; bs "parts"] s;
  pa_part : nodes s !! partPath id = None ∨ ∃ i, nodes s !! partPath id = Some (NFile i);
}.
Lemma partOpenable_links id s : partOpenable id s → ∀ k, (0 < k <= 3)%nat → nonLink s (take k (partPath id)).
Proof.
  intros [Hd Hp] k Hk t. destruct k as [|[|[|[|k]]]]; try lia.
  - destruct (Hd 1%nat) as [H|[m H]]; [cbn; lia|..]; cbn in *; congruence.
  - destruct (Hd 2%nat) as [H|[m H]]; [cbn; lia|..]; cbn in *; congruence.
  - change (take 3 (partPath id)) with (partPath id). destruct Hp as [H|[i H]]; congruence.
Qed.

(** No part of file [id]; what the work on one file leaves of the parts of others. *)
Record partFree (id : Z) (s : fs) : Prop := {
  pf_dirs : clearDirs [bs ".esync"; bs "parts"] s;
  pf_part : nodes s !! partPath id = None;
}.
Definition partsKept (id : Z) (s s' : fs) : Prop := ∀ id', partPath id' ≠ partPath id → partFree id' s → partFree id' s'.

Lemma partFree_safe id s : partFree id s → partSafe id s ∧ partOpenable id s.
Proof.
  intros [Hd Hp]. assert (Ho : partOpenable id s) by (split; [done|by left]).
  split; [|done]. split; [by apply partOpenable_links|]. intros p i Hi. congruence.
Qed.
Lemma partsKept_refl id s : partsKept id s s.
Proof. by intros id' _. Qed.
Lemma partsKept_trans id s1 s2 s3 : partsKept id s1 s2 → partsKept id s2 s3 → partsKept id s1 s3.
Proof. intros H1 H2 id' Hne Hf. by apply H2, H1. Qed.
Lemma partsKept_nodes id s s' : nodes s' = nodes s → partsKept id s s'.
Proof.
  intros E id' _ [Hd Hp]. split; [|by rewrite E]. intros k Hk. unfold isDir. rewrite E. by apply Hd.
Qed.
Lemma partsKept_publish id pn c i s s' :
  outside (pn ++ [c]) → onlyPublish (partPath id) pn c i s s' → partsKept id s s'.
Proof.
  intros Ho [Hn _ _] id' Hne [Hd Hp]. split.
  - intros k Hk. destruct (Hn (take k [bs ".esync"; bs "parts"])) as [E|(_ & ? & _)]; [| |unfold isDir; rewrite E; by apply Hd|by right].
    + intros E. apply (f_equal length) in E. rewrite length_take in E. cbn in E. lia.
    + intros E. apply Ho. rewrite <- E. destruct k as [|k]; [lia|done].
  - destruct (part_apart id' pn c Ho) as [H1 H2]. destruct (Hn (partPath id')) as [E|(_ & _ & k & _ & E)]; [done|done|by rewrite E|].
    by apply H2 in E.
Qed.

Lemma OpenPart_lucky id w :
  w_faults w = [] → fsOk (w_fs w) → in_u 64 id → partSafe id (w_fs w) → partOpenable id (w_fs w) →
  ∃ i w', OpenPart id w = (Ok i, w') ∧ w_faults w' = [] ∧ partsKept id (w_fs w) (w_fs w').
Proof.
  intros Hw Hs Hid Hsafe [Hd Hp]. unfold OpenPart. pose proof (partPath_plain id Hid) as Hpl.
  destruct (MkdirAll_lucky [bs ".esync"; bs "parts"] 448 w) as (w1 & E1 & Hw1); [done|done| |done|].
  { refine (bool_decide_eq_true_1 (Forall plainName _) _). vm_compute. reflexivity. }
  change (relOf [bs ".esync"; bs "parts"]) with (bs ".esync/parts") in E1.
  rewrite (SE_bind_ok _ _ _ _ _ (orFault_lucky (λ e, diskCode e E7008) "create parts directory" (bs ".esync/parts") _ _ _ _ E1)).
  apply (MkdirAll_parts id) in E1 as (H1 & _ & _ & H4 & _ & H6); [|done..]. specialize (H6 eq_refl).
  cbv zeta. assert (Ho : ∃ i w', OpenCreate (partName id) 384 w1 = (Ok i, w') ∧ w_faults w' = [] ∧
    ∀ p, p ≠ partPath id → nodes (w_fs w') !! p = nodes (w_fs w1) !! p).
  { unfold OpenCreate. rewrite sys_lucky by done. unfold locate. rewrite partName_rel. unfold relOf. rewrite comps_joinWith by done.
    rewrite (resolve_dirs maxLinks (w_fs w1) true []).
    - cbn [app]. rewrite H4 by done. destruct Hp as [->|[i ->]]; [|by eexists _, _; split_and!].
      assert (Hpar : parentOk (partPath id) (w_fs w1) = true) by (apply (parentOk_snoc _ [bs ".esync"; bs "parts"]); exact (H6 2%nat ltac:(lia))).
      rewrite Hpar. eexists _, _. split_and!; [done|done|]. intros p Hne. by apply lookup_insert_ne.
    - by apply notdd.
    - intros k Hk. cbn in Hk. destruct k as [|[|[|k]]]; [lia|exact (H6 1%nat ltac:(lia))|exact (H6 2%nat ltac:(lia))|lia].
    - right. cbn [app]. intros t. rewrite H4 by done. apply (ps_links _ _ Hsafe 3%nat). lia. }
  destruct Ho as (i & w' & E & Hw' & Hn). exists i, w'. split_and!; [by apply orFault_lucky|done|].
  intros id' Hne [_ Hp']. split; [|rewrite Hn by done; by rewrite H4].
  intros k Hk. right. unfold isDir. rewrite Hn; [apply H6; cbn in Hk; lia|].
  intros E'. apply (f_equal length) in E'. rewrite length_take in E'. cbn in E'. lia.
Qed.

(** ** Symbolic links *)

(** [path.Clean] and the lexical walk agree: a leading [".."] is left exactly when
    the walk leaves the root. *)
Lemma cleanComps_walk out ts :
  Forall (λ c, c ≠ dotdot) out → Forall (λ c, c ≠ dot) ts →
  match walk out ts with
  | Some st => cleanComps false out ts = st ∧ head st ≠ Some dotdot
  | None => head (cleanComps false out ts) = Some dotdot
  end.
Proof.
  intros Ho Ht. revert out Ho. induction Ht as [|c ts Hc Ht IH]; intros out Ho; cbn [walk cleanComps].
  { split; [done|]. intros E. apply Forall_reverse in Ho. destruct (reverse out) as [|x l]; [done|].
    injection E as ->. by apply Forall_cons in Ho as [? _]. }
  change (bs ".") with dot. change (bs "..") with dotdot. rewrite bool_decide_false by done.
  destruct (bool_decide_reflect (c = dotdot)) as [->|Hd].
  - destruct out as [|o out]; [|apply Forall_cons in Ho as [Ho1 Ho]; rewrite bool_decide_false by done; by apply IH].
    clear IH Ho. assert (Hg : ∀ out, out ≠ [] → last out = Some dotdot → head (cleanComps false out ts) = Some dotdot); [|by apply Hg].
    clear Hc. induction Ht as [|c ts Hc Ht IH]; intros out Hne Hl; cbn [cleanComps].
    { by rewrite head_reverse. }
    destruct (bool_decide_reflect (c = dotdot)) as [->|].
    + destruct out as [|o out]; [done|]. destruct (bool_decide_reflect (o = dotdot)) as [->|Hod].
      * by apply IH.
      * destruct out as [|o' out]; [by injection Hl as ->|]. by apply IH.
    + apply IH; [done|]. destruct out; [done|]. done.
  - apply IH. by apply Forall_cons.
Qed.

Lemma joinWith_dotdot rs :
  Forall (λ c, c ≠ [] ∧ (c_slash ∉ c)) rs →
  bool_decide (joinWith [c_slash] rs = dotdot) || HasPrefix (joinWith [c_slash] rs) (bs "../") = bool_decide (head rs = Some dotdot).
Proof.
  intros H. destruct rs as [|x rs]; [done|].
  assert (Hns : Forall (λ c, c_slash ∉ c) (x :: rs)) by (eapply Forall_impl; [exact H|]; by intros ? [? ?]).
  pose proof (Split_joinWith_noslash (x :: rs) ltac:(done) Hns) as HS. cbn [head].
  destruct (bool_decide_reflect (Some x = Some dotdot)) as [[= ->]|Hx].
  - destruct rs as [|y rs]; [done|]. apply orb_true_iff. right. unfold HasPrefix. apply bool_decide_eq_true. done.
  - apply orb_false_iff. split; [apply bool_decide_eq_false|]; [intros E; rewrite E in HS; by injection HS as <- _|].
    unfold HasPrefix. apply bool_decide_eq_false. intros E. set (z := joinWith [c_slash] (x :: rs)) in *.
    rewrite <- (take_drop (length (bs "../")) z), E in HS.
    change (bs "../" ++ drop (length (bs "../")) z) with (dotdot ++ c_slash :: drop (length (bs "../")) z) in HS.
    rewrite Split_line in HS by (refine (bool_decide_eq_true_1 (_ ∉ _) _); by vm_compute). by injection HS as <- _.
Qed.

(** The directory part of a relative name. *)
Lemma Dir_relOf pn c : Forall plainName (pn ++ [c]) →
  ∃ d, Dir (relOf (pn ++ [c])) = d ∧ comps d = pn ∧ d ≠ [] ∧ ∀ x, rooted (d ++ x) = false.
Proof.
  intros Hp. pose proof Hp as [Hpn Hc]%Forall_app. destruct (decide (pn = [])) as [->|Hne].
  - exists dot. split_and!; [|by vm_compute|done|done]. apply Forall_singleton in Hc as (_ & _ & _ & Hc).
    unfold Dir, relOf. cbn [app joinWith]. by rewrite LastIndexByte_None.
  - exists (joinWith [c_slash] pn). destruct (joinWith_ne pn Hne Hpn) as (b & t & Ej & Hb).
    split_and!; [by apply Dir_join|by apply comps_joinWith|by rewrite Ej|].
    intros x. rewrite Ej. unfold rooted, HasPrefix. cbn [app length take]. rewrite take_0.
    apply bool_decide_eq_false. by intros [= ->].
Qed.

Lemma Join2_relOf pn c target : Forall plainName (pn ++ [c]) →
  Join2 (Dir (relOf (pn ++ [c]))) target =
  let body := joinWith [c_slash] (cleanComps false [] (pn ++ comps target)) in if bool_decide (body = []) then dot else body.
Proof.
  intros Hp. destruct (Dir_relOf pn c Hp) as (d & -> & Hd & Hdne & Hr). unfold Join2. rewrite bool_decide_false by done.
  destruct (bool_decide_reflect (target = [])) as [->|].
  - unfold Clean. specialize (Hr []). rewrite app_nil_r in Hr. rewrite Hr, Hd. change (comps []) with (@nil bytes). by rewrite app_nil_r.
  - cbn [app]. unfold Clean. by rewrite Hr, comps_app, Hd.
Qed.

(** Plain names are pushed. *)
Lemma cleanComps_push pn l : Forall plainName pn → cleanComps false [] (pn ++ l) = cleanComps false (reverse pn) l.
Proof.
  intros Hpn. rewrite <- (app_nil_r (reverse pn)). generalize (@nil bytes) as out.
  induction Hpn as [|x pn (_ & _ & Hx & _) Hpn IH]; intros out; [done|].
  cbn [cleanComps app]. rewrite bool_decide_false by done. rewrite IH, reverse_cons. by rewrite <- app_assoc.
Qed.

(** A component as [Split] leaves it. *)
Definition compName (c : bytes) : Prop := c ≠ [] ∧ (c_slash ∉ c).

Lemma plain_compName l : Forall plainName l → Forall compName l.
Proof. intros H. eapply Forall_impl; [exact H|]. by intros x (? & _ & _ & ?). Qed.

Lemma cleanComps_names l : Forall compName l → ∀ out, Forall compName out → Forall compName (cleanComps false out l).
Proof.
  assert (Hdd : compName dotdot).
  { split; [done|]. refine (bool_decide_eq_true_1 (_ ∉ _) _). by vm_compute. }
  induction 1 as [|x l Hx Hall IH]; intros out Ho; cbn [cleanComps]; [by apply Forall_reverse|].
  destruct (bool_decide (x = dotdot)); [|apply IH; by apply Forall_cons].
  destruct out as [|o out]; [apply IH; by apply Forall_singleton|]. apply Forall_cons in Ho as [??].
  destruct (bool_decide (o = dotdot)); apply IH; [|done]. by repeat (apply Forall_cons; split).
Qed.

(** The target check decides the lexical walk from the link's directory. *)
Lemma unsafeTarget_exact pn c target :
  Forall plainName (pn ++ [c]) →
  unsafeTarget (relOf (pn ++ [c])) target = None ↔
  absoluteTarget target = false ∧ is_Some (walk (reverse pn) (comps target)).
Proof.
  intros Hp. pose proof Hp as [Hpn _]%Forall_app. pose proof (comps_ok target) as Hct.
  unfold unsafeTarget. destruct (absoluteTarget target); [naive_solver|].
  rewrite Join2_relOf by done. cbv zeta.
  assert (Hok : Forall compName (cleanComps false [] (pn ++ comps target))).
  { apply cleanComps_names; [|done]. apply Forall_app. split; [by apply plain_compName|].
    eapply Forall_impl; [exact Hct|]. unfold compName. naive_solver. }
  set (rs := cleanComps false [] (pn ++ comps target)) in *.
  assert (Hiff : bool_decide ((if bool_decide (joinWith [c_slash] rs = []) then dot else joinWith [c_slash] rs) = dotdot)
    || HasPrefix (if bool_decide (joinWith [c_slash] rs = []) then dot else joinWith [c_slash] rs) (bs "../") = bool_decide (head rs = Some dotdot)).
  { rewrite <- joinWith_dotdot by done. destruct (bool_decide_reflect (joinWith [c_slash] rs = [])) as [->|]; done. }
  rewrite Hiff. unfold rs. rewrite cleanComps_push by done.
  pose proof (cleanComps_walk (reverse pn) (comps target)) as Hw.
  specialize (Hw ltac:(apply Forall_reverse; eapply Forall_impl; [exact Hpn|]; by intros x (_ & _ & ? & _))
                 ltac:(eapply Forall_impl; [exact Hct|]; naive_solver)).
  destruct (walk (reverse pn) (comps target)) as [st|].
  - destruct Hw as [-> Hw]. rewrite bool_decide_false by done. split; [by eauto|done].
  - rewrite bool_decide_true by done. split; [done|]. by intros [_ [? ?]].
Qed.

(** The state after the checks and [mkParents]: all parents are directories, and
    the rest of the tree is as it was. *)
Lemma Remove_fs cs c w r w' :
  Forall plainName (cs ++ [c]) → (∀ k, (k <= length cs)%nat → isDir (w_fs w) (take k cs)) →
  Remove (relOf (cs ++ [c])) w = (r, w') →
  ∀ p, p ≠ cs ++ [c] → nodes (w_fs w') !! p = nodes (w_fs w) !! p.
Proof.
  intros Hp Hd E p Hne. apply sys_inv in E as [(x & _ & ->)|E]; [done|].
  unfold stat_, relOf in E. rewrite locate_dirs in E by done. cbn in E.
  destruct (nodes (w_fs w) !! (cs ++ [c])) as [[m|i|t]|]; cbn in E; [destruct (_ || _)|..]; injection E as _ <-;
    try done; cbn; by rewrite lookup_delete_ne.
Qed.

Lemma prefix_ne {A} (cs : list A) c k : (k <= length cs)%nat → take k cs ≠ cs ++ [c].
Proof. intros Hk E. apply (f_equal length) in E. rewrite length_take, length_app in E. simpl in E. lia. Qed.

(** ** Hard links

    From [t] to [t'] the names [qs] may have become names of file [i], or have been
    removed; missing parents of them may have been created; the rest is as it was. *)
Record linked (i : Z) (qs : list path) (t t' : fs) : Prop := {
  ln_ok : fsOk t';
  ln_nodes : ∀ p, nodes t' !! p = nodes t !! p ∨
    (p ∈ qs ∧ (nodes t' !! p = None ∨ nodes t' !! p = Some (NFile i))) ∨
    ((nodes t !! p = None ∨ p ∈ qs) ∧ isDir t' p ∧ ∃ q k, q ∈ qs ∧ (0 < k < length q)%nat ∧ p = take k q);
  ln_inodes : inodes t' = inodes t;
}.
Lemma linked_refl i t : fsOk t → linked i [] t t.
Proof. intros Ht. split; [done|by left|done]. Qed.
Lemma linked_trans i qs1 qs2 t1 t2 t3 : linked i qs1 t1 t2 → linked i qs2 t2 t3 → linked i (qs1 ++ qs2) t1 t3.
Proof.
  intros [_ A2 A3] [B1 B2 B3]. split; [done| |congruence]. intros p.
  destruct (B2 p) as [E|[[Hp H]|(Hn & Hd & q & k & Hq & Hk & ->)]].
  - unfold isDir. rewrite E. destruct (A2 p) as [?|[[Hp H]|(Hn & Hd & q & k & Hq & Hk & ->)]]; [by left|right; left; set_solver|].
    right; right. split_and!; [set_solver|done|]. exists q, k. set_solver.
  - right; left. set_solver.
  - right; right. split_and!; [|done|exists q, k; set_solver]. destruct Hn as [Hn|Hn]; [|right; set_solver].
    destruct (A2 (take k q)) as [E|[[Hp _]|(_ & [m Hm] & _)]]; [left; congruence|right; set_solver|congruence].
Qed.
(** What was there under another name stays. *)
Lemma linked_keeps i qs t t' p n : linked i qs t t' → p ∉ qs → nodes t !! p = Some n → nodes t' !! p = Some n.
Proof. intros [_ H _] Hp Hn. destruct (H p) as [->|[[? _]|([?|?] & _)]]; [done|done|congruence|done]. Qed.

(** Removing a name whose directories exist. *)
Lemma Remove_linked cs c i w r w' :
  fsOk (w_fs w) → Forall plainName (cs ++ [c]) → dirsTo cs (w_fs w) → Remove (relOf (cs ++ [c])) w = (r, w') →
  linked i [cs ++ [c]] (w_fs w) (w_fs w').
Proof.
  intros Hs Hp Hd E. assert (Hsame : linked i [cs ++ [c]] (w_fs w) (w_fs w)) by (split; [done|by left|done]).
  apply sys_inv in E as [(x & _ & ->)|E]; [done|]. unfold stat_, relOf in E. rewrite locate_dirs in E by done. cbn in E.
  assert (Hdel : (isDir (w_fs w) (cs ++ [c]) → hasChildren (cs ++ [c]) (w_fs w) = false) → linked i [cs ++ [c]] (w_fs w) (delNode (cs ++ [c]) (w_fs w))).
  { intros Hc. split; [apply fsOk_delNode; [done|by destruct cs|done]| |done]. intros p. unfold delNode. cbn.
    destruct (decide (cs ++ [c] = p)) as [<-|]; [|left; by apply lookup_delete_ne].
    right; left. split; [by left|]. left. apply lookup_delete_eq. }
  destruct (nodes (w_fs w) !! (cs ++ [c])) as [[m|j|t]|] eqn:En; cbn in E.
  - destruct (bool_decide (cs ++ [c] = []) || hasChildren (cs ++ [c]) (w_fs w)) eqn:Ec; injection E as _ <-; [done|].
    apply orb_false_iff in Ec as [_ Ec]. by apply Hdel.
  - injection E as _ <-. apply Hdel. intros [m Hm]. congruence.
  - injection E as _ <-. apply Hdel. intros [m Hm]. congruence.
  - injection E as _ <-. done.
Qed.

Lemma linked_grows i pn c s s' : fsOk s' → grows [] pn s s' → linked i [pn ++ [c]] s s'.
Proof.
  intros Hs [G1 G2 _]. split; [done| |done]. intros p. destruct (G1 p) as [?|(Hn & Hd & k & Hk & ->)]; [by left|].
  right; right. split_and!; [by left|done|]. exists (pn ++ [c]), k. cbn [app]. rewrite length_snoc, take_app_le by lia.
  split_and!; [by left|lia|lia|done].
Qed.
Lemma linked_again i q t1 t2 t3 : linked i [q] t1 t2 → linked i [q] t2 t3 → linked i [q] t1 t3.
Proof.
  intros H1 H2. destruct (linked_trans _ _ _ _ _ _ H1 H2) as [L1 L2 L3]. split; [done| |done]. intros p.
  assert (Hq : ∀ q', q' ∈ [q] ++ [q] → q' ∈ [q]) by set_solver.
  destruct (L2 p) as [?|[[Hp ?]|(Hn & Hd & q' & k & Hq' & ?)]]; [by left|right; left; by split; [apply Hq|]|right; right].
  split_and!; [destruct Hn; auto|done|]. exists q', k. by split; [apply Hq|].
Qed.

Lemma Link_linked pn c po i w r w' :
  fsOk (w_fs w) → Forall plainName (pn ++ [c]) → Forall plainName po → dirsTo pn (w_fs w) →
  nodes (w_fs w) !! po = Some (NFile i) → Link (relOf po) (relOf (pn ++ [c])) w = (r, w') →
  linked i [pn ++ [c]] (w_fs w) (w_fs w') ∧ (r = Ok () → nodes (w_fs w') !! (pn ++ [c]) = Some (NFile i)).
Proof.
  intros Hs Hp Hpo Hd Hi E. assert (Hsame : linked i [pn ++ [c]] (w_fs w) (w_fs w)) by (split; [done|by left|done]).
  apply sys_inv in E as [(x & -> & ->)|E]; [done|].
  unfold relOf in E. rewrite (stat_file _ false po i), locate_dirs in E by done.
  case_bool_decide as Hn; [by injection E as <- <-|]. destruct (parentOk _ _) eqn:Hpar; [|by injection E as <- <-].
  injection E as <- <-. split; [|intros _; apply lookup_insert_eq]. apply eq_None_not_Some in Hn. split; [|intros p|done].
  - apply fsOk_addNode; [done|done|done|]. intros j [= <-]. by exists po.
  - destruct (decide (pn ++ [c] = p)) as [<-|]; [|left; by apply lookup_insert_ne].
    right; left. split; [by left|]. right. apply lookup_insert_eq.
Qed.

(** A hard link, whichever I/O operations fail: success means that the name is the
    file; nothing but the name and missing parents of it changes, and no content. *)
Lemma MakeHardlink_linked pn c po i w r w' :
  fsOk (w_fs w) → Forall plainName (pn ++ [c]) → Forall plainName po → po ≠ pn ++ [c] →
  nodes (w_fs w) !! po = Some (NFile i) → MakeHardlink (relOf (pn ++ [c])) (relOf po) w = (r, w') →
  linked i [pn ++ [c]] (w_fs w) (w_fs w') ∧ (r = Ok () → nodes (w_fs w') !! (pn ++ [c]) = Some (NFile i)).
Proof.
  intros Hs Hp Hpo Hne Hi E. unfold MakeHardlink in E. assert (Hnn : pn ++ [c] ≠ []) by by destruct pn.
  apply SE_bind_inv in E as [(e & E & ->)|([] & w1 & E1 & E)].
  { apply checkParentSymlinks_spec in E as (-> & _ & _); [|done..]. split; [|done]. split; [done|by left|done]. }
  apply checkParentSymlinks_spec in E1 as (Hw1 & Hnl & _); [|done..]. specialize (Hnl eq_refl).
  rewrite <- Hw1 in Hs, Hi, Hnl |- *. clear Hw1 w.
  assert (Hmk : ∀ r2 w2, mkParents (relOf (pn ++ [c])) w1 = (r2, w2) → linked i [pn ++ [c]] (w_fs w1) (w_fs w2) ∧ (r2 = Ok () → dirsTo pn (w_fs w2))).
  { intros r2 w2 E2. apply mkParents_spec in E2 as (H1 & H2 & H3 & _); [|done..]. split; [by apply linked_grows|exact H3]. }
  apply SE_bind_inv in E as [(e & E & ->)|([] & w2 & E2 & E)].
  { destruct (mkParents _ w1) as [[?|?] w2] eqn:E2; [done|]. injection E as _ <-. by destruct (Hmk _ _ eq_refl) as [? _]. }
  destruct (mkParents _ w1) as [[?|?] w2'] eqn:E2'; [|done]. injection E2 as -> ->. destruct (Hmk _ _ eq_refl) as [L2 Hd]. specialize (Hd eq_refl).
  apply SE_bind_inv in E as [(e & E & _)|(u & w3 & E3 & E)]; [done|]. unfold ignore in E3.
  destruct (Remove (relOf (pn ++ [c])) w2) as [r3 w3'] eqn:Er. injection E3 as _ <-. cbn [snd] in E.
  pose proof (Remove_fs _ _ _ _ _ Hp Hd Er) as Hrm. apply (Remove_linked _ _ i) in Er as L3; [|apply L2|done..].
  assert (Hd3 : dirsTo pn (w_fs w3')).
  { intros k Hk. destruct (Hd k Hk) as [m Hm]. exists m. rewrite Hrm; [done|by apply prefix_ne]. }
  pose proof (linked_again _ _ _ _ _ L2 L3) as L23.
  assert (Hi3 : nodes (w_fs w3') !! po = Some (NFile i)) by (eapply linked_keeps; [exact L23|set_solver|done]).
  assert (HL : ∀ r4 w4, Link (relOf po) (relOf (pn ++ [c])) w3' = (r4, w4) → linked i [pn ++ [c]] (w_fs w1) (w_fs w4) ∧
    (r4 = Ok () → nodes (w_fs w4) !! (pn ++ [c]) = Some (NFile i))).
  { intros r4 w4 E4. apply (Link_linked _ _ _ i) in E4 as [L4 H4]; [|apply L3|done..]. split; [by eapply linked_again|done]. }
  apply orFault_inv in E as [(e & E & ->)|([] & E & ->)]; apply HL in E as [HL1 HL2]; (split; [exact HL1|]); [done|intros _; by apply HL2].
Qed.

(** Without faults a hard link is made. *)
Lemma Remove_lucky pn c w :
  w_faults w = [] → Forall plainName (pn ++ [c]) → dirsTo pn (w_fs w) → ¬ isDir (w_fs w) (pn ++ [c]) →
  ∃ w', ignore (Remove (relOf (pn ++ [c]))) w = (Ok (), w') ∧ w_faults w' = [] ∧ nodes (w_fs w') !! (pn ++ [c]) = None ∧ dirsTo pn (w_fs w').
Proof.
  intros Hw Hp Hd Hn. unfold ignore. destruct (Remove (relOf (pn ++ [c])) w) as [r w'] eqn:E. cbn [snd]. exists w'.
  pose proof (Remove_fs _ _ _ _ _ Hp Hd E) as Hrm. unfold Remove in E. rewrite sys_lucky in E by done. injection E as _ <-.
  cbn [w_faults w_fs] in *. split_and!; [done|done| |].
  - unfold stat_, relOf in *. rewrite locate_dirs by done. cbn.
    destruct (nodes (w_fs w) !! (pn ++ [c])) as [[m|j|t]|] eqn:En; cbn; [|apply lookup_delete_eq..|done].
    destruct Hn. by exists m.
  - intros k Hk. destruct (Hd k Hk) as [m Hm]. exists m. rewrite Hrm; [done|by apply prefix_ne].
Qed.
Lemma MakeHardlink_lucky pn c po i w :
  w_faults w = [] → fsOk (w_fs w) → Forall plainName (pn ++ [c]) → Forall plainName po → po ≠ pn ++ [c] →
  nodes (w_fs w) !! po = Some (NFile i) → publishable pn c (w_fs w) →
  ∃ w', MakeHardlink (relOf (pn ++ [c])) (relOf po) w = (Ok (), w') ∧ w_faults w' = [].
Proof.
  intros Hw Hs Hp Hpo Hne Hi [Hc Hnd]. unfold MakeHardlink. assert (Hnn : pn ++ [c] ≠ []) by by destruct pn.
  destruct (checkParentSymlinks_lucky pn c w) as (w1 & E1 & Hw1); [done..|]. rewrite (SE_bind_ok _ _ _ _ _ E1).
  apply checkParentSymlinks_spec in E1 as (Hf1 & Hnl & _); [|done..]. specialize (Hnl eq_refl). rewrite <- Hf1 in Hs, Hi, Hc, Hnd, Hnl.
  destruct (mkParents_lucky pn c w1) as (w2 & E2 & Hw2); [done..|].
  apply mkParents_spec in E2 as Hspec; [|done..]. destruct Hspec as (Hs2 & [G1 _ _] & Hd & _). specialize (Hd eq_refl).
  assert (Hkeep : nodes (w_fs w2) !! (pn ++ [c]) = nodes (w_fs w1) !! (pn ++ [c])).
  { destruct (G1 (pn ++ [c])) as [?|(_ & _ & k & Hk & E)]; [done|]. symmetry in E. by apply prefix_ne in E; [|lia]. }
  destruct (Remove_lucky pn c w2) as (w3 & E3 & Hw3 & Hn3 & Hd3); [done..|unfold isDir; by rewrite Hkeep|].
  assert (Hi2 : nodes (w_fs w2) !! po = Some (NFile i)).
  { destruct (G1 po) as [->|(? & _)]; [done|congruence]. }
  assert (Hi3 : nodes (w_fs w3) !! po = Some (NFile i)).
  { unfold ignore in E3. destruct (Remove _ w2) as [r w3'] eqn:Er. injection E3 as <-. cbn [snd] in *. by rewrite (Remove_fs _ _ _ _ _ Hp Hd Er). }
  assert (Hs3 : fsOk (w_fs w3)).
  { unfold ignore in E3. destruct (Remove _ w2) as [r w3'] eqn:Er. injection E3 as <-. cbn [snd] in *. by apply (Remove_linked _ _ i) in Er as [? _ _]. }
  assert (E2' : (λ w, match mkParents (relOf (pn ++ [c])) w with
    | (Err e, w) => (Err (fault E7009 "create parent for hard link" (relOf (pn ++ [c])) (Some e)), w) | r => r end) w1 = (Ok (), w2)) by by rewrite E2.
  rewrite (SE_bind_ok _ _ _ _ _ E2'), (SE_bind_ok _ _ _ _ _ E3).
  assert (E4 : ∃ w4, Link (relOf po) (relOf (pn ++ [c])) w3 = (Ok (), w4) ∧ w_faults w4 = []).
  { unfold Link. rewrite sys_lucky by done. unfold relOf. rewrite (stat_file _ false po i), locate_dirs by done.
    rewrite bool_decide_false by (rewrite Hn3; by intros [? ?]).
    rewrite parentOk_snoc by (rewrite <- (firstn_all pn); by apply Hd3). by eexists. }
  destruct E4 as (w4 & E4 & Hw4). exists w4. split; [by apply orFault_lucky|done].
Qed.

(** The same of a whole path. *)
Definition writable (q : path) (s : fs) : Prop :=
  (∀ k, (0 < k < length q)%nat → nodes s !! take k q = None ∨ isDir s (take k q)) ∧ ¬ isDir s q.
Lemma writable_snoc pn c s : writable (pn ++ [c]) s ↔ publishable pn c s.
Proof.
  split.
  - intros [Hd Hn]. split; [|done]. intros k Hk. rewrite <- (take_app_le pn [c]) by lia. apply Hd. rewrite length_snoc. lia.
  - intros [Hd Hn]. split; [|done]. intros k Hk. rewrite length_snoc in Hk. rewrite take_app_le by lia. apply Hd. lia.
Qed.

(** Neither path lies below the other. *)
Definition unrelated (p q : path) : Prop := ¬ p `prefix_of` q ∧ ¬ q `prefix_of` p.
Lemma prefix_take {A} (l : list A) k : take k l `prefix_of` l.
Proof. exists (drop k l). by rewrite take_drop. Qed.
Lemma unrelated_sym p q : unrelated p q → unrelated q p.
Proof. by intros [? ?]. Qed.
Lemma unrelated_ne p q : unrelated p q → p ≠ q.
Proof. intros [H _] ->. by apply H. Qed.

Lemma writable_linked i p qs t t' : Forall (unrelated p) qs → linked i qs t t' → writable p t → writable p t'.
Proof.
  intros Hu [_ Hl _] [Hd Hn]. rewrite Forall_forall in Hu. split.
  - intros k Hk. destruct (Hl (take k p)) as [E|[[Hp _]|(_ & ? & _)]]; [unfold isDir; rewrite E; by apply Hd| |by right].
    destruct (Hu _ Hp) as [_ []]. apply prefix_take.
  - unfold isDir. destruct (Hl p) as [->|[[Hp _]|(_ & _ & q & k & Hq & _ & ->)]]; [done|by apply Hu in Hp as []|].
    destruct (Hu _ Hq) as [[] _]. apply prefix_take.
Qed.

(** A symbolic link is created only for a relative target whose lexical
    resolution from the link's own directory stays under the destination root; a
    refused target is reported as E7011 (or E7013 for a link on the way) and
    changes nothing. *)
Theorem MakeSymlink_checked pn c target w r w' :
  fsOk (w_fs w) → Forall plainName (pn ++ [c]) →
  MakeSymlink (relOf (pn ++ [c])) target false w = (r, w') →
  (r = Ok () → absoluteTarget target = false ∧ is_Some (walk (reverse pn) (comps target)) ∧
     nodes (w_fs w') !! (pn ++ [c]) = Some (NLink target)) ∧
  (absoluteTarget target = true ∨ walk (reverse pn) (comps target) = None →
     ∃ e, r = Err e ∧ w_fs w' = w_fs w ∧ GetCode e ∈ [E7011; E7013] ∧ IsFatal (Some e) = false).
Proof.
  intros Hs Hp E. pose proof (unsafeTarget_exact pn c target Hp) as Hu. unfold MakeSymlink in E.
  assert (Hne : pn ++ [c] ≠ []) by by destruct pn.
  apply SE_bind_inv in E as [(e & E & ->)|(u & w1 & E1 & E)].
  { assert (Hf : IsFatal (Some e) = false).
    { clear -E. unfold checkParentSymlinks in E. revert w E. induction (parents _) as [|x ps IH]; intros w E; cbn [checkParents] in E; [done|].
      destruct (bool_decide _); [by eapply IH|].
      apply SE_bind_inv in E as [(e0 & E & [= ->])|(r0 & w1 & E1 & E)]; [by apply attempt_inv in E as (? & ? & _)|].
      destruct r0 as [[| |]|[]]; first [exact (IH _ E)|discriminate E|injection E as <- _; by vm_compute]. }
    apply checkParentSymlinks_spec in E as (Hw & _ & Hc); [|done..]. split; [done|]. intros _.
    exists e. split_and!; [done|done|rewrite (Hc e eq_refl); code_in|done]. }
  destruct u. apply checkParentSymlinks_spec in E1 as (Hw & Hnl & _); [|done..]. specialize (Hnl eq_refl).
  destruct (unsafeTarget (relOf (pn ++ [c])) target) as [msg|].
  { injection E as <- <-. split; [done|]. intros _. eexists. rewrite GetCode_fault.
    split_and!; [done|done|code_in|by vm_compute]. }
  destruct Hu as [Hu _]. destruct (Hu eq_refl) as [Ha [st Hst]].
  split; [|intros [?|?]; congruence]. intros ->.
  apply SE_bind_inv in E as [(e & _ & ?)|(u & w1' & E0 & E)]; [done|]. injection E0 as _ <-.
  apply SE_bind_inv in E as [(e & _ & ?)|(u2 & w2 & E2 & E)]; [done|].
  apply mkParents_spec in E2 as (Hs2 & _ & Hd & _); [|by rewrite Hw|done|by rewrite Hw].
  destruct u2. specialize (Hd eq_refl).
  apply SE_bind_inv in E as [(e & _ & ?)|(u3 & w3 & E3 & E)]; [done|].
  unfold ignore in E3. destruct (Remove (relOf (pn ++ [c])) w2) as [r3 w3'] eqn:Er. injection E3 as _ <-. cbn [snd] in *.
  pose proof (Remove_fs _ _ _ _ _ Hp Hd Er) as Hrm.
  assert (Hd3 : ∀ k, (k <= length pn)%nat → isDir (w_fs w3') (take k pn)).
  { intros k Hk. destruct (Hd k Hk) as [m Hm]. exists m. rewrite Hrm; [done|by apply prefix_ne]. }
  split_and!; [done|by exists st|].
  apply orFault_inv in E as [(e & _ & ?)|([] & E & _)]; [done|]. apply sys_inv in E as [(x & ? & _)|E]; [done|].
  unfold relOf in E. rewrite locate_dirs in E by done. destruct (bool_decide _); [done|].
  destruct (parentOk _ _); [|done]. injection E as <-. cbn. apply lookup_insert_eq.
Qed.

(** The check is lexical only, one link at a time: after these two accepted links
    (and with [e] a directory), following [d/l] leaves the destination root. *)
Definition ex_dirs : world :=
  mkWorld (setNode [bs "e"] (NDir (mkMeta 493 (0, 0))) (setNode [bs "d"] (NDir (mkMeta 493 (0, 0))) emptyFs)) [].
Lemma symlink_chain_escapes :
  let '(r1, w1) := MakeSymlink (bs "d/s") (bs "../e") false ex_dirs in
  let '(r2, w2) := MakeSymlink (bs "d/l") (bs "s/../../x") false w1 in
  r1 = Ok () ∧ r2 = Ok () ∧ locate (w_fs w2) true (bs "d/l") = Err escapes.
Proof. by vm_compute. Qed.

(** ** Concrete inputs *)
Definition ex_part : world :=
  Eval vm_compute in (WriteInode 0 (bs "data") (OpenPart 3 (mkWorld emptyFs [])).2).2.
Lemma emptyFs_ok : fsOk emptyFs.
Proof.
  split.
  - by exists (mkMeta 493 (0, 0)).
  - intros p c n. cbn. intros [E _]%lookup_singleton_Some. by destruct p.
  - intros p i. cbn. by intros [_ ?]%lookup_singleton_Some.
  - intros i x. cbn. by rewrite lookup_empty.
Qed.

(** A decision procedure for [fsOk], for the concrete trees. *)
Definition fsOkb (s : fs) : bool :=
  match nodes s !! [] with Some (NDir _) => true | _ => false end &&
  forallb (λ '(p, n), (bool_decide (p = []) || parentOk p s) &&
             match n with NFile i => bool_decide (is_Some (inodes s !! i)) && (i <? nextIno s) | _ => true end)
    (map_to_list (nodes s)) &&
  forallb (λ '(i, _), i <? nextIno s) (map_to_list (inodes s)).
Lemma fsOkb_ok s : fsOkb s = true → fsOk s.
Proof.
  intros [[H1 H2]%andb_prop H3]%andb_prop. rewrite forallb_forall in H2, H3.
  split.
  - destruct (nodes s !! []) as [[m| |]|] eqn:E; try done. by exists m.
  - intros p c n Hn. apply elem_of_map_to_list, list_elem_of_In in Hn. apply H2 in Hn. apply andb_prop in Hn as [Hn _].
    apply orb_prop in Hn as [Hn|Hn]; [apply bool_decide_eq_true in Hn; by destruct p|by eapply parentOk_isDir].
  - intros p i Hn. apply elem_of_map_to_list, list_elem_of_In in Hn. apply H2 in Hn. apply andb_prop in Hn as [_ Hn].
    apply andb_prop in Hn as [Hx Hy]. apply bool_decide_eq_true in Hx. split; [done|lia].
  - intros i x Hx. apply elem_of_map_to_list, list_elem_of_In in Hx. apply H3 in Hx. lia.
Qed.

Definition ex_name : path := [bs "dir"; bs "f"].
Lemma PublishPart_atomic_witness :
  let '(r, w') := PublishPart (mkDest false []) 3 (relOf ex_name) 420 (7, 8) ex_part in
  r = Ok () ∧ fsOk (w_fs w') ∧ nodes (w_fs w') !! ex_name = Some (NFile 0).
Proof.
  assert (Hs : fsOk (w_fs ex_part)) by (apply fsOkb_ok; by vm_compute).
  assert (Hi : in_u 64 3) by by vm_compute.
  assert (Hp : Forall plainName ([bs "dir"] ++ [bs "f"])).
  { refine (bool_decide_eq_true_1 (Forall plainName _) _). vm_compute. reflexivity. }
  assert (Hh : head ([bs "dir"] ++ [bs "f"]) ≠ Some (bs ".esync")) by by vm_compute.
  assert (Hn : nodes (w_fs ex_part) !! partPath 3 = Some (NFile 0)) by by vm_compute.
  assert (Hf : nodes (w_fs ex_part) !! ([bs "dir"] ++ [bs "f"]) ≠ Some (NFile 0)) by by vm_compute.
  assert (Hr : (PublishPart (mkDest false []) 3 (relOf ex_name) 420 (7, 8) ex_part).1 = Ok ()) by by vm_compute.
  pose proof (PublishPart_atomic (mkDest false []) 3 [bs "dir"] (bs "f") 0 420 (7, 8) ex_part) as H.
  change ([bs "dir"] ++ [bs "f"]) with ex_name in *.
  destruct (PublishPart (mkDest false []) 3 (relOf ex_name) 420 (7, 8) ex_part) as [r w'].
  cbn [fst] in Hr. subst r. destruct (H _ _ Hs Hi Hp Hh Hn Hf eq_refl) as (H1 & _ & H2 & _).
  exact (conj eq_refl (conj H1 H2)).
Defined.

Lemma MakeSymlink_checked_witness :
  let '(r, w') := MakeSymlink (bs "d/s") (bs "../../e") false ex_dirs in
  ∃ e, r = Err e ∧ w_fs w' = w_fs ex_dirs.
Proof.
  destruct (MakeSymlink (bs "d/s") (bs "../../e") false ex_dirs) as [r w'] eqn:E.
  assert (Hp : Forall plainName ([bs "d"] ++ [bs "s"])).
  { refine (bool_decide_eq_true_1 (Forall plainName _) _). vm_compute. reflexivity. }
  destruct (MakeSymlink_checked [bs "d"] (bs "s") (bs "../../e") ex_dirs r w') as [_ H]; [|exact Hp|exact E|].
  - apply fsOkb_ok. by vm_compute.
  - destruct H as (e & He & Hw & _); [right; by vm_compute|]. exists e. by split.
Defined.
