(* ===== verification/Queue.v ===== *)
(** * Queue: the receiver's need queue and free-space guard
    (src/internal/receiver/queue.go, space.go)

    Each method holds the mutex, so it is a function of the state; a method that
    blocks on a condition variable returns [None] while it has to wait.  A run
    interleaves the decide pool ([pushGroup]), the fetch workers ([pop],
    [requeue], [done], [pushFallback]) and [close]. *)
From S2P Require Import Prelude Fault.

Record needItem := mkItem { fileID : Z; groupID : Z; size : Z; rel : bytes; attempt : Z }.

(** [sort.SliceStable] by decreasing size. *)
Definition sortLargest (l : list needItem) : list needItem := SliceStable (λ it, - size it) l.

Record needQueue := mkQueue {
  items : list needItem; capacity : Z; inflight : Z; closed : bool;
  pushed : Z; yielded : Z; pending : gmap Z Z;
}.
Definition newNeedQueue (capacity : Z) : needQueue := mkQueue [] capacity 0 false 0 0 ∅.
Definition errQueueClosed : gerr := EStd (StdOther "need queue closed").

Definition pushGroup (ctxErr : option stdErr) (its : list needItem) (q : needQueue) : option (option gerr * needQueue) :=
  match its with
  | [] => Some (None, q)
  | _ =>
      let sorted := sortLargest its in
      if (capacity q <? Z.of_nat (length (items q)) + Z.of_nat (length sorted)) && negb (closed q)
      then match ctxErr with Some e => Some (Some (EStd e), q) | None => None end
      else if closed q then Some (Some errQueueClosed, q)
      else
        let g := match sorted with x :: _ => groupID x | [] => 0 end in
        Some (None, mkQueue (items q ++ sorted) (capacity q) (inflight q) (closed q)
                      (wrap_u 64 (pushed q + Z.of_nat (length sorted))) (yielded q)
                      (<[g := default 0 (pending q !! g) + Z.of_nat (length sorted)]> (pending q)))
  end.

Definition requeue (it : needItem) (q : needQueue) : needQueue :=
  mkQueue (items q ++ [it]) (capacity q) (if 0 <? inflight q then inflight q - 1 else inflight q) (closed q)
    (pushed q) (yielded q) (pending q).

Definition pushFallback (it : needItem) (q : needQueue) : needQueue :=
  mkQueue (items q ++ [it]) (capacity q) (inflight q) (closed q) (wrap_u 64 (pushed q + 1)) (yielded q)
    (<[groupID it := default 0 (pending q !! groupID it) + 1]> (pending q)).

(** [Some None]: ok is false. *)
Definition pop (ctxErr : option stdErr) (q : needQueue) : option (option needItem * needQueue) :=
  match ctxErr with
  | Some _ => Some (None, q)
  | None =>
      match items q with
      | it :: rest =>
          Some (Some it, mkQueue rest (capacity q) (inflight q + 1) (closed q) (pushed q)
                           (wrap_u 64 (yielded q + 1)) (pending q))
      | [] => if closed q && (inflight q =? 0) then Some (None, q) else None
      end
  end.

Definition done_ (g : Z) (q : needQueue) : needQueue :=
  let n := default 0 (pending q !! g) in
  mkQueue (items q) (capacity q) (if 0 <? inflight q then inflight q - 1 else inflight q) (closed q) (pushed q) (yielded q)
    (if 0 <? n then (if n - 1 =? 0 then delete g (pending q) else <[g := n - 1]> (pending q)) else pending q).

Definition close (q : needQueue) : needQueue :=
  mkQueue (items q) (capacity q) (inflight q) true (pushed q) (yielded q) (pending q).
Definition drained (q : needQueue) : bool := closed q && (length (items q) =? 0)%nat && (inflight q =? 0).
(** One turn of [waitDrained]: [true] when it returns. *)
Definition waitDrained (ctxErr : option stdErr) (q : needQueue) : bool :=
  match ctxErr with Some _ => true | None => drained q end.
Definition depth (q : needQueue) : Z := Z.of_nat (length (items q)).
Definition inProgress (q : needQueue) : list Z := merge_sort Z.le (map_to_list (pending q)).*1.

(** ** Runs

    [fly] are the items a worker holds, [fin] the resolved ones and [acc] all the
    items ever accepted. *)
Record run := mkRun { rq : needQueue; fly : list needItem; fin : list needItem; acc : list needItem }.
Inductive qop :=
| QPush (its : list needItem) | QFallback (it : needItem) | QPop
| QRequeue (i : nat) (attempt : Z) | QDone (i : nat) | QClose.

Definition withAttempt (it : needItem) (a : Z) : needItem := mkItem (fileID it) (groupID it) (size it) (rel it) a.

Definition qstep (o : qop) (r : run) : run :=
  let '(mkRun q fl fn ac) := r in
  match o with
  | QPush its =>
      match pushGroup None its q with
      | Some (None, q') => mkRun q' fl fn (ac ++ its)
      | _ => r
      end
  | QFallback it => mkRun (pushFallback it q) fl fn (ac ++ [it])
  | QPop =>
      match pop None q with
      | Some (Some it, q') => mkRun q' (it :: fl) fn ac
      | _ => r
      end
  | QRequeue i a =>
      match fl !! i with
      | Some it => mkRun (requeue (withAttempt it a) q) (delete i fl) fn ac
      | None => r
      end
  | QDone i =>
      match fl !! i with
      | Some it => mkRun (done_ (groupID it) q) (delete i fl) (it :: fn) ac
      | None => r
      end
  | QClose => mkRun (close q) fl fn ac
  end.
Definition qrun (capacity : Z) (ops : list qop) : run :=
  foldl (λ r o, qstep o r) (mkRun (newNeedQueue capacity) [] [] []) ops.

(** An item but for its attempt count. *)
Definition key (it : needItem) : Z * Z * Z * bytes := (fileID it, groupID it, size it, rel it).

(** ** Sorting *)
Lemma sortLargest_perm l : sortLargest l ≡ₚ l.
Proof. apply SliceStable_perm. Qed.
Lemma sortLargest_sorted l : StronglySorted (λ a b, size b <= size a) (sortLargest l).
Proof. eapply StronglySorted_weaken, SliceStable_sorted. cbn. lia. Qed.
(** Items of equal size keep their order. *)
Lemma sortLargest_stable s l : filter (λ y, size y = s) (sortLargest l) = filter (λ y, size y = s) l.
Proof.
  pose proof (SliceStable_stable (λ it, - size it) (- s) l) as H.
  rewrite !(list_filter_iff (λ y, - size y = - s) (λ y, size y = s)) in H; [done|lia..].
Qed.

(** ** Invariant *)
Definition groupCount (g : Z) (l : list needItem) : Z := Z.of_nat (length (filter (λ it, groupID it = g) l)).
Record runOk (cap : Z) (r : run) : Prop := {
  ok_conserved : (key <$> acc r) ≡ₚ (key <$> items (rq r) ++ fly r ++ fin r);
  ok_inflight : inflight (rq r) = Z.of_nat (length (fly r));
  ok_capacity : capacity (rq r) = cap;
  ok_pending : ∀ g, default 0 (pending (rq r) !! g) = groupCount g (items (rq r) ++ fly r);
  ok_positive : ∀ g n, pending (rq r) !! g = Some n → 0 < n;
}.

Definition sameGroup (o : qop) : Prop :=
  match o with QPush its => ∀ x y, x ∈ its → y ∈ its → groupID x = groupID y | _ => True end.

Lemma groupCount_app g a b : groupCount g (a ++ b) = groupCount g a + groupCount g b.
Proof. unfold groupCount. rewrite filter_app, length_app. lia. Qed.
Lemma groupCount_perm g a b : a ≡ₚ b → groupCount g a = groupCount g b.
Proof. intros H. unfold groupCount. by rewrite H. Qed.
Lemma groupCount_one g it : groupCount g [it] = if bool_decide (groupID it = g) then 1 else 0.
Proof. unfold groupCount. rewrite filter_cons, filter_nil. case_bool_decide; case_decide; done. Qed.
Lemma groupCount_same its g g0 :
  Forall (λ y, groupID y = g0) its → groupCount g its = if bool_decide (g0 = g) then Z.of_nat (length its) else 0.
Proof.
  induction 1 as [|y its Hy H IH]; [by case_bool_decide|].
  change (y :: its) with ([y] ++ its). rewrite groupCount_app, groupCount_one, IH, Hy, length_app. case_bool_decide; simpl; lia.
Qed.

Lemma key_withAttempt it a : key (withAttempt it a) = key it.
Proof. done. Qed.

Lemma groupCount_cons g it l : groupCount g (it :: l) = groupCount g l + (if bool_decide (groupID it = g) then 1 else 0).
Proof. change (it :: l) with ([it] ++ l). rewrite groupCount_app, groupCount_one. lia. Qed.
Lemma groupCount_nonneg g l : 0 <= groupCount g l.
Proof. unfold groupCount. lia. Qed.

(** What holds of [pending], for the items [c] counts. *)
Definition counted (pend : gmap Z Z) (c : Z → Z) : Prop :=
  (∀ g, default 0 (pend !! g) = c g) ∧ (∀ g n, pend !! g = Some n → 0 < n).

Lemma counted_ext pend c c' : (∀ g, c g = c' g) → counted pend c → counted pend c'.
Proof. intros E [H1 H2]. split; [intros g; by rewrite <- E|done]. Qed.

Lemma counted_nonneg pend c g : counted pend c → 0 <= default 0 (pend !! g).
Proof. intros [_ H]. destruct (pend !! g) eqn:E; [apply H in E; cbn; lia|done]. Qed.

Lemma counted_add pend c g0 k : counted pend c → 0 < k →
  counted (<[g0 := default 0 (pend !! g0) + k]> pend) (λ g, c g + (if bool_decide (g0 = g) then k else 0)).
Proof.
  intros H Hk. pose proof (counted_nonneg _ _ g0 H) as Hn. destruct H as [H1 H2]. split.
  - intros g. case_bool_decide as E; [subst g; rewrite lookup_insert_eq; cbn; rewrite H1; lia|].
    rewrite lookup_insert_ne by done. rewrite H1. lia.
  - intros g n [[<- <-]|[_ ?]]%lookup_insert_Some; [lia|by eapply H2].
Qed.

Lemma counted_done pend c g0 : counted pend c → 0 < c g0 →
  let n := default 0 (pend !! g0) in
  counted (if 0 <? n then (if n - 1 =? 0 then delete g0 pend else <[g0 := n - 1]> pend) else pend)
    (λ g, c g - (if bool_decide (g0 = g) then 1 else 0)).
Proof.
  intros [H1 H2] Hpos n. assert (Hn : n = c g0) by apply H1. rewrite (proj2 (Z.ltb_lt 0 _)) by lia.
  destruct (Z.eqb_spec (n - 1) 0) as [E|E]; split.
  - intros g. case_bool_decide as Eg; [subst g; rewrite lookup_delete_eq; cbn; lia|].
    rewrite lookup_delete_ne by done. rewrite H1. lia.
  - intros g m [_ ?]%lookup_delete_Some. by eapply H2.
  - intros g. case_bool_decide as Eg; [subst g; rewrite lookup_insert_eq; cbn; lia|].
    rewrite lookup_insert_ne by done. rewrite H1. lia.
  - intros g m [[<- <-]|[_ ?]]%lookup_insert_Some; [lia|by eapply H2].
Qed.

Lemma runOk_counted cap r : runOk cap r → counted (pending (rq r)) (λ g, groupCount g (items (rq r) ++ fly r)).
Proof. by intros [_ _ _ ? ?]. Qed.

(** An item leaves the hands of a worker. *)
Lemma fly_taken fl i it : fl !! i = Some it →
  (key <$> fl) ≡ₚ key it :: (key <$> delete i fl) ∧ length fl = S (length (delete i fl)) ∧
  ∀ g, groupCount g fl = groupCount g (delete i fl) + (if bool_decide (groupID it = g) then 1 else 0).
Proof.
  intros Ei. pose proof (delete_Permutation fl i it Ei) as Hp. split_and!; [by rewrite Hp at 1|by rewrite Hp at 1|].
  intros g. by rewrite (groupCount_perm g _ _ Hp), groupCount_cons.
Qed.

(** Accepted items [new] are appended to those that wait. *)
Lemma appended_ok cap r new pushed' g0 :
  runOk cap r → new ≠ [] → Forall (λ y, groupID y = g0) new →
  let q := rq r in
  runOk cap (mkRun (mkQueue (items q ++ new) (capacity q) (inflight q) (closed q) pushed' (yielded q)
                     (<[g0 := default 0 (pending q !! g0) + Z.of_nat (length new)]> (pending q)))
               (fly r) (fin r) (acc r ++ new)).
Proof.
  intros Hr Hne Hall q. pose proof (runOk_counted _ _ Hr) as Hc. destruct Hr as [H1 H2 H3 _ _].
  apply (counted_add _ _ g0 (Z.of_nat (length new))) in Hc; [|destruct new; [done|rewrite length_cons; lia]].
  apply (counted_ext _ _ (λ g, groupCount g ((items q ++ new) ++ fly r))) in Hc as [H4 H5].
  2:{ intros g. rewrite !groupCount_app, (groupCount_same new g g0 Hall). fold q. lia. }
  split; cbn [rq fly fin acc items inflight capacity pending]; try done.
  rewrite !fmap_app in *. rewrite H1, <- !app_assoc. apply Permutation_app_head.
  rewrite app_assoc. apply Permutation_app_comm.
Qed.

Lemma runOk_acc cap q fl fn ac ac' : ac ≡ₚ ac' → runOk cap (mkRun q fl fn ac) → runOk cap (mkRun q fl fn ac').
Proof. intros Hp [H1 H2 H3 H4 H5]. split; try done. cbn [acc rq fly fin] in *. by rewrite <- Hp. Qed.

Lemma push_ok cap its r : sameGroup (QPush its) → runOk cap r → runOk cap (qstep (QPush its) r).
Proof.
  intros Hg Hr. destruct r as [q fl fn ac]. cbn [qstep]. unfold pushGroup.
  destruct its as [|x its]; [by rewrite app_nil_r|].
  destruct (_ && negb (closed q)); [done|]. destruct (closed q) eqn:Ec; [done|].
  set (its' := x :: its) in *. pose proof (sortLargest_perm its') as Hp.
  assert (Hall : Forall (λ y, groupID y = groupID x) (sortLargest its')).
  { rewrite Hp. apply Forall_forall. intros y Hy. apply Hg; [done|by left]. }
  assert (Hne : sortLargest its' ≠ []) by (intros E; rewrite E in Hp; by apply Permutation_nil in Hp).
  apply (runOk_acc _ _ _ _ (ac ++ sortLargest its')); [by rewrite Hp|].
  pose proof (appended_ok cap (mkRun q fl fn ac) _ (wrap_u 64 (pushed q + Z.of_nat (length (sortLargest its')))) _ Hr Hne Hall) as H.
  cbn [rq fly fin acc] in H. rewrite Ec in H.
  destruct (sortLargest its') as [|y l]; [done|]. by apply Forall_cons in Hall as [-> _].
Qed.

Lemma fallback_ok cap it r : runOk cap r → runOk cap (qstep (QFallback it) r).
Proof.
  intros Hr. destruct r as [q fl fn ac].
  by apply (appended_ok cap (mkRun q fl fn ac) [it] (wrap_u 64 (pushed q + 1)) (groupID it)); [|done|constructor].
Qed.

Lemma pop_ok cap r : runOk cap r → runOk cap (qstep QPop r).
Proof.
  destruct r as [q fl fn ac]. intros Hr. pose proof Hr as [H1 H2 H3 H4 H5]. cbn [qstep rq fly fin acc] in *.
  unfold pop. destruct (items q) as [|it rest] eqn:Ei; [by destruct (_ && _)|].
  split; cbn [rq fly fin acc items inflight capacity pending]; try done.
  - rewrite H1, !fmap_app, !fmap_cons. cbn [app]. apply Permutation_middle.
  - simpl. lia.
  - intros g. rewrite H4, !groupCount_app, !groupCount_cons. lia.
Qed.

Lemma requeue_ok cap i a r : runOk cap r → runOk cap (qstep (QRequeue i a) r).
Proof.
  destruct r as [q fl fn ac]. intros Hr. pose proof Hr as [H1 H2 H3 H4 H5]. cbn [qstep rq fly fin acc] in *.
  destruct (fl !! i) as [it|] eqn:Ei; [|done]. apply fly_taken in Ei as (Hk & Hl & Hc).
  split; cbn [rq fly fin acc requeue items inflight capacity pending]; try done.
  - rewrite H1, !fmap_app, Hk, !fmap_cons, key_withAttempt, <- !app_assoc. by apply Permutation_app_head.
  - rewrite (proj2 (Z.ltb_lt 0 _)) by lia. lia.
  - intros g. rewrite H4, !groupCount_app, Hc, groupCount_one. cbn [groupID withAttempt]. lia.
Qed.

Lemma done_ok cap i r : runOk cap r → runOk cap (qstep (QDone i) r).
Proof.
  destruct r as [q fl fn ac]. intros Hr. pose proof (runOk_counted _ _ Hr) as Hq. destruct Hr as [H1 H2 H3 _ _].
  cbn [qstep rq fly fin acc] in *. destruct (fl !! i) as [it|] eqn:Ei.
  2:{ destruct Hq as [? ?]. by split. }
  apply fly_taken in Ei as (Hk & Hl & Hc).
  apply (counted_ext _ _ (λ g, groupCount g (items q ++ delete i fl) + (if bool_decide (groupID it = g) then 1 else 0))) in Hq.
  2:{ intros g. rewrite !groupCount_app, Hc. lia. }
  apply (counted_done _ _ (groupID it)) in Hq; [|rewrite bool_decide_true by done; pose proof (groupCount_nonneg (groupID it) (items q ++ delete i fl)); lia].
  apply (counted_ext _ _ (λ g, groupCount g (items q ++ delete i fl))) in Hq as [H4 H5]; [|intros g; cbv beta; lia].
  split; cbn [rq fly fin acc done_ items inflight capacity pending]; try done.
  - rewrite H1, !fmap_app, Hk, !fmap_cons. cbn [app]. apply Permutation_app_head, Permutation_middle.
  - rewrite (proj2 (Z.ltb_lt 0 _)) by lia. lia.
Qed.

Lemma qstep_ok cap o r : sameGroup o → runOk cap r → runOk cap (qstep o r).
Proof.
  intros Hg Hr. destruct o; [by apply push_ok|by apply fallback_ok|by apply pop_ok|by apply requeue_ok|by apply done_ok|].
  destruct r. by destruct Hr.
Qed.

Lemma qrun_ok cap ops : Forall sameGroup ops → runOk cap (qrun cap ops).
Proof.
  intros H. unfold qrun. assert (H0 : runOk cap (mkRun (newNeedQueue cap) [] [] [])).
  { by split. }
  revert H0. generalize (mkRun (newNeedQueue cap) [] [] []) as r.
  induction H as [|o ops Ho H IH]; intros r Hr; [done|]. cbn [foldl]. by apply IH, qstep_ok.
Qed.

(** The need queue loses no item and duplicates none: along any interleaving,
    the items accepted are exactly those queued, held by a worker, or resolved;
    the in-flight and per-group counters are exact; and once [pop] reports the
    queue drained, every accepted item has been resolved exactly once. *)
Theorem queue_conserves cap ops :
  Forall sameGroup ops →
  let r := qrun cap ops in
  ((key <$> acc r) ≡ₚ (key <$> items (rq r)) ++ (key <$> fly r) ++ (key <$> fin r)) ∧
  inflight (rq r) = Z.of_nat (length (fly r)) ∧
  (∀ g, g ∈ inProgress (rq r) ↔ ∃ it, it ∈ items (rq r) ++ fly r ∧ groupID it = g) ∧
  (pop None (rq r) = Some (None, rq r) ↔ closed (rq r) = true ∧ items (rq r) = [] ∧ fly r = []) ∧
  (drained (rq r) = true → (key <$> acc r) ≡ₚ (key <$> fin r)).
Proof.
  intros Hops. cbv zeta. pose proof (qrun_ok cap ops Hops) as [H1 H2 H3 H4 H5]. set (r := qrun cap ops) in *.
  assert (Hfly : inflight (rq r) = 0 ↔ fly r = []).
  { rewrite H2. destruct (fly r); simpl; [done|]. split; [lia|done]. }
  rewrite !fmap_app in H1. split_and!; [done|done| | |].
  - intros g. unfold inProgress. rewrite merge_sort_Permutation, list_elem_of_fmap. split.
    + intros ([g' n] & -> & Hin%elem_of_map_to_list). cbn [fst]. apply H5 in Hin as Hn. specialize (H4 g'). rewrite Hin in H4. cbn in H4.
      unfold groupCount in H4. destruct (filter _ _) as [|it l] eqn:E; [simpl in H4; lia|].
      assert (Hit : it ∈ filter (λ it, groupID it = g') (items (rq r) ++ fly r)) by (rewrite E; by left).
      apply list_elem_of_filter in Hit as [? ?]. by exists it.
    + intros (it & Hit & <-). specialize (H4 (groupID it)). destruct (pending (rq r) !! groupID it) as [n|] eqn:E.
      * exists (groupID it, n). split; [done|]. by apply elem_of_map_to_list.
      * cbn in H4. exfalso. unfold groupCount in H4.
        assert (Hin : it ∈ filter (λ x, groupID x = groupID it) (items (rq r) ++ fly r)) by by apply list_elem_of_filter.
        destruct (filter _ _); [by apply elem_of_nil in Hin|simpl in H4; lia].
  - unfold pop. rewrite <- Hfly. destruct (items (rq r)) as [|it l].
    + destruct (closed (rq r)), (Z.eqb_spec (inflight (rq r)) 0); cbn [andb]; naive_solver.
    + split; [done|]. by intros (_ & ? & _).
  - unfold drained. intros [[_ Hi%Nat.eqb_eq]%andb_prop Hz%Z.eqb_eq]%andb_prop. apply nil_length_inv in Hi.
    apply Hfly in Hz. by rewrite H1, Hi, Hz.
Qed.

(** [pushGroup] appends the whole group, largest file first and files of equal
    size in their order, without exceeding the capacity; it waits exactly while
    the group does not fit in an open queue, so a group no larger than the
    capacity never waits on an empty queue; after [close] it is refused. *)
Theorem pushGroup_spec its q :
  its ≠ [] →
  match pushGroup None its q with
  | None => closed q = false ∧ capacity q < Z.of_nat (length (items q) + length its)
  | Some (Some e, q') => closed q = true ∧ e = errQueueClosed ∧ q' = q
  | Some (None, q') =>
      closed q = false ∧ Z.of_nat (length (items q')) <= capacity q ∧
      ∃ l, items q' = items q ++ l ∧ l ≡ₚ its ∧ StronglySorted (λ a b, size b <= size a) l ∧
           ∀ s, filter (λ x, size x = s) l = filter (λ x, size x = s) its
  end.
Proof.
  intros Hne. assert (Hl : length (sortLargest its) = length its) by by rewrite sortLargest_perm.
  destruct its as [|x its]; [done|]. unfold pushGroup. set (its' := x :: its) in *.
  destruct (Z.ltb_spec (capacity q) (Z.of_nat (length (items q)) + Z.of_nat (length (sortLargest its'))));
    destruct (closed q) eqn:Hc; cbn [andb negb].
  - done.
  - split; [done|]. lia.
  - done.
  - split; [done|]. cbn [items]. split; [rewrite length_app; lia|]. exists (sortLargest its').
    split_and!; [done|apply sortLargest_perm|apply sortLargest_sorted|]. intros s. apply sortLargest_stable.
Qed.

(** ** The free-space guard *)
Module spaceGuard.
Record t := mk { free : Z; margin : Z; required : Z; warned : bool }.
Definition new (freeBytes margin : Z) : t :=
  let f := wrap_i 64 freeBytes in mk (if f <? 0 then 0 else f) margin 0 false.
(** warn, fatal. *)
Definition reserve (n : Z) (g : t) : bool * option gerr * t :=
  let req := wrap_i 64 (required g + n) in
  let over := wrap_i 64 (req - wrap_i 64 (free g - margin g)) in
  let warn := (0 <? over) && negb (warned g) in
  (warn, if margin g <? over then Some (fault E7003 "free-space guard" [] None) else None,
   mk (free g) (margin g) req (warned g || warn)).
Fixpoint reserveAll (ns : list Z) (g : t) : list (bool * option gerr) * t :=
  match ns with
  | [] => ([], g)
  | n :: ns => let '(w, e, g) := reserve n g in let '(rs, g) := reserveAll ns g in ((w, e) :: rs, g)
  end.
End spaceGuard.
Definition spaceMargin : Z := 64 * 1024 * 1024.
Definition sumZ (l : list Z) : Z := foldr Z.add 0 l.

Lemma sumZ_nonneg l : Forall (λ n, 0 <= n) l → 0 <= sumZ l.
Proof. unfold sumZ. induction 1; cbn [foldr]; lia. Qed.
Lemma sumZ_app a b : sumZ (a ++ b) = sumZ a + sumZ b.
Proof. unfold sumZ. induction a; cbn [foldr app]; lia. Qed.

Lemma reserveAll_cons n ns g :
  (spaceGuard.reserveAll (n :: ns) g).2 = (spaceGuard.reserveAll ns (spaceGuard.reserve n g).2).2.
Proof.
  cbn [spaceGuard.reserveAll]. destruct (spaceGuard.reserve n g) as [[w e] g1]. cbn [snd].
  by destruct (spaceGuard.reserveAll ns g1).
Qed.

Lemma reserveAll_required ns g :
  Forall (λ n, 0 <= n) ns → 0 <= spaceGuard.required g → spaceGuard.required g + sumZ ns < 2 ^ 62 →
  spaceGuard.required (spaceGuard.reserveAll ns g).2 = spaceGuard.required g + sumZ ns ∧
  spaceGuard.free (spaceGuard.reserveAll ns g).2 = spaceGuard.free g ∧
  spaceGuard.margin (spaceGuard.reserveAll ns g).2 = spaceGuard.margin g.
Proof.
  intros H. revert g. induction H as [|n ns Hn H IH]; intros g Hr Hs.
  { change (sumZ []) with 0 in *. cbn [spaceGuard.reserveAll snd]. lia. }
  pose proof (sumZ_nonneg ns H). change (sumZ (n :: ns)) with (n + sumZ ns) in *. rewrite reserveAll_cons.
  assert (Hq : spaceGuard.required (spaceGuard.reserve n g).2 = spaceGuard.required g + n).
  { cbn. apply wrap_i_id; [lia|unfold in_i; lia]. }
  destruct (IH (spaceGuard.reserve n g).2) as (I1 & I2 & I3); [lia|lia|].
  split_and!; [lia|exact I2|exact I3].
Qed.

(** The guard stops the session exactly when the content needed so far exceeds
    the free space measured at the start, before that content is written, and
    warns once, when the requirement first passes the free space less the
    margin (sizes non-negative and their sum below 2^62). *)
Theorem space_guard_exact freeBytes ns n :
  0 <= freeBytes < 2 ^ 62 → Forall (λ n, 0 <= n) (ns ++ [n]) → sumZ (ns ++ [n]) < 2 ^ 62 →
  let g := (spaceGuard.reserveAll ns (spaceGuard.new freeBytes spaceMargin)).2 in
  let '(warn, fatal, g') := spaceGuard.reserve n g in
  (is_Some fatal ↔ freeBytes < sumZ (ns ++ [n])) ∧
  (∀ e, fatal = Some e → GetCode e = E7003 ∧ IsFatal fatal = true) ∧
  (warn = true ↔ freeBytes - spaceMargin < sumZ (ns ++ [n]) ∧ spaceGuard.warned g = false) ∧
  (freeBytes - spaceMargin < sumZ (ns ++ [n]) → spaceGuard.warned g' = true).
Proof.
  intros Hf [Hns Hn]%Forall_app Hs. rewrite Forall_singleton in Hn. cbv zeta.
  assert (Hsum : sumZ (ns ++ [n]) = sumZ ns + n) by (rewrite sumZ_app; change (sumZ [n]) with (n + 0); lia).
  pose proof (sumZ_nonneg ns Hns).
  assert (Hnew : spaceGuard.new freeBytes spaceMargin = spaceGuard.mk freeBytes spaceMargin 0 false).
  { unfold spaceGuard.new. rewrite wrap_i_id by (try lia; unfold in_i; lia). by rewrite (proj2 (Z.ltb_ge freeBytes 0)) by lia. }
  rewrite Hnew. destruct (reserveAll_required ns (spaceGuard.mk freeBytes spaceMargin 0 false) Hns) as (H1 & H2 & H3);
    [cbn [spaceGuard.required]; lia|cbn [spaceGuard.required]; lia|]. cbn [spaceGuard.required spaceGuard.free spaceGuard.margin] in H1, H2, H3.
  set (g := (spaceGuard.reserveAll ns _).2) in *. unfold spaceGuard.reserve. rewrite H1, H2, H3, Hsum.
  assert (Hm : 0 < spaceMargin < 2 ^ 27) by by vm_compute.
  rewrite (wrap_i_id 64 (freeBytes - spaceMargin)), (wrap_i_id 64 (0 + sumZ ns + n)) by (try lia; unfold in_i; lia).
  rewrite (wrap_i_id 64 (0 + sumZ ns + n - _)) by (try lia; unfold in_i; lia).
  destruct (Z.ltb_spec spaceMargin (0 + sumZ ns + n - (freeBytes - spaceMargin))) as [Ho|Ho];
    destruct (Z.ltb_spec 0 (0 + sumZ ns + n - (freeBytes - spaceMargin))) as [Hw|Hw]; cbn [andb];
    (split_and!; [split; [intros [? ?]; done || lia|intros; try lia; by eexists]|by intros e [= <-]| |]);
    destruct (spaceGuard.warned g); cbn [negb orb spaceGuard.warned]; try done; try lia.
  all: split; [intros; split; [lia|done]|done].
Qed.

(** A guard that could not measure the free space takes it as zero, so the first
    needed byte stops the session. *)
Lemma unmeasured_space_is_fatal n :
  0 < n < 2 ^ 62 → ∃ e, (spaceGuard.reserve n (spaceGuard.new 0 spaceMargin)).1.2 = Some e ∧ GetCode e = E7003.
Proof.
  intros Hn. unfold spaceGuard.reserve, spaceGuard.new. cbn [spaceGuard.free spaceGuard.margin spaceGuard.required].
  assert (Hm : 0 < spaceMargin < 2 ^ 27) by by vm_compute. change (wrap_i 64 0) with 0. change (0 <? 0) with false.
  cbn iota. rewrite (wrap_i_id 64 (0 - spaceMargin)), (wrap_i_id 64 (0 + n)) by (try lia; unfold in_i; lia).
  rewrite (wrap_i_id 64 (_ - _)) by (try lia; unfold in_i; lia).
  rewrite (proj2 (Z.ltb_lt spaceMargin _)) by lia. cbn [fst snd]. by eexists.
Qed.

(** ** Concrete inputs *)
Definition ex_items : list needItem := [mkItem 1 0 5 (bs "a") 0; mkItem 2 0 9 (bs "b") 0; mkItem 3 0 5 (bs "c") 0].
Definition ex_qops : list qop := [QPush ex_items; QPop; QPop; QRequeue 0 1; QDone 0; QClose; QPop; QDone 0; QPop; QDone 0].

Lemma queue_conserves_witness :
  Forall sameGroup ex_qops ∧ drained (rq (qrun 10 ex_qops)) = true ∧
  (key <$> acc (qrun 10 ex_qops)) ≡ₚ (key <$> fin (qrun 10 ex_qops)).
Proof.
  assert (H : Forall sameGroup ex_qops).
  { repeat (apply Forall_cons; split); try done. intros x y Hx Hy.
    assert (Hall : Forall (λ z, groupID z = 0) ex_items) by (repeat constructor).
    rewrite Forall_forall in Hall. by rewrite (Hall x Hx), (Hall y Hy). }
  assert (Hd : drained (rq (qrun 10 ex_qops)) = true) by by vm_compute.
  split; [exact H|]. split; [exact Hd|]. destruct (queue_conserves 10 ex_qops H) as (_ & _ & _ & _ & HF). exact (HF Hd).
Defined.

Lemma pushGroup_spec_witness :
  match pushGroup None ex_items (newNeedQueue 10) with
  | Some (None, q') => Z.of_nat (length (items q')) <= 10
  | _ => False
  end.
Proof.
  pose proof (pushGroup_spec ex_items (newNeedQueue 10)) as H.
  destruct (pushGroup None ex_items (newNeedQueue 10)) as [[[e|] q']|] eqn:E; [by vm_compute in E| |by vm_compute in E].
  by apply H.
Defined.

Lemma space_guard_exact_witness :
  let g := (spaceGuard.reserveAll [100; 200] (spaceGuard.new 1000 spaceMargin)).2 in
  is_Some (spaceGuard.reserve 701 g).1.2.
Proof.
  pose proof (space_guard_exact 1000 [100; 200] 701) as H. cbv zeta in *.
  destruct (spaceGuard.reserve 701 _) as [[w f] g']. destruct H as [H _]; [lia|repeat constructor; lia|cbn; lia|].
  apply H. cbn. lia.
Defined.
