(* ===== verification/Walk.v ===== *)
(** * Walk: enumerating the source tree (src/internal/sender/walk.go, sysstat_unix.go)

    [walkTree] over what the operating system answers ([osEnv]): the recursion
    through directories and, with --follow-symlinks, through links to directories
    with its set of visited directories.  The recursion takes fuel; the main
    theorem gives a bound that is always enough. *)
From S2P Require Import Prelude Fault Glob Fs Plan.

(** ** What the operating system answers *)
Inductive fileType := FDir | FRegular | FSymlink | FOther.
#[global] Instance fileType_eq_dec : EqDecision fileType.
Proof. solve_decision. Defined.
Record FileInfo := mkInfo {
  fi_type : fileType; fi_perm : Z; fi_size : Z; fi_mtime : Z * Z; fi_dev : Z; fi_ino : Z; fi_nlink : Z;
}.
Record osEnv := mkOs {
  Lstat : bytes → result stdErr FileInfo; Stat : bytes → result stdErr FileInfo;
  ReadDir : bytes → result stdErr (list bytes); Readlink : bytes → result stdErr bytes;
}.
Definition devIno (fi : FileInfo) : Z * Z := (fi_dev fi, fi_ino fi).

Definition hardlinkKey (dev ino : Z) : Z :=
  let prime := 1099511628211 in wrap_u 64 (Z.lxor (wrap_u 64 (dev * prime)) ino * prime).

(** ** The walker *)
Record walkConfig := mkWalk { root : bytes; skipAbs : bytes; followSymlinks : bool; oneFileSystem : bool; hardlinks : bool }.
Record walker := mkWalker { out : list Entry; visited : gset (Z * Z); skipped : Z; unreadable : Z }.
Definition emit (e : Entry) (w : walker) : walker := mkWalker (out w ++ [e]) (visited w) (skipped w) (unreadable w).
Definition skip (w : walker) : walker := mkWalker (out w) (visited w) (wrap_u 32 (skipped w + 1)) (unreadable w).
Definition skipUnreadable (w : walker) : walker :=
  mkWalker (out w) (visited w) (wrap_u 32 (skipped w + 1)) (wrap_u 32 (unreadable w + 1)).
Definition visit (k : Z * Z) (w : walker) : walker := mkWalker (out w) ({[k]} ∪ visited w) (skipped w) (unreadable w).

Definition dirEntry (fi : FileInfo) (rel : bytes) : Entry :=
  mkEntry rel TypeDir 0 0 (fi_perm fi) (fi_mtime fi).1 (fi_mtime fi).2 0 0 [] 0.
Definition fileEntry (cfg : walkConfig) (fi : FileInfo) (rel : bytes) : Entry :=
  let exec := if Z.land (fi_perm fi) 73 =? 0 then 0 else FlagExecutable in
  let linked := hardlinks cfg && (1 <? fi_nlink fi) in
  mkEntry rel TypeFile (if linked then Z.lor exec FlagHasHardlinkKey else exec) (fi_size fi) (fi_perm fi)
    (fi_mtime fi).1 (fi_mtime fi).2 (fi_dev fi) (fi_ino fi) []
    (if linked then hardlinkKey (fi_dev fi) (fi_ino fi) else 0).
Definition linkEntry (fi : FileInfo) (rel target : bytes) : Entry :=
  mkEntry rel TypeSymlink 0 0 (fi_perm fi) (fi_mtime fi).1 (fi_mtime fi).2 (fi_dev fi) (fi_ino fi) target 0.
Definition emitDir (fi : FileInfo) (rel : bytes) (w : walker) : walker := emit (dirEntry fi rel) w.
Definition emitFile (cfg : walkConfig) (fi : FileInfo) (rel : bytes) (w : walker) : walker := emit (fileEntry cfg fi rel) w.

Section walk.
Context (os : osEnv) (cfg : walkConfig) (rootDev : Z).

(** [rec] is [walkDir] on a directory and its relative name. *)
Definition handleSymlink (rec : bytes → bytes → walker → option walker) (fi : FileInfo) (abs rel : bytes) (w : walker) : option walker :=
  match Readlink os abs with
  | Err _ => Some w
  | Ok target =>
      if negb (followSymlinks cfg) then Some (emit (linkEntry fi rel target) w)
      else
        match Stat os abs with
        | Err _ => Some (skip w)
        | Ok st =>
            match fi_type st with
            | FDir =>
                if bool_decide (devIno st ∈ visited w) then Some (skip w)
                else rec abs rel (emitDir st rel (visit (devIno st) w))
            | FRegular => Some (emitFile cfg st rel w)
            | _ => Some w
            end
        end
  end.

Definition childRel (rel name : bytes) : bytes := if bool_decide (rel = []) then name else rel ++ [c_slash] ++ name.
Definition walkChild (rec : bytes → bytes → walker → option walker) (abs rel name : bytes) (w : walker) : option walker :=
  let childAbs := Join2 abs name in
  let childRel := childRel rel name in
  if bool_decide (name = bs ".esync") then Some w
  else if negb (bool_decide (skipAbs cfg = [])) && bool_decide (childAbs = skipAbs cfg) then Some w
  else
    match Lstat os childAbs with
    | Err _ => Some w
    | Ok fi =>
        match fi_type fi with
        | FSymlink => handleSymlink rec fi childAbs childRel w
        | FDir =>
            if oneFileSystem cfg && negb (fi_dev fi =? rootDev) then Some w
            else rec childAbs childRel (emitDir fi childRel w)
        | FRegular => Some (emitFile cfg fi childRel w)
        | FOther => Some (skip w)
        end
    end.
Fixpoint walkNames (rec : bytes → bytes → walker → option walker) (abs rel : bytes) (names : list bytes) (w : walker) : option walker :=
  match names with
  | [] => Some w
  | name :: names => match walkChild rec abs rel name w with Some w => walkNames rec abs rel names w | None => None end
  end.
(** [None]: out of fuel, one unit per level of the recursion. *)
Fixpoint walkDir (fuel : nat) (abs rel : bytes) (w : walker) : option walker :=
  match fuel with
  | O => None
  | S fuel =>
      match ReadDir os abs with
      | Err _ => Some (skipUnreadable w)
      | Ok des => walkNames (walkDir fuel) abs rel des w
      end
  end.
End walk.

Definition newWalker : walker := mkWalker [] ∅ 0 0.
Definition walkTree (fuel : nat) (os : osEnv) (cfg : walkConfig) : option (result gerr walker) :=
  match Lstat os (root cfg) with
  | Err e => Some (Err (EFault (Wrap (if bool_decide (e = StdNotExist) then E1003 else E1004) "stat source" (root cfg) (EStd e))))
  | Ok fi =>
      match fi_type fi with
      | FDir => Ok <$> walkDir os cfg (fi_dev fi) fuel (root cfg) [] newWalker
      | FRegular => Some (Ok (emitFile cfg fi (Base (root cfg)) newWalker))
      | FSymlink => Ok <$> handleSymlink os cfg (walkDir os cfg (fi_dev fi) fuel) fi (root cfg) (Base (root cfg)) newWalker
      | FOther => Some (Err (fault E1004 "stat source" (root cfg) None))
      end
  end.

(** ** The walk ends

    Directories have identities: [dirAt] is the one a path leads to.  A real
    subdirectory is strictly lower than its parent (directories have no hard links),
    and with --follow-symlinks the links lead into a finite set of directories. *)
Section termination.
Context (os : osEnv) (cfg : walkConfig).
Definition dirAt (abs : bytes) : Z * Z := match Stat os abs with Ok st => devIno st | Err _ => (0, 0) end.
Record finiteTree (D : gset (Z * Z)) (height : Z * Z → nat) (H : nat) : Prop := {
  ft_child : ∀ abs names name fi, ReadDir os abs = Ok names → name ∈ names → Lstat os (Join2 abs name) = Ok fi → fi_type fi = FDir →
    (height (dirAt (Join2 abs name)) < height (dirAt abs))%nat;
  ft_link : followSymlinks cfg = true → ∀ abs st, Stat os abs = Ok st → fi_type st = FDir → devIno st ∈ D;
  ft_height : ∀ abs, (height (dirAt abs) <= H)%nat;
}.
Context (rootDev : Z) (D : gset (Z * Z)) (height : Z * Z → nat) (H : nat) (Hft : finiteTree D height H).
#[local] Set Default Proof Using "Type*".

(** What is left to descend: links not yet followed, then the height. *)
Definition left_ (abs : bytes) (w : walker) : nat := size (D ∖ visited w) * S H + height (dirAt abs).

Definition ends (r : option walker) (w : walker) : Prop := ∃ w', r = Some w' ∧ visited w ⊆ visited w'.
Lemma left_mono abs w w' : visited w ⊆ visited w' → (left_ abs w' <= left_ abs w)%nat.
Proof.
  intros Hv. unfold left_. assert (Hs : D ∖ visited w' ⊆ D ∖ visited w) by set_solver. apply subseteq_size in Hs. nia.
Qed.

Lemma handleSymlink_ends rec fi abs rel w n :
  (∀ abs' rel' w', (left_ abs' w' < n)%nat → ends (rec abs' rel' w') w') → (size (D ∖ visited w) * S H <= n)%nat →
  ends (handleSymlink os cfg rec fi abs rel w) w.
Proof.
  intros Hrec Hn. unfold handleSymlink, ends. destruct (Readlink os abs); [|by exists w].
  destruct (followSymlinks cfg) eqn:Ef; cbn [negb]; [|by eexists].
  destruct (Stat os abs) as [st|] eqn:Es; [|by eexists].
  destruct (fi_type st) eqn:Et; try by eexists.
  case_bool_decide as Hv; [by eexists|].
  destruct (Hrec abs rel (emitDir st rel (visit (devIno st) w))) as (w' & E & Hw').
  - pose proof (ft_link D height H Hft Ef abs st Es Et) as Hin. pose proof (ft_height D height H Hft abs) as Hh. unfold left_. cbn [visited emitDir emit visit].
    assert (Hd : D ∖ visited w = {[devIno st]} ∪ D ∖ ({[devIno st]} ∪ visited w)).
    { apply leibniz_equiv. intros x. destruct (decide (x = devIno st)); set_solver. }
    rewrite Hd, size_union, size_singleton in Hn by set_solver. nia.
  - exists w'. split; [done|]. cbn in Hw'. set_solver.
Qed.

Lemma walkDir_ends fuel : ∀ abs rel w, (left_ abs w < fuel)%nat → ends (walkDir os cfg rootDev fuel abs rel w) w.
Proof.
  induction fuel as [|fuel IH]; intros abs rel w Hf; [lia|]. cbn [walkDir].
  destruct (ReadDir os abs) as [names|] eqn:Er; [|by eexists].
  assert (Hc : ∀ name w1, name ∈ names → visited w ⊆ visited w1 → ends (walkChild os cfg rootDev (walkDir os cfg rootDev fuel) abs rel name w1) w1).
  { intros name w1 Hin Hv. pose proof (left_mono abs w w1 Hv) as Hl. unfold walkChild, ends. cbv zeta. case_bool_decide; [by eexists|].
    destruct (_ && _); [by eexists|]. destruct (Lstat os _) as [fi|] eqn:El; [|by eexists].
    destruct (fi_type fi) eqn:Et; [| |apply (handleSymlink_ends _ _ _ _ _ fuel IH); unfold left_ in *; lia|by eexists]; [|by eexists].
    destruct (_ && _); [by eexists|].
    destruct (IH (Join2 abs name) (childRel rel name) (emitDir fi (childRel rel name) w1)) as (w2 & E2 & H2).
    - pose proof (ft_child D height H Hft abs names name fi Er Hin El Et). unfold left_ in *. cbn [visited emitDir emit]. lia.
    - exists w2. split; [done|]. exact H2. }
  clear Er. assert (Hg : ∀ l w1, (∀ x, x ∈ l → x ∈ names) → visited w ⊆ visited w1 →
    ends (walkNames os cfg rootDev (walkDir os cfg rootDev fuel) abs rel l w1) w1).
  { induction l as [|x l IHl]; intros w1 Hl Hv; cbn [walkNames]; [by exists w1|].
    destruct (Hc x w1) as (w2 & -> & H2); [by apply Hl; left|done|].
    destruct (IHl w2) as (w3 & E3 & H3); [intros y Hy; apply Hl; by right|set_solver|]. exists w3. split; [done|set_solver]. }
  apply Hg; [done|done].
Qed.
End termination.

(** More fuel changes nothing. *)
Section fuel.
Context (os : osEnv) (cfg : walkConfig) (rootDev : Z).
Implicit Types (rec : bytes → bytes → walker → option walker).
Definition extends rec rec' : Prop := ∀ abs rel w w', rec abs rel w = Some w' → rec' abs rel w = Some w'.
Lemma handleSymlink_extends rec rec' fi : extends rec rec' → extends (handleSymlink os cfg rec fi) (handleSymlink os cfg rec' fi).
Proof. intros Hr abs rel w w'. unfold handleSymlink. repeat case_match; try done. apply Hr. Qed.
Lemma walkChild_extends rec rec' abs rel name w w' : extends rec rec' →
  walkChild os cfg rootDev rec abs rel name w = Some w' → walkChild os cfg rootDev rec' abs rel name w = Some w'.
Proof.
  intros Hr. unfold walkChild. cbv zeta. repeat case_match; try done; [apply Hr|by apply handleSymlink_extends].
Qed.
Lemma walkNames_extends rec rec' abs rel names w w' : extends rec rec' →
  walkNames os cfg rootDev rec abs rel names w = Some w' → walkNames os cfg rootDev rec' abs rel names w = Some w'.
Proof.
  intros Hr. revert w. induction names as [|n names IH]; intros w; cbn [walkNames]; [done|].
  destruct (walkChild _ _ _ rec _ _ _ _) as [w1|] eqn:E; [|done]. rewrite (walkChild_extends _ _ _ _ _ _ _ Hr E). apply IH.
Qed.
Lemma walkDir_S fuel : extends (walkDir os cfg rootDev fuel) (walkDir os cfg rootDev (S fuel)).
Proof.
  induction fuel as [|fuel IH]; intros abs rel w w'; [done|]. cbn [walkDir].
  destruct (ReadDir os abs); [|done]. by apply walkNames_extends.
Qed.
Lemma walkDir_extends fuel fuel' : (fuel <= fuel')%nat → extends (walkDir os cfg rootDev fuel) (walkDir os cfg rootDev fuel').
Proof. induction 1; intros abs rel w w' E; [done|]. apply walkDir_S; [done..|]. eauto. Qed.
End fuel.

(** C23: the walk of a finite tree ends.  For a tree whose real directories have a
    bounded height and, with --follow-symlinks, whose links lead into finitely many
    directories, there is one result that every run with (number of directories + 1)
    times (height + 1) levels of recursion or more gives, cycles of links included. *)
Theorem walk_terminates os cfg D height H : finiteTree os cfg D height H →
  ∃ r, ∀ fuel, (S (size D) * S H <= fuel)%nat → walkTree fuel os cfg = Some r.
Proof.
  intros Hft. unfold walkTree. destruct (Lstat os (root cfg)) as [fi|e]; [|by eexists].
  set (n := (S (size D) * S H)%nat). pose proof (ft_height _ _ _ _ _ Hft (root cfg)) as Hh.
  assert (Hends : ∀ abs rel w, visited w = ∅ → ends (walkDir os cfg (fi_dev fi) n abs rel w) w).
  { intros abs rel w Hw. apply (walkDir_ends os cfg (fi_dev fi) D height H Hft). unfold left_. rewrite Hw.
    pose proof (ft_height _ _ _ _ _ Hft abs). assert (D ∖ ∅ = D) as -> by (apply leibniz_equiv; set_solver). unfold n. lia. }
  destruct (fi_type fi); [| |destruct (handleSymlink_ends os cfg D height H Hft (walkDir os cfg (fi_dev fi) n) fi (root cfg) (Base (root cfg)) newWalker n) as (w' & E & _)|by eexists]; [|by eexists| | |].
  - destruct (Hends (root cfg) [] newWalker eq_refl) as (w' & E & _). exists (Ok w'). intros fuel Hf.
    by rewrite (walkDir_extends os cfg (fi_dev fi) n fuel Hf _ _ _ _ E).
  - intros abs rel w Hl. by apply (walkDir_ends os cfg (fi_dev fi) D height H Hft).
  - unfold n. cbn [visited newWalker]. assert (D ∖ ∅ = D) as -> by (apply leibniz_equiv; set_solver). lia.
  - exists (Ok w'). intros fuel Hf. by rewrite (handleSymlink_extends os cfg _ _ fi (walkDir_extends os cfg (fi_dev fi) n fuel Hf) _ _ _ _ E).
Qed.

(** ** Every path at most once *)
Section unique.
Context (os : osEnv) (cfg : walkConfig) (rootDev : Z).
Hypothesis names_ok : ∀ abs names, ReadDir os abs = Ok names → NoDup names ∧ Forall (λ n, n ≠ [] ∧ c_slash ∉ n) names.
#[local] Set Default Proof Using "Type*".

(** [p] is [rel] or below it. *)
Definition within (rel p : bytes) : Prop := p = rel ∨ ∃ t, p = rel ++ c_slash :: t.
(** What a walk below [rel] adds to the output. *)
Definition grows (inside : bytes → Prop) (w w' : walker) : Prop :=
  ∃ l, out w' = out w ++ l ∧ NoDup (RelPath <$> l) ∧ Forall (λ e, inside (RelPath e)) l.
Lemma growsBelow_refl P w w' : out w' = out w → grows P w w'.
Proof. intros E. exists []. rewrite app_nil_r. split_and!; [done|constructor..]. Qed.
Lemma grows_one (P : bytes → Prop) e w : P (RelPath e) → grows P w (emit e w).
Proof. intros He. exists [e]. split_and!; [done|apply NoDup_singleton|by apply Forall_singleton]. Qed.
Lemma grows_trans (P Q R : bytes → Prop) w1 w2 w3 : grows P w1 w2 → grows Q w2 w3 → (∀ p, P p → Q p → False) → (∀ p, P p ∨ Q p → R p) → grows R w1 w3.
Proof.
  intros (l1 & E1 & N1 & F1) (l2 & E2 & N2 & F2) Hd HR. exists (l1 ++ l2). rewrite E2, E1, app_assoc. split; [done|]. rewrite Forall_forall in F1, F2. split.
  - rewrite fmap_app. apply NoDup_app. split_and!; [done| |done].
    intros p (e & -> & He1)%list_elem_of_fmap (e' & Heq & He2)%list_elem_of_fmap. apply (Hd (RelPath e)); [by apply F1|rewrite Heq; by apply F2].
  - rewrite Forall_forall. intros e [He|He]%elem_of_app; apply HR; [left; by apply F1|right; by apply F2].
Qed.

(** Strictly below [rel]; the top of the tree is the empty name. *)
Definition below (rel p : bytes) : Prop := ∃ n : bytes, n ≠ [] ∧ (c_slash ∉ n) ∧ within (childRel rel n) p.
Definition walks (rec : bytes → bytes → walker → option walker) : Prop := ∀ abs rel w w', rec abs rel w = Some w' → grows (below rel) w w'.

Lemma childRel_ne rel n : n ≠ [] → childRel rel n ≠ [].
Proof. unfold childRel. case_bool_decide; [done|]. by destruct rel. Qed.
Lemma below_within rel p : rel ≠ [] → below rel p → within rel p ∧ p ≠ rel.
Proof.
  intros Hr (n & Hn & _ & Hp). assert (E : childRel rel n = rel ++ c_slash :: n) by (unfold childRel; by rewrite bool_decide_false). rewrite E in Hp.
  assert (∃ t, p = rel ++ (c_slash :: t)) as (t & ->) by (destruct Hp as [->|(t & ->)]; [by exists n|exists (n ++ c_slash :: t); by rewrite <- app_assoc]).
  split; [right; by exists t|]. intros E2. apply (f_equal length) in E2. rewrite length_app in E2. cbn in E2. lia.
Qed.

(** Two children of one directory have nothing in common. *)
Lemma within_app a b p : within (a ++ c_slash :: b) p → within a p.
Proof. intros [->|(t & ->)]; right; [by exists b|exists (b ++ c_slash :: t); by rewrite <- app_assoc]. Qed.
Lemma app_sep_inj n1 n2 t1 t2 : c_slash ∉ n1 → c_slash ∉ n2 → n1 ++ c_slash :: t1 = n2 ++ c_slash :: t2 → n1 = n2.
Proof.
  revert n2. induction n1 as [|c n1 IH]; intros [|d n2] H1 H2 E; cbn [app] in E; [done|injection E as <- _; by destruct H2; left|injection E as -> _; by destruct H1; left|].
  injection E as -> E. f_equal. apply (IH n2); [by intros ?; apply H1; right|by intros ?; apply H2; right|done].
Qed.
Lemma within_names n1 n2 p : c_slash ∉ n1 → c_slash ∉ n2 → within n1 p → within n2 p → n1 = n2.
Proof.
  intros H1 H2 [->|(t1 & ->)] [E|(t2 & E)]; [done| | |by eapply app_sep_inj].
  - destruct H1. rewrite E. apply elem_of_app. right. by left.
  - destruct H2. rewrite <- E. apply elem_of_app. right. by left.
Qed.
Lemma within_rel rel n p : rel ≠ [] → within (childRel rel n) p → ∃ q, p = rel ++ c_slash :: q ∧ within n q.
Proof.
  intros Hr. unfold childRel. rewrite bool_decide_false by done. intros [->|(t & ->)].
  - exists n. split; [done|by left].
  - exists (n ++ c_slash :: t). rewrite <- app_assoc. split; [done|right; by exists t].
Qed.
Lemma children_apart rel n1 n2 p : c_slash ∉ n1 → c_slash ∉ n2 → n1 ≠ n2 → within (childRel rel n1) p → within (childRel rel n2) p → False.
Proof.
  intros H1 H2 Hne Hp1 Hp2. destruct (decide (rel = [])) as [->|Hr]; [by apply Hne, (within_names n1 n2 p)|].
  apply within_rel in Hp1 as (q & -> & Hq1), Hp2 as (q' & E & Hq2); [|done..].
  apply app_inv_head in E. injection E as <-. by apply Hne, (within_names n1 n2 q).
Qed.

Lemma emitDir_walks rec abs rel w w1 w' fi : walks rec → rel ≠ [] → out w1 = out w → rec abs rel (emitDir fi rel w1) = Some w' → grows (within rel) w w'.
Proof.
  intros Hrec Hr Ew E. apply Hrec in E. apply (grows_trans (λ p, p = rel) (below rel) _ _ (emitDir fi rel w1)).
  - destruct (grows_one (λ p, p = rel) (dirEntry fi rel) w1 eq_refl) as (l & El & H). exists l. rewrite <- Ew. done.
  - done.
  - intros p -> Hb. by apply below_within in Hb as [_ ?].
  - intros p [->|Hb]; [by left|]. by apply below_within in Hb as [? _].
Qed.
Lemma walkChild_grows rec abs rel name w w' : walks rec → name ≠ [] → walkChild os cfg rootDev rec abs rel name w = Some w' → grows (within (childRel rel name)) w w'.
Proof.
  intros Hrec Hn. pose proof (childRel_ne rel name Hn) as Hr. unfold walkChild. cbv zeta. case_bool_decide; [intros [= <-]; by apply growsBelow_refl|].
  destruct (_ && _); [intros [= <-]; by apply growsBelow_refl|]. destruct (Lstat os _) as [fi|]; [|intros [= <-]; by apply growsBelow_refl].
  destruct (fi_type fi).
  - destruct (_ && _); [intros [= <-]; by apply growsBelow_refl|]. by apply emitDir_walks.
  - intros [= <-]. apply grows_one. by left.
  - unfold handleSymlink. destruct (Readlink os _); [|intros [= <-]; by apply growsBelow_refl].
    destruct (negb _); [intros [= <-]; apply grows_one; by left|].
    destruct (Stat os _) as [st|]; [|intros [= <-]; by apply growsBelow_refl].
    destruct (fi_type st); [|intros [= <-]; apply grows_one; by left|intros [= <-]; by apply growsBelow_refl..].
    case_bool_decide; [intros [= <-]; by apply growsBelow_refl|]. by apply emitDir_walks.
  - intros [= <-]. by apply growsBelow_refl.
Qed.
Lemma walkDir_walks fuel : walks (walkDir os cfg rootDev fuel).
Proof.
  induction fuel as [|fuel IH]; intros abs rel w w'; [done|]. cbn [walkDir].
  destruct (ReadDir os abs) as [names|] eqn:Er; [|intros [= <-]; by apply growsBelow_refl].
  destruct (names_ok _ _ Er) as [Hnd Hall]. clear Er.
  assert (Hg : ∀ names w w', NoDup names → Forall (λ n, n ≠ [] ∧ c_slash ∉ n) names →
    walkNames os cfg rootDev (walkDir os cfg rootDev fuel) abs rel names w = Some w' → grows (λ p, ∃ n, n ∈ names ∧ within (childRel rel n) p) w w').
  { clear names Hnd Hall w w'. induction names as [|n names IHn]; intros w w' Hnd Hall; cbn [walkNames]; [intros [= <-]; by apply growsBelow_refl|].
    apply NoDup_cons in Hnd as [Hn Hnd]. apply Forall_cons in Hall as [[Hne Hns] Hall].
    destruct (walkChild _ _ _ _ _ _ _ _) as [w1|] eqn:E1; [|done]. intros E2. apply walkChild_grows in E1; [|done..]. apply IHn in E2; [|done..].
    eapply grows_trans; [exact E1|exact E2| |].
    - intros p Hp (n' & Hn' & Hp'). rewrite Forall_forall in Hall. destruct (Hall _ Hn') as [_ Hs']. eapply children_apart; [exact Hns|exact Hs'| |done..]. by intros ->.
    - intros p [Hp|(n' & Hn' & Hp)]; [exists n; split; [by left|done]|exists n'; split; [by right|done]]. }
  intros E. apply Hg in E as (l & E & N & F); [|done..]. exists l. split_and!; [done..|]. eapply Forall_impl; [exact F|].
  intros e (n & Hn & Hp). rewrite Forall_forall in Hall. destruct (Hall _ Hn) as [? ?]. by exists n.
Qed.
End unique.

(** No path is emitted twice.  When directory listings hold distinct names
    without separators, the relative paths of the emitted entries are distinct, with
    and without --follow-symlinks: the plan is built from a set of paths. *)
Theorem walk_paths_unique os cfg fuel w :
  (∀ abs names, ReadDir os abs = Ok names → NoDup names ∧ Forall (λ n, n ≠ [] ∧ c_slash ∉ n) names) →
  walkTree fuel os cfg = Some (Ok w) → NoDup (RelPath <$> out w).
Proof.
  intros Hn. unfold walkTree. destruct (Lstat os (root cfg)) as [fi|e]; [|done]. pose proof (walkDir_walks os cfg (fi_dev fi) Hn fuel) as Hw.
  assert (Hg : ∀ P w, grows P newWalker w → NoDup (RelPath <$> out w)) by (intros P w1 (l & -> & N & _); exact N).
  destruct (fi_type fi); [| | |done].
  - destruct (walkDir _ _ _ _ _ _ _) as [w1|] eqn:E; [|done]. intros [= <-]. apply Hw in E. by eapply Hg.
  - intros [= <-]. apply NoDup_singleton.
  - destruct (handleSymlink _ _ _ _ _ _ _) as [w1|] eqn:E; [|done]. intros [= <-]. unfold handleSymlink in E. revert E.
    destruct (Readlink os _); [|intros [= <-]; constructor]. destruct (negb _); [intros [= <-]; apply NoDup_singleton|].
    destruct (Stat os _) as [st|]; [|intros [= <-]; constructor]. destruct (fi_type st); [|intros [= <-]; apply NoDup_singleton|intros [= <-]; constructor..].
    case_bool_decide; [intros [= <-]; constructor|]. intros E. eapply Hg, (emitDir_walks _ _ _ newWalker); [exact Hw| | |exact E]; [|done].
    unfold Base. cbv zeta. case_bool_decide; [done|]. by case_bool_decide.
Qed.

(** ** What is emitted, without following links *)
Section exact.
Context (os : osEnv) (cfg : walkConfig) (rootDev : Z) (Hno : followSymlinks cfg = false).
Hypothesis names_ok : ∀ abs names, ReadDir os abs = Ok names → NoDup names ∧ Forall (λ n, n ≠ [] ∧ c_slash ∉ n) names.
#[local] Set Default Proof Using "Type*".

Definition admitted (abs name : bytes) : Prop := name ≠ bs ".esync" ∧ (skipAbs cfg = [] ∨ Join2 abs name ≠ skipAbs cfg).
Definition onDevice (fi : FileInfo) : Prop := oneFileSystem cfg = false ∨ fi_dev fi = rootDev.
(** What the directory [d], a path and its relative name, holds under [name]. *)
Definition childEntry (d : bytes * bytes) (name : bytes) (e : Entry) : Prop :=
  admitted d.1 name ∧ ∃ fi, Lstat os (Join2 d.1 name) = Ok fi ∧
    match fi_type fi with
    | FDir => onDevice fi ∧ e = dirEntry fi (childRel d.2 name)
    | FRegular => e = fileEntry cfg fi (childRel d.2 name)
    | FSymlink => ∃ t, Readlink os (Join2 d.1 name) = Ok t ∧ e = linkEntry fi (childRel d.2 name) t
    | FOther => False
    end.
Definition childDir (d : bytes * bytes) (name : bytes) (d' : bytes * bytes) : Prop :=
  admitted d.1 name ∧ d' = (Join2 d.1 name, childRel d.2 name) ∧
  ∃ fi, Lstat os (Join2 d.1 name) = Ok fi ∧ fi_type fi = FDir ∧ onDevice fi.
Definition subdir (d d' : bytes * bytes) : Prop := ∃ names name, ReadDir os d.1 = Ok names ∧ name ∈ names ∧ childDir d name d'.
Definition holds (d : bytes * bytes) (e : Entry) : Prop := ∃ names name, ReadDir os d.1 = Ok names ∧ name ∈ names ∧ childEntry d name e.
(** The entries of the tree below [d], and its directories that cannot be read. *)
Definition entryUnder (d : bytes * bytes) (e : Entry) : Prop := ∃ d', rtc subdir d d' ∧ holds d' e.
Definition unreadableUnder (d d' : bytes * bytes) : Prop := rtc subdir d d' ∧ ∃ err, ReadDir os d'.1 = Err err.

Lemma entryUnder_dir d names e : ReadDir os d.1 = Ok names →
  entryUnder d e ↔ ∃ name, name ∈ names ∧ (childEntry d name e ∨ ∃ d', childDir d name d' ∧ entryUnder d' e).
Proof.
  intros Hr. split.
  - intros (d' & [<-|(d1 & (ns & name & Hr' & Hin & Hc) & Hd1)]%rtc_inv & Hh).
    + destruct Hh as (ns & name & Hr' & Hin & Hc). rewrite Hr in Hr'. injection Hr' as <-. exists name. split; [done|by left].
    + rewrite Hr in Hr'. injection Hr' as <-. exists name. split; [done|]. right. exists d1. split; [done|]. by exists d'.
  - intros (name & Hin & [Hc|(d1 & Hc & d' & Hd & Hh)]).
    + exists d. split; [apply rtc_refl|]. by exists names, name.
    + exists d'. split; [|done]. eapply rtc_l; [|exact Hd]. by exists names, name.
Qed.
Lemma unreadableUnder_dir d names q : ReadDir os d.1 = Ok names →
  unreadableUnder d q ↔ ∃ name, name ∈ names ∧ ∃ d', childDir d name d' ∧ unreadableUnder d' q.
Proof.
  intros Hr. split.
  - intros [[<-|(d1 & (ns & name & Hr' & Hin & Hc) & Hd1)]%rtc_inv [err He]]; [congruence|].
    rewrite Hr in Hr'. injection Hr' as <-. exists name. split; [done|]. exists d1. split; [done|]. split; [done|by exists err].
  - intros (name & Hin & d1 & Hc & Hd & He). split; [|done]. eapply rtc_l; [|exact Hd]. by exists names, name.
Qed.
Lemma under_unreadable d err : ReadDir os d.1 = Err err → (∀ e, ¬ entryUnder d e) ∧ ∀ q, unreadableUnder d q ↔ q = d.
Proof.
  intros Hr. split.
  - intros e (d' & [<-|(d1 & (ns & name & Hr' & _) & _)]%rtc_inv & Hh); [destruct Hh as (ns & name & Hr' & _)|]; congruence.
  - intros q. split; [|intros ->; split; [apply rtc_refl|by exists err]].
    intros [[<-|(d1 & (ns & name & Hr' & _) & _)]%rtc_inv _]; [done|congruence].
Qed.

(** Everything below a directory has a name below its own. *)
Lemma within_trans a b c : within a b → within b c → within a c.
Proof. intros [->|(t & ->)]; [done|]. intros [->|(u & ->)]; right; [by exists t|]. exists (t ++ c_slash :: u). by rewrite <- app_assoc. Qed.
Lemma subdirs_within d d' : rtc subdir d d' → d.2 ≠ [] → within d.2 d'.2.
Proof.
  induction 1 as [d|d d1 d' (names & name & Hr & Hin & _ & -> & _) _ IH]; [by left|]. intros Hd. cbn [fst snd] in IH.
  assert (Hn : name ≠ []) by (apply names_ok in Hr as [_ Hall]; rewrite Forall_forall in Hall; by apply Hall).
  eapply within_trans; [|apply IH; by apply childRel_ne]. right. exists name. unfold childRel. by rewrite bool_decide_false.
Qed.
Lemma unreadable_apart d n1 n2 q : n1 ≠ [] → n2 ≠ [] → c_slash ∉ n1 → c_slash ∉ n2 → n1 ≠ n2 →
  (∃ d', childDir d n1 d' ∧ unreadableUnder d' q) → (∃ d', childDir d n2 d' ∧ unreadableUnder d' q) → False.
Proof.
  intros E1 E2 H1 H2 Hne (? & (_ & -> & _) & Hq1 & _) (? & (_ & -> & _) & Hq2 & _).
  apply subdirs_within in Hq1, Hq2; [|by apply childRel_ne..]. by eapply (children_apart d.2 n1 n2 q.2).
Qed.

Lemma exists_cons {A} (P : A → Prop) n l : (∃ x, x ∈ n :: l ∧ P x) ↔ P n ∨ ∃ x, x ∈ l ∧ P x.
Proof.
  split; [|intros [Hn|(x & Hx & Hp)]; [exists n; split; [left|done]|exists x; split; [by right|done]]].
  intros (x & [->|Hx]%elem_of_cons & Hp); [by left|right; by exists x].
Qed.

(** A step of the walk accounts for exactly the entries [P] and unreadable
    directories [Q]. *)
Definition accounts (P : Entry → Prop) (Q : bytes * bytes → Prop) (w w' : walker) : Prop :=
  (∃ l, out w' = out w ++ l ∧ ∀ e, e ∈ l ↔ P e) ∧
  ∃ bad, unreadable w' = wrap_u 32 (unreadable w + Z.of_nat (length bad)) ∧ NoDup bad ∧ ∀ q, q ∈ bad ↔ Q q.
Lemma accounts_none (P : Entry → Prop) (Q : bytes * bytes → Prop) w w' :
  in_u 32 (unreadable w) → out w' = out w → unreadable w' = unreadable w → (∀ e, ¬ P e) → (∀ q, ¬ Q q) → accounts P Q w w'.
Proof.
  intros Hu Ho Hw HP HQ. split; [exists []|exists []].
  - rewrite app_nil_r. split; [done|]. intros e. rewrite elem_of_nil. split; [done|]. intros He. by destruct (HP e).
  - rewrite Z.add_0_r, wrap_u_id by done. split_and!; [done|constructor|]. intros q. rewrite elem_of_nil. split; [done|]. intros Hq. by destruct (HQ q).
Qed.
Lemma accounts_emit (P : Entry → Prop) (Q : bytes * bytes → Prop) e w :
  in_u 32 (unreadable w) → (∀ e', P e' ↔ e' = e) → (∀ q, ¬ Q q) → accounts P Q w (emit e w).
Proof.
  intros Hu HP HQ. split; [exists [e]|exists []].
  - split; [done|]. intros e'. by rewrite list_elem_of_singleton, HP.
  - rewrite Z.add_0_r, wrap_u_id by done. split_and!; [done|constructor|]. intros q. rewrite elem_of_nil. split; [done|]. intros Hq. by destruct (HQ q).
Qed.
Lemma accounts_app (P1 P2 P : Entry → Prop) (Q1 Q2 Q : bytes * bytes → Prop) w1 w2 w3 :
  accounts P1 Q1 w1 w2 → accounts P2 Q2 w2 w3 → (∀ q, Q1 q → Q2 q → False) → (∀ e, P e ↔ P1 e ∨ P2 e) → (∀ q, Q q ↔ Q1 q ∨ Q2 q) → accounts P Q w1 w3.
Proof.
  intros [(l1 & O1 & E1) (b1 & U1 & N1 & F1)] [(l2 & O2 & E2) (b2 & U2 & N2 & F2)] Hd HP HQ. split; [exists (l1 ++ l2)|exists (b1 ++ b2)].
  - rewrite O2, O1, app_assoc. split; [done|]. intros e. by rewrite elem_of_app, E1, E2, HP.
  - rewrite U2, U1, length_app. split_and!; [|apply NoDup_app; split_and!; [done| |done]; intros q; rewrite F1, F2; exact (Hd q)|intros q; by rewrite elem_of_app, F1, F2, HQ].
    unfold wrap_u. rewrite Zplus_mod_idemp_l. f_equal. lia.
Qed.
Lemma accounts_u P Q w w' : accounts P Q w w' → in_u 32 (unreadable w').
Proof. intros [_ (b & -> & _)]. apply wrap_u_range. lia. Qed.

Definition accountsFor (rec : bytes → bytes → walker → option walker) : Prop := ∀ abs rel w w', in_u 32 (unreadable w) →
  rec abs rel w = Some w' → accounts (entryUnder (abs, rel)) (unreadableUnder (abs, rel)) w w'.

(** The same for the child [name] of the directory [d]. *)
Definition childAccounts (d : bytes * bytes) (name : bytes) : walker → walker → Prop :=
  accounts (λ e, childEntry d name e ∨ ∃ d', childDir d name d' ∧ entryUnder d' e) (λ q, ∃ d', childDir d name d' ∧ unreadableUnder d' q).
Definition childOf (d : bytes * bytes) (name : bytes) : bytes * bytes := (Join2 d.1 name, childRel d.2 name).

(** A child that is not walked into, with at most one entry. *)
Lemma child_leaf d name w w' : in_u 32 (unreadable w) → (∀ d', ¬ childDir d name d') →
  ((∃ e, w' = emit e w ∧ ∀ e', childEntry d name e' ↔ e' = e) ∨ (out w' = out w ∧ unreadable w' = unreadable w ∧ ∀ e', ¬ childEntry d name e')) →
  childAccounts d name w w'.
Proof.
  intros Hu Hd [(e & -> & He)|(Ho & Hw & He)].
  - apply accounts_emit; [done| |intros q (d' & Hc & _); by eapply Hd].
    intros e'. rewrite He. split; [|by left]. intros [?|(d' & Hc & _)]; [done|by destruct (Hd d')].
  - apply accounts_none; [done..| |intros q (d' & Hc & _); by eapply Hd].
    intros e' [?|(d' & Hc & _)]; [by eapply He|by eapply Hd].
Qed.
(** A subdirectory: its own entry, then what is below. *)
Lemma child_dir rec d name fi w w' : accountsFor rec → in_u 32 (unreadable w) → admitted d.1 name → Lstat os (Join2 d.1 name) = Ok fi →
  fi_type fi = FDir → onDevice fi → rec (childOf d name).1 (childOf d name).2 (emitDir fi (childRel d.2 name) w) = Some w' → childAccounts d name w w'.
Proof.
  intros Hrec Hu Had El Et Hd E. apply Hrec in E; [|done].
  assert (Hc : childDir d name (childOf d name)) by (split_and!; [done..|by exists fi]).
  assert (He : ∀ e, childEntry d name e ↔ e = dirEntry fi (childRel d.2 name)).
  { intros e. unfold childEntry. rewrite El. split; [|intros ->; split; [done|]; exists fi; by rewrite Et].
    intros (_ & fi' & [= <-] & Hm). rewrite Et in Hm. by destruct Hm. }
  eapply accounts_app; [apply (accounts_emit (λ e, e = dirEntry fi (childRel d.2 name)) (λ _, False)); [done|done|by intros q []]|exact E|by intros q []| |].
  - intros e. rewrite He. split; [intros [?|(d' & (_ & -> & _) & ?)]; [by left|by right]|]. intros [?|?]; [by left|right]. by exists (childOf d name).
  - intros q. split; [intros (d' & (_ & -> & _) & ?); by right|]. intros [[]|?]. by exists (childOf d name).
Qed.

Lemma walkChild_accounts rec d name w w' : accountsFor rec → in_u 32 (unreadable w) →
  walkChild os cfg rootDev rec d.1 d.2 name w = Some w' → childAccounts d name w w'.
Proof.
  intros Hrec Hu. unfold walkChild. cbv zeta.
  assert (Hna : ¬ admitted d.1 name → childAccounts d name w w).
  { intros Hn. apply child_leaf; [done|by intros d' (? & _)|]. right. split_and!; [done..|]. by intros e (? & _). }
  case_bool_decide as Hn; [intros [= <-]; apply Hna; by intros [? _]|].
  destruct (negb _ && _) eqn:Ea.
  { apply andb_true_iff in Ea as [E1 E2]. apply negb_true_iff, bool_decide_eq_false in E1. apply bool_decide_eq_true in E2.
    intros [= <-]. apply Hna. by intros [_ [?|?]]. }
  assert (Had : admitted d.1 name).
  { split; [done|]. apply andb_false_iff in Ea as [Ea|Ea]; [left; by apply negb_false_iff, bool_decide_eq_true in Ea|right; by apply bool_decide_eq_false in Ea]. }
  clear Hna Ea. destruct (Lstat os _) as [fi|err] eqn:El.
  2: { intros [= <-]. apply child_leaf; [done|intros d' (_ & _ & fi & Hf & _); congruence|]. right. split_and!; [done..|]. intros e (_ & fi & Hf & _). congruence. }
  assert (Hnd : fi_type fi ≠ FDir ∨ ¬ onDevice fi → ∀ d', ¬ childDir d name d') by (intros Hc d' (_ & _ & fi' & Hf & ? & ?); destruct Hc; congruence).
  assert (He : ∀ e, childEntry d name e ↔ match fi_type fi with
    | FDir => onDevice fi ∧ e = dirEntry fi (childRel d.2 name) | FRegular => e = fileEntry cfg fi (childRel d.2 name)
    | FSymlink => ∃ t, Readlink os (Join2 d.1 name) = Ok t ∧ e = linkEntry fi (childRel d.2 name) t | FOther => False end).
  { intros e. unfold childEntry. rewrite El. split; [by intros (_ & fi' & [= <-] & ?)|]. intros ?. split; [done|]. by exists fi. }
  destruct (fi_type fi) eqn:Et.
  - destruct (oneFileSystem cfg && negb (fi_dev fi =? rootDev)) eqn:Ed.
    + apply andb_true_iff in Ed as [E1 E2]. apply negb_true_iff, Z.eqb_neq in E2. assert (Ho : ¬ onDevice fi) by (intros [?|?]; congruence).
      intros [= <-]. apply child_leaf; [done|apply Hnd; by right|]. right. split_and!; [done..|]. intros e. rewrite He. tauto.
    + assert (Ho : onDevice fi) by (apply andb_false_iff in Ed as [?|Ed]; [by left|right; by apply negb_false_iff, Z.eqb_eq in Ed]). by apply child_dir.
  - intros [= <-]. apply child_leaf; [done|apply Hnd; by left|]. left. by eexists.
  - unfold handleSymlink. rewrite Hno. cbn [negb]. destruct (Readlink os _) as [t|err] eqn:Er; intros [= <-]; (apply child_leaf; [done|apply Hnd; by left|]).
    + left. eexists. split; [done|]. intros e. rewrite He. split; [by intros (? & [= ->] & ->)|]. intros ->. by exists t.
    + right. split_and!; [done..|]. intros e. rewrite He. by intros (? & [=] & _).
  - intros [= <-]. apply child_leaf; [done|apply Hnd; by left|]. right. split_and!; [done..|]. intros e. rewrite He. tauto.
Qed.

Lemma walkDir_accounts fuel : accountsFor (walkDir os cfg rootDev fuel).
Proof.
  induction fuel as [|fuel IH]; intros abs rel w w' Hu; [done|]. cbn [walkDir].
  destruct (ReadDir os abs) as [names|err] eqn:Er.
  2: { intros [= <-]. destruct (under_unreadable (abs, rel) err Er) as [H1 H2]. split; [exists []|exists [(abs, rel)]].
       - rewrite app_nil_r. split; [done|]. intros e. rewrite elem_of_nil. split; [done|]. by intros ?%H1.
       - split_and!; [done|apply NoDup_singleton|]. intros q. by rewrite list_elem_of_singleton, H2. }
  destruct (names_ok _ _ Er) as [Hnd Hall].
  intros E. assert (Hg : ∀ l w w', NoDup l → Forall (λ n, n ≠ [] ∧ c_slash ∉ n) l → in_u 32 (unreadable w) → walkNames os cfg rootDev (walkDir os cfg rootDev fuel) abs rel l w = Some w' →
    accounts (λ e, ∃ name, name ∈ l ∧ (childEntry (abs, rel) name e ∨ ∃ d', childDir (abs, rel) name d' ∧ entryUnder d' e))
      (λ q, ∃ name, name ∈ l ∧ ∃ d', childDir (abs, rel) name d' ∧ unreadableUnder d' q) w w').
  { clear names Er E Hu Hnd Hall w w'. induction l as [|n l IHl]; intros w w' Hnd Hall Hu; cbn [walkNames].
    { intros [= <-]. apply accounts_none; [done..|intros e (? & ?%elem_of_nil & _); done|intros q (? & ?%elem_of_nil & _); done]. }
    destruct (walkChild _ _ _ _ _ _ _ _) as [w1|] eqn:E1; [|done]. apply (walkChild_accounts _ (abs, rel)) in E1; [|done..].
    apply NoDup_cons in Hnd as [Hn Hnd]. apply Forall_cons in Hall as [[Hne Hns] Hall].
    intros E2. apply IHl in E2; [|done..|by eapply accounts_u]. eapply accounts_app; [exact E1|exact E2| |intros x; exact (exists_cons _ n l)..].
    intros q Hq (n' & Hn' & Hq'). rewrite Forall_forall in Hall. destruct (Hall _ Hn') as [Hne' Hns'].
    eapply unreadable_apart; [exact Hne|exact Hne'|exact Hns|exact Hns'| |exact Hq|exact Hq']. by intros ->. }
  apply Hg in E; [|done..]. destruct E as [(l & O & HE) (bad & U & HN & HB)]. split; [exists l|exists bad]; [split; [done|]|split_and!; [done..|]].
  - intros e. by rewrite HE, (entryUnder_dir (abs, rel) names e Er).
  - intros q. by rewrite HB, (unreadableUnder_dir (abs, rel) names q Er).
Qed.
End exact.

(** C24: what is emitted is the tree.  Without --follow-symlinks, the walk of a
    directory emits one entry, under its own path, for every file, directory and
    readable link it holds at any depth and for nothing else, except below .esync,
    the destination, and (with --one-file-system) mount points, with the attributes
    lstat shows; and it counts each directory that could not be read once, which is
    what turns the exit code into 1. *)
Theorem walk_exact os cfg fuel fi w :
  (∀ abs names, ReadDir os abs = Ok names → NoDup names ∧ Forall (λ n, n ≠ [] ∧ c_slash ∉ n) names) →
  followSymlinks cfg = false → Lstat os (root cfg) = Ok fi → fi_type fi = FDir → walkTree fuel os cfg = Some (Ok w) →
  NoDup (RelPath <$> out w) ∧ (∀ e, e ∈ out w ↔ entryUnder os cfg (fi_dev fi) (root cfg, []) e) ∧
  ∃ bad, unreadable w = wrap_u 32 (Z.of_nat (length bad)) ∧ NoDup bad ∧ ∀ d, d ∈ bad ↔ unreadableUnder os cfg (fi_dev fi) (root cfg, []) d.
Proof.
  intros Hn Hno El Et. unfold walkTree. rewrite El, Et. destruct (walkDir _ _ _ _ _ _ _) as [w1|] eqn:E; [|done]. intros [= <-].
  apply (walkDir_walks os cfg (fi_dev fi) Hn fuel) in E as Hl. destruct Hl as (l' & O' & N & _).
  apply (walkDir_accounts os cfg (fi_dev fi) Hno Hn fuel) in E as [(l & O & HE) (bad & U & HN & HB)]; [|done].
  split; [by rewrite O'|]. split; [by rewrite O|]. by exists bad.
Qed.

(** ** A concrete tree

    Two files, a directory whose link leads back to itself, and two links to one
    directory elsewhere. *)
Record exNode := mkNode { n_lstat : FileInfo; n_stat : option FileInfo; n_names : option (list bytes); n_target : option bytes }.
Definition fromOption {A} (o : option A) : result stdErr A := match o with Some a => Ok a | None => Err StdNotExist end.
Definition osOf (m : gmap bytes exNode) : osEnv := {|
  Lstat p := fromOption (n_lstat <$> m !! p); Stat p := fromOption (m !! p ≫= n_stat);
  ReadDir p := fromOption (m !! p ≫= n_names); Readlink p := fromOption (m !! p ≫= n_target) |}.
Definition ex_dirInfo (d i : Z) : FileInfo := mkInfo FDir 493 0 (0, 0) d i 2.
Definition ex_fileInfo (i : Z) : FileInfo := mkInfo FRegular 420 7 (5, 0) 1 i 1.
Definition ex_linkInfo (i : Z) : FileInfo := mkInfo FSymlink 511 0 (0, 0) 1 i 1.
Definition ex_isDir (d i : Z) (names : list string) : exNode := mkNode (ex_dirInfo d i) (Some (ex_dirInfo d i)) (Some (bs <$> names)) None.
Definition ex_isFile (i : Z) : exNode := mkNode (ex_fileInfo i) (Some (ex_fileInfo i)) None None.
Definition ex_isLink (i d j : Z) (names : list string) (target : string) : exNode :=
  mkNode (ex_linkInfo i) (Some (ex_dirInfo d j)) (Some (bs <$> names)) (Some (bs target)).
Definition ex_nodes : gmap bytes exNode := list_to_map [
  (bs "/s", ex_isDir 1 10 ["a"; "d"; "l1"; "l2"]%string); (bs "/s/a", ex_isFile 11); (bs "/s/d", ex_isDir 1 12 ["up"; "x"]%string);
  (bs "/s/d/up", ex_isLink 13 1 12 ["up"; "x"]%string "."); (bs "/s/d/up/up", ex_isLink 13 1 12 ["up"; "x"]%string ".");
  (bs "/s/d/up/x", ex_isFile 14); (bs "/s/d/x", ex_isFile 14);
  (bs "/s/l1", ex_isLink 15 2 5 ["y"]%string "/data"); (bs "/s/l1/y", ex_isFile 6);
  (bs "/s/l2", ex_isLink 16 2 5 ["y"]%string "/data"); (bs "/s/l2/y", ex_isFile 6)].
Definition ex_walk (follow : bool) : walkConfig := mkWalk (bs "/s") [] follow false true.
Definition ex_height (k : Z * Z) : nat := if bool_decide (k = (1, 10)) then 1 else 0.

#[local] Opaque ex_nodes.

Definition ex_dirs : gset (Z * Z) := {[ (1, 10); (1, 12); (2, 5) ]}.
Definition ex_childOk (abs name : bytes) : bool :=
  match ex_nodes !! Join2 abs name with
  | Some c => negb (bool_decide (fi_type (n_lstat c) = FDir)) ||
              (ex_height (dirAt (osOf ex_nodes) (Join2 abs name)) <? ex_height (dirAt (osOf ex_nodes) abs))%nat
  | None => true
  end.
Definition ex_statOk (n : exNode) : bool :=
  match n_stat n with Some st => negb (bool_decide (fi_type st = FDir)) || bool_decide (devIno st ∈ ex_dirs) | None => true end.
Definition ex_namesOk (n : exNode) : bool :=
  bool_decide (NoDup (default [] (n_names n))) && forallb (λ n, negb (bool_decide (n = [])) && negb (bool_decide (c_slash ∈ n))) (default [] (n_names n)).
Lemma ex_nodes_ok abs n : ex_nodes !! abs = Some n →
  forallb (ex_childOk abs) (default [] (n_names n)) = true ∧ ex_statOk n = true ∧ ex_namesOk n = true.
Proof.
  intros Hn. assert (Hc : forallb (λ p, forallb (ex_childOk p.1) (default [] (n_names p.2)) && ex_statOk p.2 && ex_namesOk p.2) (map_to_list ex_nodes) = true)
    by (vm_compute; reflexivity).
  rewrite forallb_forall in Hc. specialize (Hc (abs, n)). rewrite <- list_elem_of_In, elem_of_map_to_list in Hc. specialize (Hc Hn). cbn [fst snd] in Hc.
  by apply andb_true_iff in Hc as [[? ?]%andb_true_iff ?].
Qed.
Lemma ex_ReadDir abs names : ReadDir (osOf ex_nodes) abs = Ok names → ∃ n, ex_nodes !! abs = Some n ∧ n_names n = Some names.
Proof. cbn. destruct (ex_nodes !! abs) as [n|]; [|done]. cbn. destruct (n_names n) as [ns|] eqn:En; [|done]. intros [= ->]. by exists n. Qed.
Lemma ex_finite : finiteTree (osOf ex_nodes) (ex_walk true) ex_dirs ex_height 1.
Proof.
  split.
  - intros abs names name fi (n & Hn & Hns)%ex_ReadDir Hin Hl Ht. destruct (ex_nodes_ok abs n Hn) as (Hc & _). rewrite Hns in Hc. cbn [default from_option id] in Hc.
    rewrite forallb_forall in Hc. specialize (Hc name). rewrite <- list_elem_of_In in Hc. specialize (Hc Hin). unfold ex_childOk in Hc. cbn [Lstat osOf] in Hl.
    destruct (ex_nodes !! Join2 abs name) as [c|]; [|done]. cbn in Hl. injection Hl as <-. rewrite bool_decide_true in Hc by done. cbn [negb orb] in Hc. by apply Nat.ltb_lt.
  - intros _ abs st Hs Ht. cbn [Stat osOf] in Hs. destruct (ex_nodes !! abs) as [n|] eqn:En; [|done]. cbn in Hs.
    destruct (ex_nodes_ok abs n En) as (_ & Hc & _). unfold ex_statOk in Hc. destruct (n_stat n) as [st'|]; [|done]. cbn in Hs. injection Hs as <-.
    rewrite bool_decide_true in Hc by done. by apply bool_decide_eq_true in Hc.
  - intros abs. unfold ex_height. case_bool_decide; lia.
Qed.
Lemma ex_names abs names : ReadDir (osOf ex_nodes) abs = Ok names → NoDup names ∧ Forall (λ n, n ≠ [] ∧ c_slash ∉ n) names.
Proof.
  intros (n & Hn & Hns)%ex_ReadDir. destruct (ex_nodes_ok abs n Hn) as (_ & _ & Hc). unfold ex_namesOk in Hc. rewrite Hns in Hc. cbn [default from_option id] in Hc.
  apply andb_true_iff in Hc as [H1 H2]. apply bool_decide_eq_true in H1. split; [done|]. rewrite Forall_forall. intros x Hx. rewrite forallb_forall in H2.
  specialize (H2 x). rewrite <- list_elem_of_In in H2. specialize (H2 Hx). bool_to_prop. done.
Qed.

(** The cycle is followed once, and the second link to /data not at all. *)
Definition ex_followed : list bytes := bs <$> ["a"; "d"; "d/up"; "d/up/x"; "d/x"; "l1"; "l1/y"]%string.
Lemma ex_follow : (λ r, match r with Ok w => (RelPath <$> out w, skipped w, unreadable w) | Err _ => ([], 0, 0) end) <$> walkTree 8 (osOf ex_nodes) (ex_walk true)
  = Some (ex_followed, 2, 0).
Proof. vm_compute. reflexivity. Qed.
Lemma ex_follow_run : ∃ w, walkTree 8 (osOf ex_nodes) (ex_walk true) = Some (Ok w) ∧ RelPath <$> out w = ex_followed ∧ unreadable w = 0.
Proof.
  pose proof ex_follow as E. destruct (walkTree 8 (osOf ex_nodes) (ex_walk true)) as [[w|]|]; [|discriminate E..]. exists w. cbn in E.
  assert (E1 := f_equal (λ o, from_option (λ t, t.1.1) [] o) E). assert (E2 := f_equal (λ o, from_option snd 0 o) E). cbn [from_option fst snd] in E1, E2.
  split; [reflexivity|split; assumption].
Qed.
(** A second link to a directory that is not an ancestor is dropped as if it were a
    cycle; only directories that cannot be read change the exit code. *)
Lemma second_link_dropped : ∃ w, walkTree 8 (osOf ex_nodes) (ex_walk true) = Some (Ok w) ∧
  (bs "l1/y" ∈ RelPath <$> out w) ∧ (bs "l2" ∉ RelPath <$> out w) ∧ (bs "l2/y" ∉ RelPath <$> out w) ∧ unreadable w = 0.
Proof.
  destruct ex_follow_run as (w & Ew & Eo & Eu). exists w. rewrite Eo. split; [exact Ew|].
  split_and!; [|..|exact Eu]; refine (bool_decide_eq_true_1 _ _); vm_compute; reflexivity.
Qed.

Lemma walk_terminates_witness : walkTree 100 (osOf ex_nodes) (ex_walk true) = walkTree 8 (osOf ex_nodes) (ex_walk true).
Proof.
  destruct (walk_terminates (osOf ex_nodes) (ex_walk true) ex_dirs ex_height 1 ex_finite) as [r Hr].
  assert (Hs : size ex_dirs = 3%nat) by (vm_compute; reflexivity). rewrite Hs in Hr.
  rewrite (Hr 100%nat), (Hr 8%nat); [reflexivity|lia..].
Defined.
Lemma walk_paths_unique_witness : NoDup ex_followed.
Proof.
  destruct ex_follow_run as (w & Ew & Eo & _). rewrite <- Eo. exact (walk_paths_unique (osOf ex_nodes) (ex_walk true) 8 w ex_names Ew).
Defined.
Lemma ex_nofollow : (λ r, match r with Ok w => bool_decide (fileEntry (ex_walk false) (ex_fileInfo 14) (bs "d/x") ∈ out w) | Err _ => false end) <$>
  walkTree 3 (osOf ex_nodes) (ex_walk false) = Some true.
Proof. vm_compute. reflexivity. Qed.
Lemma walk_exact_witness :
  entryUnder (osOf ex_nodes) (ex_walk false) 1 (bs "/s", []) (fileEntry (ex_walk false) (ex_fileInfo 14) (bs "d/x")).
Proof.
  pose proof ex_nofollow as E. destruct (walkTree 3 (osOf ex_nodes) (ex_walk false)) as [[w|]|] eqn:Ew; [|discriminate E..].
  cbn in E. injection E as E. apply bool_decide_eq_true in E.
  assert (El : Lstat (osOf ex_nodes) (root (ex_walk false)) = Ok (ex_dirInfo 1 10)) by (vm_compute; reflexivity).
  apply (proj1 (proj2 (walk_exact (osOf ex_nodes) (ex_walk false) 3 (ex_dirInfo 1 10) w ex_names eq_refl El eq_refl Ew))). exact E.
Defined.
