(* ===== verification/Serve.v ===== *)
(** * Serve: answering file requests (src/internal/sender/serve.go)

    A [servicer] answers the FILE_REQUESTs of one data channel.  The source file
    system is the argument [osOpen]: the handle an open of a path yields, with
    what [Stat], [Seek] and the successive [Read]s of it return.  The state is
    the shared tracker, the messages sent on the channel, the fate of the coming
    sends, and the two counters. *)
From S2P Require Import Prelude Fault Strconv Codec Wire Glob Plan Digest Tracker Fs Manifest.

Record finfo := mkFinfo { fi_regular : bool; fi_dev : Z; fi_ino : Z; fi_size : Z }.
(** One [Read]: the bytes and the error that came with them, if any; the end of
    the list is [io.EOF]. *)
Record handle := mkHandle {
  h_stat : result stdErr finfo; h_seek : Z → option stdErr; h_reads : Z → list (bytes * option stdErr);
}.
Record servicer := mkServicer {
  s_entries : list Entry; s_root : bytes; s_algo : Algo; s_chunkSize : Z; s_digests : digestStore.t;
}.
Record st := mkSt {
  tr : tracker; sent : list Message; fates : list (option gerr); FilesTransferred : Z; BytesOut : Z;
}.
Abbreviation M := (SE st gerr).

Definition onTracker (f : tracker → tracker) : M unit :=
  modS (λ s, mkSt (f (tr s)) (sent s) (fates s) (FilesTransferred s) (BytesOut s)).
(** [s.conn.SendMsg(m)]: an error, or [m] is on its way. *)
Definition SendMsg (m : Message) : M unit := λ s,
  match fates s with
  | Some e :: fs => (Err e, mkSt (tr s) (sent s) fs (FilesTransferred s) (BytesOut s))
  | fs => (Ok (), mkSt (tr s) (sent s ++ [m]) (tail fs) (FilesTransferred s) (BytesOut s))
  end.
(** [_ = op] *)
Definition dropErr (m : M unit) : M unit := λ s, (Ok (), (m s).2).

(** [strconv.Atoi(strings.TrimPrefix(string(c), "E"))] as a [uint16]. *)
Definition codeNum (c : Code) : Z := wrap_u 16 (ParseInt (TrimPrefix c (bs "E"))).1.

Definition sendErr (req : FileRequest.t) (code : Code) (retryable : bool) (msg : bytes) : M unit :=
  SendMsg (MFileError (FileError.mk (FileRequest.RequestID req) (codeNum code) (if retryable then 1 else 0) msg)).

Definition mapOpenErr (e : stdErr) : Code :=
  match e with StdNotExist => E6002 | StdPermission => E6001 | _ => E6004 end.

Section serve.
Context `{HashFns} (errText : stdErr → bytes) (osOpen : bytes → result stdErr handle).

(** [_ = s.sendErr(...); s.tr.reqFailed(...); return nil] *)
Definition refuse (req : FileRequest.t) (code : Code) (retryable : bool) (msg : bytes) (resolve permanent : bool) : M unit :=
  _ ← dropErr (sendErr req code retryable msg);
  onTracker (reqFailed (FileRequest.RequestID req) resolve permanent).

(** The read loop: [None] when it has refused the request. *)
Fixpoint streamLoop (req : FileRequest.t) (off : Z) (h : Hash) (sent : Z) (reads : list (bytes * option stdErr)) :
    M (option (Hash * Z)) :=
  match reads with
  | [] => mret (Some (h, sent))
  | (p, rerr) :: reads =>
      x ← (if bool_decide (p = []) then mret (h, sent) else
             _ ← SendMsg (MFileChunk (FileChunk.mk (FileRequest.RequestID req) (wrap_u 64 (off + sent)) p));
             _ ← onTracker bump;
             mret (hashWrite h p, wrap_u 64 (sent + Z.of_nat (length p))));
      match rerr with
      | None => streamLoop req off x.1 x.2 reads
      | Some StdEOF => mret (Some x)
      | Some e => _ ← refuse req E6004 true (errText e) false false; mret None
      end
  end.

(** After the read loop: [n] bytes have been sent. *)
Definition streamEnd (s : servicer) (req : FileRequest.t) (e : Entry) (h : Hash) (n : Z) : M unit :=
  let id := FileRequest.RequestID req in
  let fid := FileRequest.FileID req in
  let manifestDigest := (digestStore.get fid (s_digests s)).1 in
  let off := wrap_i 64 (FileRequest.Offset req) in
  if negb (wrap_i 64 (off + wrap_i 64 n) =? Plan.Size e) then
    refuse req E6003 false (bs "short read: source shrank during transfer") true true
  else
    let full := Sum h in
    if (off =? 0) && bool_decide (manifestDigest ≠ []) && bool_decide (full ≠ manifestDigest) then
      refuse req E8003 false (bs "streamed digest does not match the manifest") true true
    else
      _ ← SendMsg (MFileComplete (FileComplete.mk id n full));
      _ ← onTracker (reqCompleted id fid n);
      modS (λ st, mkSt (tr st) (sent st) (fates st) (FilesTransferred st + 1) (BytesOut st + wrap_i 64 n)).

(** From the FILE_HEADER on; [e] is the entry, [f] the open file. *)
Definition stream (s : servicer) (req : FileRequest.t) (e : Entry) (abs : bytes) (f : handle) : M unit :=
  let id := FileRequest.RequestID req in
  let fid := FileRequest.FileID req in
  let manifestDigest := (digestStore.get fid (s_digests s)).1 in
  _ ← SendMsg (MFileHeader (FileHeader.mk id fid (wrap_u 64 (Plan.Size e)) (Perm (Plan.Mode e))
                 (Plan.MtimeSec e) (Plan.MtimeNsec e) manifestDigest (wrap_u 32 (s_chunkSize s))));
  let off := wrap_i 64 (FileRequest.Offset req) in
  match (if 0 <? off then h_seek f off else None) with
  | Some err => refuse req E6004 true (errText err) false false
  | None =>
      match New (s_algo s) with
      | Err err => failS (EFault (Wrap E9002 "serve" abs err))
      | Ok h =>
          x ← streamLoop req off h 0 (h_reads f (if 0 <? off then off else 0));
          match x with
          | None => mret ()
          | Some (h, n) => streamEnd s req e h n
          end
      end
  end.

(** The body of [serve]; [ctxDone] is the context's error when the wait for the
    read semaphore is cancelled. *)
Definition serveBody (s : servicer) (ctxDone : option stdErr) (req : FileRequest.t) : M unit :=
  let fid := FileRequest.FileID req in
  match s_entries s !! Z.to_nat fid with
  | None =>
      _ ← dropErr (sendErr req E5007 false (bs "unknown file_id"));
      failS (fault E5007 "serve file request" (FormatUint fid 10) None)
  | Some e =>
      if negb (bool_decide (Typ e = TypeFile)) then refuse req E5007 false (bs "file_id is not a regular file") true true
      else
        match ctxDone with
        | Some err => failS (EStd err)
        | None =>
            let abs := Join2 (s_root s) (RelPath e) in
            match osOpen abs with
            | Err err =>
                let code := mapOpenErr err in
                let retry := bool_decide (code = E6004) in
                refuse req code retry (errText err) (negb retry) (negb retry)
            | Ok f =>
                match h_stat f with
                | Err err => refuse req E6004 true (errText err) false false
                | Ok fi =>
                    if negb (fi_regular fi) then refuse req E6003 false (bs "source is no longer a regular file") true true
                    else if negb (Plan.Ino e =? 0) && (negb (fi_dev fi =? Plan.Dev e) || negb (fi_ino fi =? Plan.Ino e)) then
                      refuse req E6003 false (bs "source file identity changed since scan") true true
                    else if negb (wrap_u 64 (fi_size fi) =? wrap_u 64 (Plan.Size e)) then
                      refuse req E6003 false (bs "source size changed since scan") true true
                    else stream s req e abs f
                end
            end
        end
  end.

(** The deferred [reqFailed] of an error return. *)
Definition serve (s : servicer) (ctxDone : option stdErr) (req : FileRequest.t) : M unit := λ w,
  match serveBody s ctxDone req w with
  | (Err e, w) => (Err e, mkSt (reqFailed (FileRequest.RequestID req) false false (tr w)) (sent w) (fates w) (FilesTransferred w) (BytesOut w))
  | r => r
  end.

(** One turn of [run]: what is received, whether the context is done then, and the
    context's error if it cancels the wait for the read semaphore. *)
Record turn := mkTurn { t_recv : result gerr Message; t_done : bool; t_sem : option stdErr }.
(** [None]: still running. *)
Fixpoint run (s : servicer) (turns : list turn) : M (option unit) :=
  match turns with
  | [] => mret None
  | t :: turns =>
      match t_recv t with
      | Err e => if isStd StdEOF e || t_done t then mret (Some ()) else failS e
      | Ok (MFileRequest req) =>
          _ ← onTracker (reqStarted (FileRequest.RequestID req) (FileRequest.FileID req));
          _ ← serve s (t_sem t) req;
          run s turns
      | Ok (MFileCancel c) => _ ← onTracker (reqCancelled (FileCancel.RequestID c)); run s turns
      | Ok m => failS (fault E5001 "serve" (bs (MsgTypeString (Type_ m))) None)
      end
  end.
End serve.

(** ** Lemmas *)

(** What a piece of the service did: the tracker calls and the messages sent;
    [calm] says that no send failed or will fail. *)
Definition calm (w : st) : Prop := Forall (λ f, f = None) (fates w).
Record did (w : st) (ops : list op) (out : list Message) (w' : st) : Prop := {
  did_tr : tr w' = exec ops (tr w);
  did_out : sent w' = sent w ++ out;
  did_calm : calm w → calm w';
}.

Lemma did_nil w : did w [] [] w.
Proof. split; [done|by rewrite app_nil_r|done]. Qed.
Lemma did_app w ops1 out1 w1 ops2 out2 w2 :
  did w ops1 out1 w1 → did w1 ops2 out2 w2 → did w (ops1 ++ ops2) (out1 ++ out2) w2.
Proof.
  intros [T1 O1 C1] [T2 O2 C2]. split; [|by rewrite O2, O1, app_assoc|auto].
  rewrite T2, T1. unfold exec. by rewrite foldl_app.
Qed.

Lemma SendMsg_did m w r w' : SendMsg m w = (r, w') →
  (r = Ok () ∧ did w [] [m] w') ∨ ((∃ e, r = Err e) ∧ did w [] [] w' ∧ ¬ calm w).
Proof.
  unfold SendMsg, calm. destruct (fates w) as [|[e|] fs] eqn:Ef; intros [= <- <-]; [left|right|left].
  - split; [done|]. split; cbn; try done. unfold calm. by rewrite Ef.
  - split; [by eexists|]. split; [|intros Hc; by apply Forall_cons in Hc as [? _]].
    split; cbn; [done|by rewrite app_nil_r|]. unfold calm. rewrite Ef. cbn. by intros [? ?]%Forall_cons.
  - split; [done|]. split; cbn; try done. unfold calm. rewrite Ef. cbn. by intros [? ?]%Forall_cons.
Qed.

Lemma onTracker_did o f w : (∀ t, f t = apply o t) → did w [o] [] (onTracker f w).2.
Proof. intros Hf. split; cbn; [by rewrite Hf|by rewrite app_nil_r|done]. Qed.

(** The FILE_ERROR of a refusal; its hint is "retry" exactly when the file is left
    unresolved. *)
Definition refusal (req : FileRequest.t) (resolve : bool) (w : st) (out : list Message) : Prop :=
  (out = [] ∧ ¬ calm w) ∨
  ∃ code msg, out = [MFileError (FileError.mk (FileRequest.RequestID req) code (if resolve then 0 else 1) msg)].

Lemma refuse_did req code retry msg resolve permanent w r w' :
  retry = negb resolve →
  refuse req code retry msg resolve permanent w = (r, w') →
  r = Ok () ∧ ∃ out, did w [OpFailed (FileRequest.RequestID req) resolve permanent] out w' ∧ refusal req resolve w out.
Proof.
  intros ->. unfold refuse, sendErr. intros [(e & E & _)|([] & w1 & E & E')]%SE_bind_inv; [done|].
  unfold dropErr in E. destruct (SendMsg _ w) as [r0 w0] eqn:Es. injection E as <-. cbn [snd] in *.
  assert (r = Ok () ∧ did w0 [OpFailed (FileRequest.RequestID req) resolve permanent] [] w') as [-> Hd].
  { injection E' as <- <-. split; [done|]. by apply (onTracker_did (OpFailed _ _ _)). }
  split; [done|]. apply SendMsg_did in Es as [(_ & H1)|(_ & H1 & Hc)]; eexists;
    (split; [exact (did_app _ _ _ _ _ _ _ H1 Hd)|]); [right|by left].
  eexists _, _. rewrite app_nil_r. by destruct resolve.
Qed.

(** The FILE_CHUNKs for the pieces [ds], from position [pos] on. *)
Fixpoint chunks (id pos : Z) (ds : list bytes) : list Message :=
  match ds with
  | [] => []
  | d :: ds => MFileChunk (FileChunk.mk id pos d) :: chunks id (wrap_u 64 (pos + Z.of_nat (length d))) ds
  end.
(** The bytes the reads deliver up to [io.EOF], and the error that ends them
    otherwise. *)
Fixpoint readAll (reads : list (bytes * option stdErr)) : bytes * option stdErr :=
  match reads with
  | [] => ([], None)
  | (p, Some StdEOF) :: _ => (p, None)
  | (p, Some e) :: _ => (p, Some e)
  | (p, None) :: reads => let '(b, e) := readAll reads in (p ++ b, e)
  end.

Lemma wrap_u_add w a b : 0 <= w → wrap_u w (wrap_u w a + b) = wrap_u w (a + b).
Proof. intros ?. unfold wrap_u. by rewrite Zplus_mod_idemp_l. Qed.

Lemma chunks_app id ds1 ds2 pos :
  chunks id (wrap_u 64 pos) (ds1 ++ ds2) =
  chunks id (wrap_u 64 pos) ds1 ++ chunks id (wrap_u 64 (pos + Z.of_nat (length (mjoin ds1)))) ds2.
Proof.
  revert pos. induction ds1 as [|d ds1 IH]; intros pos; cbn [chunks app].
  { cbn. by rewrite Z.add_0_r. }
  rewrite wrap_u_add, IH, mjoin_cons, length_app by lia.
  by replace (pos + Z.of_nat (length d + length (mjoin ds1))) with (pos + Z.of_nat (length d) + Z.of_nat (length (mjoin ds1))) by lia.
Qed.

Lemma not_calm w ops out w' : did w ops out w' → ¬ calm w' → ¬ calm w.
Proof. intros [_ _ H]. auto. Qed.

Lemma refusal_mono req resolve w ops out0 w' out : did w ops out0 w' → refusal req resolve w' out → refusal req resolve w out.
Proof. intros Hd [[? Hc]|?]; [left|by right]. split; [done|]. by eapply not_calm. Qed.

(** Peel the first step of a monadic run. *)
Ltac step E x w1 E1 := apply SE_bind_inv in E as [(? & E1 & ->)|(x & w1 & E1 & E)].

Lemma chunk_did req off h n p w r w' :
  0 <= n → n + Z.of_nat (length p) < 2 ^ 62 →
  (if bool_decide (p = []) then mret (h, n) else
     _ ← SendMsg (MFileChunk (FileChunk.mk (FileRequest.RequestID req) (wrap_u 64 (off + n)) p));
     _ ← onTracker bump;
     mret (hashWrite h p, wrap_u 64 (n + Z.of_nat (length p)))) w = (r, w') →
  ((∃ e, r = Err e) ∧ did w [] [] w' ∧ ¬ calm w) ∨
  ∃ ds, mjoin ds = p ∧ r = Ok (hashWrite h p, n + Z.of_nat (length p)) ∧
    did w (replicate (length ds) OpBump) (chunks (FileRequest.RequestID req) (wrap_u 64 (off + n)) ds) w'.
Proof.
  intros Hn Hb. destruct (bool_decide_reflect (p = [])) as [->|Hp].
  { intros [= <- <-]. right. exists []. cbn. unfold hashWrite. rewrite app_nil_r, Z.add_0_r.
    split_and!; [done|by destruct h|apply did_nil]. }
  intros E. step E u w1 E1.
  { apply SendMsg_did in E1 as [(? & _)|((e' & ?) & ? & ?)]; [done|]. left. split_and!; [by eexists|done|done]. }
  apply SendMsg_did in E1 as [(_ & Hd)|((? & ?) & _)]; [right|done].
  injection E as <- <-. exists [p]. rewrite mjoin_one. rewrite wrap_u_id by (unfold in_u; lia).
  split_and!; [done..|]. exact (did_app _ _ _ _ _ _ _ Hd (onTracker_did OpBump bump w1 (λ _, eq_refl))).
Qed.

Section serve_lemmas.
Context `{HashFns} (errText : stdErr → bytes) (osOpen : bytes → result stdErr handle).

Lemma streamLoop_did req off reads : ∀ h n w r w',
  streamLoop errText req off h n reads w = (r, w') → 0 <= n → n + Z.of_nat (length (readAll reads).1) < 2 ^ 62 →
  ∃ ds,
    let cs := chunks (FileRequest.RequestID req) (wrap_u 64 (off + n)) ds in
    let bumps := replicate (length ds) OpBump in
    match r with
    | Ok (Some (h', n')) =>
        did w bumps cs w' ∧ mjoin ds = (readAll reads).1 ∧ (readAll reads).2 = None ∧
        h' = hashWrite h (mjoin ds) ∧ n' = n + Z.of_nat (length (mjoin ds))
    | Ok None =>
        ∃ out, did w (bumps ++ [OpFailed (FileRequest.RequestID req) false false]) (cs ++ out) w' ∧ refusal req false w out
    | Err e => did w bumps cs w' ∧ ¬ calm w
    end.
Proof.
  induction reads as [|[p rerr] reads IH]; intros h n w r w'; cbn [streamLoop readAll].
  { intros [= <- <-] _ _. exists []. cbn. unfold hashWrite. rewrite app_nil_r, Z.add_0_r.
    split_and!; [apply did_nil|done|done|by destruct h|done]. }
  intros E Hn Hb.
  assert (Hbp : n + Z.of_nat (length p) < 2 ^ 62).
  { destruct rerr as [[]|]; cbn [fst] in Hb; try lia. destruct (readAll reads) as [b e]. cbn [fst] in Hb. rewrite length_app in Hb. lia. }
  step E x w1 E1; apply chunk_did in E1; try done.
  { destruct E1 as [(_ & Hd & Hc)|(ds & _ & ? & _)]; [|done]. by exists []. }
  destruct E1 as [((? & ?) & _)|(ds & Hp & [= ->] & Hd)]; [done|]. cbn [fst snd] in *.
  destruct rerr as [e|].
  - destruct (decide (e = StdEOF)) as [->|He].
    + injection E as <- <-. exists ds. rewrite Hp. done.
    + assert (E' : (_ ← refuse req E6004 true (errText e) false false; mret None) w1 = (r, w')) by by destruct e.
      clear E. step E' u w2 E2; (apply refuse_did in E2 as (Hr & out & Hd2 & Hout); [|done]); [done|].
      injection E' as <- <-. exists ds, out. split; [by eapply did_app|by eapply refusal_mono].
  - destruct (readAll reads) as [b e] eqn:Er. cbn [fst snd] in *. rewrite length_app in Hb.
    apply IH in E; [|lia|lia]. destruct E as (ds2 & E).
    assert (Hcs : chunks (FileRequest.RequestID req) (wrap_u 64 (off + n)) (ds ++ ds2) =
      chunks (FileRequest.RequestID req) (wrap_u 64 (off + n)) ds ++
      chunks (FileRequest.RequestID req) (wrap_u 64 (off + (n + Z.of_nat (length p)))) ds2).
    { rewrite chunks_app, Hp. by rewrite Z.add_assoc. }
    exists (ds ++ ds2). cbn zeta. rewrite Hcs, length_app, replicate_add, join_app, Hp.
    destruct r as [[[h' n']|]|e'].
    + destruct E as (Hd2 & Hj & He & Hh & Hn'). rewrite Hj in *. split_and!; [by eapply did_app|done|done| |].
      * rewrite Hh. unfold hashWrite. cbn. by rewrite app_assoc.
      * rewrite Hn', length_app. lia.
    + destruct E as (out & Hd2 & Hout). exists out. rewrite <- !app_assoc. split; [by eapply did_app|by eapply refusal_mono].
    + destruct E as (Hd2 & Hc). split; [by eapply did_app|by eapply not_calm].
Qed.

Definition isComplete (m : Message) : bool := match m with MFileComplete _ => true | _ => false end.
Definition isRefusal (m : Message) : bool := match m with MFileError _ => true | _ => false end.
(** Neither of the two messages that end a request. *)
Definition ongoing (out : list Message) : Prop := Forall (λ m, isComplete m = false ∧ isRefusal m = false) out.

(** What the peer has been sent of a request that ends in an error return: for an
    unknown file a FILE_ERROR without a retry hint, if the channel works; else no
    FILE_ERROR, a send having failed, or the wait for the read semaphore having been
    cancelled before anything was sent, or the hash algorithm being unknown. *)
Definition unanswered (s : servicer) (ctx : option stdErr) (req : FileRequest.t) (w : st) (r : result gerr unit) (out : list Message) : Prop :=
  match s_entries s !! Z.to_nat (FileRequest.FileID req) with
  | None =>
      (∃ e, r = Err e ∧ GetCode e = E5007) ∧
      (out = [] ∧ ¬ calm w ∨ ∃ msg, out = [MFileError (FileError.mk (FileRequest.RequestID req) (codeNum E5007) 0 msg)])
  | Some _ => ongoing out ∧
      (¬ calm w ∨ (∃ e, ctx = Some e ∧ r = Err (EStd e) ∧ out = []) ∨ ∃ e, New (s_algo s) = Err e)
  end.

(** How a request ends: the last tracker call [o], after one [bump] per piece of
    [ds], and the messages [out] sent for it. *)
Definition outcome (s : servicer) (ctx : option stdErr) (req : FileRequest.t) (w : st) (r : result gerr unit) (o : op) (ds : list bytes) (out : list Message) : Prop :=
  match o with
  | OpCompleted rid fid n =>
      rid = FileRequest.RequestID req ∧ fid = FileRequest.FileID req ∧ r = Ok () ∧
      ∃ e f hdr,
        s_entries s !! Z.to_nat fid = Some e ∧ Typ e = TypeFile ∧ osOpen (Join2 (s_root s) (RelPath e)) = Ok f ∧
        readAll (h_reads f (FileRequest.Offset req)) = (mjoin ds, None) ∧
        n = Z.of_nat (length (mjoin ds)) ∧ FileRequest.Offset req + n = Plan.Size e ∧
        FileHeader.RequestID hdr = rid ∧ FileHeader.FileID hdr = fid ∧ FileHeader.Size hdr = Plan.Size e ∧
        FileHeader.Digest hdr = (digestStore.get fid (s_digests s)).1 ∧
        (FileRequest.Offset req = 0 → FileHeader.Digest hdr ≠ [] → hashOf (s_algo s) (mjoin ds) = FileHeader.Digest hdr) ∧
        out = MFileHeader hdr :: chunks rid (FileRequest.Offset req) ds ++
                [MFileComplete (FileComplete.mk rid n (hashOf (s_algo s) (mjoin ds)))]
  | OpFailed rid resolve permanent =>
      rid = FileRequest.RequestID req ∧ permanent = resolve ∧ Forall (λ m, isComplete m = false) out ∧
      match r with
      | Err _ => resolve = false ∧ unanswered s ctx req w r out
      | Ok _ => ∃ pre rest, out = pre ++ rest ∧ ongoing pre ∧ refusal req resolve w rest
      end
  | _ => False
  end.

Lemma chunks_incomplete id ds : ∀ pos, Forall (λ m, isComplete m = false) (chunks id pos ds).
Proof. induction ds; intros pos; cbn [chunks]; by repeat constructor. Qed.
Lemma ongoing_stream id hdr pos ds : ongoing (MFileHeader hdr :: chunks id pos ds).
Proof. apply Forall_cons. split; [done|]. revert pos. induction ds; intros pos; cbn [chunks]; by repeat constructor. Qed.
Lemma ongoing_incomplete out : ongoing out → Forall (λ m, isComplete m = false) out.
Proof. intros H'. eapply Forall_impl; [exact H'|]. by intros m []. Qed.
Lemma refusal_incomplete req resolve w out : refusal req resolve w out → Forall (λ m, isComplete m = false) out.
Proof. intros [[-> _]|(? & ? & ->)]; by repeat constructor. Qed.

(** A refusal as an outcome, [pre] having been sent before. *)
Lemma refuse_outcome s ctx req code retry msg resolve w ops pre w0 ds r w' :
  retry = negb resolve → did w ops pre w0 → ops = replicate (length ds) OpBump → ongoing pre →
  refuse req code retry msg resolve resolve w0 = (r, w') →
  ∃ o out, did w (replicate (length ds) OpBump ++ [o]) out w' ∧ outcome s ctx req w r o ds out ∧ r = Ok ().
Proof.
  intros Hr Hd -> Hp E. apply refuse_did in E as (-> & out & Hd2 & Hout); [|done].
  pose proof (refusal_incomplete _ _ _ _ Hout). pose proof (refusal_mono _ _ _ _ _ _ _ Hd Hout) as Hout2.
  eexists (OpFailed _ resolve resolve), (pre ++ out). split; [exact (did_app _ _ _ _ _ _ _ Hd Hd2)|].
  split; [|done]. split_and!; [done|done|by apply Forall_app; split; [apply ongoing_incomplete|]|by exists pre, out].
Qed.

(** An error return, before the deferred [reqFailed]. *)
Definition aborted (s : servicer) (ctx : option stdErr) (req : FileRequest.t) (w : st) (r : result gerr unit) (w' : st) : Prop :=
  (∃ e, r = Err e) ∧ ∃ (ds : list bytes) pre, did w (replicate (length ds) OpBump) pre w' ∧
    Forall (λ m, isComplete m = false) pre ∧ unanswered s ctx req w r pre.
(** ... of a file that is known. *)
Lemma aborted_known s ctx req e w r w' (ds : list bytes) pre : s_entries s !! Z.to_nat (FileRequest.FileID req) = Some e →
  (∃ e, r = Err e) → did w (replicate (length ds) OpBump) pre w' → ongoing pre →
  (¬ calm w ∨ (∃ e, ctx = Some e ∧ r = Err (EStd e) ∧ pre = []) ∨ ∃ e, New (s_algo s) = Err e) → aborted s ctx req w r w'.
Proof.
  intros He Hr Hd Hp Hw. split; [done|]. exists ds, pre. split_and!; [done|by apply ongoing_incomplete|].
  unfold unanswered. by rewrite He.
Qed.

Lemma New_empty a h : New a = Ok h → h = mkHash a [].
Proof.
  unfold New. destruct (Z.eqb_spec a MD5) as [->|]; [by intros [= <-]|].
  destruct (Z.eqb_spec a SHA256) as [->|]; [by intros [= <-]|done].
Qed.

(** The end of a stream, the header and the chunks [ds] having been sent. *)
Lemma streamEnd_outcome s ctx req e f hdr ds w w2 r w' :
  let id := FileRequest.RequestID req in let fid := FileRequest.FileID req in let off := FileRequest.Offset req in
  let pre := MFileHeader hdr :: chunks id off ds in
  0 <= off < 2 ^ 62 → in_u 62 (Plan.Size e) → Z.of_nat (length (mjoin ds)) < 2 ^ 62 →
  s_entries s !! Z.to_nat fid = Some e → Typ e = TypeFile → osOpen (Join2 (s_root s) (RelPath e)) = Ok f →
  readAll (h_reads f off) = (mjoin ds, None) →
  FileHeader.RequestID hdr = id → FileHeader.FileID hdr = fid → FileHeader.Size hdr = Plan.Size e →
  FileHeader.Digest hdr = (digestStore.get fid (s_digests s)).1 →
  did w (replicate (length ds) OpBump) pre w2 →
  streamEnd s req e (hashWrite (mkHash (s_algo s) []) (mjoin ds)) (Z.of_nat (length (mjoin ds))) w2 = (r, w') →
  aborted s ctx req w r w' ∨
  ∃ ds o out, did w (replicate (length ds) OpBump ++ [o]) out w' ∧ outcome s ctx req w r o ds out ∧ r = Ok ().
Proof.
  intros id fid off pre Ho Hsz Hlen He Ht Hf Hread Hh1 Hh2 Hh3 Hh4 Hd. unfold streamEnd.
  fold id fid off. rewrite (wrap_i_id 64 off) by (unfold in_i; lia).
  rewrite (wrap_i_id 64 (Z.of_nat (length (mjoin ds)))), (wrap_i_id 64 (off + _)) by (unfold in_i; lia). intros E.
  assert (Hpre : ongoing pre) by apply ongoing_stream.
  destruct (Z.eqb_spec (off + Z.of_nat (length (mjoin ds))) (Plan.Size e)) as [Hsize|]; cbn [negb] in E.
  2:{ right. eapply refuse_outcome in E as (o & out & ? & ? & ?); [by exists ds, o, out|done..]. }
  change (Sum _) with (hashOf (s_algo s) (mjoin ds)) in E. destruct ((off =? 0) && _ && _) eqn:Edg.
  { right. eapply refuse_outcome in E as (o & out & ? & ? & ?); [by exists ds, o, out|done..]. }
  step E u2 w3 E3.
  { apply SendMsg_did in E3 as [(? & _)|((e' & [= ->]) & Hd3 & Hnc)]; [done|]. left.
    apply (aborted_known _ _ _ e _ _ _ ds pre); [done|by eexists| |done|left; by eapply not_calm].
    pose proof (did_app _ _ _ _ _ _ _ Hd Hd3) as Hd4. by rewrite !app_nil_r in Hd4. }
  apply SendMsg_did in E3 as [(_ & Hd3)|((? & ?) & _)]; [|done]. right.
  exists ds, (OpCompleted id fid (Z.of_nat (length (mjoin ds)))). eexists. split.
  { pose proof (did_app _ _ _ _ _ _ _ (did_app _ _ _ _ _ _ _ Hd Hd3)
      (onTracker_did (OpCompleted id fid (Z.of_nat (length (mjoin ds)))) _ w3 (λ _, eq_refl))) as Hd5.
    rewrite !app_nil_r in Hd5. injection E as _ <-. destruct Hd5 as [T O C]. split; [exact T|exact O|exact C]. }
  assert (r = Ok ()) as -> by by injection E as <- _.
  split; [|done]. split_and!; [done|done|done|]. exists e, f, hdr. fold off id. split_and!; try done.
  intros H0 Hne. rewrite H0 in Edg. cbn [Z.eqb andb] in Edg. rewrite Hh4 in *.
  rewrite bool_decide_true in Edg by exact Hne. cbn [andb] in Edg.
  apply bool_decide_eq_false in Edg. by apply dec_stable in Edg.
Qed.

Lemma stream_outcome s ctx req e f w r w' :
  0 <= FileRequest.Offset req < 2 ^ 62 → in_u 62 (Plan.Size e) →
  Z.of_nat (length (readAll (h_reads f (FileRequest.Offset req))).1) < 2 ^ 62 →
  s_entries s !! Z.to_nat (FileRequest.FileID req) = Some e → Typ e = TypeFile →
  osOpen (Join2 (s_root s) (RelPath e)) = Ok f →
  stream errText s req e (Join2 (s_root s) (RelPath e)) f w = (r, w') →
  aborted s ctx req w r w' ∨
  ∃ ds o out, did w (replicate (length ds) OpBump ++ [o]) out w' ∧ outcome s ctx req w r o ds out ∧ r = Ok ().
Proof.
  intros Ho Hsz Hlen He Ht Hf. unfold stream. rewrite (wrap_i_id 64 (FileRequest.Offset req)) by (try lia; unfold in_i; lia).
  set (id := FileRequest.RequestID req). set (off := FileRequest.Offset req) in *.
  assert (Hpos : (if 0 <? off then off else 0) = off).
  { destruct (Z.ltb_spec 0 off); unfold off in *; lia. }
  rewrite Hpos. intros E. set (hdr := FileHeader.mk _ _ _ _ _ _ _ _) in E. step E u w1 E1.
  { apply SendMsg_did in E1 as [(? & _)|((e' & [= ->]) & Hd & Hnc)]; [done|]. left.
    apply (aborted_known _ _ _ e _ _ _ [] []); [done|by eexists|done|constructor|by left]. }
  apply SendMsg_did in E1 as [(_ & Hd1)|((? & ?) & _)]; [|done].
  assert (Hhdr : ongoing [MFileHeader hdr]) by by repeat constructor.
  destruct (if 0 <? off then h_seek f off else None) as [err|].
  { right. apply (refuse_outcome s ctx req _ _ _ _ w [] [MFileHeader hdr] w1 []) in E as (o & out & ? & ? & ?); [by exists [], o, out|done..]. }
  destruct (New (s_algo s)) as [h|err] eqn:EN.
  2:{ injection E as <- <-. left. apply (aborted_known _ _ _ e _ _ _ [] [MFileHeader hdr]); [done|by eexists|done|done|right; right; by eexists]. }
  apply New_empty in EN as ->.
  step E x w2 E2; apply streamLoop_did in E2 as (ds & E2); try lia; cbn zeta in E2.
  { left. destruct E2 as [Hd2 Hc]. eapply (aborted_known _ _ _ e _ _ _ ds); [done|by eexists|exact (did_app _ _ _ _ _ _ _ Hd1 Hd2)| |].
    - apply ongoing_stream.
    - left. by eapply not_calm. }
  assert (Hwoff : wrap_u 64 (off + 0) = off) by (rewrite Z.add_0_r; apply wrap_u_id; unfold in_u, off in *; lia).
  fold id in E2. rewrite Hwoff in E2.
  destruct x as [[h' n]|].
  2:{ right. destruct E2 as (out & Hd2 & Hout). injection E as <- <-.
      exists ds. eexists (OpFailed id false false), _. split; [exact (did_app _ _ _ _ _ _ _ Hd1 Hd2)|].
      split; [split_and!; [done|done| |]|done].
      - rewrite app_assoc. apply Forall_app. split; [|by eapply refusal_incomplete].
        apply Forall_cons. split; [done|apply chunks_incomplete].
      - exists ([MFileHeader hdr] ++ chunks id off ds), out. rewrite <- app_assoc. split; [done|]. split; [apply ongoing_stream|by eapply refusal_mono]. }
  destruct E2 as (Hd2 & Hj & Hend & -> & ->). rewrite Z.add_0_l in *.
  eapply (streamEnd_outcome s ctx req e f hdr ds w w2); try done; fold off id.
  - by rewrite Hj.
  - rewrite Hj. destruct (readAll _) as [b er]. cbn [fst snd] in *. by subst er.
  - cbn. apply wrap_u_id. unfold in_u in *. lia.
  - exact (did_app _ _ _ _ _ _ _ Hd1 Hd2).
Qed.
End serve_lemmas.

(** ** Properties *)
Lemma exec_bumps k t :
  inflight (exec (replicate k OpBump) t) = inflight t ∧ reqToFile (exec (replicate k OpBump) t) = reqToFile t.
Proof. revert t. induction k as [|k IH]; intros t; [done|]. exact (IH (bump t)). Qed.

Section serve_theorems.
Context `{HashFns} (errText : stdErr → bytes) (osOpen : bytes → result stdErr handle).

(** The sizes of the model's files: below 2^62. *)
Record sized (s : servicer) (req : FileRequest.t) : Prop := {
  sz_off : 0 <= FileRequest.Offset req < 2 ^ 62;
  sz_entries : Forall (λ e, in_u 62 (Plan.Size e)) (s_entries s);
  sz_reads : ∀ path f, osOpen path = Ok f → Z.of_nat (length (readAll (h_reads f (FileRequest.Offset req))).1) < 2 ^ 62;
}.

Lemma serve_did s ctx req w r w' :
  sized s req → serve errText osOpen s ctx req w = (r, w') →
  ∃ ds o out, did w (replicate (length ds) OpBump ++ [o]) out w' ∧ outcome osOpen s ctx req w r o ds out.
Proof.
  intros [Ho Hsz Hlen] E.
  unfold serve in E. destruct (serveBody errText osOpen s ctx req w) as [r0 w0] eqn:EB.
  assert (Hab : aborted s ctx req w r0 w0 → ∃ ds o out, did w (replicate (length ds) OpBump ++ [o]) out w' ∧ outcome osOpen s ctx req w r o ds out).
  { intros ((e & ->) & ds & pre & [T O C] & Hp & Hu). injection E as <- <-.
    exists ds, (OpFailed (FileRequest.RequestID req) false false), pre. split.
    - split; [|exact O|exact C]. cbn. rewrite T. unfold exec. by rewrite foldl_app.
    - split_and!; done. }
  assert (Hok : (∃ ds o out, did w (replicate (length ds) OpBump ++ [o]) out w0 ∧ outcome osOpen s ctx req w r0 o ds out ∧ r0 = Ok ()) →
    ∃ ds o out, did w (replicate (length ds) OpBump ++ [o]) out w' ∧ outcome osOpen s ctx req w r o ds out).
  { intros (ds & o & out & Hd & Hout & ->). injection E as <- <-. by exists ds, o, out. }
  assert (Href : ∀ code retry msg resolve, retry = negb resolve → refuse req code retry msg resolve resolve w = (r0, w0) →
    ∃ ds o out, did w (replicate (length ds) OpBump ++ [o]) out w' ∧ outcome osOpen s ctx req w r o ds out).
  { intros code retry msg resolve Hr ER. apply Hok. exists [].
    eapply (refuse_outcome osOpen s ctx req code retry msg resolve w [] [] w []); [done|apply did_nil|done|by constructor|exact ER]. }
  unfold serveBody in EB. destruct (s_entries s !! Z.to_nat (FileRequest.FileID req)) as [e|] eqn:He.
  2:{ apply Hab. step EB u w1 E1; [done|]. injection EB as <- <-. split; [by eexists|]. exists [].
      unfold dropErr in E1. destruct (sendErr _ _ _ _ w) as [r1 w1'] eqn:Es. cbn [snd] in E1. assert (w1' = w1) as -> by congruence.
      assert (Hun : ∀ pre, (pre = [] ∧ ¬ calm w ∨ ∃ msg, pre = [MFileError (FileError.mk (FileRequest.RequestID req) (codeNum E5007) 0 msg)]) →
        unanswered s ctx req w (Err (fault E5007 "serve file request" (FormatUint (FileRequest.FileID req) 10) None)) pre).
      { intros pre Hpre. unfold unanswered. rewrite He. split; [|done]. eexists. split; [done|apply GetCode_fault]. }
      apply SendMsg_did in Es as [(_ & Hd)|(_ & Hd & Hnc)]; eexists; (split; [exact Hd|]); (split; [by repeat constructor|]); apply Hun; [right; by eexists|by left]. }
  destruct (bool_decide_reflect (Typ e = TypeFile)) as [Ht|]; cbn [negb] in EB; [|exact (Href _ _ _ _ eq_refl EB)].
  destruct ctx as [err|].
  { apply Hab. injection EB as <- <-. apply (aborted_known _ _ _ e _ _ _ [] []); [done|by eexists|apply did_nil|constructor|].
    right; left. by eexists. }
  destruct (osOpen _) as [f|err] eqn:Hopen.
  2:{ eapply Href; [|exact EB]. by rewrite negb_involutive. }
  destruct (h_stat f) as [fi|err]; [|exact (Href _ _ _ _ eq_refl EB)].
  destruct (negb (fi_regular fi)); [exact (Href _ _ _ _ eq_refl EB)|].
  destruct (negb (Plan.Ino e =? 0) && _); [exact (Href _ _ _ _ eq_refl EB)|].
  destruct (negb (wrap_u 64 (fi_size fi) =? _)); [exact (Href _ _ _ _ eq_refl EB)|].
  apply (stream_outcome errText osOpen s None) in EB as [EB|EB]; [by apply Hab|by apply Hok|done| |by eapply Hlen|done..].
  eapply Forall_lookup_1 in Hsz; [exact Hsz|exact He].
Qed.

(** The last call of a request gives its in-flight slot back. *)
Lemma outcome_releases s ctx req w r o ds out k t :
  outcome osOpen s ctx req w r o ds out → is_Some (reqToFile t !! FileRequest.RequestID req) →
  let t' := exec (replicate k OpBump ++ [o]) t in
  inflight t' = inflight t - 1 ∧ reqToFile t' = delete (FileRequest.RequestID req) (reqToFile t).
Proof.
  intros Hout [fid Hfid]. cbv zeta. unfold exec. rewrite foldl_app. cbn [foldl]. fold (exec (replicate k OpBump) t).
  destruct (exec_bumps k t) as [Hi Hr]. set (t1 := exec _ t) in *.
  destruct o as [| |rid fid' n|rid resolve permanent| |]; try done; destruct Hout as (-> & _); cbn [apply].
  - unfold reqCompleted, finishLocked. rewrite Hr, Hfid. destruct (bool_decide _); cbn; by rewrite ?Hi, ?Hr.
  - unfold reqFailed, finishLocked. rewrite Hr, Hfid. destruct permanent; cbn; by rewrite ?Hi, ?Hr.
Qed.

(** A servicer that starts with nothing in flight ends, whatever it receives and
    however it stops, with nothing in flight. *)
Lemma run_idle s turns : ∀ w r w',
  (∀ t req, t ∈ turns → t_recv t = Ok (MFileRequest req) → sized s req) →
  inflight (tr w) = 0 → reqToFile (tr w) = ∅ →
  run errText osOpen s turns w = (r, w') → inflight (tr w') = 0 ∧ reqToFile (tr w') = ∅.
Proof.
  induction turns as [|t turns IH]; intros w r w' Hsz Hi Hr; cbn [run]; [by intros [= _ <-]|].
  assert (Hsz' : ∀ t' req, t' ∈ turns → t_recv t' = Ok (MFileRequest req) → sized s req).
  { intros t' req Ht. apply Hsz. by apply elem_of_cons; right. }
  destruct (t_recv t) as [m|e] eqn:Et.
  2:{ destruct (isStd StdEOF e || t_done t); by intros [= _ <-]. }
  destruct m as [| | | | | | |req| | | |c| | | | | | |]; try (by intros [= _ <-]).
  - intros E. step E u w1 E1; [done|]. injection E1 as _ <-.
    set (w1 := mkSt _ _ _ _ _) in E. destruct (serve errText osOpen s (t_sem t) req w1) as [r2 w2] eqn:E2.
    assert (Hw2 : inflight (tr w2) = 0 ∧ reqToFile (tr w2) = ∅).
    { pose proof (serve_did s (t_sem t) req w1 r2 w2 (Hsz t req (list_elem_of_here _ _) Et) E2) as (ds & o & out & Hd & Ho).
      destruct (outcome_releases s (t_sem t) req w1 r2 o ds out (length ds) (tr w1) Ho) as [Hi2 Hr2].
      { cbn. rewrite lookup_insert_eq. by eexists. }
      rewrite (did_tr _ _ _ _ Hd), Hi2, Hr2. cbn. rewrite Hi, Hr. split; [lia|by rewrite delete_insert_eq, delete_empty]. }
    destruct Hw2 as [Hi2 Hr2]. step E u2 w3 E3; rewrite E2 in E3; [by injection E3 as _ <-|].
    assert (w3 = w2) as -> by congruence. by eapply IH.
  - intros E. step E u w1 E1; [done|]. injection E1 as _ <-. eapply IH; [exact Hsz'| | |exact E].
    + cbn. unfold finishLocked. rewrite Hr, lookup_empty. cbn. exact Hi.
    + cbn. unfold finishLocked. rewrite Hr, lookup_empty. cbn. exact Hr.
Qed.

(** C22: a request ends in exactly one of two ways, whatever the file system, the
    file and the channel do, for offsets and sizes below 2^62.  Either it is
    completed: the file was sent as one FILE_HEADER, contiguous chunks from the
    requested offset whose bytes are exactly what was read up to the end of the
    file, and one FILE_COMPLETE with the digest of those bytes, and they reach the
    declared size (and, from offset 0, hash to the manifest digest).  Or it is
    failed and no FILE_COMPLETE is sent: on a normal return the last message is the
    one FILE_ERROR of the request, unless a send fails, and it hints at a retry
    exactly when the file is left unresolved.  An error return never resolves the
    file; it comes with an unknown file_id, for which a FILE_ERROR E5007 without a
    retry hint is sent if the channel works, or else without any FILE_ERROR, because
    a send failed, the wait for the read semaphore was cancelled (then nothing is
    sent) or the hash algorithm is unknown.  All of them release the request's
    in-flight slot once. *)
Theorem serve_outcomes s ctx req w r w' :
  sized s req → serve errText osOpen s ctx req w = (r, w') →
  ∃ ds o out,
    tr w' = exec (replicate (length ds) OpBump ++ [o]) (tr w) ∧ sent w' = sent w ++ out ∧
    outcome osOpen s ctx req w r o ds out ∧
    (is_Some (reqToFile (tr w) !! FileRequest.RequestID req) →
       inflight (tr w') = inflight (tr w) - 1 ∧
       reqToFile (tr w') = delete (FileRequest.RequestID req) (reqToFile (tr w))).
Proof.
  intros Hsz E. destruct (serve_did s ctx req w r w' Hsz E) as (ds & o & out & [T O _] & Hout).
  exists ds, o, out. split_and!; [done..|]. rewrite T. by apply (outcome_releases s ctx req w r o ds out).
Qed.
End serve_theorems.

(** *** Witness: a two-chunk file with its manifest digest *)
#[local] Existing Instance toy_hash.
Definition ex_handle : handle :=
  mkHandle (Ok (mkFinfo true 1 9 5)) (λ _, None) (λ _, [(bs "abc", None); (bs "de", None)]).
Definition ex_open (path : bytes) : result stdErr handle :=
  if bool_decide (path = bs "/src/a") then Ok ex_handle else Err StdNotExist.
Definition ex_servicer : servicer :=
  mkServicer [mkEntry (bs "a") TypeFile 0 5 420 0 0 1 9 [] 0] (bs "/src") MD5 3
    (digestStore.set 0 (hashOf MD5 (bs "abcde")) digestStore.new).
Definition ex_req : FileRequest.t := FileRequest.mk 7 0 0 1000.
Definition ex_st : st := mkSt (reqStarted 7 0 (newTracker [0])) [] [] 0 0.
Definition ex_served : result gerr unit * st := serve (λ _, []) ex_open ex_servicer None ex_req ex_st.

Lemma serve_outcomes_witness :
  ex_served.1 = Ok () ∧ length (sent ex_served.2) = 4%nat ∧ inflight (tr ex_served.2) = 0 ∧
  ∃ ds o out, sent ex_served.2 = out ∧ outcome ex_open ex_servicer None ex_req ex_st ex_served.1 o ds out.
Proof.
  split; [vm_compute; reflexivity|]. split; [vm_compute; reflexivity|]. split; [vm_compute; reflexivity|].
  destruct (serve_outcomes (λ _, []) ex_open ex_servicer None ex_req ex_st ex_served.1 ex_served.2)
    as (ds & o & out & _ & Hs & Ho & _); [split|..].
  - vm_compute. split; discriminate || reflexivity.
  - repeat constructor; vm_compute; discriminate || reflexivity.
  - intros path f. unfold ex_open. destruct (bool_decide _); [|discriminate]. intros [= <-]. vm_compute. reflexivity.
  - unfold ex_served. by destruct (serve _ _ _ _ _ _).
  - exists ds, o, out. split; [exact Hs|exact Ho].
Defined.
