(* ===== verification/Servicers.v ===== *)
(** * Servicers: the sender's data channels together (src/internal/sender/run.go)

    [Run] starts one servicer per data channel and, from its join loop, one more
    for every CHANNEL_JOIN accepted later.  They share the tracker and the
    semaphore of the readers.  A servicer is the list of tracker calls its [run]
    makes ([run_script]: what [Serve.run] does has the shape [script]) and the
    result it returns; an execution interleaves those calls, the waits for the
    semaphore and the ends of the servicers. *)
From S2P Require Import Prelude Fault Strconv Codec Wire Digest Plan Tracker Serve.

(** ** What one servicer does to the tracker *)

(** The request in service before and after a call; [None]: the servicer does not
    make this call there. *)
Definition follows (ph : option Z) (o : op) : option (option Z) :=
  match ph, o with
  | None, OpStarted r _ => Some (Some r)
  | None, OpCancelled _ => Some None
  | Some r, OpBump => Some (Some r)
  | Some r, OpCompleted r' _ _ => if r' =? r then Some None else None
  | Some r, OpFailed r' _ _ => if r' =? r then Some None else None
  | _, _ => None
  end.
(** The calls that are left, down to the return of [run]. *)
Fixpoint script (ph : option Z) (ops : list op) : bool :=
  match ops with
  | [] => bool_decide (ph = None)
  | o :: ops => match follows ph o with Some ph => script ph ops | None => false end
  end.
(** Only a servicer that holds a slot of the semaphore reads its file. *)
Definition needsSlot (o : op) : bool := match o with OpBump | OpCompleted _ _ _ => true | _ => false end.
Definition started (ops : list op) : list Z := omap (λ o, match o with OpStarted r _ => Some r | _ => None end) ops.

(** ** The servicers of a session *)
Record chan := mkChan {
  c_phase : option Z;          (** the request in service *)
  c_holds : bool;              (** it holds a slot of [readSem] *)
  c_rest : list op;            (** the tracker calls to come *)
  c_result : result gerr unit; (** what [run] will return *)
  c_live : bool;               (** its goroutine has not ended *)
}.
Record pool := mkPool {
  p_tr : tracker; chans : list chan; readSem : Z; activeChannels : Z;
  rootDone : bool; fatalErr : option gerr;
}.
Definition newPool (firsts : list Z) : pool := mkPool (newTracker firsts) [] 0 0 false None.

(** [startServicer] *)
Definition startServicer (ops : list op) (r : result gerr unit) (p : pool) : pool :=
  mkPool (p_tr p) (chans p ++ [mkChan None false ops r true]) (readSem p) (activeChannels p + 1) (rootDone p) (fatalErr p).

(** The end of its goroutine: a raw transport error is a lost channel, which the
    receiver replaces; an error with a code ends the session. *)
Definition servicerEnded (r : result gerr unit) (p : pool) : pool :=
  match r with
  | Ok _ => p
  | Err e =>
      if rootDone p then p
      else if bool_decide (GetCode e = []) then p
      else
        let f := match fatalErr p with Some f => f | None => EFault (Wrap E3005 "data channel" [] e) end in
        mkPool (p_tr p) (chans p) (readSem p) (activeChannels p) true (Some f)
  end.

(** What happens next: a join is accepted, servicer [i] gets a slot, makes its next
    tracker call or ends, the control reader passes a decision on, or the root
    context is cancelled. *)
Inductive action :=
| AStart (ops : list op) (r : result gerr unit) | AAcquire (i : nat) | ACall (i : nat) | AEnd (i : nat)
| ADecision (v : GroupDecision.t) | ACancel.

Definition setChan (i : nat) (c : chan) (p : pool) : pool :=
  mkPool (p_tr p) (<[i := c]> (chans p)) (readSem p) (activeChannels p) (rootDone p) (fatalErr p).
Definition onTr (f : tracker → tracker) (p : pool) : pool :=
  mkPool (f (p_tr p)) (chans p) (readSem p) (activeChannels p) (rootDone p) (fatalErr p).
Definition addSem (d : Z) (p : pool) : pool :=
  mkPool (p_tr p) (chans p) (readSem p + d) (activeChannels p) (rootDone p) (fatalErr p).

(** [None]: the action is not possible now.  The slot is given back with the last
    call of a request. *)
Definition act (cap : Z) (a : action) (p : pool) : option pool :=
  match a with
  | AStart ops r => Some (startServicer ops r p)
  | AAcquire i =>
      match chans p !! i with
      | Some (mkChan (Some r) false ops res true) =>
          if readSem p <? cap then Some (addSem 1 (setChan i (mkChan (Some r) true ops res true) p)) else None
      | _ => None
      end
  | ACall i =>
      match chans p !! i with
      | Some (mkChan ph h (o :: ops) res true) =>
          match follows ph o with
          | Some ph' =>
              if needsSlot o && negb h then None
              else
                let h' := h && bool_decide (is_Some ph') in
                Some (onTr (apply o) (addSem (if h && negb h' then -1 else 0) (setChan i (mkChan ph' h' ops res true) p)))
          | None => None
          end
      | _ => None
      end
  | AEnd i =>
      match chans p !! i with
      | Some (mkChan None h [] res true) =>
          let p := setChan i (mkChan None h [] res false) p in
          Some (servicerEnded res (mkPool (p_tr p) (chans p) (readSem p) (activeChannels p - 1) (rootDone p) (fatalErr p)))
      | _ => None
      end
  | ADecision v => Some (onTr (λ t, (decision v t).2) p)
  | ACancel => Some (mkPool (p_tr p) (chans p) (readSem p) (activeChannels p) true (fatalErr p))
  end.
Fixpoint acts (cap : Z) (l : list action) (p : pool) : option pool :=
  match l with [] => Some p | a :: l => match act cap a p with Some p => acts cap l p | None => None end end.

(** ** The join loop

    [join.accept] reads the CHANNEL_JOIN of one connection after the other, and
    sets no deadline on them: [Arrives None] is a peer that says nothing. *)
Inductive arrival := LstClosed | Arrives (r : option (result gerr Z)).
(** The channel ids joined, and whether the loop still accepts. *)
Fixpoint joinLoop (l : list arrival) : list Z * bool :=
  match l with
  | [] => ([], true)
  | LstClosed :: _ => ([], false)
  | Arrives None :: _ => ([], false)
  | Arrives (Some (Err _)) :: l => joinLoop l
  | Arrives (Some (Ok id)) :: l => let '(ids, b) := joinLoop l in (id :: ids, b)
  end.

Lemma exec_app ops1 ops2 t : exec (ops1 ++ ops2) t = exec ops2 (exec ops1 t).
Proof. apply foldl_app. Qed.

(** ** A servicer's [run] follows a script *)
Section scripts.
Context `{HashFns} (errText : stdErr → bytes) (osOpen : bytes → result stdErr handle).

Lemma script_app ops1 ops2 : ∀ ph, script ph ops1 = true → script None ops2 = true → script ph (ops1 ++ ops2) = true.
Proof.
  induction ops1 as [|o ops1 IH]; intros ph; cbn [script app].
  { by intros ->%bool_decide_eq_true. }
  destruct (follows ph o); [apply IH|done].
Qed.

(** One request: its start, the pieces sent, and how it ends. *)
Lemma request_script s ctx req w r o ds out :
  outcome osOpen s ctx req w r o ds out →
  script None (OpStarted (FileRequest.RequestID req) (FileRequest.FileID req) :: replicate (length ds) OpBump ++ [o]) = true.
Proof.
  intros Ho. cbn [script follows].
  assert (Hlast : script (Some (FileRequest.RequestID req)) [o] = true).
  { destruct o; try done; destruct Ho as (-> & _); cbn; by rewrite Z.eqb_refl. }
  clear Ho. induction ds as [|d ds IH]; [done|exact IH].
Qed.

Lemma run_script s turns : ∀ w r w',
  (∀ t req, t ∈ turns → t_recv t = Ok (MFileRequest req) → sized osOpen s req) →
  run errText osOpen s turns w = (r, w') →
  ∃ ops, tr w' = exec ops (tr w) ∧ script None ops = true.
Proof.
  induction turns as [|t turns IH]; intros w r w' Hsz; cbn [run]; [by intros [= _ <-]; exists []|].
  assert (Hsz' : ∀ t' req, t' ∈ turns → t_recv t' = Ok (MFileRequest req) → sized osOpen s req).
  { intros t' req Ht. apply Hsz. by apply elem_of_cons; right. }
  destruct (t_recv t) as [m|e] eqn:Et.
  2:{ destruct (isStd StdEOF e || t_done t); intros [= _ <-]; by exists []. }
  destruct m as [| | | | | | |req| | | | |c| | | | | |]; try (by intros [= _ <-]; exists []).
  - intros E. step E u w1 E1; [done|]. injection E1 as _ <-. set (w1 := mkSt _ _ _ _ _) in E.
    destruct (serve errText osOpen s (t_sem t) req w1) as [r2 w2] eqn:E2.
    pose proof (serve_did _ _ s (t_sem t) req w1 r2 w2 (Hsz t req (list_elem_of_here _ _) Et) E2) as (ds & o & out & Hd & Ho).
    apply request_script in Ho. pose proof (did_tr _ _ _ _ Hd) as Ht.
    step E u2 w3 E3; rewrite E2 in E3; [injection E3 as _ <-|assert (w3 = w2) as -> by congruence].
    + eexists. split; [|exact Ho]. exact Ht.
    + apply IH in E as (ops & E & Hs); [|done]. eexists. split; [|exact (script_app _ _ _ Ho Hs)].
      rewrite E, Ht. symmetry. exact (exec_app (OpStarted _ _ :: _) ops (tr w)).
  - intros E. step E u w1 E1; [done|]. injection E1 as _ <-. apply IH in E as (ops & E & Hs); [|done].
    exists (OpCancelled (FileCancel.RequestID c) :: ops). split; [exact E|exact Hs].
Qed.
End scripts.

(** ** Invariant *)
Definition busy (c : chan) : list Z := match c_phase c with Some r => [r] | None => [] end.
(** The request ids of a channel, those in service first. *)
Definition chanIds (c : chan) : list Z := busy c ++ started (c_rest c).
Definition inService (p : pool) : list Z := mjoin (busy <$> chans p).
Definition ids (p : pool) : list Z := mjoin (chanIds <$> chans p).
Definition holders (p : pool) : nat := countIf c_holds (chans p).
Definition live (p : pool) : nat := countIf c_live (chans p).

Record chanOk (c : chan) : Prop := {
  co_script : script (c_phase c) (c_rest c) = true;
  co_holds : c_holds c = true → is_Some (c_phase c);
  co_dead : c_live c = false → c_phase c = None ∧ c_rest c = [];
}.
Record poolOk (cap : Z) (p : pool) : Prop := {
  po_tracker : trackerOk (p_tr p);
  po_chans : Forall chanOk (chans p);
  po_sem : readSem p = Z.of_nat (holders p);
  po_cap : readSem p <= cap;
  po_active : activeChannels p = Z.of_nat (live p);
  po_inflight : ∀ r, is_Some (reqToFile (p_tr p) !! r) → r ∈ inService p;
}.

(** What the other side is trusted with: a request id is used once; the ids of the
    decisions come off the wire. *)
Definition actionOk (a : action) : Prop :=
  match a with AStart ops _ => script None ops = true | ADecision v => 0 <= GroupDecision.GroupID v | _ => True end.
Definition newIds (a : action) : list Z := match a with AStart ops _ => started ops | _ => [] end.

Lemma chan_split p i c : chans p !! i = Some c →
  ∃ l1 l2, chans p = l1 ++ c :: l2 ∧ ∀ c', <[i := c']> (chans p) = l1 ++ c' :: l2.
Proof. apply list_split_at. Qed.

Lemma reqToFile_apply o t : reqToFile (apply o t) =
  match o with
  | OpStarted r fid => <[r := fid]> (reqToFile t)
  | OpCompleted r _ _ | OpFailed r _ _ | OpCancelled r => delete r (reqToFile t)
  | OpDecision _ | OpBump => reqToFile t
  end.
Proof.
  assert (Hf : ∀ r b, reqToFile (finishLocked r b t) = delete r (reqToFile t)).
  { intros r b. unfold finishLocked. destruct (reqToFile t !! r) eqn:E; [done|]. by rewrite delete_id. }
  destruct o as [v|r fid|r fid n|r b perm|r|]; cbn [apply]; try done.
  - unfold decision. destruct (groupFirst t !! _); [|done]. by destruct (bool_decide _).
  - rewrite <- (Hf r true). unfold reqCompleted. by destruct (bool_decide _).
  - rewrite <- (Hf r b). unfold reqFailed. destruct (reqToFile t !! r); [|done]. by destruct perm.
  - apply (Hf r true).
Qed.

(** How a call moves the request in service. *)
Lemma follows_cases ph o ph' : follows ph o = Some ph' →
  (∃ r fid, o = OpStarted r fid ∧ ph = None ∧ ph' = Some r) ∨
  (∃ r, o = OpCancelled r ∧ ph = None ∧ ph' = None) ∨
  (∃ r, o = OpBump ∧ ph = Some r ∧ ph' = Some r) ∨
  (∃ r, ph = Some r ∧ ph' = None ∧ ((∃ fid n, o = OpCompleted r fid n) ∨ ∃ b perm, o = OpFailed r b perm)).
Proof.
  destruct ph as [r|]; destruct o as [v|r' fid|r' fid n|r' b perm|r'|]; cbn [follows]; try done;
    try (destruct (Z.eqb_spec r' r) as [->|]; [|done]); intros [= <-]; naive_solver.
Qed.

(** The ids of a channel only ever leave. *)
Lemma follows_ids ph o ph' h h' ops res : follows ph o = Some ph' →
  chanIds (mkChan ph' h' ops res true) `sublist_of` chanIds (mkChan ph h (o :: ops) res true).
Proof.
  intros [(r & fid & -> & -> & ->)|[(r & -> & -> & ->)|[(r & -> & -> & ->)|(r & -> & -> & [(fid & n & ->)|(b & perm & ->)])]]]%follows_cases;
    unfold chanIds, busy, started; cbn; done || by apply sublist_cons.
Qed.

Lemma ids_split l1 c l2 p : chans p = l1 ++ c :: l2 → ids p = mjoin (chanIds <$> l1) ++ chanIds c ++ mjoin (chanIds <$> l2).
Proof. intros E. unfold ids. by rewrite E, fmap_app, fmap_cons, join_app, mjoin_cons. Qed.
Lemma inService_split l1 c l2 p :
  chans p = l1 ++ c :: l2 → inService p = mjoin (busy <$> l1) ++ busy c ++ mjoin (busy <$> l2).
Proof. intros E. unfold inService. by rewrite E, fmap_app, fmap_cons, join_app, mjoin_cons. Qed.


Lemma inService_ids p r : r ∈ inService p → r ∈ ids p.
Proof.
  unfold inService, ids. rewrite !list_elem_of_join. intros (l & Hr & (c & -> & Hc)%list_elem_of_fmap).
  exists (chanIds c). split; [by apply elem_of_app; left|]. apply list_elem_of_fmap. by exists c.
Qed.

Definition one (b : bool) : Z := if b then 1 else 0.

(** One channel changes. *)
Lemma poolOk_update cap p p' l1 c l2 c' :
  poolOk cap p → chans p = l1 ++ c :: l2 → chans p' = l1 ++ c' :: l2 → chanOk c' →
  readSem p' = readSem p + (one (c_holds c') - one (c_holds c)) → readSem p' <= cap →
  activeChannels p' = activeChannels p + (one (c_live c') - one (c_live c)) →
  trackerOk (p_tr p') → (∀ r, is_Some (reqToFile (p_tr p') !! r) → r ∈ inService p') → poolOk cap p'.
Proof.
  intros [_ Hch Hsem _ Hact _] E E' Hc' Hs Hcap Ha Ht Hin.
  assert (Hcount : ∀ b, Z.of_nat (countIf b (chans p')) = Z.of_nat (countIf b (chans p)) + (one (b c') - one (b c))).
  { intros b. rewrite E, E', !countIf_app, !countIf_cons. unfold one. destruct (b c), (b c'); lia. }
  split; [done| |by rewrite Hs, Hsem; symmetry; apply Hcount|done|by rewrite Ha, Hact; symmetry; apply Hcount|done].
  rewrite E' in *. rewrite E in Hch. apply Forall_app in Hch as [? [_ ?]%Forall_cons].
  apply Forall_app. split; [done|by apply Forall_cons].
Qed.

Lemma ids_update p p' l1 c l2 c' fut :
  chans p = l1 ++ c :: l2 → chans p' = l1 ++ c' :: l2 → chanIds c' `sublist_of` chanIds c →
  NoDup (ids p ++ fut) → NoDup (ids p' ++ fut).
Proof.
  intros E E' Hs. rewrite (ids_split _ _ _ _ E), (ids_split _ _ _ _ E').
  intros Hn. eapply sublist_NoDup; [exact Hn|]. apply sublist_app; [|done].
  apply sublist_app; [done|]. by apply sublist_app.
Qed.

(** A call keeps the requests in flight among those in service. *)
Lemma call_inflight p p' l1 l2 ph h o ops ph' h' res :
  chans p = l1 ++ mkChan ph h (o :: ops) res true :: l2 → chans p' = l1 ++ mkChan ph' h' ops res true :: l2 →
  p_tr p' = apply o (p_tr p) → follows ph o = Some ph' →
  (∀ r, is_Some (reqToFile (p_tr p) !! r) → r ∈ inService p) →
  ∀ r, is_Some (reqToFile (p_tr p') !! r) → r ∈ inService p'.
Proof.
  intros E E' Et Hf Hin r. rewrite Et, reqToFile_apply. rewrite (inService_split _ _ _ _ E'). specialize (Hin r).
  rewrite (inService_split _ _ _ _ E) in Hin.
  change (busy (mkChan ph h (o :: ops) res true)) with (match ph with Some q => [q] | None => [] end) in Hin.
  change (busy (mkChan ph' h' ops res true)) with (match ph' with Some q => [q] | None => [] end).
  rewrite !elem_of_app in *.
  destruct (follows_cases _ _ _ Hf) as [(q & fid & -> & -> & ->)|[(q & -> & -> & ->)|[(q & -> & -> & ->)|(q & -> & -> & Hd)]]].
  - destruct (decide (q = r)) as [->|]; [intros _; right; left; by left|]. rewrite lookup_insert_ne by done.
    intros [?|[?%elem_of_nil|?]]%Hin; [by left|done|by right; right].
  - rewrite lookup_delete_is_Some. by intros [_ ?%Hin].
  - done.
  - assert (is_Some (delete q (reqToFile (p_tr p)) !! r) → r ∈ mjoin (busy <$> l1) ∨ r ∈ @nil Z ∨ r ∈ mjoin (busy <$> l2)) as Hx.
    { rewrite lookup_delete_is_Some. intros [Hne [?|[?%list_elem_of_singleton|?]]%Hin]; [by left|by subst|by right; right]. }
    by destruct Hd as [(fid & n & ->)|(b & perm & ->)].
Qed.

(** The id of a request that starts is not in flight. *)
Lemma call_fresh p l1 l2 ph h o ops res :
  chans p = l1 ++ mkChan ph h (o :: ops) res true :: l2 → is_Some (follows ph o) → NoDup (ids p) →
  (∀ r, is_Some (reqToFile (p_tr p) !! r) → r ∈ inService p) →
  match o with
  | OpStarted r _ => reqToFile (p_tr p) !! r = None
  | OpDecision v => 0 <= GroupDecision.GroupID v
  | _ => True
  end.
Proof.
  intros E [ph' Hf] Hn Hin. apply follows_cases in Hf as [(r & fid & -> & -> & _)|[(r & -> & _)|[(r & -> & _)|(r & _ & _ & [(fid & n & ->)|(b & perm & ->)])]]]; try done.
  apply eq_None_not_Some. intros Hr%Hin. rewrite (ids_split _ _ _ _ E) in Hn. rewrite (inService_split _ _ _ _ E) in Hr.
  apply list.NoDup_app in Hn as (_ & H1 & Hn). apply list.NoDup_app in Hn as (_ & H2 & _).
  assert (Hb : ∀ l, r ∈ mjoin (busy <$> l) → r ∈ mjoin (chanIds <$> l)).
  { intros l. rewrite !list_elem_of_join. intros (x & Hx & (c & -> & Hc)%list_elem_of_fmap).
    exists (chanIds c). split; [by apply elem_of_app; left|]. apply list_elem_of_fmap. by exists c. }
  rewrite !elem_of_app in Hr. destruct Hr as [Hr|[Hr%elem_of_nil|Hr]]; [|done|].
  - apply (H1 r (Hb _ Hr)). apply elem_of_app. left. by left.
  - apply (H2 r); [by left|by apply Hb].
Qed.

Lemma call_ok cap i p p' fut :
  poolOk cap p → NoDup (ids p ++ fut) → act cap (ACall i) p = Some p' → poolOk cap p' ∧ NoDup (ids p' ++ fut).
Proof.
  intros Hp Hn. cbn [act]. destruct (chans p !! i) as [[ph h [|o ops] res [|]]|] eqn:Hi; try done.
  destruct (follows ph o) as [ph'|] eqn:Hf; [|done]. destruct (needsSlot o && negb h) eqn:Hslot; [done|].
  set (h' := h && bool_decide (is_Some ph')). intros [= <-].
  destruct (chan_split _ _ _ Hi) as (l1 & l2 & E & Hset). set (c' := mkChan ph' h' ops res true).
  assert (E' : chans (onTr (apply o) (addSem (if h && negb h' then -1 else 0) (setChan i c' p))) = l1 ++ c' :: l2) by apply Hset.
  pose proof (po_chans _ _ Hp) as Hch. rewrite E in Hch. apply Forall_app in Hch as [_ [[Hs Hh _] _]%Forall_cons].
  cbn [c_phase c_rest c_holds script] in Hs, Hh. rewrite Hf in Hs.
  split; [|eapply ids_update; [exact E|exact E'|by eapply follows_ids|done]].
  pose proof Hp as [Ht _ _ Hcap _ Hin]. apply list.NoDup_app in Hn as (Hn & _ & _).
  eapply poolOk_update; [exact Hp|exact E|exact E'|..]; cbn [c' c_holds c_live readSem activeChannels p_tr onTr addSem setChan]; unfold one.
  - split; [done| |done]. unfold c', h'. cbn. intros [_ ?%bool_decide_eq_true]%andb_prop. done.
  - unfold h'. destruct h, (bool_decide (is_Some ph')); cbn; lia.
  - destruct (h && negb h'); lia.
  - lia.
  - apply apply_ok; [done|]. by eapply call_fresh.
  - exact (call_inflight p _ l1 l2 ph h o ops ph' h' res E E' eq_refl Hf Hin).
Qed.

Lemma start_ok cap ops r p fut :
  script None ops = true → poolOk cap p → NoDup (ids p ++ started ops ++ fut) →
  poolOk cap (startServicer ops r p) ∧ NoDup (ids (startServicer ops r p) ++ fut).
Proof.
  intros Hs [Ht Hch Hsem Hcap Hact Hin] Hn. split.
  - split; [done| | |done| |].
    + apply Forall_app. split; [done|]. apply Forall_singleton. by split.
    + change (readSem p = Z.of_nat (holders (startServicer ops r p))). rewrite Hsem. unfold holders. cbn [chans startServicer]. rewrite countIf_app. cbn. by rewrite Nat.add_0_r.
    + change (activeChannels p + 1 = Z.of_nat (live (startServicer ops r p))). rewrite Hact. unfold live. cbn [chans startServicer]. rewrite countIf_app, countIf_cons. cbn [c_live].
      change (countIf c_live []) with 0%nat. lia.
    + intros q Hq%Hin. unfold inService. cbn. rewrite fmap_app, join_app. apply elem_of_app. by left.
  - unfold ids. cbn. rewrite fmap_app, join_app, <- app_assoc. cbn. by rewrite app_nil_r.
Qed.

Lemma acquire_ok cap i p p' fut :
  poolOk cap p → NoDup (ids p ++ fut) → act cap (AAcquire i) p = Some p' → poolOk cap p' ∧ NoDup (ids p' ++ fut).
Proof.
  intros Hp Hn. cbn [act]. destruct (chans p !! i) as [[[r|] [|] ops res [|]]|] eqn:Hi; try done.
  destruct (Z.ltb_spec (readSem p) cap) as [Hlt|]; [|done]. intros [= <-].
  destruct (chan_split _ _ _ Hi) as (l1 & l2 & E & Hset).
  pose proof (po_chans _ _ Hp) as Hch. rewrite E in Hch. apply Forall_app in Hch as [_ [[Hs _ _] _]%Forall_cons].
  pose proof Hp as [Ht _ _ _ _ Hin]. split; [|eapply ids_update; [exact E|apply Hset|done|done]].
  eapply poolOk_update; [exact Hp|exact E|apply Hset|..]; cbn; try done; try lia.
  intros q Hq%Hin. rewrite (inService_split _ _ _ _ E) in Hq. rewrite Hset, fmap_app, join_app. exact Hq.
Qed.

Lemma servicerEnded_same r p :
  p_tr (servicerEnded r p) = p_tr p ∧ chans (servicerEnded r p) = chans p ∧
  readSem (servicerEnded r p) = readSem p ∧ activeChannels (servicerEnded r p) = activeChannels p.
Proof. unfold servicerEnded. destruct r; [done|]. by repeat case_match. Qed.

Lemma end_ok cap i p p' fut :
  poolOk cap p → NoDup (ids p ++ fut) → act cap (AEnd i) p = Some p' → poolOk cap p' ∧ NoDup (ids p' ++ fut).
Proof.
  intros Hp Hn. cbn [act]. destruct (chans p !! i) as [[[r|] h [|] res [|]]|] eqn:Hi; try done. cbv zeta.
  intros E'. injection E'. clear E'. match goal with |- servicerEnded res ?q = _ → _ => set (p1 := q) end. intros <-.
  destruct (servicerEnded_same res p1) as (E1 & E2 & E3 & E4).
  destruct (chan_split _ _ _ Hi) as (l1 & l2 & E & Hset).
  assert (Ec : chans (servicerEnded res p1) = l1 ++ mkChan None h [] res false :: l2) by (rewrite E2; apply Hset).
  pose proof (po_chans _ _ Hp) as Hch. rewrite E in Hch. apply Forall_app in Hch as [_ [[Hs Hh _] _]%Forall_cons].
  pose proof Hp as [Ht _ _ Hcap _ Hin]. split; [|eapply ids_update; [exact E|exact Ec|done|done]].
  eapply poolOk_update; [exact Hp|exact E|exact Ec|..]; rewrite ?E1, ?E3, ?E4; cbn; try done; try lia.
  intros q Hq%Hin. rewrite (inService_split _ _ _ _ E) in Hq. rewrite (inService_split _ _ _ _ Ec). exact Hq.
Qed.

Lemma act_ok cap a p p' fut :
  actionOk a → poolOk cap p → NoDup (ids p ++ newIds a ++ fut) → act cap a p = Some p' →
  poolOk cap p' ∧ NoDup (ids p' ++ fut).
Proof.
  intros Ha Hp Hn. destruct a as [ops r|i|i|i|v|]; cbn [newIds app] in Hn.
  - intros [= <-]. by apply start_ok.
  - by apply acquire_ok.
  - by apply call_ok.
  - by apply end_ok.
  - intros [= <-]. split; [|done]. destruct Hp as [Ht Hch Hsem Hcap Hact Hin]. split; cbn; try done.
    + by apply decision_ok.
    + intros r. pose proof (reqToFile_apply (OpDecision v) (p_tr p)) as E. cbn [apply] in E. rewrite E. apply Hin.
  - intros [= <-]. split; [|done]. by destruct Hp.
Qed.

Definition allIds (l : list action) : list Z := mjoin (newIds <$> l).

Lemma acts_ok cap l : ∀ p p',
  Forall actionOk l → poolOk cap p → NoDup (ids p ++ allIds l) → acts cap l p = Some p' → poolOk cap p' ∧ NoDup (ids p').
Proof.
  induction l as [|a l IH]; intros p p' Hl Hp Hn; cbn [acts].
  { intros [= <-]. split; [done|]. by rewrite app_nil_r in Hn. }
  apply Forall_cons in Hl as [Ha Hl]. destruct (act cap a p) as [p1|] eqn:E; [|done].
  eapply act_ok in E as [Hp1 Hn1]; [|done|done|exact Hn]. by apply IH.
Qed.

Lemma newPool_ok cap firsts : 0 <= cap → poolOk cap (newPool firsts).
Proof. intros ?. split; cbn; try done; [apply newTracker_ok|]. by intros r [? ?]. Qed.

(** ** Progress *)
Definition chanAct (a : action) : Prop := match a with AAcquire _ | ACall _ | AEnd _ => True | _ => False end.
(** What is left for a channel to do. *)
Definition todo (c : chan) : nat :=
  2 * length (c_rest c) + (if c_live c then 1 else 0) + (if bool_decide (is_Some (c_phase c)) && negb (c_holds c) then 1 else 0).
Definition work (p : pool) : nat := sum_list_with todo (chans p).

Lemma work_update p p' l1 c l2 c' :
  chans p = l1 ++ c :: l2 → chans p' = l1 ++ c' :: l2 → (todo c' < todo c)%nat → (work p' < work p)%nat.
Proof. intros E E' Ht. unfold work. rewrite E, E', !sum_list_with_app. cbn [sum_list_with]. lia. Qed.

Lemma act_work cap a p p' : chanAct a → act cap a p = Some p' → (work p' < work p)%nat.
Proof.
  destruct a as [|i|i|i| |]; try done; intros _; cbn [act].
  - destruct (chans p !! i) as [[[r|] [|] ops res [|]]|] eqn:Hi; try done. destruct (_ <? _); [|done]. intros [= <-].
    destruct (chan_split _ _ _ Hi) as (l1 & l2 & E & Hset).
    eapply work_update; [exact E|apply Hset|]. unfold todo. cbn. lia.
  - destruct (chans p !! i) as [[ph h [|o ops] res [|]]|] eqn:Hi; try done.
    destruct (follows ph o) as [ph'|]; [|done]. destruct (needsSlot o && negb h); [done|]. intros [= <-].
    destruct (chan_split _ _ _ Hi) as (l1 & l2 & E & Hset).
    eapply work_update; [exact E|apply Hset|]. unfold todo. cbn [c_rest c_live c_phase c_holds]. rewrite length_cons.
    destruct (_ && negb (h && _)), (_ && negb h); lia.
  - destruct (chans p !! i) as [[[r|] h [|] res [|]]|] eqn:Hi; try done. cbv zeta.
    intros E'. injection E'. clear E'. match goal with |- servicerEnded res ?q = _ → _ => set (p1 := q) end. intros <-.
    destruct (chan_split _ _ _ Hi) as (l1 & l2 & E & Hset).
    eapply work_update; [exact E| |]; [rewrite (proj1 (proj2 (servicerEnded_same res p1))); apply Hset|]. unfold todo. cbn. lia.
Qed.

Lemma acts_work cap l : ∀ p p', Forall chanAct l → acts cap l p = Some p' → (length l + work p' <= work p)%nat.
Proof.
  induction l as [|a l IH]; intros p p' Hl; cbn [acts]; [by intros [= <-]|].
  apply Forall_cons in Hl as [Ha Hl]. destruct (act cap a p) as [p1|] eqn:E; [|done]. intros E1.
  apply act_work in E; [|done]. apply IH in E1; [|done]. simpl. lia.
Qed.

(** A channel that holds a slot, or needs none for its next call, can go on. *)
Lemma call_enabled cap p i ph h o ops res :
  chans p !! i = Some (mkChan ph h (o :: ops) res true) → is_Some (follows ph o) → needsSlot o && negb h = false →
  is_Some (act cap (ACall i) p).
Proof. intros Hi [ph' Hf] Hn. cbn [act]. rewrite Hi, Hf, Hn. by eexists. Qed.

Lemma chanOk_next ph h rest res b : chanOk (mkChan ph h rest res b) →
  (rest = [] → ph = None) ∧ ∀ o ops, rest = o :: ops → is_Some (follows ph o) ∧ (needsSlot o = true → is_Some ph).
Proof.
  intros [Hs _ _]. cbn [c_phase c_rest] in Hs. split; [intros ->; by apply bool_decide_eq_true in Hs|].
  intros o ops ->. cbn [script] in Hs. destruct (follows ph o) eqn:E; [|done]. split; [done|]. by destruct ph, o.
Qed.

Lemma can_go cap p : 1 <= cap → poolOk cap p → (0 < live p)%nat → ∃ a, chanAct a ∧ is_Some (act cap a p).
Proof.
  intros Hcap [_ Hch Hsem _ _ _] (i & [ph h rest res b] & Hi & Hb)%countIf_pos. cbn in Hb. subst b.
  pose proof (Forall_lookup_1 _ _ _ _ Hch Hi) as Hc. apply chanOk_next in Hc as [Hend Hgo].
  destruct rest as [|o ops].
  { rewrite Hend in Hi by done. exists (AEnd i). split; [done|]. cbn [act]. rewrite Hi. by eexists. }
  destruct (Hgo o ops eq_refl) as [Hf Hslot]. destruct (needsSlot o && negb h) eqn:En.
  2:{ exists (ACall i). split; [done|]. by eapply call_enabled. }
  apply andb_prop in En as [Hn ->%negb_true_iff]. destruct (Hslot Hn) as [r ->].
  destruct (Z.ltb_spec (readSem p) cap) as [Hlt|Hfull].
  { exists (AAcquire i). split; [done|]. cbn [act]. rewrite Hi, (proj2 (Z.ltb_lt _ _) Hlt). by eexists. }
  assert ((0 < holders p)%nat) as (j & [ph' h' rest' res' b'] & Hj & Hh)%countIf_pos by lia. cbn in Hh. subst h'.
  pose proof (Forall_lookup_1 _ _ _ _ Hch Hj) as Hc. pose proof Hc as [_ Hp' Hdead]. cbn in Hp', Hdead.
  destruct (Hp' eq_refl) as [r' ->]. destruct b'; [|by destruct (Hdead eq_refl)].
  apply chanOk_next in Hc as [Hend' Hgo']. destruct rest' as [|o' ops']; [by specialize (Hend' eq_refl)|].
  exists (ACall j). split; [done|]. eapply call_enabled; [exact Hj|by eapply Hgo'|by rewrite andb_false_r].
Qed.

Lemma inflight_bound cap p : poolOk cap p → inflight (p_tr p) <= Z.of_nat (length (inService p)).
Proof.
  intros [[Ht _ _] _ _ _ _ Hin]. rewrite (ok_inflight _ Ht), <- size_dom.
  assert (H : elements (dom (reqToFile (p_tr p))) ⊆+ inService p).
  { apply NoDup_submseteq; [apply NoDup_elements|]. intros r Hr%elem_of_elements. apply Hin. by apply elem_of_dom. }
  apply submseteq_length in H. by apply inj_le.
Qed.

Lemma all_ended cap p : poolOk cap p → live p = 0%nat → inService p = [] ∧ holders p = 0%nat.
Proof.
  intros [_ Hch _ _ _ _] Hl.
  assert (Hd : Forall (λ c, busy c = [] ∧ c_holds c = false) (chans p)).
  { apply Forall_forall. intros c Hc. pose proof (proj1 (Forall_forall _ _) Hch c Hc) as [_ Hh Hdead].
    destruct (c_live c) eqn:El.
    - apply list_elem_of_lookup in Hc as [i Hi]. apply take_drop_middle in Hi. unfold live in Hl.
      rewrite <- Hi, countIf_app, countIf_cons, El in Hl. lia.
    - destruct (Hdead eq_refl) as [Hp _]. unfold busy. rewrite Hp. split; [done|].
      destruct (c_holds c) eqn:Eh; [|done]. destruct (Hh eq_refl). congruence. }
  unfold inService, holders. clear -Hd. induction Hd as [|c l [Hb Hh] _ [IH1 IH2]]; [done|].
  rewrite fmap_cons, mjoin_cons, Hb, IH1, countIf_cons, Hh, IH2. done.
Qed.

(** C12: the servicers of a session share the readers' semaphore and the tracker
    without losing a slot of either, and cannot block one another.  After any
    interleaving of joins, tracker calls, waits for the semaphore, ends of
    servicers and decisions in which a request id is used once: the semaphore
    counts exactly the servicers that read a file and never exceeds the limit; no
    more requests are in flight than servicers serve; the live channels are
    counted; every servicer ends after finitely many steps, and while one is
    alive some servicer can go on; and when all have ended, by a lost channel or
    otherwise, nothing is held or in flight, so that a session whose groups are
    decided and whose needed files are resolved is done. *)
Theorem servicers_drain cap firsts l p :
  1 <= cap → Forall actionOk l → NoDup (allIds l) → acts cap l (newPool firsts) = Some p →
  readSem p = Z.of_nat (holders p) ∧ readSem p <= cap ∧ activeChannels p = Z.of_nat (live p) ∧
  inflight (p_tr p) <= Z.of_nat (length (inService p)) ∧
  (∀ l' p', Forall chanAct l' → acts cap l' p = Some p' → (length l' <= work p)%nat) ∧
  ((0 < live p)%nat → ∃ a, chanAct a ∧ is_Some (act cap a p)) ∧
  (live p = 0%nat → readSem p = 0 ∧ inflight (p_tr p) = 0 ∧
     (allDecided (p_tr p) → needed (p_tr p) ⊆ resolved (p_tr p) → doneClosed (p_tr p) = true)).
Proof.
  intros Hcap Hl Hn E. apply acts_ok in E as [Hp _]; [|done|by apply newPool_ok; lia|done].
  pose proof (inflight_bound _ _ Hp) as Hb. pose proof Hp as [Ht _ Hsem Hle Hact _]. split_and!; [done..| | |].
  - intros l' p' Hl' E'. apply acts_work in E'; [|done]. lia.
  - by apply can_go.
  - intros H0. destruct (all_ended _ _ Hp H0) as [Hs Hh]. rewrite Hs in Hb. cbn in Hb.
    assert (Hi : inflight (p_tr p) = 0) by (pose proof (ok_inflight _ (ok_core _ Ht)); lia).
    split_and!; [by rewrite Hsem, Hh|done|]. intros Ha Hr. apply (ok_quiescent _ Ht). split_and!; [done|lia|done].
Qed.

(** *** Witness: two servicers, one slot; the second channel is lost in mid-file *)
Definition ex_ops1 : list op := [OpStarted 1 0; OpBump; OpCompleted 1 0 5].
Definition ex_ops2 : list op := [OpStarted 2 0; OpBump; OpFailed 2 false false].
Definition ex_lost : gerr := EStd (StdOther "connection reset by peer").
Definition ex_actions : list action :=
  [AStart ex_ops1 (Ok ()); AStart ex_ops2 (Err ex_lost); ADecision (GroupDecision.mk 0 [0] 0 []);
   ACall 0; ACall 1; AAcquire 1; ACall 1; ACall 1; AEnd 1; AAcquire 0; ACall 0; ACall 0; AEnd 0].
Definition ex_pool : pool := default (newPool []) (acts 1 ex_actions (newPool [0])).

Lemma servicers_drain_witness :
  live ex_pool = 0%nat ∧ fatalErr ex_pool = None ∧ allDecided (p_tr ex_pool) ∧ readSem ex_pool = 0 ∧ doneClosed (p_tr ex_pool) = true.
Proof.
  assert (E : acts 1 ex_actions (newPool [0]) = Some ex_pool) by (vm_compute; reflexivity).
  assert (Hl : live ex_pool = 0%nat) by (vm_compute; reflexivity).
  assert (Ha : allDecided (p_tr ex_pool)) by (vm_compute; discriminate).
  destruct (servicers_drain 1 [0] ex_actions ex_pool) as (_ & _ & _ & _ & _ & _ & H); [lia| | |exact E|].
  - repeat constructor; vm_compute; reflexivity || discriminate.
  - refine (bool_decide_eq_true_1 (NoDup _) _). vm_compute. reflexivity.
  - destruct (H Hl) as (Hs & _ & Hd). split; [exact Hl|]. split; [vm_compute; reflexivity|]. split; [exact Ha|].
    split; [exact Hs|]. apply Hd; [exact Ha|]. refine (bool_decide_eq_true_1 (_ ⊆ _) _). vm_compute. reflexivity.
Defined.

(** ** The ends of the servicers *)

(** A lost data channel is no failure of the session: only an error with a code is,
    it is kept, and the first one only. *)
Lemma lost_channel_not_fatal e p :
  (GetCode e = [] → servicerEnded (Err e) p = p) ∧
  (GetCode e ≠ [] → rootDone p = false → fatalErr p = None →
     ∃ f, fatalErr (servicerEnded (Err e) p) = Some f ∧ GetCode f = GetCode e ∧ rootDone (servicerEnded (Err e) p) = true) ∧
  (∀ f, fatalErr p = Some f → fatalErr (servicerEnded (Err e) p) = Some f).
Proof.
  unfold servicerEnded. split_and!.
  - intros He. destruct (rootDone p); [done|]. by rewrite bool_decide_true.
  - intros He Hr Hf. rewrite Hr, bool_decide_false, Hf by done. eexists. split; [reflexivity|]. split; [|done].
    unfold GetCode in *. unfold Wrap. destruct (asFault e) as [f|]; [|done]. rewrite bool_decide_true by done. by destruct f.
  - intros f Hf. destruct (rootDone p); [done|]. case_bool_decide; [done|]. cbn. by rewrite Hf.
Qed.

(** A connection that stays silent parks the join loop: no channel is joined after
    it, whatever connects; [acceptData], which bounds the read, goes on. *)
Lemma silent_join_parks l1 l2 : joinLoop (l1 ++ Arrives None :: l2) = ((joinLoop l1).1, false).
Proof.
  induction l1 as [|[|[[id|e]|]] l1 IH]; cbn [joinLoop app]; [done|done| |done|done].
  rewrite IH. by destruct (joinLoop l1).
Qed.
