(* ===== verification/Receiver.v ===== *)
(** * Receiver: the state the decide and fetch goroutines share
    (src/internal/receiver/decide.go, hlfallback.go)

    [metaStore] and [hardlinkMap] with every operation, the counters, and the
    record [rst] of everything the two phases read and write.  Each Go method
    holds its mutex, so it is one step.  [fetchInstead] is the content fallback
    of a hard link that could not be made, [linkOrFallback] makes the links of a
    published file.  The main theorem is about any interleaving of the hard-link
    operations; the lemmas on [linkOrFallback] are what Fetch, System and Mirror say
    of hard-linked files. *)
From S2P Require Import Prelude Fault Strconv Glob Wire Paths Journal Digest Fs Dest Queue.

(** A modification time is seconds and nanoseconds; [time.Unix] of a wire pair. *)
Definition unixTime (sec nsec : Z) : Z * Z := (wrap_i 64 (sec + nsec / 10 ^ 9), nsec mod 10 ^ 9).
Record fileMeta := mkFileMeta {
  fm_rel : bytes; fm_size : Z; fm_mode : Z; fm_mtime : Z * Z; fm_digest : bytes; fm_hlKey : Z; fm_hasHLKey : bool;
}.

Module metaStore.
Definition t : Type := gmap Z fileMeta.
Definition new : t := ∅.
Definition set (id : Z) (fm : fileMeta) (s : t) : t := <[id := fm]> s.
Definition get (id : Z) (s : t) : option fileMeta := s !! id.
Lemma set_same id fm (s : t) : set id fm s !! id = Some fm.
Proof. apply lookup_insert_eq. Qed.
Lemma set_other id k fm (s : t) : k ≠ id → set id fm s !! k = s !! k.
Proof. intros Hk. by apply lookup_insert_ne. Qed.
End metaStore.

Record pendingLink := mkPending { pl_fileID : Z; pl_rel : bytes }.
#[global] Instance pendingLink_eq_dec : EqDecision pendingLink.
Proof. solve_decision. Defined.

Record hardlinkMap := mkHL {
  keyToPath : gmap Z bytes; fileKey : gmap Z Z; seen : gset Z; pending : gmap Z (list pendingLink);
}.
Definition newHardlinkMap : hardlinkMap := mkHL ∅ ∅ ∅ ∅.

Definition pathFor (k : Z) (h : hardlinkMap) : option bytes := keyToPath h !! k.
(** [h.pending[key]], nil when absent. *)
Definition waiting (k : Z) (h : hardlinkMap) : list pendingLink := default [] (pending h !! k).

Definition claimSecondary (k fileID : Z) (rel : bytes) (h : hardlinkMap) : bool * hardlinkMap :=
  if negb (bool_decide (k ∈ seen h)) then (false, h)
  else match keyToPath h !! k with
       | Some _ => (false, h)
       | None => (true, mkHL (keyToPath h) (fileKey h) (seen h) (<[k := waiting k h ++ [mkPending fileID rel]]> (pending h)))
       end.
Definition markPrimary (fileID k : Z) (h : hardlinkMap) : hardlinkMap :=
  mkHL (keyToPath h) (<[fileID := k]> (fileKey h)) ({[k]} ∪ seen h) (pending h).
Definition clear (k : Z) (h : hardlinkMap) : list pendingLink * hardlinkMap :=
  (waiting k h, mkHL (delete k (keyToPath h)) (fileKey h) (seen h ∖ {[k]}) (delete k (pending h))).
Definition abandon (fileID : Z) (h : hardlinkMap) : list pendingLink * hardlinkMap :=
  match fileKey h !! fileID with
  | None => ([], h)
  | Some k => (waiting k h, mkHL (delete k (keyToPath h)) (fileKey h) (seen h ∖ {[k]}) (delete k (pending h)))
  end.
Definition registerMaterialised (fileID : Z) (rel : bytes) (h : hardlinkMap) : list pendingLink * hardlinkMap :=
  match fileKey h !! fileID with
  | None => ([], h)
  | Some k =>
      (waiting k h,
       mkHL (match keyToPath h !! k with Some _ => keyToPath h | None => <[k := rel]> (keyToPath h) end)
         (fileKey h) (seen h) (delete k (pending h)))
  end.

(** ** The shared state *)
Inductive counter :=
| FilesRejected | SymlinksRejected | FilesSkipped | FilesFailed | FilesTransferred | Dirs | Symlinks
| Retries | RetriesOK | BytesIn.
#[global] Instance counter_eq_dec : EqDecision counter.
Proof. solve_decision. Defined.
(** The atomic counters, by name. *)
Definition counters : Type := counter → Z.
Definition addCounter (c : counter) (n : Z) (k : counters) : counters := λ c', if decide (c = c') then k c' + n else k c'.

Record shared := mkShared {
  sh_world : world; sh_q : needQueue; sh_guard : spaceGuard.t; sh_meta : metaStore.t; sh_hl : hardlinkMap;
  sh_cnt : counters; sh_neededBytes : Z; sh_neededFiles : Z;
}.
Definition onWorld (w : world) (s : shared) : shared :=
  mkShared w (sh_q s) (sh_guard s) (sh_meta s) (sh_hl s) (sh_cnt s) (sh_neededBytes s) (sh_neededFiles s).
Definition onQueue (q : needQueue) (s : shared) : shared :=
  mkShared (sh_world s) q (sh_guard s) (sh_meta s) (sh_hl s) (sh_cnt s) (sh_neededBytes s) (sh_neededFiles s).
Definition onGuard (g : spaceGuard.t) (s : shared) : shared :=
  mkShared (sh_world s) (sh_q s) g (sh_meta s) (sh_hl s) (sh_cnt s) (sh_neededBytes s) (sh_neededFiles s).
Definition onMeta (m : metaStore.t) (s : shared) : shared :=
  mkShared (sh_world s) (sh_q s) (sh_guard s) m (sh_hl s) (sh_cnt s) (sh_neededBytes s) (sh_neededFiles s).
Definition onHL (h : hardlinkMap) (s : shared) : shared :=
  mkShared (sh_world s) (sh_q s) (sh_guard s) (sh_meta s) h (sh_cnt s) (sh_neededBytes s) (sh_neededFiles s).
Definition count (c : counter) (n : Z) (s : shared) : shared :=
  mkShared (sh_world s) (sh_q s) (sh_guard s) (sh_meta s) (sh_hl s) (addCounter c n (sh_cnt s)) (sh_neededBytes s) (sh_neededFiles s).
Definition addNeeded (bytes files : Z) (s : shared) : shared :=
  mkShared (sh_world s) (sh_q s) (sh_guard s) (sh_meta s) (sh_hl s) (sh_cnt s)
    (wrap_i 64 (sh_neededBytes s + bytes)) (wrap_i 64 (sh_neededFiles s + files)).

(** Fetch a secondary's content instead of linking it; without metadata or space
    it counts as failed. *)
Definition fetchInstead (groupID fileID : Z) (rel : bytes) (s : shared) : shared :=
  match metaStore.get fileID (sh_meta s) with
  | None => count FilesFailed 1 s
  | Some fm =>
      let '(_, ferr, g) := spaceGuard.reserve (fm_size fm) (sh_guard s) in
      let s := onGuard g s in
      match ferr with
      | Some _ => count FilesFailed 1 s
      | None =>
          let s := addNeeded (fm_size fm) 1 s in
          onQueue (pushFallback (mkItem fileID groupID (fm_size fm) rel 0) (sh_q s)) s
      end
  end.

(** Run a destination operation, its error as a value. *)
Definition runDest {A} (m : SE world gerr A) (s : shared) : result gerr A * shared :=
  let '(r, w) := m (sh_world s) in (r, onWorld w s).

(** [linkOrFallback]: the same code in decide.go and fetch.go. *)
Fixpoint linkOrFallback (groupID : Z) (primaryRel : bytes) (pending : list pendingLink) (s : shared) : shared :=
  match pending with
  | [] => s
  | sec :: pending =>
      let '(r, s) := runDest (MakeHardlink (pl_rel sec) primaryRel) s in
      linkOrFallback groupID primaryRel pending
        (match r with Ok _ => s | Err _ => fetchInstead groupID (pl_fileID sec) (pl_rel sec) s end)
  end.

(** *** What linking does to the tree *)
Definition treeOf (s : shared) : fs := w_fs (sh_world s).
(** The secondary [l] is to be the name [q], and not that of the primary [po]. *)
Record parkedAt (po : path) (l : pendingLink) (q : path) : Prop := {
  pk_rel : pl_rel l = relOf q;
  pk_plain : Forall plainName q;
  pk_outside : outside q;
  pk_ne : q ≠ [] ∧ q ≠ po;
}.

Lemma fetchInstead_world g id rel s : sh_world (fetchInstead g id rel s) = sh_world s.
Proof.
  unfold fetchInstead. destruct (metaStore.get _ _) as [fm|]; [|done]. by destruct (spaceGuard.reserve _ _) as [[w [e|]] gd].
Qed.
Lemma linkOrFallback_linked g po i ls : ∀ qs s,
  Forall2 (parkedAt po) ls qs → fsOk (treeOf s) → Forall plainName po → nodes (treeOf s) !! po = Some (NFile i) →
  linked i qs (treeOf s) (treeOf (linkOrFallback g (relOf po) ls s)).
Proof.
  induction ls as [|l ls IH]; intros qs s Hl Hs Hpo Hi; cbn [linkOrFallback].
  { apply Forall2_nil_inv_l in Hl as ->. by apply linked_refl. }
  apply Forall2_cons_inv_l in Hl as (q & qs' & [K1 K2 K3 [K4 K5]] & Hl & ->). unfold runDest.
  destruct (MakeHardlink (pl_rel l) (relOf po) (sh_world s)) as [r w] eqn:E. rewrite K1 in E.
  destruct (exists_last K4) as (pn & c & ->). apply (MakeHardlink_linked pn c po i) in E as [L _]; [|done..].
  set (s1 := match r with Ok _ => _ | Err _ => _ end).
  assert (Ht : treeOf s1 = w_fs w) by (unfold s1, treeOf; destruct r; [done|by rewrite fetchInstead_world]).
  change ((pn ++ [c]) :: qs') with ([pn ++ [c]] ++ qs'). eapply linked_trans; [exact L|]. rewrite <- Ht. apply IH; [done|rewrite Ht; apply L|done|].
  rewrite Ht. eapply linked_keeps; [exact L|set_solver|done].
Qed.

(** Without faults every secondary becomes a name of the primary's file, and nothing
    else of the shared state is touched. *)
Lemma linkOrFallback_lucky g po i ls : ∀ qs s,
  Forall2 (parkedAt po) ls qs → StronglySorted unrelated (po :: qs) → Forall (λ q, writable q (treeOf s)) qs →
  w_faults (sh_world s) = [] → fsOk (treeOf s) → Forall plainName po → nodes (treeOf s) !! po = Some (NFile i) →
  ∃ w, linkOrFallback g (relOf po) ls s = onWorld w s ∧ w_faults w = [] ∧ Forall (λ q, nodes (w_fs w) !! q = Some (NFile i)) qs.
Proof.
  induction ls as [|l ls IH]; intros qs s Hl Hu Hw Hf Hs Hpo Hi; cbn [linkOrFallback].
  { apply Forall2_nil_inv_l in Hl as ->. exists (sh_world s). split_and!; [by destruct s|done|constructor]. }
  apply Forall2_cons_inv_l in Hl as (q & qs' & [K1 K2 K3 [K4 K5]] & Hl & ->).
  apply StronglySorted_inv in Hu as [Hu [Hpq Hpqs]%Forall_cons]. apply StronglySorted_inv in Hu as [Hu Hq].
  apply Forall_cons in Hw as [Hw Hws]. destruct (exists_last K4) as (pn & c & ->). rewrite K1.
  destruct (MakeHardlink_lucky pn c po i (sh_world s)) as (w & E & Hfw); [done..|by apply writable_snoc|].
  unfold runDest. rewrite E. apply (MakeHardlink_linked pn c po i) in E as [L Hn]; [|done..]. specialize (Hn eq_refl).
  assert (Hi' : nodes (w_fs w) !! po = Some (NFile i)) by (eapply linked_keeps; [exact L|set_solver|done]).
  destruct (IH qs' (onWorld w s)) as (w' & E' & Hfw' & Hns); [done|by constructor| |done|apply L|done|done|].
  { apply Forall_forall. intros q Hqs. rewrite Forall_forall in Hq, Hws. eapply writable_linked; [|exact L|by apply Hws].
    apply Forall_singleton. by apply unrelated_sym, Hq. }
  exists w'. rewrite E'. split_and!; [done|done|]. apply Forall_cons. split; [|done].
  assert (L' : linked i qs' (w_fs w) (w_fs w')).
  { change (w_fs w') with (treeOf (onWorld w' (onWorld w s))). rewrite <- E'. apply (linkOrFallback_linked g po i ls qs' (onWorld w s)); [done|apply L|done|done]. }
  eapply linked_keeps; [exact L'| |done]. intros Hin. rewrite Forall_forall in Hq. by apply Hq, unrelated_ne in Hin.
Qed.

(** ** Any interleaving of the operations

    [outstanding] are the primaries marked and not yet registered or abandoned,
    [parked] every secondary ever accepted and [handed] every one given back. *)
Inductive hlop :=
| HClaim (k fileID : Z) (rel : bytes) | HMark (fileID k : Z) | HClear (k : Z)
| HAbandon (fileID : Z) | HRegister (fileID : Z) (rel : bytes).
Record hlrun := mkHLRun { hr : hardlinkMap; outstanding : gset Z; parked : list pendingLink; handed : list pendingLink }.

Definition hlstep (o : hlop) (s : hlrun) : hlrun :=
  let '(mkHLRun h out pk hd) := s in
  match o with
  | HClaim k id rel =>
      let '(ok, h') := claimSecondary k id rel h in
      mkHLRun h' out (if ok then pk ++ [mkPending id rel] else pk) hd
  | HMark id k => mkHLRun (markPrimary id k h) ({[id]} ∪ out) pk hd
  | HClear k => let '(ls, h') := clear k h in mkHLRun h' out pk (hd ++ ls)
  | HAbandon id => let '(ls, h') := abandon id h in mkHLRun h' (out ∖ {[id]}) pk (hd ++ ls)
  | HRegister id rel => let '(ls, h') := registerMaterialised id rel h in mkHLRun h' (out ∖ {[id]}) pk (hd ++ ls)
  end.
Definition hlexec (ops : list hlop) : hlrun :=
  foldl (λ s o, hlstep o s) (mkHLRun newHardlinkMap ∅ [] []) ops.

(** Everything still parked, in key order. *)
Definition stillParked (h : hardlinkMap) : list pendingLink := mjoin (map_to_list (pending h)).*2.

Lemma stillParked_insert h k l : pending h !! k = None → 
  mjoin (map_to_list (<[k := l]> (pending h))).*2 ≡ₚ l ++ stillParked h.
Proof.
  intros Hk. unfold stillParked. rewrite map_to_list_insert by done. cbn. done.
Qed.
Lemma stillParked_delete h k :
  stillParked h ≡ₚ waiting k h ++ mjoin (map_to_list (delete k (pending h))).*2.
Proof.
  unfold stillParked, waiting. destruct (pending h !! k) as [l|] eqn:E; cbn.
  - rewrite <- (insert_delete_id _ _ _ E) at 1. by rewrite map_to_list_insert by apply lookup_delete_eq.
  - by rewrite delete_id.
Qed.

Record hlOk (s : hlrun) : Prop := {
  hk_wait : ∀ k, waiting k (hr s) ≠ [] → k ∈ seen (hr s) ∧ keyToPath (hr s) !! k = None;
  hk_live : ∀ k, k ∈ seen (hr s) → keyToPath (hr s) !! k = None → ∃ id, id ∈ outstanding s ∧ fileKey (hr s) !! id = Some k;
  hk_out : ∀ id, id ∈ outstanding s → is_Some (fileKey (hr s) !! id);
  hk_cons : parked s ≡ₚ handed s ++ stillParked (hr s);
}.

Lemma waiting_insert k k' l h a b c :
  waiting k' (mkHL a b c (<[k := l]> (pending h))) = if decide (k = k') then l else waiting k' h.
Proof. unfold waiting. cbn. destruct (decide (k = k')) as [->|]; [by rewrite lookup_insert_eq|by rewrite lookup_insert_ne]. Qed.
Lemma waiting_delete k k' h a b c :
  waiting k' (mkHL a b c (delete k (pending h))) = if decide (k = k') then [] else waiting k' h.
Proof. unfold waiting. cbn. destruct (decide (k = k')) as [->|]; [by rewrite lookup_delete_eq|by rewrite lookup_delete_ne]. Qed.

(** Retiring a key hands its secondaries back and leaves the others alone. *)
Lemma retire_cons s k a b c :
  parked s ≡ₚ handed s ++ stillParked (hr s) →
  parked s ≡ₚ (handed s ++ waiting k (hr s)) ++ stillParked (mkHL a b c (delete k (pending (hr s)))).
Proof. intros ->. rewrite (stillParked_delete (hr s) k). by rewrite app_assoc. Qed.

Definition marks (o : hlop) : list Z := match o with HMark id _ => [id] | _ => [] end.

(** A key given up, by [clear] or by [abandon]. *)
Lemma hlOk_retire h out out' pk hd k :
  hlOk (mkHLRun h out pk hd) → out' ⊆ out → (∀ id, id ∈ out → fileKey h !! id ≠ Some k → id ∈ out') →
  hlOk (mkHLRun (mkHL (delete k (keyToPath h)) (fileKey h) (seen h ∖ {[k]}) (delete k (pending h))) out' pk (hd ++ waiting k h)).
Proof.
  intros [W L O C] Hsub Hkeep. cbn [hr outstanding parked handed] in *.
  split; cbn [hr outstanding parked handed keyToPath fileKey seen].
  - intros k'. rewrite waiting_delete. destruct (decide (k = k')) as [|Hne]; [done|]. intros [? ?]%W.
    split; [set_solver|]. by rewrite lookup_delete_ne.
  - intros k' [Hs Hne]%elem_of_difference. rewrite lookup_delete_ne by set_solver. intros Hp.
    destruct (L k' Hs Hp) as (id & Hi & Hf). exists id. split; [|done]. apply Hkeep; [done|]. set_solver.
  - set_solver.
  - exact (retire_cons (mkHLRun h out pk hd) k _ _ _ C).
Qed.

(** An id that is no primary has no part in the map. *)
Lemma hlOk_unknown h out pk hd id :
  hlOk (mkHLRun h out pk hd) → fileKey h !! id = None → hlOk (mkHLRun h (out ∖ {[id]}) pk (hd ++ [])).
Proof.
  intros [W L O C] Hf. cbn [hr outstanding parked handed] in *. rewrite app_nil_r.
  split; cbn [hr outstanding parked handed]; [exact W| |set_solver|exact C].
  intros k Hs Hp. destruct (L k Hs Hp) as (id' & Hi & Hf'). exists id'. split; [|done].
  apply elem_of_difference. split; [done|]. intros ->%elem_of_singleton. congruence.
Qed.

Lemma hlOk_register h out pk hd id k rel :
  hlOk (mkHLRun h out pk hd) → fileKey h !! id = Some k →
  let '(ls, h') := registerMaterialised id rel h in hlOk (mkHLRun h' (out ∖ {[id]}) pk (hd ++ ls)).
Proof.
  intros [W L O C] Hf. cbn [hr outstanding parked handed] in *. unfold registerMaterialised. rewrite Hf.
  set (paths := match keyToPath h !! k with Some _ => _ | None => _ end).
  assert (Hkp : ∀ k', k' ≠ k → paths !! k' = keyToPath h !! k').
  { intros k' Hne. unfold paths. destruct (keyToPath h !! k); [done|]. by rewrite lookup_insert_ne. }
  assert (Hkk : paths !! k ≠ None).
  { unfold paths. destruct (keyToPath h !! k) eqn:E; [by rewrite E|]. by rewrite lookup_insert_eq. }
  split; cbn [hr outstanding parked handed keyToPath fileKey seen].
  - intros k'. rewrite waiting_delete. destruct (decide (k = k')) as [|Hne]; [done|]. intros [? ?]%W.
    split; [done|]. by rewrite Hkp.
  - intros k' Hs Hp. destruct (decide (k' = k)) as [->|Hne]; [done|]. rewrite Hkp in Hp by done.
    destruct (L k' Hs Hp) as (id' & Hi & Hf'). exists id'. split; [|done].
    apply elem_of_difference. split; [done|]. intros ->%elem_of_singleton. congruence.
  - set_solver.
  - exact (retire_cons (mkHLRun h out pk hd) k _ _ _ C).
Qed.

Lemma hlOk_claim h out pk hd k id rel :
  hlOk (mkHLRun h out pk hd) → hlOk (hlstep (HClaim k id rel) (mkHLRun h out pk hd)).
Proof.
  intros Hok. pose proof Hok as [W L O C]. cbn [hr outstanding parked handed hlstep] in *. unfold claimSecondary.
  destruct (bool_decide_reflect (k ∈ seen h)) as [Hs|]; [|done]. cbn [negb].
  destruct (keyToPath h !! k) as [p|] eqn:Hp; [done|].
  split; cbn [hr outstanding parked handed keyToPath fileKey seen]; [|exact L|exact O|].
  - intros k'. rewrite waiting_insert. destruct (decide (k = k')) as [<-|]; [done|apply W].
  - rewrite C. unfold stillParked at 2. cbn [pending]. rewrite <- insert_delete_eq.
    rewrite map_to_list_insert by apply lookup_delete_eq. rewrite fmap_cons, mjoin_cons. cbn [snd].
    rewrite (stillParked_delete h k), <- !app_assoc. apply Permutation_app_head.
    rewrite (app_assoc (waiting k h) [_]), (Permutation_app_comm (waiting k h) [_]), <- app_assoc.
    rewrite (app_assoc (waiting k h)). apply Permutation_app_comm.
Qed.

Lemma hlOk_mark h out pk hd id k :
  hlOk (mkHLRun h out pk hd) → fileKey h !! id = None → hlOk (mkHLRun (markPrimary id k h) ({[id]} ∪ out) pk hd).
Proof.
  intros [W L O C] Hm. cbn [hr outstanding parked handed] in *.
  split; cbn [hr outstanding parked handed markPrimary keyToPath fileKey seen pending]; [| | |exact C].
  - intros k' Hw. destruct (W k' Hw) as [? ?]. split; [set_solver|done].
  - intros k' Hs Hp. destruct (decide (k = k')) as [<-|Hne].
    { exists id. split; [set_solver|apply lookup_insert_eq]. }
    destruct (L k') as (id' & Hi & Hf); [set_solver|done|]. exists id'. split; [set_solver|].
    rewrite lookup_insert_ne; [done|]. intros ->. congruence.
  - intros id' [->%elem_of_singleton|Hi]%elem_of_union; [by rewrite lookup_insert_eq|].
    destruct (decide (id = id')) as [->|]; [by rewrite lookup_insert_eq|]. rewrite lookup_insert_ne by done. by apply O.
Qed.

Lemma hlstep_ok o s : hlOk s → (∀ id, id ∈ marks o → fileKey (hr s) !! id = None) → hlOk (hlstep o s).
Proof.
  intros Hok Hm. destruct s as [h out pk hd]. destruct o as [k id rel|id k|k|id|id rel]; cbn [hlstep].
  - by apply hlOk_claim.
  - apply hlOk_mark; [done|]. exact (Hm id (list_elem_of_here _ _)).
  - by apply (hlOk_retire h out out pk hd k).
  - unfold abandon. destruct (fileKey h !! id) as [k|] eqn:Hf; [|by apply hlOk_unknown].
    apply (hlOk_retire h out _ pk hd k); [done|set_solver|]. intros id' Hi Hne.
    apply elem_of_difference. split; [done|]. intros ->%elem_of_singleton. congruence.
  - destruct (fileKey h !! id) as [k|] eqn:Hf; [|unfold registerMaterialised; rewrite Hf; by apply hlOk_unknown].
    pose proof (hlOk_register h out pk hd id k rel Hok Hf) as Hr. by destruct (registerMaterialised id rel h).
Qed.

(** Marking is the only operation that touches [fileKey]. *)
Lemma hlstep_fileKey o s id : id ∉ marks o → fileKey (hr (hlstep o s)) !! id = fileKey (hr s) !! id.
Proof.
  intros Hn. destruct s as [h out pk hd]. destruct o as [k i rel|i k|k|i|i rel]; cbn [hlstep hr].
  - unfold claimSecondary. destruct (negb _); [done|]. by destruct (keyToPath h !! k).
  - cbn. rewrite lookup_insert_ne; [done|]. intros ->. apply Hn. cbn. apply list_elem_of_here.
  - done.
  - unfold abandon. by destruct (fileKey h !! i).
  - unfold registerMaterialised. by destruct (fileKey h !! i).
Qed.

Lemma hlexec_ok ops s : hlOk s → NoDup (mjoin (marks <$> ops)) →
  (∀ id, id ∈ mjoin (marks <$> ops) → fileKey (hr s) !! id = None) → hlOk (foldl (λ s o, hlstep o s) s ops).
Proof.
  revert s. induction ops as [|o ops IH]; intros s Hok Hnd Hf; [done|]. cbn [foldl].
  rewrite fmap_cons, mjoin_cons in *. apply list.NoDup_app in Hnd as (_ & Hdisj & Hnd).
  apply IH; [apply hlstep_ok; [done|]|done|].
  - intros id Hi. apply Hf. set_solver.
  - intros id Hi. rewrite hlstep_fileKey; [apply Hf; set_solver|]. intros Hin. by eapply Hdisj.
Qed.

(** C37: no hard-link secondary is ever lost.  Whatever order the decide and fetch
    goroutines' operations come in (each file becomes a primary at most once), a
    parked secondary always has a primary that is still outstanding, and the
    secondaries accepted are exactly those handed back and those still parked, so
    that when no primary is outstanding all of them have been handed back, each
    once. *)
Theorem no_secondary_lost ops :
  NoDup (mjoin (marks <$> ops)) →
  let s := hlexec ops in
  (∀ k, waiting k (hr s) ≠ [] → ∃ id, id ∈ outstanding s ∧ fileKey (hr s) !! id = Some k) ∧
  parked s ≡ₚ handed s ++ stillParked (hr s) ∧
  (outstanding s = ∅ → parked s ≡ₚ handed s).
Proof.
  intros Hnd. cbv zeta. pose proof (hlexec_ok ops (mkHLRun newHardlinkMap ∅ [] [])) as H.
  destruct H as [W L O C]; [|done|intros id _; apply lookup_empty|].
  { split; cbn; [|set_solver|set_solver|done]. intros k. unfold waiting. cbn. by rewrite lookup_empty. }
  fold (hlexec ops) in W, L, O, C.
  assert (Hlive : ∀ k, waiting k (hr (hlexec ops)) ≠ [] → ∃ id, id ∈ outstanding (hlexec ops) ∧ fileKey (hr (hlexec ops)) !! id = Some k).
  { intros k Hw. destruct (W k Hw) as [? ?]. by apply L. }
  split_and!; [exact Hlive|exact C|]. intros Hout. rewrite C.
  assert (Hnil : stillParked (hr (hlexec ops)) = []); [|by rewrite Hnil, app_nil_r].
  unfold stillParked. set (h := hr (hlexec ops)) in *.
  assert (Hall : Forall (λ kl, kl.2 = []) (map_to_list (pending h))).
  { apply Forall_forall. intros [k l] Hkl%elem_of_map_to_list. cbn. destruct l as [|x l]; [done|].
    destruct (Hlive k) as (id & Hid & _); [unfold waiting; by rewrite Hkl|]. rewrite Hout in Hid. set_solver. }
  clear -Hall. induction Hall as [|[k l] ls Hl Hall IH]; [done|]. rewrite fmap_cons, mjoin_cons. cbn in *. by rewrite Hl, IH.
Qed.

(** Three names of one inode, the primary's link to the second failing. *)
Definition ex_hlops : list hlop :=
  [HMark 1 77; HClaim 77 2 (bs "b"); HClaim 77 3 (bs "c"); HRegister 1 (bs "a"); HClear 77; HMark 4 77; HClaim 77 5 (bs "e"); HAbandon 4].
Lemma no_secondary_lost_witness :
  pl_fileID <$> handed (hlexec ex_hlops) = [2; 3; 5] ∧ parked (hlexec ex_hlops) ≡ₚ handed (hlexec ex_hlops).
Proof.
  split; [vm_compute; reflexivity|].
  apply (no_secondary_lost ex_hlops); [|vm_compute; reflexivity].
  refine (bool_decide_eq_true_1 (NoDup _) _). vm_compute. reflexivity.
Defined.
