(* ===== verification/Decide.v ===== *)
(** * Decide: what the receiver does with a group manifest
    (src/internal/receiver/decide.go)

    [decideGroup] and everything below it, on the shared state of Receiver and
    the file system of Fs.  Blocking on a full queue is an explicit outcome; the
    rest of the handler is then [decideResume]. *)
From S2P Require Import Prelude Fault Strconv Glob Wire Plan Paths Journal Digest Fs Dest Queue Receiver.

Definition entryTypeFile : Z := 0.
Definition entryTypeDir : Z := 1.
Definition entryTypeSymlink : Z := 2.

(** [filepath.FromSlash]. *)
Definition FromSlash (p : bytes) : bytes :=
  if bool_decide (PathSeparator = c_slash) then p else (λ c, if bool_decide (c = c_slash) then PathSeparator else c) <$> p.
(** [os.FileMode(m).Perm()]. *)
Definition PermMode (m : Z) : Z := Z.land m 511.
(** [strconv.Atoi(strings.TrimPrefix(string(c), "E"))] as a [uint16]. *)
Definition numericCode (c : Code) : Z := wrap_u 16 (ParseInt (TrimPrefix c (bs "E"))).1.

Record dirRec := mkDirRec { dr_mode : Z; dr_mtime : Z * Z }.
Record decider := mkDecider {
  de_quick : bool; de_allowUnsafeLinks : bool; de_dryRun : bool; de_algo : Algo; de_destPlat : Platform;
  de_prior : gmap Z JRecord;
}.
(** What a decide goroutine changes: the shared state, the collision set, the
    recorded directories, the digest cache, the control messages sent and the
    fate of the coming sends. *)
Record dst := mkDst {
  ds_sh : shared; ds_col : Collisions; ds_dirMeta : gmap bytes dirRec; ds_cache : option Cache;
  ds_sent : list Message; ds_fates : list (option gerr);
}.
Definition withSh (f : shared → shared) (s : dst) : dst :=
  mkDst (f (ds_sh s)) (ds_col s) (ds_dirMeta s) (ds_cache s) (ds_sent s) (ds_fates s).
Definition send (m : Message) (s : dst) : option gerr * dst :=
  match ds_fates s with
  | Some e :: fs => (Some e, mkDst (ds_sh s) (ds_col s) (ds_dirMeta s) (ds_cache s) (ds_sent s) fs)
  | fs => (None, mkDst (ds_sh s) (ds_col s) (ds_dirMeta s) (ds_cache s) (ds_sent s ++ [m]) (tail fs))
  end.

Definition mtimeEqual (m : meta) (e : ManifestEntry.t) : bool :=
  (fst (md_mtime m) =? ManifestEntry.MtimeSec e) && (snd (md_mtime m) =? ManifestEntry.MtimeNsec e).

Section decide.
Context `{Unicode} `{HashFns}.
(** [statKey] of an open file. *)
Context (statKey : Z → inode → Algo → option CacheKey).
Context (d : decider).

(** Run an operation of the destination root, its error as a value. *)
Definition runRoot {A} (m : IO A) (s : dst) : result stdErr A * dst :=
  let '(r, w) := m (sh_world (ds_sh s)) in (r, withSh (onWorld w) s).

(** [digest.HashFile(filepath.Join(d.dest.Dir(), rel), ...)], the whole file in
    one read. *)
Definition hashDest (rel : bytes) (s : dst) : result gerr bytes * dst :=
  let '(o, s) := runRoot (OpenRead rel) s in
  let '(r, cache) :=
    match o with
    | Err e => HashFile rel (de_algo d) (Some e) None None [] None (ds_cache s)
    | Ok i =>
        let x := default (mkInode [] (mkMeta 0 (0, 0))) (inodes (w_fs (sh_world (ds_sh s))) !! i) in
        HashFile rel (de_algo d) None None (statKey i x (de_algo d)) [RdData (i_content x)] None (ds_cache s)
    end in
  (r, mkDst (ds_sh s) (ds_col s) (ds_dirMeta s) cache (ds_sent s) (ds_fates s)).

Definition decideFileContent (rel : bytes) (e : ManifestEntry.t) (s : dst) : bool * dst :=
  let '(fi, s) := runRoot (Lstat rel) s in
  match fi with
  | Ok (NFile i) =>
      let x := default (mkInode [] (mkMeta 0 (0, 0))) (inodes (w_fs (sh_world (ds_sh s))) !! i) in
      if negb (Z.of_nat (length (i_content x)) =? wrap_i 64 (ManifestEntry.Size e)) then (true, s)
      else if de_quick d && mtimeEqual (i_meta x) e then (false, s)
      else if bool_decide (ManifestEntry.Digest e = []) then (negb (ManifestEntry.Size e =? 0), s)
      else
        match hashDest rel s with
        | (Err _, s) => (true, s)
        | (Ok local, s) => (negb (bool_decide (local = ManifestEntry.Digest e)), s)
        end
  | _ => (true, s)   (* absent, unreadable, a directory or a symbolic link *)
  end.

Definition decideFile (groupID : Z) (rel : bytes) (fileID : Z) (e : ManifestEntry.t) (s : dst) : bool * dst :=
  let content (isPrimary : bool) (s : dst) : bool * dst :=
    let '(need, s) := decideFileContent rel e s in
    if isPrimary && negb need && negb (de_dryRun d) then
      let '(ls, h) := registerMaterialised fileID rel (sh_hl (ds_sh s)) in
      (need, withSh (λ sh, linkOrFallback groupID rel ls (onHL h sh)) s)
    else (need, s) in
  if hasHardlinkKey (ManifestEntry.Flags e) then
    let k := ManifestEntry.HardlinkKey e in
    match pathFor k (sh_hl (ds_sh s)) with
    | Some p =>
        if de_dryRun d then (false, s)
        else
          match runDest (MakeHardlink rel p) (ds_sh s) with
          | (Ok _, sh) => (false, withSh (λ _, sh) s)
          | (Err _, sh) =>
              let '(orphans, h) := clear k (sh_hl sh) in
              let sh := foldl (λ sh o, fetchInstead groupID (pl_fileID o) (pl_rel o) sh) (onHL h sh) orphans in
              content true (withSh (λ _, onHL (markPrimary fileID k (sh_hl sh)) sh) s)
          end
    | None =>
        let '(claimed, h) := claimSecondary k fileID rel (sh_hl (ds_sh s)) in
        if claimed then (false, withSh (onHL h) s)
        else content true (withSh (onHL (markPrimary fileID k h)) s)
    end
  else content false s.

Definition decideDir (rel : bytes) (e : ManifestEntry.t) (s : dst) : dst :=
  let s := withSh (count Dirs 1) s in
  let s :=
    if bool_decide (rel = [] ∨ rel = dot) then s
    else mkDst (ds_sh s) (ds_col s)
           (<[rel := mkDirRec (PermMode (ManifestEntry.Mode e)) (unixTime (ManifestEntry.MtimeSec e) (ManifestEntry.MtimeNsec e))]> (ds_dirMeta s))
           (ds_cache s) (ds_sent s) (ds_fates s) in
  if de_dryRun d then s else withSh (λ sh, (runDest (EnsureDir rel 493) sh).2) s.

Definition placeSymlink (rel target : bytes) (s : dst) : dst :=
  match runDest (MakeSymlink rel target (de_allowUnsafeLinks d)) (ds_sh s) with
  | (Err err, sh) => withSh (λ _, if bool_decide (GetCode err = E7011) then count SymlinksRejected 1 sh else sh) s
  | (Ok _, sh) => withSh (λ _, count Symlinks 1 sh) s
  end.
Definition decideSymlink (rel : bytes) (e : ManifestEntry.t) (s : dst) : dst :=
  let target := ManifestEntry.LinkTarget e in
  if de_dryRun d then withSh (count Symlinks 1) s
  else
    match runRoot (Lstat rel) s with
    | (Ok (NLink _), s) =>
        match runRoot (Readlink rel) s with
        | (Ok cur, s) => if bool_decide (cur = target) then s else placeSymlink rel target s
        | (Err _, s) => placeSymlink rel target s
        end
    | (_, s) => placeSymlink rel target s
    end.

(** The running results of a group. *)
Record acc := mkAcc {
  a_needed : list Z; a_rejected : list RejectedEntry.t; a_items : list needItem; a_bytes : Z; a_skipped : Z;
}.
Definition rejectEntry (idx : Z) (err : gerr) (a : acc) : acc :=
  mkAcc (a_needed a) (a_rejected a ++ [RejectedEntry.mk idx (numericCode (GetCode err))]) (a_items a) (a_bytes a) (a_skipped a).
Definition skipEntry (a : acc) : acc :=
  mkAcc (a_needed a) (a_rejected a) (a_items a) (a_bytes a) (wrap_u 16 (a_skipped a + 1)).

(** An entry that is neither a directory nor a symlink. *)
Definition decideRegular (gm : GroupManifest.t) (idx fileID : Z) (rel : bytes) (e : ManifestEntry.t) (a : acc) (s : dst) : acc * dst :=
  let fm := mkFileMeta rel (wrap_i 64 (ManifestEntry.Size e)) (PermMode (ManifestEntry.Mode e))
              (unixTime (ManifestEntry.MtimeSec e) (ManifestEntry.MtimeNsec e)) (ManifestEntry.Digest e)
              (ManifestEntry.HardlinkKey e) (hasHardlinkKey (ManifestEntry.Flags e)) in
  let setMeta := withSh (λ sh, onMeta (metaStore.set fileID fm (sh_meta sh)) sh) in
  let s := if fm_hasHLKey fm then setMeta s else s in
  let '(need, s) := decideFile (GroupManifest.GroupID gm) rel fileID e s in
  if negb need then (skipEntry a, withSh (count FilesSkipped 1) s)
  else
    let s := if fm_hasHLKey fm then s else setMeta s in
    (mkAcc (a_needed a ++ [idx]) (a_rejected a)
       (a_items a ++ [mkItem fileID (GroupManifest.GroupID gm) (wrap_i 64 (ManifestEntry.Size e)) rel 0])
       (wrap_i 64 (a_bytes a + wrap_i 64 (ManifestEntry.Size e))) (a_skipped a), s).

Definition decideEntry (gm : GroupManifest.t) (i : nat) (e : ManifestEntry.t) (a : acc) (s : dst) : acc * dst :=
  let idx := wrap_u 16 (Z.of_nat i) in
  let fileID := wrap_u 64 (GroupManifest.FirstFileID gm + Z.of_nat i) in
  let relSlash := ManifestEntry.Path e in
  match ValidatePath relSlash (de_destPlat d) with
  | Some err =>
      (rejectEntry idx err a,
       withSh (λ sh, let sh := count FilesRejected 1 sh in
                     if ManifestEntry.EntryType e =? entryTypeSymlink then count SymlinksRejected 1 sh else sh) s)
  | None =>
      let rel := FromSlash relSlash in
      let '(cErr, col) := Add (ds_col s) relSlash in
      let s := mkDst (ds_sh s) col (ds_dirMeta s) (ds_cache s) (ds_sent s) (ds_fates s) in
      match cErr with
      | Some err => (rejectEntry idx err a, withSh (count FilesRejected 1) s)
      | None =>
          match de_prior d !! fileID with
          | Some _ => (skipEntry a, withSh (count FilesSkipped 1) s)
          | None =>
              if ManifestEntry.EntryType e =? entryTypeDir then (a, decideDir rel e s)
              else if ManifestEntry.EntryType e =? entryTypeSymlink then (skipEntry a, decideSymlink rel e s)
              else
                decideRegular gm idx fileID rel e a s
          end
      end
  end.

Fixpoint decideEntries (gm : GroupManifest.t) (i : nat) (es : list ManifestEntry.t) (a : acc) (s : dst) : acc * dst :=
  match es with
  | [] => (a, s)
  | e :: es => let '(a, s) := decideEntry gm i e a s in decideEntries gm (S i) es a s
  end.

(** How a call stands: returned, or waiting for room in the need queue. *)
Inductive dres := Returned (e : option gerr) (s : dst) | Waiting (its : list needItem) (s : dst).

(** From [pushGroup] on. *)
Definition decideResume (ctxErr : option stdErr) (its : list needItem) (s : dst) : dres :=
  let credit (s : dst) : dres := let '(e, s) := send (MCredit (Credit.mk 1)) s in Returned e s in
  if de_dryRun d then credit s
  else
    match pushGroup ctxErr its (sh_q (ds_sh s)) with
    | None => Waiting its s
    | Some (Some e, q) =>
        let s := withSh (onQueue q) s in
        if isStd (StdOther "need queue closed") e || bool_decide (ctxErr ≠ None) then Returned None s else Returned (Some e) s
    | Some (None, q) => credit (withSh (onQueue q) s)
    end.

(** [syncErr] is what [journal.Sync] returns. *)
Definition decideGroup (ctxErr : option stdErr) (syncErr : option gerr) (gm : GroupManifest.t) (s : dst) : dres :=
  let '(a, s) := decideEntries gm 0 (GroupManifest.Entries gm) (mkAcc [] [] [] 0 0) s in
  let needed := merge_sort Z.le (a_needed a) in
  let s := withSh (addNeeded (a_bytes a) (Z.of_nat (length needed))) s in
  match send (MGroupDecision (GroupDecision.mk (GroupManifest.GroupID gm) needed (a_skipped a) (a_rejected a))) s with
  | (Some e, s) => Returned (Some e) s
  | (None, s) =>
      match syncErr with
      | Some e => Returned (Some e) s
      | None =>
          if 0 <? a_bytes a then
            let '(_, ferr, g) := spaceGuard.reserve (a_bytes a) (sh_guard (ds_sh s)) in
            let s := withSh (onGuard g) s in
            match ferr with Some e => Returned (Some e) s | None => decideResume ctxErr (a_items a) s end
          else decideResume ctxErr (a_items a) s
      end
  end.

(** [applyDirMeta] (run.go): every recorded directory, deepest first; Go leaves the
    order of directories of one depth open, here it is the map's. *)
Definition slashes (rel : bytes) : nat := length (filter (λ c, c = PathSeparator) rel).
Definition deeper (a b : bytes) : Prop := (slashes b <= slashes a)%nat.
#[local] Instance deeper_dec : RelDecision deeper := λ a b, Nat.le_dec (slashes b) (slashes a).
Definition applyDirMeta (s : dst) : dst :=
  foldl (λ s '(rel, r), withSh (λ sh, (runDest (ApplyMeta rel (dr_mode r) (dr_mtime r)) sh).2) s) s
    (omap (λ rel, pair rel <$> ds_dirMeta s !! rel) (merge_sort deeper (map_to_list (ds_dirMeta s)).*1)).
End decide.

(** ** Skipping is sound *)
Section skipping.
Context `{HashFns}.

Definition fsOf (s : dst) : fs := w_fs (sh_world (ds_sh s)).

(** The table of ARCHITECTURE §11.2 on a regular file. *)
Definition upToDate (d : decider) (e : ManifestEntry.t) (x : inode) : Prop :=
  Z.of_nat (length (i_content x)) = wrap_i 64 (ManifestEntry.Size e) ∧
  (de_quick d = true ∧ md_mtime (i_meta x) = (ManifestEntry.MtimeSec e, ManifestEntry.MtimeNsec e) ∨
   ManifestEntry.Digest e = [] ∧ ManifestEntry.Size e = 0 ∨
   ManifestEntry.Digest e ≠ [] ∧ hashOf (de_algo d) (i_content x) = ManifestEntry.Digest e).

Lemma runRoot_read {A} (f : fs → result stdErr A) s r s' :
  runRoot (sys (λ t, (f t, t))) s = (r, s') →
  s' = withSh (onWorld (mkWorld (fsOf s) (tail (w_faults (sh_world (ds_sh s)))))) s ∧
  (r = f (fsOf s) ∨ ∃ x fl, r = Err (ioErr x) ∧ w_faults (sh_world (ds_sh s)) = Some x :: fl).
Proof.
  unfold runRoot, sys, fsOf. destruct (w_faults (sh_world (ds_sh s))) as [|[x|] fl]; intros [= <- <-];
    (split; [done|]); eauto 6.
Qed.

Lemma mtimeEqual_iff m e : mtimeEqual m e = true ↔ md_mtime m = (ManifestEntry.MtimeSec e, ManifestEntry.MtimeNsec e).
Proof. unfold mtimeEqual. rewrite andb_true_iff, !Z.eqb_eq. destruct (md_mtime m). cbn. naive_solver. Qed.

(** The node the entry's name resolves to. *)
Definition present (rel : bytes) (s : dst) (i : Z) (x : inode) : Prop :=
  ∃ p, locate (fsOf s) false rel = Ok p ∧ nodes (fsOf s) !! p = Some (NFile i) ∧ inodes (fsOf s) !! i = Some x.

Lemma OpenRead_present rel s i x : present rel s i x →
  (y ← stat_ true rel (fsOf s); match y.2 with NFile i => Ok i | _ => Err (StdOther "is a directory") end) = Ok i.
Proof.
  intros (p & Hl & Hn & _). unfold stat_, locate in *. apply resolve_follow in Hl; [|by intros t ?; congruence].
  rewrite Hl. cbn. by rewrite Hn.
Qed.

Context (statKey : Z → inode → Algo → option CacheKey) (version : CacheKey → bytes).
(** A stat key names one version of a file's content, and its algorithm. *)
Hypothesis statKey_version : ∀ i x a k, statKey i x a = Some k → ckAlgo k = a ∧ i_content x = version k.
#[local] Set Default Proof Using "Type*".

Lemma hashDest_spec d rel s i x r s' :
  present rel s i x → coherent version (ds_cache s) → hashDest statKey d rel s = (r, s') →
  coherent version (ds_cache s') ∧ fsOf s' = fsOf s ∧
  (∀ v, r = Ok v → v = hashOf (de_algo d) (i_content x)) ∧
  (w_faults (sh_world (ds_sh s)) = [] → de_algo d = MD5 ∨ de_algo d = SHA256 → is_ok r = true).
Proof.
  intros Hp Hc. unfold hashDest. destruct (runRoot (OpenRead rel) s) as [o s1] eqn:E.
  apply runRoot_read in E as [-> Ho]. rewrite (OpenRead_present _ _ _ _ Hp) in Ho.
  set (s1 := withSh _ s). change (ds_cache s1) with (ds_cache s).
  assert (Hx : inodes (fsOf s1) !! i = Some x) by by destruct Hp as (p & _ & _ & ?).
  destruct o as [j|e].
  - assert (j = i) as -> by (destruct Ho as [[= ->]|(? & ? & ? & _)]; done).
    fold (fsOf s1). rewrite Hx. cbn [default from_option id].
    pose proof (HashFile_transparent version rel (de_algo d) None None (statKey i x (de_algo d)) [RdData (i_content x)] None (ds_cache s) Hc) as Ht.
    destruct (HashFile _ _ _ _ _ _ _ _) as [r' c'] eqn:E. intros [= <- <-].
    destruct Ht as (H1 & H2 & H3); [intros k Hk; by eapply statKey_version|].
    assert (Hv : ∀ k, statKey i x (de_algo d) = Some k → mjoin [i_content x] = version k).
    { intros k Hk. cbn. rewrite app_nil_r. by eapply statKey_version. }
    split_and!; [|done| |intros _ Ha; by eapply (H2 [i_content x])].
    + cbn. destruct r' as [v|e]; [by eapply (H1 [i_content x] v)|]. destruct (H3 e eq_refl) as [-> _]. done.
    + intros v ->. destruct (H1 [i_content x] v) as [-> _]; try done. cbn. by rewrite app_nil_r.
  - intros E. destruct (HashFile _ _ _ _ _ _ _ _) as [r' c'] eqn:Eh. injection E as <- <-.
    assert (Hr : (∃ e', r' = Err e') ∧ c' = ds_cache s).
    { unfold HashFile in Eh. destruct (New (de_algo d)); injection Eh as <- <-; eauto. }
    destruct Hr as [[e' ->] ->]. split_and!; [done|done|done|].
    intros Hf. destruct Ho as [?|(? & ? & _ & Hw)]; [done|]. rewrite Hf in Hw. done.
Qed.

(** The answer is right: a skip always, a fetch when no I/O operation fails. *)
Definition decided (d : decider) (rel : bytes) (e : ManifestEntry.t) (s : dst) (need : bool) (s' : dst) : Prop :=
  fsOf s' = fsOf s ∧ coherent version (ds_cache s') ∧
  (need = false → ∃ i x, present rel s i x ∧ upToDate d e x) ∧
  (need = true → w_faults (sh_world (ds_sh s)) = [] → de_algo d = MD5 ∨ de_algo d = SHA256 →
     ∀ i x, present rel s i x → ¬ upToDate d e x).

Lemma Lstat_present rel s i x : present rel s i x →
  (y ← stat_ false rel (fsOf s); mret y.2) = (Ok (NFile i) : result stdErr node).
Proof. intros (p & Hl & Hn & _). unfold stat_. rewrite Hl. cbn. by rewrite Hn. Qed.

Lemma Lstat_file rel s i : fsOk (fsOf s) →
  (y ← stat_ false rel (fsOf s); mret y.2) = (Ok (NFile i) : result stdErr node) →
  ∃ x, present rel s i x ∧ ∀ j y, present rel s j y → y = x.
Proof.
  intros Hs Ho. unfold stat_ in Ho. destruct (locate (fsOf s) false rel) as [p|] eqn:El; [|done]. cbn in Ho.
  destruct (nodes (fsOf s) !! p) as [n|] eqn:En; [|done]. injection Ho as ->.
  destruct (ok_inode _ Hs _ _ En) as [[x Hx] _]. exists x. split; [by exists p|].
  intros j y (q & Hq & Hn & Hy). congruence.
Qed.

Lemma hashDest_decided d rel e s s1 i x r s2 :
  present rel s i x → (∀ j y, present rel s j y → y = x) → fsOf s1 = fsOf s → ds_cache s1 = ds_cache s →
  w_faults (sh_world (ds_sh s1)) = tail (w_faults (sh_world (ds_sh s))) → coherent version (ds_cache s) →
  Z.of_nat (length (i_content x)) = wrap_i 64 (ManifestEntry.Size e) → ManifestEntry.Digest e ≠ [] →
  ¬ (de_quick d = true ∧ md_mtime (i_meta x) = (ManifestEntry.MtimeSec e, ManifestEntry.MtimeNsec e)) →
  hashDest statKey d rel s1 = (r, s2) →
  decided d rel e s (match r with Ok v => negb (bool_decide (v = ManifestEntry.Digest e)) | Err _ => true end) s2.
Proof.
  intros Hp Hu Hf1 Hc1 Hw1 Hc Hlen Hd Hnq Eh.
  apply (hashDest_spec d rel s1 i x) in Eh as (H1 & H2 & H3 & H4); [|unfold present; by rewrite Hf1|by rewrite Hc1].
  split_and!; [congruence|done| |].
  - destruct r as [v|e0]; [|done]. intros Hv%negb_false_iff%bool_decide_eq_true. exists i, x. split; [done|].
    split; [done|]. right. right. split; [done|]. by rewrite <- (H3 v).
  - intros Hn Hf Ha j y Hj [_ Hy]. apply Hu in Hj as ->. destruct r as [v|e0].
    + apply negb_true_iff, bool_decide_eq_false in Hn. destruct Hy as [?|[[? _]|[_ Hh]]]; [done|done|]. by rewrite (H3 v) in Hn.
    + discriminate H4; [|done]. by rewrite Hw1, Hf.
Qed.

Lemma decideFileContent_decided d rel e s need s' :
  fsOk (fsOf s) → coherent version (ds_cache s) →
  decideFileContent statKey d rel e s = (need, s') → decided d rel e s need s'.
Proof.
  intros Hs Hc. unfold decideFileContent. destruct (runRoot (Lstat rel) s) as [fi s1] eqn:E.
  apply runRoot_read in E as [-> Ho]. set (s1 := withSh _ s).
  assert (Hother : (∀ i, fi ≠ Ok (NFile i)) → decided d rel e s true s1).
  { intros Hfi. split_and!; try done. intros _ Hf _ i x Hp _.
    destruct Ho as [Ho|(? & ? & _ & Hw)]; [|by rewrite Hf in Hw]. rewrite (Lstat_present _ _ _ _ Hp) in Ho. by apply (Hfi i). }
  destruct fi as [[m|i|t]|e0]; [intros [= <- <-]; by apply Hother| |intros [= <- <-]; by apply Hother..]. clear Hother.
  destruct Ho as [Ho|(? & ? & ? & _)]; [|done]. destruct (Lstat_file _ _ _ Hs (eq_sym Ho)) as (x & Hp & Hu).
  assert (Hx : inodes (fsOf s) !! i = Some x) by by destruct Hp as (p & _ & _ & ?).
  change (w_fs (sh_world (ds_sh s1))) with (fsOf s). rewrite Hx. cbn [default from_option id].
  assert (Hskip : upToDate d e x → decided d rel e s false s1) by (intros Hx'; split_and!; [done|done|by eauto|done]).
  assert (Hfetch : ¬ upToDate d e x → decided d rel e s true s1).
  { intros Hx'. split_and!; try done. intros _ _ _ j y Hj. by rewrite (Hu j y Hj). }
  destruct (Z.eqb_spec (Z.of_nat (length (i_content x))) (wrap_i 64 (ManifestEntry.Size e))) as [Hlen|Hlen]; cbn [negb].
  2:{ intros [= <- <-]. apply Hfetch. by intros [? _]. }
  destruct (de_quick d && mtimeEqual (i_meta x) e) eqn:Hq.
  { apply andb_true_iff in Hq as [Hq Hm%mtimeEqual_iff]. intros [= <- <-]. apply Hskip. split; [done|by left]. }
  assert (Hnq : ¬ (de_quick d = true ∧ md_mtime (i_meta x) = (ManifestEntry.MtimeSec e, ManifestEntry.MtimeNsec e))).
  { rewrite <- mtimeEqual_iff, <- andb_true_iff. congruence. }
  case_bool_decide as Hd.
  { intros [= <- <-]. destruct (Z.eqb_spec (ManifestEntry.Size e) 0) as [Hz|Hz]; cbn [negb].
    - apply Hskip. split; [done|by right; left].
    - apply Hfetch. by intros [_ [?|[[_ ?]|[? _]]]]. }
  destruct (hashDest statKey d rel s1) as [r s2] eqn:Eh.
  eapply (hashDest_decided d rel e s s1 i x) in Eh; try done.
  destruct r as [v|e0]; by intros [= <- <-].
Qed.
(** C21: the content decision is right.  A file that is skipped is a regular file
    already at the entry's name with the entry's size and either the entry's
    modification time (quick mode), no content, or content with the entry's
    digest, through a coherent digest cache or not and whatever I/O fails; when
    nothing fails a regular file is fetched exactly when that does not hold.
    Nothing in the tree changes and the cache stays coherent. *)
Theorem skip_decision_right d rel e s :
  fsOk (fsOf s) → coherent version (ds_cache s) →
  let '(need, s') := decideFileContent statKey d rel e s in
  fsOf s' = fsOf s ∧ coherent version (ds_cache s') ∧
  (need = false → ∃ i x, present rel s i x ∧ upToDate d e x) ∧
  (w_faults (sh_world (ds_sh s)) = [] → de_algo d = MD5 ∨ de_algo d = SHA256 →
     ∀ i x, present rel s i x → need = false ↔ upToDate d e x).
Proof.
  intros Hs Hc. destruct (decideFileContent statKey d rel e s) as [need s'] eqn:E.
  apply decideFileContent_decided in E as (H1 & H2 & H3 & H4); [|done..]. split_and!; [done..|].
  intros Hf Ha i x Hp. destruct need.
  - split; [done|]. intros Hu. by destruct (H4 eq_refl Hf Ha i x Hp).
  - split; [|done]. intros _. destruct (H3 eq_refl) as (j & y & Hq & Hu).
    destruct Hp as (p & P1 & P2 & P3), Hq as (q & Q1 & Q2 & Q3). assert (y = x) as -> by congruence. done.
Qed.
End skipping.

(** ** A group is accounted for *)

(** What becomes of an entry. *)
Inductive verdict := VNeed | VSkip | VDir | VReject (c : Code).
#[global] Instance verdict_eq_dec : EqDecision verdict.
Proof. solve_decision. Defined.

(** The indices with verdict [v]. *)
Definition with_verdict (v : verdict) (vs : list verdict) : list nat := filter (λ i, vs !! i = Some v) (seq 0 (length vs)).
Definition rejections (vs : list verdict) : list RejectedEntry.t :=
  mjoin (imap (λ i v, match v with VReject c => [RejectedEntry.mk (Z.of_nat i) (numericCode c)] | _ => [] end) vs).

Definition entryAt (gm : GroupManifest.t) (i : nat) : ManifestEntry.t :=
  default (ManifestEntry.mk 0 0 [] 0 0 0 0 [] [] 0) (GroupManifest.Entries gm !! i).
Definition entryID (gm : GroupManifest.t) (i : nat) : Z := GroupManifest.FirstFileID gm + Z.of_nat i.
Definition itemAt (gm : GroupManifest.t) (i : nat) : needItem :=
  mkItem (entryID gm i) (GroupManifest.GroupID gm) (wrap_i 64 (ManifestEntry.Size (entryAt gm i)))
    (FromSlash (ManifestEntry.Path (entryAt gm i))) 0.
Definition metaAt (gm : GroupManifest.t) (i : nat) : fileMeta :=
  let e := entryAt gm i in
  mkFileMeta (FromSlash (ManifestEntry.Path e)) (wrap_i 64 (ManifestEntry.Size e)) (PermMode (ManifestEntry.Mode e))
    (unixTime (ManifestEntry.MtimeSec e) (ManifestEntry.MtimeNsec e)) (ManifestEntry.Digest e)
    (ManifestEntry.HardlinkKey e) (hasHardlinkKey (ManifestEntry.Flags e)).

(** Steps that send nothing and leave the collision set and the metadata alone. *)
Record keeps (s s' : dst) : Prop := {
  kp_sent : ds_sent s' = ds_sent s; kp_fates : ds_fates s' = ds_fates s; kp_col : ds_col s' = ds_col s;
  kp_meta : sh_meta (ds_sh s') = sh_meta (ds_sh s);
}.
Lemma keeps_refl s : keeps s s.
Proof. done. Qed.
Lemma keeps_trans s1 s2 s3 : keeps s1 s2 → keeps s2 s3 → keeps s1 s3.
Proof. intros [????] [????]. split; congruence. Qed.
Lemma keeps_withSh f s : sh_meta (f (ds_sh s)) = sh_meta (ds_sh s) → keeps s (withSh f s).
Proof. by split. Qed.

Lemma fetchInstead_meta g id rel s : sh_meta (fetchInstead g id rel s) = sh_meta s.
Proof.
  unfold fetchInstead. destruct (metaStore.get _ _) as [fm|]; [|done].
  destruct (spaceGuard.reserve _ _) as [[w e] gd]. by destruct e.
Qed.
Lemma runDest_meta {A} (m : SE world gerr A) s r s' : runDest m s = (r, s') → sh_meta s' = sh_meta s.
Proof. unfold runDest. destruct (m _). by intros [= _ <-]. Qed.
Lemma linkOrFallback_meta g p ls s : sh_meta (linkOrFallback g p ls s) = sh_meta s.
Proof.
  revert s. induction ls as [|l ls IH]; intros s; cbn [linkOrFallback]; [done|].
  destruct (runDest _ s) as [r s1] eqn:E. apply runDest_meta in E. rewrite IH.
  destruct r; [done|]. by rewrite fetchInstead_meta.
Qed.
Lemma foldl_fetchInstead_meta g (ls : list pendingLink) s :
  sh_meta (foldl (λ sh o, fetchInstead g (pl_fileID o) (pl_rel o) sh) s ls) = sh_meta s.
Proof. revert s. induction ls as [|l ls IH]; intros s; cbn [foldl]; [done|]. by rewrite IH, fetchInstead_meta. Qed.
Lemma runRoot_keeps {A} (m : IO A) s r s' : runRoot m s = (r, s') → keeps s s'.
Proof. unfold runRoot. destruct (m _). by intros [= _ <-]. Qed.

#[local] Hint Resolve keeps_refl keeps_trans : core.

Section accounting.
Context `{Unicode} `{HashFns} (statKey : Z → inode → Algo → option CacheKey) (d : decider).

Lemma decideFileContent_keeps rel e s : keeps s (decideFileContent statKey d rel e s).2.
Proof.
  unfold decideFileContent. destruct (runRoot (Lstat rel) s) as [fi s1] eqn:E. apply runRoot_keeps in E.
  destruct fi as [[m|i|t]|]; try done. destruct (negb _); [done|]. destruct (_ && _); [done|].
  case_bool_decide; [done|]. unfold hashDest. destruct (runRoot (OpenRead rel) s1) as [o s2] eqn:E2.
  apply runRoot_keeps in E2. pose proof (keeps_trans _ _ _ E E2) as [????].
  destruct o; destruct (HashFile _ _ _ _ _ _ _ _) as [r c]; destruct r; by split.
Qed.

Lemma decideFile_keeps g rel id e s : keeps s (decideFile statKey d g rel id e s).2.
Proof.
  assert (Hc : ∀ (b : bool) s1, keeps s s1 →
    keeps s (let '(need, s) := decideFileContent statKey d rel e s1 in
             if b && negb need && negb (de_dryRun d) then
               let '(ls, h) := registerMaterialised id rel (sh_hl (ds_sh s)) in
               (need, withSh (λ sh, linkOrFallback g rel ls (onHL h sh)) s)
             else (need, s)).2).
  { intros b s1 Hs. pose proof (decideFileContent_keeps rel e s1) as Hk.
    destruct (decideFileContent statKey d rel e s1) as [need s2]. cbn [snd] in Hk. destruct (_ && _); [|by eauto].
    destruct (registerMaterialised _ _ _) as [ls h]. eapply keeps_trans; [exact Hs|]. eapply keeps_trans; [exact Hk|].
    apply keeps_withSh. by rewrite linkOrFallback_meta. }
  unfold decideFile. destruct (hasHardlinkKey _); [|by apply (Hc false)].
  destruct (pathFor _ _) as [p|].
  - destruct (de_dryRun d); [done|]. destruct (runDest _ (ds_sh s)) as [r sh] eqn:E. apply runDest_meta in E.
    destruct r; [by split|]. destruct (clear _ _) as [orphans h]. apply (Hc true).
    apply keeps_withSh. cbn. by rewrite foldl_fetchInstead_meta.
  - destruct (claimSecondary _ _ _ _) as [[] h]; [by split|]. apply (Hc true). by apply keeps_withSh.
Qed.

Lemma decideDir_keeps rel e s : keeps s (decideDir d rel e s).
Proof.
  unfold decideDir. destruct (de_dryRun d); case_bool_decide; try by split.
  all: (split; cbn [ds_sent ds_fates ds_col ds_sh withSh]; [done..|]; by destruct (runDest _ _) as [r sh] eqn:E; apply runDest_meta in E).
Qed.

Lemma decideSymlink_keeps rel e s : keeps s (decideSymlink d rel e s).
Proof.
  unfold decideSymlink. destruct (de_dryRun d); [by apply keeps_withSh|].
  assert (Hm : ∀ s1, keeps s s1 → keeps s (placeSymlink d rel (ManifestEntry.LinkTarget e) s1)).
  { intros s1 Hs. unfold placeSymlink. destruct (runDest _ _) as [r sh] eqn:E. apply runDest_meta in E.
    eapply keeps_trans; [exact Hs|]. destruct r; apply keeps_withSh; [done|]. by case_bool_decide. }
  destruct (runRoot (Lstat rel) s) as [fi s1] eqn:E. apply runRoot_keeps in E.
  destruct fi as [[m|i|t]|]; try by apply Hm.
  destruct (runRoot (Readlink rel) s1) as [c s2] eqn:E2. apply runRoot_keeps in E2.
  destruct c; [case_bool_decide|]; try apply Hm; by eauto.
Qed.

(** Why entry [e] has its verdict, [col] being the names taken so far. *)
Definition justified (col : Collisions) (id : Z) (e : ManifestEntry.t) (v : verdict) : Prop :=
  let p := ManifestEntry.Path e in
  let ty := ManifestEntry.EntryType e in
  match v with
  | VReject c =>
      ∃ err, c = GetCode err ∧
        (ValidatePath p (de_destPlat d) = Some err ∨ ValidatePath p (de_destPlat d) = None ∧ (Add col p).1 = Some err)
  | _ =>
      ValidatePath p (de_destPlat d) = None ∧ (Add col p).1 = None ∧
      match v with
      | VNeed => de_prior d !! id = None ∧ ty ≠ entryTypeDir ∧ ty ≠ entryTypeSymlink
      | VDir => de_prior d !! id = None ∧ ty = entryTypeDir
      | _ => is_Some (de_prior d !! id) ∨ ty ≠ entryTypeDir
      end
  end.
Definition takeName (col : Collisions) (e : ManifestEntry.t) : Collisions :=
  match ValidatePath (ManifestEntry.Path e) (de_destPlat d) with
  | Some _ => col
  | None => (Add col (ManifestEntry.Path e)).2
  end.

Definition addVerdict (gm : GroupManifest.t) (i : nat) (v : verdict) (a : acc) : acc :=
  match v with
  | VNeed =>
      mkAcc (a_needed a ++ [Z.of_nat i]) (a_rejected a) (a_items a ++ [itemAt gm i])
        (wrap_i 64 (a_bytes a + size (itemAt gm i))) (a_skipped a)
  | VSkip => skipEntry a
  | VDir => a
  | VReject c =>
      mkAcc (a_needed a) (a_rejected a ++ [RejectedEntry.mk (Z.of_nat i) (numericCode c)]) (a_items a) (a_bytes a) (a_skipped a)
  end.

(** A group the wire can carry. *)
Record groupOk (gm : GroupManifest.t) : Prop := {
  go_first : 0 <= GroupManifest.FirstFileID gm;
  go_ids : GroupManifest.FirstFileID gm + Z.of_nat (length (GroupManifest.Entries gm)) < 2 ^ 64;
  go_count : Z.of_nat (length (GroupManifest.Entries gm)) < 2 ^ 16;
}.

(** One entry: its verdict, and what it leaves of the state. *)
Definition entryDone (gm : GroupManifest.t) (i : nat) (e : ManifestEntry.t) (a : acc) (s : dst) (v : verdict) (a' : acc) (s' : dst) : Prop :=
  justified (ds_col s) (entryID gm i) e v ∧ a' = addVerdict gm i v a ∧
  ds_sent s' = ds_sent s ∧ ds_fates s' = ds_fates s ∧ ds_col s' = takeName (ds_col s) e ∧
  (∀ k, k ≠ entryID gm i → sh_meta (ds_sh s') !! k = sh_meta (ds_sh s) !! k) ∧
  (v = VNeed → sh_meta (ds_sh s') !! entryID gm i = Some (metaAt gm i)).

Lemma decideRegular_done gm i e a s s1 a' s' :
  GroupManifest.Entries gm !! i = Some e → justified (ds_col s) (entryID gm i) e VSkip →
  (de_prior d !! entryID gm i = None ∧ ManifestEntry.EntryType e ≠ entryTypeDir ∧ ManifestEntry.EntryType e ≠ entryTypeSymlink) →
  ds_sh s1 = ds_sh s → ds_col s1 = takeName (ds_col s) e → ds_sent s1 = ds_sent s → ds_fates s1 = ds_fates s →
  decideRegular statKey d gm (Z.of_nat i) (entryID gm i) (FromSlash (ManifestEntry.Path e)) e a s1 = (a', s') →
  ∃ v, entryDone gm i e a s v a' s'.
Proof.
  intros Hi J Hty Es Ec Et Ef. assert (He : entryAt gm i = e) by (unfold entryAt; by rewrite Hi).
  unfold decideRegular, entryDone. rewrite <- Es, <- Ec, <- Et, <- Ef.
  set (fm := mkFileMeta _ _ _ _ _ _ _). assert (Hfm : fm = metaAt gm i) by (unfold metaAt; by rewrite He).
  clearbody fm.
  set (s2 := if fm_hasHLKey fm then _ else s1).
  assert (Hs2 : ds_sent s2 = ds_sent s1 ∧ ds_fates s2 = ds_fates s1 ∧ ds_col s2 = ds_col s1 ∧
    (∀ k, k ≠ entryID gm i → sh_meta (ds_sh s2) !! k = sh_meta (ds_sh s1) !! k) ∧
    (fm_hasHLKey fm = true → sh_meta (ds_sh s2) !! entryID gm i = Some fm)).
  { unfold s2. destruct (fm_hasHLKey fm); split_and!; try done.
    - intros k Hk. by apply metaStore.set_other.
    - intros _. apply metaStore.set_same. }
  clearbody s2. destruct Hs2 as (S1 & S2 & S3 & S4 & S5).
  pose proof (decideFile_keeps (GroupManifest.GroupID gm) (FromSlash (ManifestEntry.Path e)) (entryID gm i) e s2) as [K1 K2 K3 K4].
  destruct (decideFile _ _ _ _ _ _ _) as [need s3]. cbn [snd] in K1, K2, K3, K4.
  destruct need; cbn [negb]; intros [= <- <-].
  - exists VNeed. split_and!.
    + by destruct J as (J1 & J2 & _).
    + unfold addVerdict, itemAt. by rewrite He.
    + destruct (fm_hasHLKey fm); cbn; congruence.
    + destruct (fm_hasHLKey fm); cbn; congruence.
    + destruct (fm_hasHLKey fm); cbn; congruence.
    + intros k Hk. destruct (fm_hasHLKey fm); cbn; [|rewrite metaStore.set_other by done]; rewrite K4; by apply S4.
    + intros _. rewrite <- Hfm. destruct (fm_hasHLKey fm); cbn; [rewrite K4; by apply S5|apply metaStore.set_same].
  - exists VSkip. split_and!; try done; cbn; try congruence.
    intros k Hk. rewrite K4. by apply S4.
Qed.

Lemma decideEntry_done gm i e a s a' s' :
  groupOk gm → GroupManifest.Entries gm !! i = Some e → decideEntry statKey d gm i e a s = (a', s') →
  ∃ v, entryDone gm i e a s v a' s'.
Proof.
  intros [G1 G2 G3] Hi. pose proof (lookup_lt_Some _ _ _ Hi) as Hlt. unfold decideEntry.
  rewrite (wrap_u_id 16), (wrap_u_id 64) by (unfold in_u; lia). fold (entryID gm i).
  assert (He : entryAt gm i = e) by (unfold entryAt; by rewrite Hi).
  destruct (ValidatePath _ _) as [err|] eqn:Hv.
  { intros [= <- <-]. exists (VReject (GetCode err)). unfold entryDone, justified, takeName. rewrite Hv.
    split_and!; try done; [by eauto|]. cbn. by case_match. }
  destruct (Add (ds_col s) (ManifestEntry.Path e)) as [cErr col] eqn:Ha. cbn [fst snd].
  destruct cErr as [err|].
  { intros [= <- <-]. exists (VReject (GetCode err)). unfold entryDone, justified, takeName. rewrite Hv, Ha.
    split_and!; try done. by eauto. }
  destruct (de_prior d !! entryID gm i) as [r|] eqn:Hprior.
  { intros [= <- <-]. exists VSkip. unfold entryDone, justified, takeName. rewrite Hv, Ha.
    split_and!; try done. by eauto. }
  set (s1 := mkDst _ col _ _ _ _).
  destruct (Z.eqb_spec (ManifestEntry.EntryType e) entryTypeDir) as [Hd|Hd].
  { intros [= <- <-]. destruct (decideDir_keeps (FromSlash (ManifestEntry.Path e)) e s1) as [K1 K2 K3 K4].
    exists VDir. unfold entryDone, justified, takeName. rewrite Hv, Ha, K1, K2, K3, K4. by split_and!. }
  destruct (Z.eqb_spec (ManifestEntry.EntryType e) entryTypeSymlink) as [Hl|Hl].
  { intros [= <- <-]. destruct (decideSymlink_keeps (FromSlash (ManifestEntry.Path e)) e s1) as [K1 K2 K3 K4].
    exists VSkip. unfold entryDone, justified, takeName. rewrite Hv, Ha, K1, K2, K3, K4. split_and!; try done. by right. }
  apply decideRegular_done; try done; unfold justified, takeName; rewrite Hv, ?Ha; [|done].
  split_and!; [done..|by right].
Qed.

Lemma with_verdict_snoc v vs w :
  with_verdict v (vs ++ [w]) = with_verdict v vs ++ (if decide (w = v) then [length vs] else []).
Proof.
  unfold with_verdict. rewrite length_app, seq_app, filter_app. cbn [length Nat.add seq]. f_equal.
  - apply filter_ext_Forall. apply Forall_forall. intros i Hi%elem_of_seq. by rewrite lookup_app_l by lia.
  - rewrite filter_cons, filter_nil, lookup_app_r, Nat.sub_diag by lia. cbn. repeat case_decide; naive_solver.
Qed.
Lemma rejections_snoc vs w :
  rejections (vs ++ [w]) =
  rejections vs ++ match w with VReject c => [RejectedEntry.mk (Z.of_nat (length vs)) (numericCode c)] | _ => [] end.
Proof. unfold rejections. rewrite imap_app, join_app. cbn. rewrite Nat.add_0_r. by rewrite app_nil_r. Qed.

(** The running results agree with the verdicts. *)
Record accountOf (gm : GroupManifest.t) (vs : list verdict) (a : acc) : Prop := {
  ac_needed : a_needed a = Z.of_nat <$> with_verdict VNeed vs;
  ac_rejected : a_rejected a = rejections vs;
  ac_items : a_items a = itemAt gm <$> with_verdict VNeed vs;
  ac_skipped : a_skipped a = Z.of_nat (length (with_verdict VSkip vs));
}.
Lemma length_with_verdict v vs : (length (with_verdict v vs) <= length vs)%nat.
Proof. unfold with_verdict. rewrite <- (length_seq (length vs) 0) at 2. apply length_filter. Qed.

Lemma accountOf_snoc gm vs a v :
  Z.of_nat (length vs) < 2 ^ 16 - 1 → accountOf gm vs a → accountOf gm (vs ++ [v]) (addVerdict gm (length vs) v a).
Proof.
  intros Hl [A1 A2 A3 A4]. pose proof (length_with_verdict VSkip vs) as Hs.
  split; rewrite ?with_verdict_snoc, ?rejections_snoc, ?fmap_app, ?length_app; destruct v; cbn;
    rewrite ?app_nil_r, ?A1, ?A2, ?A3, ?A4, ?Nat.add_0_r; try done.
  rewrite wrap_u_id by (unfold in_u; lia). rewrite decide_True by done. cbn [length]. lia.
Qed.

(** The names taken by the first [i] entries. *)
Definition namesBefore (gm : GroupManifest.t) (i : nat) (col : Collisions) : Collisions :=
  foldl takeName col (take i (GroupManifest.Entries gm)).

Record decidedUpTo (gm : GroupManifest.t) (s0 : dst) (vs : list verdict) (a : acc) (s : dst) : Prop := {
  du_account : accountOf gm vs a;
  du_sent : ds_sent s = ds_sent s0;
  du_fates : ds_fates s = ds_fates s0;
  du_col : ds_col s = namesBefore gm (length vs) (ds_col s0);
  du_meta : ∀ i, vs !! i = Some VNeed → sh_meta (ds_sh s) !! entryID gm i = Some (metaAt gm i);
  du_why : ∀ i v, vs !! i = Some v → justified (namesBefore gm i (ds_col s0)) (entryID gm i) (entryAt gm i) v;
}.

Lemma decideEntries_done gm s0 : groupOk gm → ∀ es vs a s a' s',
  drop (length vs) (GroupManifest.Entries gm) = es → decidedUpTo gm s0 vs a s →
  decideEntries statKey d gm (length vs) es a s = (a', s') →
  ∃ vs', length vs' = (length vs + length es)%nat ∧ decidedUpTo gm s0 vs' a' s'.
Proof.
  intros Hg es. induction es as [|e es IH]; intros vs a s a' s' Hes Hu; cbn [decideEntries].
  { intros [= <- <-]. exists vs. split; [cbn [length]; lia|done]. }
  destruct (decideEntry statKey d gm (length vs) e a s) as [a1 s1] eqn:E.
  assert (Hi : GroupManifest.Entries gm !! length vs = Some e).
  { rewrite <- (Nat.add_0_r (length vs)), <- lookup_drop, Hes. done. }
  apply decideEntry_done in E as (v & Hj & -> & Hs & Hf & Hc & Ho & Hm); [|done|done].
  destruct Hu as [U1 U2 U3 U4 U5 U6]. pose proof (lookup_lt_Some _ _ _ Hi) as Hlt.
  replace (S (length vs)) with (length (vs ++ [v])) by (rewrite length_app; cbn [length]; lia).
  intros E. apply IH in E as (vs' & Hl & Hu); [exists vs'; split; [rewrite Hl, length_app; cbn [length]; lia|done]| |].
  { rewrite length_app, <- drop_drop, Hes. done. }
  split.
  - apply accountOf_snoc; [|done]. destruct Hg. lia.
  - congruence.
  - congruence.
  - rewrite Hc, U4, length_app. unfold namesBefore. cbn [length]. rewrite Nat.add_1_r, (take_S_r _ _ _ Hi), foldl_app. done.
  - intros i [Hi'|[Hge Hi']]%lookup_app_Some.
    + rewrite Ho by (unfold entryID; apply lookup_lt_Some in Hi'; lia). by apply U5.
    + apply list_lookup_singleton_Some in Hi' as [? ->]. replace i with (length vs) by lia. by apply Hm.
  - intros i w [Hi'|[Hge Hi']]%lookup_app_Some; [by apply U6|].
    apply list_lookup_singleton_Some in Hi' as [? ->]. replace i with (length vs) by lia.
    unfold entryAt. rewrite Hi. cbn [default from_option id]. by rewrite <- U4.
Qed.

Lemma with_verdict_ascending v vs : StronglySorted Z.lt (Z.of_nat <$> with_verdict v vs).
Proof.
  apply (StronglySorted_fmap _ lt); [lia|]. unfold with_verdict. generalize (length vs) 0%nat.
  intros n. induction n as [|n IH]; intros k; cbn [seq]; [constructor|]. rewrite filter_cons.
  case_decide; [|apply IH]. constructor; [apply IH|]. apply Forall_forall. intros i [_ Hi]%list_elem_of_filter.
  apply elem_of_seq in Hi. lia.
Qed.
Lemma sort_ascending (l : list Z) : StronglySorted Z.lt l → merge_sort Z.le l = l.
Proof.
  intros Hl. apply (Sorted_unique Z.le); [apply Sorted_merge_sort, _| |apply merge_sort_Permutation].
  apply StronglySorted_Sorted. induction Hl as [|x l Hl IH Hx]; constructor; [done|].
  eapply Forall_impl; [exact Hx|]. cbn. lia.
Qed.

Lemma send_spec m s e s' : send m s = (e, s') →
  ds_sh s' = ds_sh s ∧
  (e = None ∧ ds_sent s' = ds_sent s ++ [m] ∨ is_Some e ∧ ds_sent s' = ds_sent s).
Proof.
  unfold send. destruct (ds_fates s) as [|[x|] fl]; intros [= <- <-]; (split; [done|]); eauto.
Qed.

(** The end of a group, after its decision was sent. *)
Lemma decideResume_spec ctxErr its s :
  match decideResume d ctxErr its s with
  | Waiting its' s' => its' = its ∧ s' = s ∧ ctxErr = None ∧ closed (sh_q (ds_sh s)) = false
  | Returned e s' =>
      sh_meta (ds_sh s') = sh_meta (ds_sh s) ∧
      (ds_sent s' = ds_sent s ∧ (is_Some e ∨ ctxErr ≠ None ∨ closed (sh_q (ds_sh s')) = true) ∨
       e = None ∧ ds_sent s' = ds_sent s ++ [MCredit (Credit.mk 1)] ∧
       (de_dryRun d = true ∨ pushGroup ctxErr its (sh_q (ds_sh s)) = Some (None, sh_q (ds_sh s'))))
  end.
Proof.
  unfold decideResume. destruct (de_dryRun d).
  { destruct (send _ s) as [e s'] eqn:E. apply send_spec in E as (-> & [[-> ?]|[? ?]]); (split; [done|]); [right|left]; eauto. }
  destruct (pushGroup ctxErr its (sh_q (ds_sh s))) as [[[e|] q]|] eqn:Ep.
  - assert (Hc : ctxErr ≠ None ∨ closed q = true).
    { unfold pushGroup in Ep. destruct its as [|it its]; [done|]. destruct (_ && _); [destruct ctxErr; [by left|done]|].
      destruct (closed (sh_q (ds_sh s))) eqn:Hq; [|done]. injection Ep as _ <-. by right. }
    destruct (_ || _); (split; [done|]); left; (split; [done|]); right; exact Hc.
  - destruct (send _ _) as [e s'] eqn:E. apply send_spec in E as (-> & [[-> Hs]|[? Hs]]); (split; [done|]); [right|left]; eauto.
  - unfold pushGroup in Ep. destruct its as [|it its]; [done|]. destruct (_ && negb (closed _)) eqn:Hb; [|by destruct (closed _)].
    apply andb_true_iff in Hb as [_ Hb%negb_true_iff]. by destruct ctxErr.
Qed.

Lemma decideResume_after ctxErr its s1 s3 s4 :
  sh_meta (ds_sh s3) = sh_meta (ds_sh s1) → sh_meta (ds_sh s4) = sh_meta (ds_sh s3) → ds_sent s4 = ds_sent s3 →
  match decideResume d ctxErr its s4 with
  | Waiting its' s' =>
      its' = its ∧ ds_sent s' = ds_sent s3 ∧ sh_meta (ds_sh s') = sh_meta (ds_sh s1) ∧
      ctxErr = None ∧ closed (sh_q (ds_sh s')) = false
  | Returned e s' =>
      sh_meta (ds_sh s') = sh_meta (ds_sh s1) ∧
      ((is_Some e ∨ ctxErr ≠ None ∨ closed (sh_q (ds_sh s')) = true) ∧ ds_sent s' = ds_sent s3 ∨
       e = None ∧ ds_sent s' = ds_sent s3 ++ [MCredit (Credit.mk 1)] ∧
         (de_dryRun d = true ∨ ∃ q, pushGroup ctxErr its q = Some (None, sh_q (ds_sh s'))))
  end.
Proof.
  intros Hm3 Hm Hs4. pose proof (decideResume_spec ctxErr its s4) as Hr.
  destruct (decideResume _ _ _ _) as [e s5|its' s5].
  - destruct Hr as (Hm5 & [[? ?]|(-> & Hs5 & Hp)]); (split; [congruence|]); [left; split; [done|congruence]|right].
    split_and!; [done|congruence|]. destruct Hp; eauto.
  - destruct Hr as (-> & -> & ? & ?). split_and!; try done; congruence.
Qed.

(** C20: every group is accounted for, entry by entry.  Each entry gets one verdict:
    rejected exactly when its path is invalid or its name already taken, skipped,
    needed, or a directory.  At most one GROUP_DECISION is sent and it lists
    exactly these verdicts, the needed indices ascending; the credit follows only
    after the needed files are all in the queue (or in a dry run), and a call that
    gives no credit has failed, was cancelled or found the queue closed, or is
    waiting for room with exactly these items.  Every needed file's metadata is on
    record before its decision is sent. *)
Theorem decideGroup_accounts ctxErr syncErr gm s :
  groupOk gm →
  ∃ vs, length vs = length (GroupManifest.Entries gm) ∧
    (∀ i v, vs !! i = Some v → justified (namesBefore gm i (ds_col s)) (entryID gm i) (entryAt gm i) v) ∧
    let needed := with_verdict VNeed vs in
    let decision := MGroupDecision (GroupDecision.mk (GroupManifest.GroupID gm) (Z.of_nat <$> needed)
                                      (Z.of_nat (length (with_verdict VSkip vs))) (rejections vs)) in
    StronglySorted Z.lt (Z.of_nat <$> needed) ∧
    let known (s' : dst) := ∀ i, i ∈ needed → metaStore.get (entryID gm i) (sh_meta (ds_sh s')) = Some (metaAt gm i) in
    match decideGroup statKey d ctxErr syncErr gm s with
    | Waiting its s' =>
        its = itemAt gm <$> needed ∧ ds_sent s' = ds_sent s ++ [decision] ∧ known s' ∧
        ctxErr = None ∧ closed (sh_q (ds_sh s')) = false
    | Returned e s' =>
        known s' ∧
        (is_Some e ∧ ds_sent s' = ds_sent s ∨
         (is_Some e ∨ ctxErr ≠ None ∨ closed (sh_q (ds_sh s')) = true) ∧ ds_sent s' = ds_sent s ++ [decision] ∨
         e = None ∧ ds_sent s' = ds_sent s ++ [decision; MCredit (Credit.mk 1)] ∧
           (de_dryRun d = true ∨ ∃ q, pushGroup ctxErr (itemAt gm <$> needed) q = Some (None, sh_q (ds_sh s'))))
    end.
Proof.
  intros Hg. unfold decideGroup. destruct (decideEntries _ _ _ _ _ _ _) as [a s1] eqn:E.
  apply (decideEntries_done gm s Hg _ [] _ s) in E as (vs & Hl & [[A1 A2 A3 A4] U2 U3 U4 U5 U6]); [|done|].
  2:{ split; try done. }
  exists vs. split; [done|]. split; [done|]. cbv zeta. pose proof (with_verdict_ascending VNeed vs) as Hasc. split; [done|].
  assert (Hk : ∀ s', sh_meta (ds_sh s') = sh_meta (ds_sh s1) →
    ∀ i, i ∈ with_verdict VNeed vs → metaStore.get (entryID gm i) (sh_meta (ds_sh s')) = Some (metaAt gm i)).
  { intros s' Hm i [Hi _]%list_elem_of_filter. unfold metaStore.get. rewrite Hm. by apply U5. }
  rewrite A1, A2, A3, A4, sort_ascending by done. set (s2 := withSh _ s1).
  destruct (send _ s2) as [e s3] eqn:E. apply send_spec in E as (Hsh & Hs).
  assert (Hm3 : sh_meta (ds_sh s3) = sh_meta (ds_sh s1)) by by rewrite Hsh.
  change (ds_sent s2) with (ds_sent s1) in Hs. rewrite U2 in Hs.
  destruct Hs as [[-> Hs]|[[x ->] Hs]]; [|split; [by apply Hk|by left; eauto]].
  destruct syncErr as [x|]; [split; [by apply Hk|]; right; left; by eauto|].
  pose proof (λ s4, decideResume_after ctxErr (itemAt gm <$> with_verdict VNeed vs) s1 s3 s4 Hm3) as Hfin.
  destruct (0 <? a_bytes a); [destruct (spaceGuard.reserve _ _) as [[w [x|]] g]|].
  - split; [by apply Hk|]. right. left. by eauto.
  - specialize (Hfin (withSh (onGuard g) s3) eq_refl eq_refl). rewrite Hs in Hfin.
    destruct (decideResume _ _ _ _); rewrite <- ?app_assoc in Hfin; naive_solver.
  - specialize (Hfin s3 eq_refl eq_refl). rewrite Hs in Hfin.
    destruct (decideResume _ _ _ _); rewrite <- ?app_assoc in Hfin; naive_solver.
Qed.
End accounting.

(** ** Concrete inputs *)
#[local] Instance ascii_names : Unicode := {| upperMap := id; lowerMap := id; normNFC := id |}.
#[local] Instance padded_hash : HashFns :=
  {| md5 c := take 16 (c ++ replicate 16 Byte.x00); sha256 c := take 32 (c ++ replicate 32 Byte.x00) |}.
Definition ex_statKey (i : Z) (x : inode) (a : Algo) : option CacheKey :=
  if bool_decide (i_content x = bs "abc") then Some (mkKey 1 i 3 100 5 7 9 a) else None.
(** A destination that holds "a" with content "abc". *)
Definition ex_tree : fs :=
  mkFs (<[[bs "a"] := NFile 0]> (nodes emptyFs)) {[0 := mkInode (bs "abc") (mkMeta 420 (100, 5))]} 1.
Definition ex_shared : shared :=
  mkShared (mkWorld ex_tree []) (newNeedQueue 10) (spaceGuard.new (2 ^ 40) (2 ^ 40)) metaStore.new newHardlinkMap (λ _, 0) 0 0.
Definition ex_decider : decider := mkDecider false false false MD5 PlatformLinux ∅.
Definition ex_file (name : bytes) : ManifestEntry.t := ManifestEntry.mk 0 0 name 3 420 100 6 (hashOf MD5 (bs "abc")) [] 0.
Definition ex_group : GroupManifest.t :=
  GroupManifest.mk 2 7 [ex_file (bs "a"); ex_file (bs "../a"); ManifestEntry.mk 1 0 (bs "d") 0 493 1 2 [] [] 0; ex_file (bs "d/b")].
Definition ex_dst : dst := mkDst ex_shared (NewCollisions PlatformLinux) ∅ (Some newCache) [] [].

Lemma skip_decision_right_witness :
  let '(need, s') := decideFileContent ex_statKey ex_decider (bs "a") (ex_file (bs "a")) ex_dst in
  need = false ∧ coherent (λ _, bs "abc") (ds_cache s') ∧ ∃ i x, present (bs "a") ex_dst i x ∧ upToDate ex_decider (ex_file (bs "a")) x.
Proof.
  assert (Hv : ∀ i x a k, ex_statKey i x a = Some k → ckAlgo k = a ∧ i_content x = bs "abc").
  { intros i x a k. unfold ex_statKey. case_bool_decide; [|done]. by intros [= <-]. }
  assert (Hs : fsOk (fsOf ex_dst)) by (apply fsOkb_ok; by vm_compute).
  assert (Hc : coherent (λ _, bs "abc") (ds_cache ex_dst)) by (intros k d E; cbn in E; by rewrite lookup_empty in E).
  assert (Hn : (decideFileContent ex_statKey ex_decider (bs "a") (ex_file (bs "a")) ex_dst).1 = false) by by vm_compute.
  pose proof (skip_decision_right ex_statKey (λ _, bs "abc") Hv ex_decider (bs "a") (ex_file (bs "a")) ex_dst Hs Hc) as H.
  destruct (decideFileContent _ _ _ _ _) as [need s']. cbn [fst] in Hn. subst need. destruct H as (_ & H1 & H2 & _).
  exact (conj eq_refl (conj H1 (H2 eq_refl))).
Defined.

Definition ex_decided : dres := decideGroup ex_statKey ex_decider None None ex_group ex_dst.
Lemma decideGroup_accounts_witness :
  (∃ s', ex_decided = Returned None s' ∧
     ds_sent s' = [MGroupDecision (GroupDecision.mk 2 [3] 1 [RejectedEntry.mk 1 7010]); MCredit (Credit.mk 1)]) ∧
  ∃ vs, length vs = 4%nat ∧ vs !! 1%nat = Some (VReject E7010).
Proof.
  split; [eexists; split; vm_compute; reflexivity|].
  destruct (decideGroup_accounts ex_statKey ex_decider None None ex_group ex_dst) as (vs & Hl & Hj & _).
  { split; vm_compute; done. }
  exists vs. split; [exact Hl|]. destruct (lookup_lt_is_Some_2 vs 1) as [v Hv]; [rewrite Hl; cbn; lia|].
  rewrite Hv. pose proof (Hj 1%nat v Hv) as H. destruct v as [| | |c]; try (destruct H as [H _]; vm_compute in H; discriminate H).
  destruct H as (err & -> & [H|[H _]]); [|vm_compute in H; discriminate H].
  apply (f_equal (λ o, default [] (GetCode <$> o))) in H. cbn [fmap option_fmap option_map default from_option id] in H.
  rewrite <- H. vm_compute. reflexivity.
Defined.
