(* ===== verification/Fetch.v ===== *)
(** * Fetch: one data channel's worker on the receiver
    (src/internal/receiver/fetch.go)

    [fetchOne] requests a file, writes the chunks to its part, verifies and
    publishes; [loop] pops needed files and decides what becomes of each.  The
    messages of the channel are the list of results [RecvMsgTimeout] will give
    (when it is exhausted the receive stalls) and the fates of the sends.  Other
    workers act between two turns of [loop]; within a turn the shared state is
    this worker's, each method call on it being atomic in Go. *)
From S2P Require Import Prelude Fault Strconv Glob Record Wire Handshake Channel Paths Journal Digest Tracker Fs Dest Queue Serve Receiver Decide.

Record fetcher := mkFetcher { fe_dest : Dest; fe_algo : Algo; fe_maxRetries : Z }.
(** Everything a worker reads and writes: the shared state, the journal with the
    fates of its writes, the next request id, the completed ids, the first fatal
    error, the channel, and whether a request is being streamed. *)
Record fst_ := mkFst {
  fs_sh : shared; fs_journal : option (Journal * jdir); fs_jfates : list (option (stdErr * nat));
  fs_reqID : Z; fs_completed : list Z; fs_fatal : option gerr;
  fs_in : list (result gerr Message); fs_fates : list (option gerr); fs_out : list Message; fs_streaming : bool;
}.
Abbreviation F := (SE fst_ gerr).

Definition withShared (f : shared → shared) (s : fst_) : fst_ :=
  mkFst (f (fs_sh s)) (fs_journal s) (fs_jfates s) (fs_reqID s) (fs_completed s) (fs_fatal s) (fs_in s) (fs_fates s) (fs_out s) (fs_streaming s).
Definition onShared (f : shared → shared) : F unit := modS (withShared f).
Definition setStreaming (b : bool) : F unit :=
  modS (λ s, mkFst (fs_sh s) (fs_journal s) (fs_jfates s) (fs_reqID s) (fs_completed s) (fs_fatal s) (fs_in s) (fs_fates s) (fs_out s) b).
(** A destination operation, its error passed on or kept as a value. *)
Definition onDest {A} (m : SE world gerr A) : F A := λ s,
  let '(r, sh) := runDest m (fs_sh s) in (r, withShared (λ _, sh) s).
Definition attemptDest {A} (m : SE world gerr A) : F (option gerr) := λ s,
  let '(r, sh) := runDest m (fs_sh s) in (Ok (match r with Ok _ => None | Err e => Some e end), withShared (λ _, sh) s).

Definition pad4 (n : Z) : bytes :=
  let s := FormatUint n 10 in replicate (4 - length s) (byte_of_Z 48) ++ s.
Definition faultFromFileError (fe : FileError.t) : gerr :=
  fault (bs "E" ++ pad4 (FileError.Code fe)) "sender reported a file error" [] None.
Definition transportData (err : gerr) : gerr :=
  if negb (bool_decide (GetCode err = [])) then err else EChannelLost err.
(** [RecvMsgTimeout] with nothing more to come. *)
Definition stalled : gerr := fault E3005 "data channel idle past the stall timeout" [] (Some (EStd StdTimeout)).

Definition sendData (m : Message) : F unit := λ s,
  let drop fates out := mkFst (fs_sh s) (fs_journal s) (fs_jfates s) (fs_reqID s) (fs_completed s) (fs_fatal s) (fs_in s) fates out (fs_streaming s) in
  match fs_fates s with
  | Some e :: fl => (Err (transportData e), drop fl (fs_out s))
  | fl => (Ok (), drop (tail fl) (fs_out s ++ [m]))
  end.
Definition recvData : F Message := λ s,
  let drop l := mkFst (fs_sh s) (fs_journal s) (fs_jfates s) (fs_reqID s) (fs_completed s) (fs_fatal s) l (fs_fates s) (fs_out s) (fs_streaming s) in
  match fs_in s with
  | [] => (Err (transportData stalled), s)
  | Err e :: l => (Err (transportData e), drop l)
  | Ok m :: l => (Ok m, drop l)
  end.

(** Operations on the open part; [Close] on an error path drops its error. *)
Definition closePart : F unit := onDest (ignore Flush).
(** [part.Close(); return err] *)
Definition abort {A} (e : gerr) : F A := _ ← closePart; failS e.
Definition partOp (op : string) (subject : bytes) (m : IO unit) : F unit :=
  r ← onDest (Fs.attempt m);
  match r with Ok _ => mret () | Err e => abort (fault E7004 op subject (Some (EStd e))) end.

Definition markComplete (r : JRecord) : F unit := λ s,
  match fs_journal s with
  | None => (Ok (), s)
  | Some (j, d) =>
      let '(e, d) := MarkComplete (mjoin (head (fs_jfates s))) j d r in
      (match e with Some e => Err e | None => Ok () end,
       mkFst (fs_sh s) (Some (j, d)) (tail (fs_jfates s)) (fs_reqID s) (fs_completed s) (fs_fatal s) (fs_in s) (fs_fates s) (fs_out s) (fs_streaming s))
  end.
Definition onComplete (id : Z) : F unit :=
  modS (λ s, mkFst (fs_sh s) (fs_journal s) (fs_jfates s) (fs_reqID s) (fs_completed s ++ [id]) (fs_fatal s) (fs_in s) (fs_fates s) (fs_out s) (fs_streaming s)).
Definition nextRequest : F Z := λ s,
  let n := wrap_u 64 (fs_reqID s + 1) in
  (Ok n, mkFst (fs_sh s) (fs_journal s) (fs_jfates s) n (fs_completed s) (fs_fatal s) (fs_in s) (fs_fates s) (fs_out s) (fs_streaming s)).
Definition lookupMeta (id : Z) : F (option fileMeta) := λ s, (Ok (metaStore.get id (sh_meta (fs_sh s))), s).

Definition safeMaxChunk : Z := 2 ^ 20 - 8192.

Section fetch.
Context `{HashFns}.
Context (f : fetcher).

(** The digests that must agree with the received content. *)
Definition verifyContent (fm : fileMeta) (hdr : FileHeader.t) (fc : FileComplete.t) (local : bytes) (written : Z) : option gerr :=
  if negb (written =? FileHeader.Size hdr) then Some (fault E8002 "verify byte count" (fm_rel fm) None)
  else if negb (bool_decide (FileComplete.DigestFull fc = [])) && negb (bool_decide (local = FileComplete.DigestFull fc))
  then Some (fault E8001 "verify streamed digest" (fm_rel fm) None)
  else if negb (bool_decide (fm_digest fm = [])) && negb (bool_decide (local = fm_digest fm))
  then Some (fault E8003 "verify content against manifest" (fm_rel fm) None)
  else if negb (bool_decide (FileHeader.Digest hdr = [])) && negb (bool_decide (local = FileHeader.Digest hdr))
  then Some (fault E8003 "verify content against manifest" (fm_rel fm) None)
  else None.

(** What [finish] does once the part is published. *)
Definition afterPublish (it : needItem) (fm : fileMeta) (local : bytes) (written : Z) : F unit :=
  _ ← markComplete (mkJRecord (fileID it) (fm_rel fm) local (wrap_i 64 written));
  _ ← (if fm_hasHLKey fm then
         onShared (λ sh, let '(ls, h) := registerMaterialised (fileID it) (fm_rel fm) (sh_hl sh) in
                         linkOrFallback (groupID it) (fm_rel fm) ls (onHL h sh))
       else mret ());
  _ ← onShared (count FilesTransferred 1);
  _ ← (if 0 <? attempt it then onShared (count RetriesOK 1) else mret ());
  onComplete (fileID it).

Definition finish (it : needItem) (fm : fileMeta) (hdr : FileHeader.t) (fc : FileComplete.t) (h : Hash) (written : Z) : F unit :=
  let local := Sum h in
  match verifyContent fm hdr fc local written with
  | Some e => failS e
  | None =>
      let mode := if fm_mode fm =? 0 then PermMode (FileHeader.Mode hdr) else fm_mode fm in
      r ← attemptDest (PublishPart (fe_dest f) (fileID it) (fm_rel fm) mode (fm_mtime fm));
      match r with
      | Some e => if bool_decide (GetCode e = E7006) then afterPublish it fm local written else failS e
      | None => afterPublish it fm local written
      end
  end.

(** One turn of the receive loop per message; [fuel] is the number of messages
    to come, and one more for the stall. *)
Fixpoint receive (fuel : nat) (it : needItem) (fm : fileMeta) (hdr : FileHeader.t) (part : Z) (h : Hash) (written : Z) : F unit :=
  match fuel with
  | O => abort (transportData stalled)
  | S fuel => λ s,
      match recvData s with
      | (Err e, s) => abort e s
      | (Ok m, s) =>
          match m with
          | MFileChunk v =>
              if negb (FileChunk.Offset v =? written) then abort (fault E5006 "verify chunk offset" (fm_rel fm) None) s
              else
                (r ← onDest (Fs.attempt (WriteInode part (FileChunk.Data v)));
                 match r with
                 | Err werr =>
                     abort (fault (if bool_decide (werr = StdNoSpace) then E7003 else E7004) "write part file" (fm_rel fm) (Some (EStd werr)))
                 | Ok _ =>
                     _ ← onShared (count BytesIn (Z.of_nat (length (FileChunk.Data v))));
                     receive fuel it fm hdr part (hashWrite h (FileChunk.Data v))
                       (wrap_u 64 (written + Z.of_nat (length (FileChunk.Data v))))
                 end) s
          | MFileComplete v =>
              (_ ← setStreaming false;
               r ← onDest (Fs.attempt Flush);
               match r with
               | Err cerr => failS (fault E7004 "close part file" (fm_rel fm) (Some (EStd cerr)))
               | Ok _ => finish it fm hdr v h written
               end) s
          | MFileError v => (_ ← setStreaming false; abort (faultFromFileError v)) s
          | _ => abort (fault E5001 "receive file content" [] None) s
          end
      end
  end.

Definition receiveAll (it : needItem) (fm : fileMeta) (hdr : FileHeader.t) (part : Z) (h : Hash) : F unit :=
  λ s, receive (S (length (fs_in s))) it fm hdr part h 0 s.

(** From the request to the last message. *)
Definition transfer (it : needItem) : F unit :=
  fm ← lookupMeta (fileID it);
  match fm with
  | None => failS (fault E5001 "fetch file" (FormatUint (fileID it) 10) None)
  | Some fm =>
      reqID ← nextRequest;
      _ ← sendData (MFileRequest (FileRequest.mk reqID (fileID it) 0 safeMaxChunk));
      m ← recvData;
      match m with
      | MFileHeader hdr =>
          _ ← setStreaming true;
          part ← onDest (OpenPart (fileID it));
          _ ← partOp "truncate part file" (fm_rel fm) (TruncateInode part);
          _ ← partOp "seek part file" (fm_rel fm) Flush;
          match New (fe_algo f) with
          | Err e => abort e
          | Ok h => receiveAll it fm hdr part h
          end
      | MFileError v => failS (faultFromFileError v)
      | _ => failS (fault E5001 "await FILE_HEADER" [] None)
      end
  end.
Definition fetchOne (it : needItem) : F unit := λ s,
  match (_ ← setStreaming false; transfer it) s with
  | (Err e, s) => (Err (if fs_streaming s then EDesynced e else e), s)
  | r => r
  end.

(** [errors.As] for the two wrappers. *)
Fixpoint asChannelLost (e : gerr) : bool :=
  match e with EChannelLost _ => true | EDesynced c => asChannelLost c | EFault (MkFault _ _ _ _ _ (Some c)) => asChannelLost c | _ => false end.
Fixpoint asDesynced (e : gerr) : bool :=
  match e with EDesynced _ => true | EChannelLost c => asDesynced c | EFault (MkFault _ _ _ _ _ (Some c)) => asDesynced c | _ => false end.

(** [s.fail]: the first fatal error is kept. *)
Definition recordFatal (e : gerr) (s : fst_) : fst_ :=
  mkFst (fs_sh s) (fs_journal s) (fs_jfates s) (fs_reqID s) (fs_completed s)
    (match fs_fatal s with Some x => Some x | None => Some e end) (fs_in s) (fs_fates s) (fs_out s) (fs_streaming s).

(** What the contexts say during a turn. *)
Record lenv := mkLenv { le_pop : option stdErr; le_cancelled : bool; le_backoff : bool }.
Inductive lres := Go | Stop (lostChannel : bool) | Blocked.

Definition onQ (g : needQueue → needQueue) : fst_ → fst_ := withShared (λ sh, onQueue (g (sh_q sh)) sh).
(** An item that has failed for good, with the secondaries of its hard links. *)
Definition giveUp (it : needItem) (s : fst_) : fst_ :=
  let s := withShared (count FilesFailed 1) s in
  let '(orphans, h) := abandon (fileID it) (sh_hl (fs_sh s)) in
  onQ (done_ (groupID it)) (withShared (λ sh, count FilesFailed (Z.of_nat (length orphans)) (onHL h sh)) s).

(** What [loop] does with the result of [fetchOne]. *)
Definition settle (env : lenv) (it : needItem) (r : result gerr unit) (s : fst_) : lres * fst_ :=
  match r with
  | Ok _ => (Go, onQ (done_ (groupID it)) s)
  | Err err =>
      if le_cancelled env then (Stop false, onQ (requeue it) s)
      else if asChannelLost err then (Stop true, onQ (requeue it) (withShared (count Retries 1) s))
      else
        let dropChannel := asDesynced err in
        if IsFatal (Some err) then (Stop false, onQ (done_ (groupID it)) (recordFatal err s))
        else if IsRetryable err && (attempt it + 1 <=? fe_maxRetries f) then
          let s := withShared (count Retries 1) s in
          let s := onQ (requeue (withAttempt it (attempt it + 1))) s in
          (if le_backoff env then Stop false else if dropChannel then Stop true else Go, s)
        else (if dropChannel then Stop true else Go, giveUp it s)
  end.
Definition turn (env : lenv) (s : fst_) : lres * fst_ :=
  match pop (le_pop env) (sh_q (fs_sh s)) with
  | None => (Blocked, s)
  | Some (None, q) => (Stop false, withShared (onQueue q) s)
  | Some (Some it, q) => let '(r, s) := fetchOne it (withShared (onQueue q) s) in settle env it r s
  end.
Fixpoint loop (envs : list lenv) (s : fst_) : lres * fst_ :=
  match envs with
  | [] => (Go, s)
  | env :: envs => match turn env s with (Go, s) => loop envs s | r => r end
  end.
End fetch.

(** ** What a fetch may do to the tree *)
Definition fsF (s : fst_) : fs := w_fs (sh_world (fs_sh s)).

(** Outside the journal directory and but for [name] and the names [qs], only missing
    parent directories appear, and no content changes; each of [qs] is as it was, or
    removed, or a name of the same file, or a directory that another of them needs. *)
Record elsewhere (name : path) (qs : list path) (s0 s1 : fs) : Prop := {
  el_nodes : ∀ p, outside p → p ≠ name → nodes s1 !! p = nodes s0 !! p ∨
    (p ∈ qs ∧ (nodes s1 !! p = None ∨ nodes s1 !! p = nodes s1 !! name)) ∨
    ((nodes s0 !! p = None ∨ p ∈ qs) ∧ isDir s1 p ∧ ∃ q k, q ∈ name :: qs ∧ (0 < k < length q)%nat ∧ p = take k q);
  el_inodes : ∀ p j, outside p → nodes s0 !! p = Some (NFile j) → inodes s1 !! j = inodes s0 !! j;
}.
Lemma elsewhere_same name qs s0 s1 : sameOutside s0 s1 → elsewhere name qs s0 s1.
Proof. intros [H1 H2]. split; [intros p Hp _; left; by apply H1|done]. Qed.
Lemma elsewhere_publish id pn c i s0 s s1 :
  sameOutside s0 s → partOpen id i s → onlyPublish (partPath id) pn c i s s1 → elsewhere (pn ++ [c]) [] s0 s1.
Proof.
  intros [S1 S2] Hpo [O1 O2 O3]. split.
  - intros p Hp Hn. rewrite <- (S1 p Hp). destruct (O1 p) as [?|(H1 & H2 & k & Hk & ->)]; [|done|by left|].
    { intros ->. by apply Hp. }
    right; right. split_and!; [by left|done|]. exists (pn ++ [c]), k. rewrite length_snoc, take_app_le by lia.
    split_and!; [by left|lia|lia|done].
  - intros p j Hp Hj. rewrite O2; [by eapply S2|]. intros ->. rewrite <- (S1 p Hp) in Hj. by apply (partOpen_outside id i s p).
Qed.

(** The name holds a file with content [content], and elsewhere nothing else changed. *)
Definition published (pn : path) (c : bytes) (qs : list path) (content : bytes) (s0 s1 : fs) : Prop :=
  elsewhere (pn ++ [c]) qs s0 s1 ∧ fsOk s1 ∧
  ∃ i x, nodes s1 !! (pn ++ [c]) = Some (NFile i) ∧ inodes s1 !! i = Some x ∧ i_content x = content.
(** The name is what it was. *)
Definition untouched (pn : path) (c : bytes) (s0 s1 : fs) : Prop :=
  elsewhere (pn ++ [c]) [] s0 s1 ∧ nodes s1 !! (pn ++ [c]) = nodes s0 !! (pn ++ [c]).

(** ... and it still does once the secondaries [qs] are linked to it. *)
Lemma published_linked pn c qs content i s0 s1 s2 :
  published pn c [] content s0 s1 → nodes s1 !! (pn ++ [c]) = Some (NFile i) → pn ++ [c] ∉ qs → linked i qs s1 s2 →
  published pn c qs content s0 s2.
Proof.
  intros ([E1 E2] & _ & j & x & Hj & Hx & Hc) Hi Hq Hl. pose proof (linked_keeps _ _ _ _ _ _ Hl Hq Hi) as Hi2.
  destruct Hl as [L1 L2 L3]. split_and!; [|done|exists j, x; rewrite L3; split_and!; [congruence|done|done]].
  split; [|intros p k Hp Hk; rewrite L3; by eapply E2]. intros p Hp Hn.
  destruct (L2 p) as [E|[[Hin H]|(H & Hd & q & k & Hqs & Hk & ->)]].
  - unfold isDir. rewrite E. destruct (E1 p Hp Hn) as [?|[[?%elem_of_nil _]|(H0 & Hd & q & k & Hqs & Hk & ->)]]; [by left|done|right; right].
    split_and!; [destruct H0 as [?|?%elem_of_nil]; [by left|done]|done|]. exists q, k. set_solver.
  - right; left. rewrite Hi2. by split.
  - right; right. split_and!; [|done|exists q, k; set_solver]. destruct H as [H|H]; [|by right].
    destruct (E1 _ Hp Hn) as [E|[[?%elem_of_nil _]|(_ & [m Hm] & _)]]; [left; congruence|done|congruence].
Qed.

(** The secondaries that wait for file [id]; they are handed back once it is in place. *)
Definition awaited (id : Z) (fm : fileMeta) (h : hardlinkMap) : list pendingLink :=
  if fm_hasHLKey fm then (registerMaterialised id (fm_rel fm) h).1 else [].

(** ** Running the monad *)
Lemma onDest_inv {A} (m : SE world gerr A) s r s' :
  onDest m s = (r, s') → ∃ w, m (sh_world (fs_sh s)) = (r, w) ∧ s' = withShared (onWorld w) s.
Proof. unfold onDest, runDest. destruct (m _) as [r0 w]. intros [= <- <-]. by exists w. Qed.
Lemma attemptDest_inv {A} (m : SE world gerr A) s r s' :
  attemptDest m s = (r, s') →
  ∃ r0 w, m (sh_world (fs_sh s)) = (r0, w) ∧ s' = withShared (onWorld w) s ∧
          r = Ok (match r0 with Ok _ => None | Err e => Some e end).
Proof. unfold attemptDest, runDest. destruct (m _) as [r0 w]. intros [= <- <-]. by exists r0, w. Qed.

(** Nothing a fetch reports has changed, and nothing outside the journal directory. *)
Record quiet (s0 s : fst_) : Prop := {
  qu_out : sameOutside (fsF s0) (fsF s);
  qu_completed : fs_completed s = fs_completed s0;
  qu_journal : fs_journal s = fs_journal s0;
  qu_meta : sh_meta (fs_sh s) = sh_meta (fs_sh s0);
  qu_hl : sh_hl (fs_sh s) = sh_hl (fs_sh s0);
}.
Lemma quiet_refl s : quiet s s.
Proof. by split. Qed.
Lemma quiet_trans s1 s2 s3 : quiet s1 s2 → quiet s2 s3 → quiet s1 s3.
Proof. intros [A1 A2 A3 A4 A5] [B1 B2 B3 B4 B5]. split; [by eapply sameOutside_trans|congruence..]. Qed.
(** Steps that do not touch the tree. *)
Lemma quiet_fs s s' : fsF s' = fsF s → fs_completed s' = fs_completed s → fs_journal s' = fs_journal s →
  sh_meta (fs_sh s') = sh_meta (fs_sh s) → sh_hl (fs_sh s') = sh_hl (fs_sh s) → quiet s s'.
Proof. intros H1 H2 H3 H4 H5. split; [rewrite H1; apply sameOutside_refl|done..]. Qed.

Lemma abort_inv {A} e s (r : result gerr A) s' : abort e s = (r, s') →
  r = Err e ∧ quiet s s' ∧ fs_in s' = fs_in s ∧ fs_streaming s' = fs_streaming s.
Proof.
  unfold abort. intros [(e0 & E & ->)|(u & s1 & E & E2)]%SE_bind_inv.
  - apply onDest_inv in E as (w & E & _). by unfold ignore in E.
  - apply onDest_inv in E as (w & E & ->). injection E2 as <- <-.
    assert (Hw : w_fs w = fsF s).
    { unfold ignore in E. destruct (Flush (sh_world (fs_sh s))) as [r0 w0] eqn:Ef. injection E as _ <-. by apply flush_fs in Ef. }
    split_and!; [done|by apply quiet_fs|done|done].
Qed.

Lemma sendData_inv m s r s' : sendData m s = (r, s') → quiet s s' ∧ fsF s' = fsF s ∧ fs_in s' = fs_in s.
Proof. unfold sendData. destruct (fs_fates s) as [|[e|] fl]; intros [= <- <-]; split_and!; done || by apply quiet_fs. Qed.
Lemma recvData_inv s r s' : recvData s = (r, s') →
  quiet s s' ∧ fsF s' = fsF s ∧ fs_streaming s' = fs_streaming s ∧
  match r with Ok m => fs_in s = Ok m :: fs_in s' | Err _ => True end.
Proof.
  unfold recvData. destruct (fs_in s) as [|[m|e] l]; intros [= <- <-]; split_and!; done || by apply quiet_fs.
Qed.

(** ** The open part *)
Lemma setInode_part id i x s : partOpen id i s → partOpen id i (setInode i x s) ∧ sameOutside s (setInode i x s).
Proof.
  intros Hp. pose proof Hp as [Hs Hf Ho]. destruct (ok_inode s Hs _ _ Hf) as [[y Hy] _]. split.
  - split; [by eapply fsOk_setInode|done|done].
  - split; [done|]. intros p j Hpo Hj. unfold setInode. cbn. rewrite lookup_insert_ne; [done|].
    intros ->. by apply (partOpen_outside id j s p).
Qed.

(** The part holds [data]. *)
Definition partHolds (id i : Z) (data : bytes) (s : fs) : Prop :=
  partOpen id i s ∧ ∃ x, inodes s !! i = Some x ∧ i_content x = data.

Lemma TruncateInode_part id i w r w' :
  partOpen id i (w_fs w) → TruncateInode i w = (r, w') →
  partOpen id i (w_fs w') ∧ sameOutside (w_fs w) (w_fs w') ∧ (r = Ok () → partHolds id i [] (w_fs w')).
Proof.
  intros Hp E. apply sys_inv in E as [(x & -> & ->)|E]; [split_and!; done || apply sameOutside_refl|].
  pose proof Hp as [Hs Hf _]. destruct (ok_inode _ Hs _ _ Hf) as [[y Hy] _]. rewrite Hy in E. injection E as <- <-.
  destruct (setInode_part id i (mkInode [] (i_meta y)) _ Hp). split_and!; [done|done|]. intros _. split; [done|].
  unfold setInode. cbn. rewrite lookup_insert_eq. by eexists.
Qed.
Lemma WriteInode_part id i data d w r w' :
  partHolds id i data (w_fs w) → WriteInode i d w = (r, w') →
  sameOutside (w_fs w) (w_fs w') ∧ (r = Ok () → partHolds id i (data ++ d) (w_fs w')).
Proof.
  intros [Hp (y & Hy & Hd)] E. apply sys_inv in E as [(x & -> & ->)|E]; [split; done || apply sameOutside_refl|].
  rewrite Hy in E. injection E as <- <-. destruct (setInode_part id i (mkInode (i_content y ++ d) (i_meta y)) _ Hp).
  split; [done|]. intros _. split; [done|]. unfold setInode. cbn. rewrite lookup_insert_eq. eexists. split; [done|].
  cbn. by rewrite Hd.
Qed.

(** ** Verification and publication *)
Definition journaled (rec : JRecord) (s s' : fst_) : Prop :=
  match fs_journal s with
  | None => fs_journal s' = None
  | Some (j, d) => ∃ env d', MarkComplete env j d rec = (None, d') ∧ fs_journal s' = Some (j, d')
  end.

Lemma markComplete_inv rec s r s' : markComplete rec s = (r, s') →
  fs_sh s' = fs_sh s ∧ fs_completed s' = fs_completed s ∧ fs_streaming s' = fs_streaming s ∧
  match r with Ok _ => journaled rec s s' | Err e => GetCode e = E7007 end.
Proof.
  unfold markComplete, journaled. destruct (fs_journal s) as [[j d]|] eqn:Ej; [|by intros [= <- <-]].
  destruct (MarkComplete _ j d rec) as [e d'] eqn:E. intros [= <- <-]. split_and!; [done..|].
  destruct e as [e|]; [|by eauto]. unfold MarkComplete in E. destruct (negb (j_open j)); [by injection E as <- _|].
  destruct (mjoin _) as [[? ?]|]; [by injection E as <- _|done].
Qed.

Section verified.
Context `{HashFns} (f : fetcher) (it : needItem) (fm : fileMeta) (pn : path) (c : bytes).
Hypothesis id_range : in_u 64 (fileID it).
Hypothesis rel_plain : Forall plainName (pn ++ [c]).
Hypothesis rel_outside : outside (pn ++ [c]).
Hypothesis rel_name : fm_rel fm = relOf (pn ++ [c]).
#[local] Set Default Proof Using "Type*".

(** The content agrees with every size and digest there is. *)
Definition verified (hdr : FileHeader.t) (fc : FileComplete.t) (content : bytes) : Prop :=
  let local := hashOf (fe_algo f) content in
  Z.of_nat (length content) = FileHeader.Size hdr ∧
  (FileComplete.DigestFull fc = [] ∨ local = FileComplete.DigestFull fc) ∧
  (fm_digest fm = [] ∨ local = fm_digest fm) ∧ (FileHeader.Digest hdr = [] ∨ local = FileHeader.Digest hdr).

(** How a fetch ends: the file is in place and recorded, or not. *)
Definition fetched (content : bytes) (s0 s' : fst_) : Prop :=
  fs_completed s' = fs_completed s0 ++ [fileID it] ∧
  journaled (mkJRecord (fileID it) (fm_rel fm) (hashOf (fe_algo f) content) (Z.of_nat (length content))) s0 s' ∧
  ∀ qs, Forall2 (parkedAt (pn ++ [c])) (awaited (fileID it) fm (sh_hl (fs_sh s0))) qs →
    published pn c qs content (fsF s0) (fsF s').
Definition failed (e : gerr) (s0 s' : fst_) : Prop :=
  fs_completed s' = fs_completed s0 ∧
  (untouched pn c (fsF s0) (fsF s') ∧ fs_journal s' = fs_journal s0 ∨
   GetCode e = E7007 ∧ ∃ content, published pn c [] content (fsF s0) (fsF s')).

Lemma quiet_failed e s0 s' : quiet s0 s' → failed e s0 s'.
Proof.
  intros [H1 H2 H3 _ _]. split; [done|]. left. split; [|done]. split; [by apply elsewhere_same|]. by apply H1.
Qed.

Lemma verifyContent_None hdr fc content :
  verifyContent fm hdr fc (hashOf (fe_algo f) content) (Z.of_nat (length content)) = None → verified hdr fc content.
Proof.
  unfold verifyContent, verified. destruct (Z.eqb_spec (Z.of_nat (length content)) (FileHeader.Size hdr)); [|done]. cbn [negb].
  repeat (case_bool_decide; cbn [negb andb]); try done; intros _; auto 6.
Qed.

Lemma afterPublish_inv local written s r s' :
  afterPublish it fm local written s = (r, s') →
  match r with
  | Err e => GetCode e = E7007 ∧ fs_completed s' = fs_completed s ∧ fsF s' = fsF s
  | Ok _ =>
      fs_completed s' = fs_completed s ++ [fileID it] ∧
      journaled (mkJRecord (fileID it) (fm_rel fm) local (wrap_i 64 written)) s s' ∧
      ∀ qs i, Forall2 (parkedAt (pn ++ [c])) (awaited (fileID it) fm (sh_hl (fs_sh s))) qs →
        fsOk (fsF s) → nodes (fsF s) !! (pn ++ [c]) = Some (NFile i) → linked i qs (fsF s) (fsF s')
  end.
Proof.
  unfold afterPublish. intros [(e & E & ->)|(u & s1 & E1 & E)]%SE_bind_inv.
  { apply markComplete_inv in E as (H1 & H2 & _ & H3). split_and!; [done|done|]. unfold fsF. by rewrite H1. }
  apply markComplete_inv in E1 as (H1 & H2 & _ & H3).
  assert (E' : r = Ok () ∧ fs_completed s' = fs_completed s1 ++ [fileID it] ∧ fs_journal s' = fs_journal s1 ∧
    fsF s' = if fm_hasHLKey fm then
      let '(ls, h) := registerMaterialised (fileID it) (fm_rel fm) (sh_hl (fs_sh s1)) in
      treeOf (linkOrFallback (groupID it) (fm_rel fm) ls (onHL h (fs_sh s1)))
    else fsF s1).
  { revert E. unfold onShared, onComplete, modS, mbind, SE_bind, fsF. destruct (fm_hasHLKey fm), (0 <? attempt it);
      intros [= <- <-]; cbn; try (match goal with |- context [registerMaterialised ?a ?b ?h] => destruct (registerMaterialised a b h) end); split_and!; done. }
  destruct E' as (-> & E1 & E2 & E3). rewrite E1, H2. split_and!; [done| |].
  - unfold journaled in *. destruct (fs_journal s) as [[j d]|]; [destruct H3 as (env & d' & ? & ?); exists env, d'|]; split || idtac; congruence.
  - intros qs i Hqs Hok Hi. rewrite E3. unfold awaited, fsF in *. rewrite H1. destruct (fm_hasHLKey fm).
    + clear E3. rewrite rel_name in *. destruct (registerMaterialised _ _ (sh_hl (fs_sh s))) as [ls h]. cbn [fst] in Hqs.
      by apply (linkOrFallback_linked _ _ i ls qs (onHL h (fs_sh s))).
    + apply Forall2_nil_inv_l in Hqs as ->. by apply linked_refl.
Qed.

Lemma finish_spec i hdr fc content s0 s r s' :
  quiet s0 s → partHolds (fileID it) i content (fsF s) → Z.of_nat (length content) < 2 ^ 62 →
  finish f it fm hdr fc (mkHash (fe_algo f) content) (Z.of_nat (length content)) s = (r, s') →
  match r with
  | Ok _ => verified hdr fc content ∧ fetched content s0 s'
  | Err e => failed e s0 s'
  end.
Proof.
  intros Hq [Hpo (x & Hx & Hc)] Hlen. unfold finish. change (Sum (mkHash (fe_algo f) content)) with (hashOf (fe_algo f) content).
  destruct (verifyContent _ _ _ _ _) as [e|] eqn:Ev; [intros [= <- <-]; by apply quiet_failed|].
  apply verifyContent_None in Ev. intros [(e & E & ->)|(u & s1 & E1 & E)]%SE_bind_inv.
  { by apply attemptDest_inv in E as (? & ? & _ & _ & ?). }
  apply attemptDest_inv in E1 as (r0 & w & Ep & -> & [= ->]). rewrite rel_name in Ep.
  apply (PublishPart_spec _ _ pn c i) in Ep; try done; [|apply Hpo|apply Hpo|by eapply partOpen_outside].
  assert (Hels : ∀ t, onlyPublish (partPath (fileID it)) pn c i (fsF s) t → elsewhere (pn ++ [c]) [] (fsF s0) t).
  { intros t Ht. eapply elsewhere_publish; [apply Hq|exact Hpo|exact Ht]. }
  destruct Hq as [Q1 Q2 Q3 Q4 Q5].
  destruct Ep as [(e & -> & [[K1 K2 K3 K4] [Hc1 Hc2]])|(Hcode & P1 & P2 & P3 & P4 & P5)].
  { rewrite bool_decide_false in E by done. injection E as <- <-. split; [done|]. left. split; [|done].
    split; [by apply Hels|]. change (fsF (withShared (onWorld w) s)) with (w_fs w). rewrite K4. by apply Q1. }
  assert (Hpub : published pn c [] content (fsF s0) (w_fs w)).
  { split; [by apply Hels|]. split; [done|]. destruct (op_content _ _ _ _ _ _ P2 x Hx) as (x' & ? & ?).
    exists i, x'. split_and!; [done|done|congruence]. }
  assert (Ea : afterPublish it fm (hashOf (fe_algo f) content) (Z.of_nat (length content)) (withShared (onWorld w) s) = (r, s')).
  { destruct r0 as [u|e]; [done|]. by rewrite bool_decide_true in E by auto. }
  apply afterPublish_inv in Ea. destruct r as [u|e].
  - destruct Ea as (A1 & A2 & A3). split; [done|]. split; [rewrite A1; cbn; by rewrite Q2|]. split.
    + unfold journaled in *. cbn [fs_journal withShared] in A2. rewrite Q3 in A2. rewrite wrap_i_id in A2 by (unfold in_i; lia). done.
    + intros qs Hqs. eapply published_linked; [exact Hpub|exact P3| |].
      { intros Hin. clear -Hqs Hin. induction Hqs as [|l q ls qs [_ _ _ [_ ?]] _ IH]; [by apply elem_of_nil in Hin|].
        apply elem_of_cons in Hin as [?|?]; [congruence|by apply IH]. }
      apply (A3 qs i); [cbn; by rewrite Q5|done|done].
  - destruct Ea as (A1 & A2 & A3). split; [rewrite A2; cbn; by rewrite Q2|]. right. split; [done|].
    exists content. by rewrite A3.
Qed.

(** *** The receive loop *)

(** The content of the chunks among these messages. *)
Definition dataOf (l : list (result gerr Message)) : bytes :=
  mjoin ((λ x, match x with Ok (MFileChunk v) => FileChunk.Data v | _ => [] end) <$> l).
(** The last message of a request, or the end of the channel. *)
Definition terminal (x : result gerr Message) : bool :=
  match x with Err _ | Ok (MFileComplete _) | Ok (MFileError _) => true | _ => false end.
Definition isChunk (x : result gerr Message) : bool := match x with Ok (MFileChunk _) => true | _ => false end.
Definition endsAt (k : nat) (l l' : list (result gerr Message)) : Prop :=
  ∃ x, l !! k = Some x ∧ terminal x = true ∧ l' = drop (S k) l.
Definition atBoundary (l l' : list (result gerr Message)) : Prop := l' = l ∨ ∃ k, endsAt k l l'.

Lemma finish_keeps hdr fc h written s r s' : finish f it fm hdr fc h written s = (r, s') →
  fs_in s' = fs_in s ∧ fs_streaming s' = fs_streaming s.
Proof using.
  assert (Ha : ∀ local s1 r1 s2, afterPublish it fm local written s1 = (r1, s2) → fs_in s2 = fs_in s1 ∧ fs_streaming s2 = fs_streaming s1).
  { intros local s1 r1 s2. unfold afterPublish, onShared, onComplete, modS, mbind, SE_bind, markComplete.
    destruct (fs_journal s1) as [[j d]|]; [destruct (MarkComplete _ _ _ _) as [[e|] d']|]; try (by intros [= <- <-]);
      destruct (fm_hasHLKey fm), (0 <? attempt it); by intros [= <- <-]. }
  unfold finish. destruct (verifyContent _ _ _ _ _); [by intros [= <- <-]|].
  intros [(e & E & ->)|(u & s1 & E1 & E)]%SE_bind_inv; [by apply attemptDest_inv in E as (? & ? & _ & _ & ?)|].
  apply attemptDest_inv in E1 as (r0 & w & _ & -> & [= ->]).
  destruct r0 as [u0|e]; [by apply Ha in E|]. destruct (bool_decide _); [by apply Ha in E|by injection E as _ <-].
Qed.

(** What the receive loop comes to, from a part holding [content]. *)
Definition received (hdr : FileHeader.t) (content : bytes) (s0 s : fst_) (r : result gerr unit) (s' : fst_) : Prop :=
  match r with
  | Ok _ => ∃ k fc,
      let content' := content ++ dataOf (take k (fs_in s)) in
      fs_in s !! k = Some (Ok (MFileComplete fc)) ∧ Forall (λ x, isChunk x = true) (take k (fs_in s)) ∧
      fs_in s' = drop (S k) (fs_in s) ∧ fs_streaming s' = false ∧
      verified hdr fc content' ∧ fetched content' s0 s'
  | Err e => failed e s0 s' ∧ (fs_streaming s' = true ∨ ∃ k, endsAt k (fs_in s) (fs_in s'))
  end.

Lemma abort_received hdr content s0 s1 s e r s' :
  quiet s0 s → fs_streaming s = true → abort e s = (r, s') → received hdr content s0 s1 r s'.
Proof.
  intros Hq Hst E. apply abort_inv in E as (-> & Hq' & _ & Hs). split; [apply quiet_failed; by eapply quiet_trans|]. left. congruence.
Qed.

(** A chunk is consumed before the rest is received. *)
Lemma received_cons hdr content v s0 s s1 r s' :
  fs_in s = Ok (MFileChunk v) :: fs_in s1 → received hdr (content ++ FileChunk.Data v) s0 s1 r s' → received hdr content s0 s r s'.
Proof.
  intros Hin. unfold received. destruct r as [u|e].
  - intros (k & fc & H1 & H1' & H2 & H3 & H4 & H5). exists (S k), fc. rewrite Hin. cbn [take drop lookup list_lookup].
    assert (Hd : dataOf (Ok (MFileChunk v) :: take k (fs_in s1)) = FileChunk.Data v ++ dataOf (take k (fs_in s1))).
    { unfold dataOf. by rewrite fmap_cons, mjoin_cons. }
    cbv zeta. rewrite Hd, app_assoc. split_and!; try done. by apply Forall_cons.
  - intros [H1 H2]. split; [done|]. destruct H2 as [?|(k & x & Hk & Hx & Hd)]; [by left|right]. exists (S k), x.
    rewrite Hin. by split_and!.
Qed.

Lemma setStreaming_inv b s r s' : setStreaming b s = (r, s') →
  r = Ok () ∧ quiet s s' ∧ fsF s' = fsF s ∧ fs_in s' = fs_in s ∧ fs_streaming s' = b.
Proof using. intros [= <- <-]. split_and!; try done. Qed.

Lemma endsAt_first x l l' : l = x :: l' → terminal x = true → ∃ k, endsAt k l l'.
Proof using. intros -> Hx. exists 0%nat, x. by split_and!. Qed.

Lemma complete_received hdr i content v s0 s s1 r s' :
  quiet s0 s1 → partHolds (fileID it) i content (fsF s1) → fs_in s = Ok (MFileComplete v) :: fs_in s1 →
  Z.of_nat (length content) < 2 ^ 62 →
  (_ ← setStreaming false;
   u ← onDest (Fs.attempt Flush);
   match u with
   | Err cerr => failS (fault E7004 "close part file" (fm_rel fm) (Some (EStd cerr)))
   | Ok _ => finish f it fm hdr v (mkHash (fe_algo f) content) (Z.of_nat (length content))
   end) s1 = (r, s') →
  received hdr content s0 s r s'.
Proof.
  intros Hq Hp Hin Hlen. intros [(e & E & _)|(u & s2 & E1 & E)]%SE_bind_inv; [by apply setStreaming_inv in E as [? _]|].
  apply setStreaming_inv in E1 as (_ & Hq2 & Hf2 & Hin2 & Hst2).
  apply SE_bind_inv in E as [(e & E & ->)|(x & s3 & E1 & E)].
  { apply onDest_inv in E as (w & E & _). by apply attempt_inv in E as (? & ? & _). }
  apply onDest_inv in E1 as (w & E1 & ->). apply attempt_inv in E1 as (x' & [= <-] & E1). apply flush_fs in E1.
  assert (Hq3 : quiet s0 (withShared (onWorld w) s2)).
  { eapply quiet_trans; [exact Hq|]. eapply quiet_trans; [exact Hq2|]. by apply quiet_fs. }
  assert (Hend : fs_in s = Ok (MFileComplete v) :: fs_in (withShared (onWorld w) s2)) by (cbn; by rewrite Hin2).
  destruct x as [u0|cerr].
  - apply finish_keeps in E as Hk. destruct Hk as [Hk1 Hk2].
    apply (finish_spec i hdr v content s0) in E; [|done|unfold fsF; cbn; rewrite E1; fold (fsF s2); by rewrite Hf2|done].
    destruct r as [u1|e].
    + exists 0%nat, v. cbn [take]. change (dataOf []) with (@nil byte). rewrite app_nil_r, Hend, Hk1, Hk2.
      destruct E as [E2 E3]. split_and!; [done|constructor|done|exact Hst2|done|done].
    + split; [done|]. right. rewrite Hk1. by eapply endsAt_first.
  - injection E as <- <-. split; [by apply quiet_failed|]. right. by eapply endsAt_first.
Qed.

Lemma error_received hdr content v s0 s s1 r s' :
  quiet s0 s1 → fs_in s = Ok (MFileError v) :: fs_in s1 →
  (_ ← setStreaming false; abort (faultFromFileError v)) s1 = (r, s') → received hdr content s0 s r s'.
Proof.
  intros Hq Hin. intros [(e & E & _)|(u & s2 & E1 & E)]%SE_bind_inv; [by apply setStreaming_inv in E as [? _]|].
  apply setStreaming_inv in E1 as (_ & Hq2 & _ & Hin2 & Hst2). apply abort_inv in E as (-> & Hq3 & Hin3 & Hst3).
  split; [apply quiet_failed; eapply quiet_trans; [exact Hq|]; by eapply quiet_trans|]. right.
  apply (endsAt_first (Ok (MFileError v))); [|done]. by rewrite Hin, Hin3, Hin2.
Qed.

Lemma receive_spec fuel : ∀ hdr i content s0 s r s',
  quiet s0 s → partHolds (fileID it) i content (fsF s) → fs_streaming s = true → (length (fs_in s) < fuel)%nat →
  Z.of_nat (length content) + Z.of_nat (length (dataOf (fs_in s))) < 2 ^ 62 →
  receive f fuel it fm hdr i (mkHash (fe_algo f) content) (Z.of_nat (length content)) s = (r, s') →
  received hdr content s0 s r s'.
Proof.
  induction fuel as [|fuel IH]; intros hdr i content s0 s r s' Hq Hp Hst Hf Hlen; cbn [receive]; [lia|].
  destruct (recvData s) as [[m|e] s1] eqn:Er; apply recvData_inv in Er as (Hq1 & Hfs & Hst1 & Hin).
  2:{ apply abort_received; [by eapply quiet_trans|congruence]. }
  assert (Hq01 : quiet s0 s1) by by eapply quiet_trans.
  rewrite Hst in Hst1. rewrite <- Hfs in Hp.
  destruct m; try (by apply abort_received).
  - (* a chunk *)
    destruct (negb _); [by apply abort_received|].
    intros [(e & E & ->)|(u & s2 & E1 & E)]%SE_bind_inv; [apply onDest_inv in E as (w & E & _); by apply attempt_inv in E as (? & ? & _)|].
    apply onDest_inv in E1 as (w & E1 & ->). apply attempt_inv in E1 as (u' & [= <-] & E1).
    apply (WriteInode_part (fileID it) i content) in E1 as [Ho Hd]; [|done].
    assert (Hq2 : quiet s0 (withShared (onWorld w) s1)) by (eapply quiet_trans; [exact Hq01|]; split; done).
    destruct u as [[]|werr]; [|by eapply abort_received in E].
    eapply received_cons; [exact Hin|].
    set (s3 := withShared (count BytesIn (Z.of_nat (length (FileChunk.Data v)))) (withShared (onWorld w) s1)).
    assert (Hl : Z.of_nat (length (dataOf (fs_in s))) = Z.of_nat (length (FileChunk.Data v)) + Z.of_nat (length (dataOf (fs_in s1)))).
    { rewrite Hin. unfold dataOf. rewrite fmap_cons, mjoin_cons, length_app. lia. }
    assert (E' : receive f fuel it fm hdr i (mkHash (fe_algo f) (content ++ FileChunk.Data v))
                   (Z.of_nat (length (content ++ FileChunk.Data v))) s3 = (r, s')).
    { rewrite length_app, Nat2Z.inj_add. rewrite <- (wrap_u_id 64 (_ + _)) by (unfold in_u; lia). exact E. }
    change (received hdr (content ++ FileChunk.Data v) s0 s3 r s'). eapply IH; [| | | | |exact E'].
    + eapply quiet_trans; [exact Hq2|]. by apply quiet_fs.
    + by apply Hd.
    + done.
    + change (fs_in s3) with (fs_in s1). rewrite Hin in Hf. cbn [length] in Hf. lia.
    + change (fs_in s3) with (fs_in s1). rewrite length_app. lia.
  - apply complete_received with (i := i); try done. lia.
  - by apply error_received.
Qed.

(** *** The whole request *)
Lemma sendData_streaming m s r s' : sendData m s = (r, s') → fs_streaming s' = fs_streaming s.
Proof using. unfold sendData. by destruct (fs_fates s) as [|[e|] fl]; intros [= <- <-]. Qed.
Lemma recvData_err s e s' : recvData s = (Err e, s') → atBoundary (fs_in s) (fs_in s').
Proof using.
  unfold recvData. destruct (fs_in s) as [|[m|x] l] eqn:E; intros [= <- <-]; [left; by rewrite E|].
  right. exists 0%nat, (Err x). by split_and!.
Qed.

Lemma failed_desynced e s0 s' : failed e s0 s' → failed (EDesynced e) s0 s'.
Proof. done. Qed.

Lemma partOp_spec s0 op m s r s' : partOp op (fm_rel fm) m s = (r, s') → quiet s0 s → fs_streaming s = true →
  (∀ x w, m (sh_world (fs_sh s)) = (x, w) → sameOutside (fsF s) (w_fs w)) →
  quiet s0 s' ∧ fs_streaming s' = true ∧ fs_in s' = fs_in s ∧
  (r = Ok () → ∃ w, m (sh_world (fs_sh s)) = (Ok (), w) ∧ fsF s' = w_fs w).
Proof using.
  intros E Hq Hst Hm. unfold partOp in E. apply SE_bind_inv in E as [(e & E & _)|(x & s1 & Ex & E)].
  { apply onDest_inv in E as (w & E & _). by apply attempt_inv in E as (? & ? & _). }
  apply onDest_inv in Ex as (w & Ex & ->). apply attempt_inv in Ex as (x' & [= <-] & Ex).
  assert (Hq1 : quiet s0 (withShared (onWorld w) s)) by (eapply quiet_trans; [exact Hq|split; try done; by eapply Hm]).
  destruct x as [[]|e]; [injection E as <- <-; split_and!; try done; by exists w|].
  apply abort_inv in E as (-> & Hq2 & Hin & Hs). split_and!; [by eapply quiet_trans|by rewrite Hs|by rewrite Hin|done].
Qed.

(** After the header: open, truncate and fill the part. *)
Lemma filling_spec hdr s0 s r s' :
  fsOk (fsF s) → partSafe (fileID it) (fsF s) → quiet s0 s → fs_streaming s = true →
  Z.of_nat (length (dataOf (fs_in s))) < 2 ^ 62 →
  (part ← onDest (OpenPart (fileID it));
   _ ← partOp "truncate part file" (fm_rel fm) (TruncateInode part);
   _ ← partOp "seek part file" (fm_rel fm) Flush;
   match New (fe_algo f) with
   | Err e => abort e
   | Ok h => receiveAll f it fm hdr part h
   end) s = (r, s') →
  received hdr [] s0 s r s'.
Proof.
  intros Hok Hsafe Hq Hst Hlen. intros [(e & E & ->)|(i & s1 & E1 & E)]%SE_bind_inv.
  { apply onDest_inv in E as (w & E & ->). apply OpenPart_spec in E as (_ & Ho & _); [|done..].
    split; [apply quiet_failed; eapply quiet_trans; [exact Hq|by split]|by left]. }
  apply onDest_inv in E1 as (w1 & E1 & ->). apply OpenPart_spec in E1 as (_ & Ho & Hpart); [|done..].
  assert (Hq1 : quiet s0 (withShared (onWorld w1) s)) by (eapply quiet_trans; [exact Hq|by split]).
  apply SE_bind_inv in E as [(e & E & ->)|([] & s2 & E2 & E)].
  { apply (partOp_spec s0) in E as (H1 & H2 & _); try done; [split; [by apply quiet_failed|by left]|].
    intros x w Ex. by eapply TruncateInode_part in Ex as (_ & ? & _). }
  apply (partOp_spec s0) in E2 as (Q2 & S2 & I2 & (w2 & E2 & F2)); try done; [|intros x w Ex; by eapply TruncateInode_part in Ex as (_ & ? & _)].
  apply (TruncateInode_part (fileID it)) in E2 as (_ & _ & Hh); [|done]. specialize (Hh eq_refl). rewrite <- F2 in Hh.
  assert (Hfl : ∀ x w, Flush (sh_world (fs_sh s2)) = (x, w) → sameOutside (fsF s2) (w_fs w)).
  { intros x w Ex. apply flush_fs in Ex. rewrite Ex. apply sameOutside_refl. }
  apply SE_bind_inv in E as [(e & E & ->)|([] & s3 & E3 & E)].
  { apply (partOp_spec s0) in E as (H1 & H2 & _); try done. split; [by apply quiet_failed|by left]. }
  apply (partOp_spec s0) in E3 as (Q3 & S3 & I3 & (w3 & E3 & F3)); try done. apply flush_fs in E3.
  assert (Hh3 : partHolds (fileID it) i [] (fsF s3)) by (rewrite F3, E3; exact Hh).
  destruct (New (fe_algo f)) as [h|e] eqn:En; [|by apply (abort_received hdr [] s0 s s3 e)].
  apply New_ok in En as ->. unfold receiveAll in E.
  apply (receive_spec _ hdr i [] s0) in E; [|done|done|done|lia|rewrite I3, I2; cbn [length fs_in withShared]; lia].
  unfold received in *. by rewrite I3, I2 in E.
Qed.

Lemma fetchOne_spec s r s' :
  fsOk (fsF s) → partSafe (fileID it) (fsF s) → metaStore.get (fileID it) (sh_meta (fs_sh s)) = Some fm →
  Z.of_nat (length (dataOf (fs_in s))) < 2 ^ 62 →
  fetchOne f it s = (r, s') →
  match r with
  | Ok _ => ∃ hdr k fc,
      let content := dataOf (take k (fs_in s)) in
      head (fs_in s) = Some (Ok (MFileHeader hdr)) ∧ fs_in s !! k = Some (Ok (MFileComplete fc)) ∧
      Forall (λ x, isChunk x = true) (tail (take k (fs_in s))) ∧
      fs_in s' = drop (S k) (fs_in s) ∧ verified hdr fc content ∧ fetched content s s'
  | Err e =>
      failed e s s' ∧ (asDesynced e = true ∨ IsFatal (Some e) = true ∨ atBoundary (fs_in s) (fs_in s'))
  end.
Proof.
  intros Hok Hsafe Hmeta Hlen. unfold fetchOne.
  destruct ((_ ← setStreaming false; transfer f it) s) as [r1 s1] eqn:E.
  apply SE_bind_inv in E as [(e & E & _)|(u & sa & E1 & E)]; [by apply setStreaming_inv in E as [? _]|].
  apply setStreaming_inv in E1 as (_ & Hqa & Hfa & Hina & Hsta). unfold transfer in E.
  rewrite (SE_bind_ok _ _ _ (Some fm) sa) in E by (unfold lookupMeta; by rewrite (qu_meta _ _ Hqa), Hmeta). cbn beta iota in E.
  apply SE_bind_inv in E as [(e & E & _)|(reqID & sb & E1 & E)]; [done|].
  assert (Hb : quiet s sb ∧ fs_in sb = fs_in s ∧ fsF sb = fsF s ∧ fs_streaming sb = false).
  { injection E1 as _ <-. split_and!; [eapply quiet_trans; [exact Hqa|by apply quiet_fs]|exact Hina|exact Hfa|exact Hsta]. }
  destruct Hb as (Hqb & Hinb & Hfb & Hstb). clear E1.
  assert (Hearly : ∀ e s2, quiet s s2 → fs_streaming s2 = false → IsFatal (Some e) = true ∨ atBoundary (fs_in s) (fs_in s2) →
    (Err e, s2) = (r1, s1) →
    match r1 with Ok a => (Ok a, s1) | Err e => (Err (if fs_streaming s1 then EDesynced e else e), s1) end = (r, s') →
    match r with Ok _ => False | Err e => failed e s s' ∧ (asDesynced e = true ∨ IsFatal (Some e) = true ∨ atBoundary (fs_in s) (fs_in s')) end).
  { intros e s2 Hq2 Hs2 Hb [= <- <-]. rewrite Hs2. intros [= <- <-]. split; [by apply quiet_failed|by right]. }
  apply SE_bind_inv in E as [(e & E & ->)|(u1 & sc & E1 & E)].
  { intros Er. pose proof (sendData_streaming _ _ _ _ E) as Hs. apply sendData_inv in E as (Hq & _ & Hin).
    apply (Hearly e s1) in Er; [by destruct r|by eapply quiet_trans|congruence|right; left; congruence|done]. }
  pose proof (sendData_streaming _ _ _ _ E1) as Hstc. apply sendData_inv in E1 as (Hqc & Hfc & Hinc).
  apply SE_bind_inv in E as [(e & E & ->)|(m & sd & E1 & E)].
  { intros Er. pose proof (recvData_err _ _ _ E) as Hend. apply recvData_inv in E as (Hq & _ & Hs & _).
    apply (Hearly e s1) in Er; [by destruct r|eapply quiet_trans; [exact Hqb|by eapply quiet_trans]|congruence|right|done].
    by rewrite <- Hinb, <- Hinc. }
  apply recvData_inv in E1 as (Hqd & Hfd & Hstd & Hind).
  assert (Hq : quiet s sd) by (eapply quiet_trans; [exact Hqb|by eapply quiet_trans]).
  assert (Hin : fs_in s = Ok m :: fs_in sd) by congruence.
  destruct m; try (intros Er; eapply (Hearly _ sd) in Er; [by destruct r|done|congruence| |exact E]; by left).
  2:{ intros Er. eapply (Hearly _ sd) in Er; [by destruct r|done|congruence| |exact E]. right. right. by eapply endsAt_first. }
  apply SE_bind_inv in E as [(e & E & _)|(u2 & se & E1 & E)]; [by apply setStreaming_inv in E as [? _]|].
  apply setStreaming_inv in E1 as (_ & Hqe & Hfe & Hine & Hste).
  assert (Hf : fsF se = fsF s) by congruence.
  apply (filling_spec _ s se) in E; [|by rewrite Hf|by rewrite Hf|by eapply quiet_trans|done|].
  2:{ rewrite Hine. rewrite Hin in Hlen. exact Hlen. }
  destruct r1 as [u3|e]; intros [= <- <-].
  - destruct E as (k & fc & H1 & H1' & H2 & H3 & H4 & H5). rewrite Hine in *. exists v, (S k), fc. rewrite Hin. by split_and!.
  - destruct E as [H1 H2]. destruct (fs_streaming s1); [split; [done|by left]|split; [done|]].
    right. right. destruct H2 as [?|(k & x & Hk & Hx & Hd)]; [done|]. right. exists (S k), x. rewrite Hin, <- Hine. by split_and!.
Qed.
(** C7: what a fetch publishes is verified.  If [fetchOne] succeeds, then in the tree
    it leaves the final name holds exactly the content of the chunks received
    between the header and the FILE_COMPLETE, its length is the header's size and
    its digest agrees with the streamed, the manifest's and the header's digest
    where they are given; the file is journaled with that digest and completed
    once; and outside the journal directory nothing else changed but missing parents
    and, for a hard-linked file, the names [qs] of the secondaries that waited for
    it, each of which is as it was, or gone, or a name of the same file, or a directory
    that another of them needs (the tree is described for secondaries with valid
    names outside the journal directory and other than the file's own: the
    decisions reject an entry whose path is invalid or already taken; a file without
    hard links has none).  If it fails, nothing is completed and the final name is what it was,
    unless the journal write failed (E7007, which is fatal).  After a failure that
    leaves the channel usable the channel stands at a message boundary. *)
Theorem fetch_verified s :
  fsOk (fsF s) → partSafe (fileID it) (fsF s) → metaStore.get (fileID it) (sh_meta (fs_sh s)) = Some fm →
  Z.of_nat (length (dataOf (fs_in s))) < 2 ^ 62 →
  match fetchOne f it s with
  | (Ok _, s') => ∃ hdr k fc,
      let content := dataOf (take k (fs_in s)) in
      head (fs_in s) = Some (Ok (MFileHeader hdr)) ∧ fs_in s !! k = Some (Ok (MFileComplete fc)) ∧
      Forall (λ x, isChunk x = true) (tail (take k (fs_in s))) ∧
      fs_in s' = drop (S k) (fs_in s) ∧ verified hdr fc content ∧
      fs_completed s' = fs_completed s ++ [fileID it] ∧
      journaled (mkJRecord (fileID it) (fm_rel fm) (hashOf (fe_algo f) content) (Z.of_nat (length content))) s s' ∧
      ∀ qs, Forall2 (parkedAt (pn ++ [c])) (awaited (fileID it) fm (sh_hl (fs_sh s))) qs →
        published pn c qs content (fsF s) (fsF s')
  | (Err e, s') =>
      fs_completed s' = fs_completed s ∧
      (untouched pn c (fsF s) (fsF s') ∧ fs_journal s' = fs_journal s ∨
       GetCode e = E7007 ∧ ∃ content, published pn c [] content (fsF s) (fsF s')) ∧
      (asDesynced e = true ∨ IsFatal (Some e) = true ∨ atBoundary (fs_in s) (fs_in s'))
  end.
Proof.
  intros Hok Hsafe Hmeta Hlen. destruct (fetchOne f it s) as [r s'] eqn:E.
  apply fetchOne_spec in E; [|done..]. destruct r as [u|e].
  - destruct E as (hdr & k & fc & H1 & H2 & H2' & H3 & H4 & H5 & H6 & H7). exists hdr, k, fc. by split_and!.
  - destruct E as [[H1 H2] H3]. by split_and!.
Qed.

(** A data channel is used for another request only in sync: when [loop] goes
    on after a fetch, the messages consumed end with the last message of that
    request (or a channel error), so no chunk of one request is ever read as the
    answer to another. *)
Theorem channel_reused_in_sync env s r s1 s2 :
  fsOk (fsF s) → partSafe (fileID it) (fsF s) → metaStore.get (fileID it) (sh_meta (fs_sh s)) = Some fm →
  Z.of_nat (length (dataOf (fs_in s))) < 2 ^ 62 →
  fetchOne f it s = (r, s1) → settle f env it r s1 = (Go, s2) → atBoundary (fs_in s) (fs_in s2).
Proof.
  intros Hok Hsafe Hmeta Hlen E Es. apply fetchOne_spec in E; [|done..].
  destruct r as [u|e]; cbn [settle] in Es.
  - destruct E as (hdr & k & fc & _ & H2 & _ & H3 & _). injection Es as <-. right. exists k, (Ok (MFileComplete fc)). by split_and!.
  - destruct E as [_ Hb]. destruct (le_cancelled env); [done|]. destruct (asChannelLost e); [done|].
    destruct (IsFatal (Some e)); [done|]. destruct (asDesynced e).
    + by destruct (_ && _); [destruct (le_backoff env)|].
    + destruct Hb as [?|[?|Hb]]; [done|done|].
      assert (Hin : fs_in s2 = fs_in s1); [|by rewrite Hin].
      destruct (_ && _); [destruct (le_backoff env); by simplify_eq|].
      injection Es as <-. unfold giveUp. by destruct (abandon _ _).
Qed.
End verified.

(** ** The queue's account of a worker *)

(** Items only join the queue, nothing is resolved, no failure is uncounted. *)
Definition FilesFailedOf (s : fst_) : Z := sh_cnt (fs_sh s) FilesFailed.
Definition fallbacks (its : list needItem) (q : needQueue) : needQueue := foldl (λ q it, pushFallback it q) q its.
Lemma fallbacks_app a b q : fallbacks (a ++ b) q = fallbacks b (fallbacks a q).
Proof. apply foldl_app. Qed.
Lemma fallbacks_spec its q : items (fallbacks its q) = items q ++ its ∧ inflight (fallbacks its q) = inflight q.
Proof.
  revert q. induction its as [|it its IH]; intros q; [by rewrite app_nil_r|].
  destruct (IH (pushFallback it q)) as [H1 H2]. change (fallbacks (it :: its) q) with (fallbacks its (pushFallback it q)).
  rewrite H1, H2. cbn. by rewrite <- app_assoc.
Qed.
(** The queue gains the content fallbacks [added]. *)
Definition gains (q q' : needQueue) : Prop := ∃ added, q' = fallbacks added q ∧ Forall (λ it, attempt it = 0) added.
Lemma gains_refl q : gains q q.
Proof. by exists []. Qed.
Lemma gains_trans q1 q2 q3 : gains q1 q2 → gains q2 q3 → gains q1 q3.
Proof. intros (a & -> & Z1) (b & -> & Z2). exists (a ++ b). by rewrite fallbacks_app, Forall_app. Qed.

Record steady (s s' : fst_) : Prop := {
  sd_queue : gains (sh_q (fs_sh s)) (sh_q (fs_sh s'));
  sd_completed : fs_completed s' = fs_completed s;
  sd_fatal : fs_fatal s' = fs_fatal s;
  sd_failed : FilesFailedOf s <= FilesFailedOf s';
}.
Lemma steady_same s s' : sh_q (fs_sh s') = sh_q (fs_sh s) → FilesFailedOf s <= FilesFailedOf s' →
  fs_completed s' = fs_completed s → fs_fatal s' = fs_fatal s → steady s s'.
Proof. intros Hq Hf Hc Hx. split; rewrite ?Hq; try done. apply gains_refl. Qed.
Lemma steady_trans s1 s2 s3 : steady s1 s2 → steady s2 s3 → steady s1 s3.
Proof.
  intros [A1 A3 A4 A5] [B1 B3 B4 B5]. split; [by eapply gains_trans|congruence..|lia].
Qed.

(** Every run of [m] is steady. *)
Definition always {A} (m : F A) : Prop := ∀ s r s', m s = (r, s') → steady s s'.
Lemma always_bind {A B} (m : F A) (k : A → F B) : always m → (∀ a, always (k a)) → always (m ≫= k).
Proof.
  intros Hm Hk s r s' [(e & E & _)|(a & s1 & E1 & E)]%SE_bind_inv; [by eapply Hm|].
  eapply steady_trans; [by eapply Hm|by eapply Hk].
Qed.
Ltac steady_now := intros s r s'; intros [= <- <-]; apply steady_same; done || lia.
Lemma always_ret {A} (a : A) : always (mret a).
Proof. intros s r s' [= <- <-]. by apply steady_same. Qed.
Lemma always_fail {A} e : always (failS e : F A).
Proof. intros s r s' [= <- <-]. by apply steady_same. Qed.
Lemma always_onDest {A} (m : SE world gerr A) : always (onDest m).
Proof. intros s r s' (w & _ & ->)%onDest_inv. by apply steady_same. Qed.
Lemma always_attemptDest {A} (m : SE world gerr A) : always (attemptDest m).
Proof. intros s r s' (r0 & w & _ & -> & _)%attemptDest_inv. by apply steady_same. Qed.
Lemma always_abort {A} e : always (abort e : F A).
Proof. apply always_bind; [apply always_onDest|intros _; apply always_fail]. Qed.
Lemma always_setStreaming b : always (setStreaming b).
Proof. intros s r s' [= <- <-]. by apply steady_same. Qed.
Lemma always_sendData m : always (sendData m).
Proof. intros s r s'. unfold sendData. destruct (fs_fates s) as [|[e|] l]; intros [= <- <-]; by apply steady_same. Qed.
Lemma always_recvData : always recvData.
Proof. intros s r s'. unfold recvData. destruct (fs_in s) as [|[m|e] l]; intros [= <- <-]; by apply steady_same. Qed.
Lemma always_lookupMeta id : always (lookupMeta id).
Proof. intros s r s' [= <- <-]. by apply steady_same. Qed.
Lemma always_nextRequest : always nextRequest.
Proof. intros s r s' [= <- <-]. by apply steady_same. Qed.
Lemma always_markComplete rec : always (markComplete rec).
Proof.
  intros s r s'. unfold markComplete. destruct (fs_journal s) as [[j d]|]; [destruct (MarkComplete _ _ _ _)|];
    intros [= <- <-]; by apply steady_same.
Qed.
Lemma always_count c n : 0 <= n → always (onShared (count c n)).
Proof.
  intros Hn s r s' [= <- <-]. apply steady_same; try done. unfold FilesFailedOf. cbn. unfold addCounter. case_decide; lia.
Qed.
Lemma always_partOp op subj m : always (partOp op subj m).
Proof. apply always_bind; [apply always_onDest|]. intros [u|e]; [apply always_ret|apply always_abort]. Qed.
#[local] Hint Resolve always_bind always_ret always_fail always_onDest always_attemptDest always_abort always_setStreaming
  always_sendData always_recvData always_lookupMeta always_nextRequest always_markComplete always_partOp : core.

(** The content fallback of a hard link joins the queue or counts a failure. *)
Definition joins (sh sh' : shared) : Prop :=
  gains (sh_q sh) (sh_q sh') ∧ sh_cnt sh FilesFailed <= sh_cnt sh' FilesFailed.
Lemma joins_trans a b d : joins a b → joins b d → joins a d.
Proof. intros [A1 A2] [B1 B2]. split; [by eapply gains_trans|lia]. Qed.
Lemma joins_same a b : sh_q b = sh_q a → sh_cnt a FilesFailed <= sh_cnt b FilesFailed → joins a b.
Proof. intros Hq Hc. split; [rewrite Hq; apply gains_refl|done]. Qed.

Lemma fetchInstead_joins g id rel sh : joins sh (fetchInstead g id rel sh).
Proof.
  unfold fetchInstead. assert (Hf : ∀ s, joins s (count FilesFailed 1 s)).
  { intros s. apply joins_same; [done|]. cbn. unfold addCounter. case_decide; [lia|done]. }
  destruct (metaStore.get _ _) as [fm|]; [|apply Hf]. destruct (spaceGuard.reserve _ _) as [[w [e|]] gd].
  - eapply joins_trans; [|apply Hf]. by apply joins_same.
  - split; [|done]. eexists [_]. split; [done|]. by apply Forall_singleton.
Qed.
Lemma linkOrFallback_joins g p ls sh : joins sh (linkOrFallback g p ls sh).
Proof.
  revert sh. induction ls as [|l ls IH]; intros sh; cbn [linkOrFallback]; [by apply joins_same|].
  unfold runDest. destruct (MakeHardlink _ _ (sh_world sh)) as [r w].
  eapply joins_trans; [|apply IH]. destruct r; [by apply joins_same|].
  eapply joins_trans; [|apply fetchInstead_joins]. by apply joins_same.
Qed.
Lemma always_joins (g : shared → shared) : (∀ sh, joins sh (g sh)) → always (onShared g).
Proof. intros Hg s r s' [= <- <-]. destruct (Hg (fs_sh s)) as [H1 H2]. by split. Qed.

Section account.
Context `{HashFns} (f : fetcher).

(** A fetch is steady but for the completion it ends with. *)
Definition ends (id : Z) (m : F unit) : Prop := ∀ s r s', m s = (r, s') →
  ∃ t, steady s t ∧ s' = match r with Ok _ => (onComplete id t).2 | Err _ => t end.
Lemma ends_bind {A} id (m : F A) k : always m → (∀ a, ends id (k a)) → ends id (m ≫= k).
Proof.
  intros Hm Hk s r s' [(e & E & ->)|(a & s1 & E1 & E)]%SE_bind_inv; [exists s'; split; [by eapply Hm|done]|].
  apply Hk in E as (t & Ht & ->). exists t. split; [|done]. eapply steady_trans; [by eapply Hm|done].
Qed.
Lemma ends_fail id e : ends id (failS e).
Proof. intros s r s' [= <- <-]. exists s. split; [by apply steady_same|done]. Qed.
Lemma ends_abort id e : ends id (abort e).
Proof. apply ends_bind; [apply always_onDest|intros _; apply ends_fail]. Qed.

Lemma afterPublish_ends it fm local written : ends (fileID it) (afterPublish it fm local written).
Proof.
  unfold afterPublish. apply ends_bind; [auto|intros _]. apply ends_bind; [|intros _].
  { destruct (fm_hasHLKey fm); [|auto]. apply always_joins. intros sh.
    destruct (registerMaterialised _ _ _) as [ls h]. eapply joins_trans; [|apply linkOrFallback_joins]. by apply joins_same. }
  apply ends_bind; [by apply always_count|intros _]. apply ends_bind.
  { destruct (0 <? attempt it); [by apply always_count|auto]. }
  intros _ s r s' [= <- <-]. exists s. split; [by apply steady_same|done].
Qed.
Lemma finish_ends it fm hdr fc h written : ends (fileID it) (finish f it fm hdr fc h written).
Proof.
  unfold finish. destruct (verifyContent _ _ _ _ _); [apply ends_fail|]. apply ends_bind; [auto|].
  intros [e|]; [destruct (bool_decide _)|]; first [apply afterPublish_ends|apply ends_fail].
Qed.
Lemma receive_ends fuel it fm hdr part h written : ends (fileID it) (receive f fuel it fm hdr part h written).
Proof.
  revert h written. induction fuel as [|fuel IH]; intros h written; cbn [receive]; [apply ends_abort|].
  intros s r s'. destruct (recvData s) as [r0 s1] eqn:Er. apply always_recvData in Er.
  assert (Hgo : ∀ m : F unit, ends (fileID it) m → m s1 = (r, s') →
    ∃ t, steady s t ∧ s' = match r with Ok _ => (onComplete (fileID it) t).2 | Err _ => t end).
  { intros m Hm E. apply Hm in E as (t & Ht & ->). exists t. split; [by eapply steady_trans|done]. }
  destruct r0 as [m|e]; [|apply Hgo, ends_abort].
  destruct m; try apply Hgo, ends_abort.
  - destruct (negb _); [apply Hgo, ends_abort|]. apply Hgo. apply ends_bind; [auto|]. intros [u|e]; [|apply ends_abort].
    apply ends_bind; [apply always_count; lia|]. intros _. apply IH.
  - apply Hgo. apply ends_bind; [auto|intros _]. apply ends_bind; [auto|]. intros [u|e]; [apply finish_ends|apply ends_fail].
  - apply Hgo. apply ends_bind; [auto|intros _]. apply ends_abort.
Qed.
Lemma fetchOne_ends it : ends (fileID it) (fetchOne f it).
Proof.
  assert (Ht : ends (fileID it) (_ ← setStreaming false; transfer f it)).
  { apply ends_bind; [auto|intros _]. unfold transfer. apply ends_bind; [auto|]. intros [fm|]; [|apply ends_fail].
    apply ends_bind; [auto|intros n]. apply ends_bind; [auto|intros _]. apply ends_bind; [auto|].
    intros m. destruct m; try apply ends_fail. apply ends_bind; [auto|intros _]. apply ends_bind; [auto|intros part].
    apply ends_bind; [auto|intros _]. apply ends_bind; [auto|intros _].
    destruct (New (fe_algo f)) as [h|e]; [|apply ends_abort]. intros s r s'. apply receive_ends. }
  intros s r s'. unfold fetchOne. destruct ((_ ← setStreaming false; transfer f it) s) as [r1 s1] eqn:E.
  apply Ht in E as (t & Hs & ->). destruct r1 as [u|e]; intros [= <- <-]; by exists t.
Qed.

(** Where the items of a worker's turns are: back in the queue, completed, or
    given up and counted (or the session has failed). *)
Definition worked (s : fst_) (o : lres) (s' : fst_) : Prop :=
  ∃ added good bad,
    (key <$> items (sh_q (fs_sh s)) ++ added) ≡ₚ (key <$> items (sh_q (fs_sh s')) ++ good ++ bad) ∧
    Forall (λ it, attempt it <= fe_maxRetries f) (items (sh_q (fs_sh s'))) ∧
    inflight (sh_q (fs_sh s')) = inflight (sh_q (fs_sh s)) ∧
    fs_completed s' = fs_completed s ++ (fileID <$> good) ∧
    FilesFailedOf s <= FilesFailedOf s' ∧
    (Z.of_nat (length bad) <= FilesFailedOf s' - FilesFailedOf s ∨ is_Some (fs_fatal s') ∧ o ≠ Go) ∧
    (o = Go → fs_fatal s' = fs_fatal s).

Lemma done_spec g q : 0 < inflight q → items (done_ g q) = items q ∧ inflight (done_ g q) = inflight q - 1.
Proof. intros Hi. unfold done_. cbn. rewrite (proj2 (Z.ltb_lt _ _) Hi). done. Qed.
Lemma requeue_spec it q : 0 < inflight q → items (requeue it q) = items q ++ [it] ∧ inflight (requeue it q) = inflight q - 1.
Proof. intros Hi. unfold requeue. cbn. rewrite (proj2 (Z.ltb_lt _ _) Hi). done. Qed.

Lemma giveUp_spec it s :
  let s' := giveUp it s in
  sh_q (fs_sh s') = done_ (groupID it) (sh_q (fs_sh s)) ∧ fs_completed s' = fs_completed s ∧ fs_fatal s' = fs_fatal s ∧
  FilesFailedOf s + 1 <= FilesFailedOf s'.
Proof.
  unfold giveUp. destruct (abandon _ _) as [orphans h]. unfold FilesFailedOf. cbn. unfold addCounter.
  split_and!; try done. repeat case_decide; done || lia.
Qed.

Hypothesis retries_nonneg : 0 <= fe_maxRetries f.
#[local] Set Default Proof Using "Type*".
Definition withinRetries (s : fst_) : Prop := Forall (λ it, attempt it <= fe_maxRetries f) (items (sh_q (fs_sh s))).

(** The state a popped item is settled in. *)
Record holding (s : fst_) (it : needItem) (t : fst_) (added : list needItem) : Prop := {
  hd_items : items (sh_q (fs_sh s)) ++ added ≡ₚ it :: items (sh_q (fs_sh t));
  hd_retries : withinRetries t;
  hd_mine : attempt it <= fe_maxRetries f;
  hd_inflight : 0 <= inflight (sh_q (fs_sh s)) ∧ inflight (sh_q (fs_sh t)) = inflight (sh_q (fs_sh s)) + 1;
  hd_failed : FilesFailedOf s <= FilesFailedOf t;
  hd_fatal : fs_fatal t = fs_fatal s;
}.

(** The item goes back with [a] attempts, or is done with. *)
Lemma back_worked s it t added a o s' :
  holding s it t added → a <= fe_maxRetries f → fs_completed t = fs_completed s →
  sh_q (fs_sh s') = requeue (withAttempt it a) (sh_q (fs_sh t)) → fs_completed s' = fs_completed t →
  fs_fatal s' = fs_fatal t → FilesFailedOf t <= FilesFailedOf s' → worked s o s'.
Proof using.
  intros [H1 H2 H3 [H4 H5] H6 H7] Ha Hc Hq Hc' Hf Hff.
  destruct (requeue_spec (withAttempt it a) (sh_q (fs_sh t))) as [R1 R2]; [lia|]. rewrite <- Hq in R1, R2.
  exists added, [], []. rewrite R1, R2, !app_nil_r. split_and!.
  - rewrite H1, fmap_app, fmap_cons. cbn. rewrite (Permutation_app_comm _ [_]). done.
  - apply Forall_app. split; [exact H2|]. by apply Forall_singleton.
  - lia.
  - cbn. rewrite ?app_nil_r. congruence.
  - lia.
  - left. cbn. lia.
  - intros _. congruence.
Qed.
Lemma done_worked s it t added o s' (ok : bool) :
  holding s it t added → fs_completed t = fs_completed s ++ (if ok then [fileID it] else []) →
  sh_q (fs_sh s') = done_ (groupID it) (sh_q (fs_sh t)) → fs_completed s' = fs_completed t →
  FilesFailedOf t <= FilesFailedOf s' →
  (ok = true ∨ FilesFailedOf t + 1 <= FilesFailedOf s' ∨ is_Some (fs_fatal s') ∧ o ≠ Go) →
  (o = Go → fs_fatal s' = fs_fatal t) → worked s o s'.
Proof using.
  intros [H1 H2 H3 [H4 H5] H6 H7] Hc Hq Hc' Hff Hwhy Hf.
  destruct (done_spec (groupID it) (sh_q (fs_sh t))) as [R1 R2]; [lia|]. rewrite <- Hq in R1, R2.
  exists added, (if ok then [it] else []), (if ok then [] else [it]). rewrite R1, R2. split_and!.
  - rewrite H1. apply fmap_Permutation. rewrite (Permutation_app_comm (items _)). by destruct ok.
  - exact H2.
  - lia.
  - rewrite Hc', Hc. by destruct ok.
  - lia.
  - destruct Hwhy as [->|[?|?]]; [left; cbn; lia|left; destruct ok; cbn; lia|by right].
  - intros Hgo. rewrite Hf by done. done.
Qed.

Lemma settle_worked env s it t added r o s' :
  holding s it t added → fs_completed t = fs_completed s ++ (if is_ok r then [fileID it] else []) →
  settle f env it r t = (o, s') → worked s o s'.
Proof using.
  intros Hh Hc E. pose proof (hd_mine _ _ _ _ Hh) as Hmine. destruct r as [u|err]; cbn [settle is_ok] in *.
  { injection E as <- <-. eapply (done_worked _ _ _ _ _ _ true); [exact Hh|done..| |by left|done]. done. }
  rewrite app_nil_r in Hc. destruct (le_cancelled env).
  { injection E as <- <-. destruct it. by eapply back_worked. }
  destruct (asChannelLost err).
  { injection E as <- <-. destruct it. eapply back_worked; [exact Hh|exact Hmine|done..|]. done. }
  destruct (IsFatal (Some err)).
  { injection E as <- <-. eapply (done_worked _ _ _ _ _ _ false); [exact Hh|by rewrite app_nil_r|done..| |].
    - right. right. split; [|done]. cbn. destruct (fs_fatal t); by eexists.
    - done. }
  destruct (IsRetryable err && (attempt it + 1 <=? fe_maxRetries f)) eqn:Hr.
  { apply andb_true_iff in Hr as [_ Hr%Z.leb_le]. injection E as <- <-. eapply back_worked; [exact Hh|exact Hr|done..|]. done. }
  injection E as <- <-. destruct (giveUp_spec it t) as (G1 & G2 & G3 & G4).
  eapply (done_worked _ _ _ _ _ _ false); [exact Hh|by rewrite app_nil_r|done|done|lia|right; left; lia|done].
Qed.

Lemma turn_worked env s o s' :
  0 <= inflight (sh_q (fs_sh s)) → withinRetries s → turn f env s = (o, s') → worked s o s'.
Proof.
  intros Hi Ha. unfold turn.
  assert (Hnone : ∀ o' q, q = sh_q (fs_sh s) → worked s o' (withShared (onQueue q) s)).
  { intros o' q ->. exists [], [], []. cbn. rewrite !app_nil_r. split_and!; try done. left. unfold FilesFailedOf. cbn. lia. }
  destruct (pop (le_pop env) (sh_q (fs_sh s))) as [[[it|] q]|] eqn:Ep.
  - destruct (fetchOne f it (withShared (onQueue q) s)) as [r t0] eqn:E.
    apply fetchOne_ends in E as (t & [(added & I0 & Z1) S3 S4 S5] & ->).
    destruct (fallbacks_spec added q) as [I1 S2]. cbn [fs_sh withShared sh_q onQueue] in I0. rewrite <- I0 in I1, S2.
    unfold pop in Ep. destruct (le_pop env); [done|]. destruct (items (sh_q (fs_sh s))) as [|x rest] eqn:Eit.
    { by destruct (_ && _). }
    injection Ep as -> <-. cbn [fs_sh withShared sh_q onQueue items inflight] in I1, S2.
    unfold withinRetries in Ha. rewrite Eit in Ha. apply Forall_cons in Ha as [Ha1 Ha2].
    assert (Hr : Forall (λ it, attempt it <= fe_maxRetries f) (items (sh_q (fs_sh t)))).
    { rewrite I1. apply Forall_app. split; [done|]. eapply Forall_impl; [exact Z1|]. cbn. lia. }
    apply (settle_worked env s it _ added).
    + destruct r; split; unfold withinRetries; cbn; try done; rewrite ?Eit, ?I1, ?S2; try done; lia.
    + destruct r; cbn; rewrite S3; cbn; by rewrite ?app_nil_r.
  - intros [= <- <-]. apply Hnone. unfold pop in Ep. destruct (le_pop env); [by injection Ep|].
    destruct (items _); [|done]. destruct (_ && _); [by injection Ep|done].
  - intros [= <- <-]. pose proof (Hnone Blocked _ eq_refl) as H0. unfold worked in *. exact H0.
Qed.

(** What a turn does to the queue: the pop, the fallbacks of the fetch, the fate of
    the item. *)
Lemma turn_queue env s o s' : turn f env s = (o, s') →
  match pop (le_pop env) (sh_q (fs_sh s)) with
  | None => o = Blocked ∧ s' = s
  | Some (None, q) => o = Stop false ∧ sh_q (fs_sh s') = q
  | Some (Some it, q) => ∃ added r t, Forall (λ it, attempt it = 0) added ∧ sh_q (fs_sh t) = fallbacks added q ∧
      settle f env it r t = (o, s')
  end.
Proof using.
  unfold turn. destruct (pop _ _) as [[[it|] q]|]; [|by intros [= <- <-]..].
  destruct (fetchOne f it (withShared (onQueue q) s)) as [r t0] eqn:E.
  apply fetchOne_ends in E as (t & [(added & I0 & Z1) _ _ _] & ->). intros Es. exists added, r. eexists.
  split; [done|]. split; [|exact Es]. destruct r; exact I0.
Qed.

Lemma perm_account {A} (l m n a1 a2 g1 g2 b1 b2 : list A) :
  l ++ a1 ≡ₚ m ++ g1 ++ b1 → m ++ a2 ≡ₚ n ++ g2 ++ b2 → l ++ a1 ++ a2 ≡ₚ n ++ (g1 ++ g2) ++ b1 ++ b2.
Proof using.
  intros P1 P2. rewrite app_assoc, P1, <- app_assoc, (Permutation_app_comm (g1 ++ b1)), app_assoc, P2, <- !app_assoc.
  apply Permutation_app_head. rewrite (app_assoc g2), (Permutation_app_comm (g2 ++ b2)), <- app_assoc.
  apply Permutation_app_head, Permutation_app_swap_app.
Qed.
Lemma worked_trans s1 s2 o s3 : worked s1 Go s2 → worked s2 o s3 → worked s1 o s3.
Proof using.
  intros (a1 & g1 & b1 & P1 & R1 & I1 & C1 & F1 & B1 & X1) (a2 & g2 & b2 & P2 & R2 & I2 & C2 & F2 & B2 & X2).
  exists (a1 ++ a2), (g1 ++ g2), (b1 ++ b2). split_and!.
  - rewrite !fmap_app in *. by eapply perm_account.
  - done.
  - congruence.
  - rewrite C2, C1, fmap_app, app_assoc. done.
  - lia.
  - rewrite length_app. destruct B1 as [B1|[_ ?]]; [|done]. destruct B2 as [B2|?]; [left; lia|by right].
  - intros Hgo. rewrite X2 by done. by apply X1.
Qed.

End account.

(** ** Error codes across the wire *)
Lemma digits_of_zeros k : digits_of 10 (replicate k (byte_of_Z 48)) = Some (replicate k 0).
Proof. induction k as [|k IH]; [done|]. unfold digits_of in *. cbn [replicate mapM]. by rewrite IH. Qed.
Lemma of_digits_zeros k ds : of_digits 10 (replicate k 0 ++ ds) = of_digits 10 ds.
Proof. unfold of_digits. rewrite foldl_app. f_equal. by induction k as [|k IH]. Qed.

Lemma ParseInt_digits s ds : s ≠ [] → digits_of 10 s = Some ds → 0 <= of_digits 10 ds < 2 ^ 63 → ParseInt s = (of_digits 10 ds, None).
Proof.
  intros Hne Hd Hr. destruct s as [|x s]; [done|]. destruct (digits_head _ _ _ Hd) as [H1 H2].
  unfold ParseInt. rewrite !bool_decide_false by done. rewrite Hd. cbn [negb andb].
  by rewrite (proj2 (Z.leb_gt _ _)) by lia.
Qed.
(** A 16-bit code survives the way into a fault and back. *)
Lemma codeNum_pad4 n : in_u 16 n → codeNum (bs "E" ++ pad4 n) = n.
Proof.
  intros Hn. unfold codeNum. assert (Ht : TrimPrefix (bs "E" ++ pad4 n) (bs "E") = pad4 n) by done. rewrite Ht.
  assert (Hn64 : in_u 64 n) by (unfold in_u in *; lia).
  destruct (FormatUint_digits 10 n) as (ds & Hd & Hv & _); [lia|done|].
  rewrite (ParseInt_digits (pad4 n) (replicate (4 - length (FormatUint n 10)) 0 ++ ds)).
  - cbn [fst]. rewrite of_digits_zeros, Hv. by apply wrap_u_id.
  - unfold pad4. pose proof (FormatUint_nonempty n 10). destruct (FormatUint n 10); [done|]. by destruct (replicate _ _).
  - unfold pad4. by rewrite digits_of_app, digits_of_zeros, Hd.
  - rewrite of_digits_zeros, Hv. unfold in_u in *. lia.
Qed.

(** Error codes survive the wire.  A 16-bit code in a FILE_ERROR becomes a
    fault whose code has exactly that number; for every code of the catalogue (but
    the local one of a signal) the number the sender puts on the wire gives back
    that very code, so the receiver classifies the failure exactly as the sender's
    catalogue does, whatever retryable hint the message carries. *)
Theorem error_codes_travel :
  (∀ fe, in_u 16 (FileError.Code fe) → codeNum (GetCode (faultFromFileError fe)) = FileError.Code fe) ∧
  ∀ c p fe, (c, p) ∈ catalogue → c ≠ Signal → FileError.Code fe = codeNum c →
    GetCode (faultFromFileError fe) = c ∧
    IsRetryable (faultFromFileError fe) = retryable p ∧
    IsFatal (Some (faultFromFileError fe)) = bool_decide (class p = Fatal).
Proof.
  split.
  - intros fe Hfe. unfold faultFromFileError. rewrite GetCode_fault. by apply codeNum_pad4.
  - intros c p fe Hc Hsig Hfe.
    assert (Hall : Forall (λ cp, cp.1 = Signal ∨ (bs "E" ++ pad4 (codeNum cp.1) = cp.1 ∧ Fault.lookup cp.1 = cp.2)) catalogue).
    { unfold catalogue. repeat (apply Forall_cons; split; [first [right; split; vm_compute; reflexivity|left; reflexivity]|]). by apply Forall_nil. }
    rewrite Forall_forall in Hall. destruct (Hall _ Hc) as [?|[H1 H2]]; [done|]. cbn [fst snd] in *.
    unfold faultFromFileError. rewrite Hfe, H1, GetCode_fault. unfold IsRetryable, IsFatal, fault. cbn [asFault Fault.New fRetryable fClass].
    by rewrite H2.
Qed.

(** ** The end of a channel

    Every error of [RecvMsgTimeout] but the end after an authenticated close
    carries a code, so nothing else is ever taken for a lost channel: a reset
    connection (E3003) is retried on the same connection. *)
Section lost.
Context `{RecordCryptoLaws}.
#[local] Set Default Proof Using "Type*".

Lemma only_close_is_lost d env c e out c' :
  RecvMsgTimeout d env c = Some (Err e, out, c') →
  transportData e = e ∨ e = EStd StdEOF ∧ r_done (c_r c') = true ∧ transportData e = EChannelLost e.
Proof.
  assert (Ht : ∀ e, GetCode e ≠ [] → transportData e = e) by (intros e' He; unfold transportData; by rewrite bool_decide_false).
  assert (Hr : ∀ e out c', RecvMsg env c = Some (Err e, out, c') →
    transportData e = e ∨ e = EStd StdEOF ∧ r_done (c_r c') = true ∧ transportData e = EChannelLost e).
  { intros e1 out1 c1 E. apply recvLoop_err in E as [[-> Hd]|He]; [right; by split_and!|left; by apply Ht]. }
  unfold RecvMsgTimeout. destruct (d <=? 0); [by apply Hr|].
  destruct (RecvMsg env c) as [[[[m|e0] out0] c0]|]; [done| |done]. destruct (isStd StdTimeout e0) eqn:Et; intros [= <- <- <-].
  - left. by apply Ht.
  - by eapply Hr.
Qed.
End lost.

(** ** Concrete inputs *)
#[local] Existing Instance padded_hash.
Definition ex_meta : fileMeta := mkFileMeta (bs "d/b") 5 420 (9, 0) (take 16 (bs "hello" ++ replicate 16 Byte.x00)) 0 false.
Definition ex_fetcher : fetcher := mkFetcher (mkDest false []) MD5 2.
Definition ex_item : needItem := mkItem 7 2 5 (bs "d/b") 0.
Definition ex_inbox : list (result gerr Message) :=
  [Ok (MFileHeader (FileHeader.mk 1 7 5 420 9 0 [] 65536)); Ok (MFileChunk (FileChunk.mk 1 0 (bs "hel")));
   Ok (MFileChunk (FileChunk.mk 1 3 (bs "lo"))); Ok (MFileComplete (FileComplete.mk 1 5 []))].
Definition ex_fetching : fst_ :=
  mkFst (mkShared (mkWorld ex_tree []) (mkQueue [ex_item] 10 0 false 1 0 {[2 := 1]}) (spaceGuard.new (2 ^ 40) (2 ^ 20))
           {[7 := ex_meta]} newHardlinkMap (λ _, 0) 5 1)
    (Some (mkJournal true false, emptyJdir)) [] 0 [] None ex_inbox [] [] false.

Lemma ex_partSafe : partSafe 7 (fsF ex_fetching).
Proof.
  split.
  - intros k Hk t E. destruct k as [|[|[|[|k]]]]; [lia|by vm_compute in E..|lia].
  - intros p i E. by vm_compute in E.
Qed.
(** The same file with a second name "d/x" that waits for it. *)
Definition ex_linked_meta : fileMeta := mkFileMeta (bs "d/b") 5 420 (9, 0) (fm_digest ex_meta) 1 true.
Definition ex_linking : fst_ :=
  withShared (λ sh, onHL (mkHL ∅ {[7 := 1]} {[1]} {[1 := [mkPending 9 (bs "d/x")]]}) (onMeta {[7 := ex_linked_meta]} sh)) ex_fetching.
Lemma ex_linking_parked :
  Forall2 (parkedAt ([bs "d"] ++ [bs "b"])) (awaited 7 ex_linked_meta (sh_hl (fs_sh ex_linking))) [[bs "d"; bs "x"]].
Proof.
  constructor; [|constructor]. split; [reflexivity| |by vm_compute|split; by vm_compute].
  refine (bool_decide_eq_true_1 (Forall plainName _) _). vm_compute. reflexivity.
Qed.
Lemma fetch_verified_witness :
  let s' := (fetchOne ex_fetcher ex_item ex_linking).2 in
  fs_completed s' = [7] ∧ published [bs "d"] (bs "b") [[bs "d"; bs "x"]] (bs "hello") (fsF ex_linking) (fsF s').
Proof.
  pose proof (fetch_verified ex_fetcher ex_item ex_linked_meta [bs "d"] (bs "b")) as Hv.
  specialize (Hv ltac:(by vm_compute) ltac:(refine (bool_decide_eq_true_1 (Forall plainName _) _); vm_compute; reflexivity)
                 ltac:(by vm_compute) ltac:(reflexivity) ex_linking).
  specialize (Hv ltac:(apply fsOkb_ok; by vm_compute) ex_partSafe ltac:(reflexivity) ltac:(by vm_compute)).
  assert (Hr : (fetchOne ex_fetcher ex_item ex_linking).1 = Ok ()) by (vm_compute; reflexivity).
  destruct (fetchOne ex_fetcher ex_item ex_linking) as [r s']. cbn [fst snd] in *. subst r.
  destruct Hv as (hdr & k & fc & _ & Hk & _ & _ & _ & Hc & _ & Hp).
  assert (k = 3%nat) as ->.
  { destruct k as [|[|[|[|k]]]]; try reflexivity; vm_compute in Hk; discriminate Hk. }
  split; [exact Hc|]. exact (Hp _ ex_linking_parked).
Defined.

(** A FILE_ERROR after a chunk: the worker goes on, past the error. *)
Definition ex_refused : fst_ :=
  mkFst (fs_sh ex_fetching) None [] 0 [] None
    (take 2 ex_inbox ++ [Ok (MFileError (FileError.mk 1 6004 1 [])); Ok (MPing (Ping.mk 1))]) [] [] false.
Lemma channel_reused_in_sync_witness :
  let '(r, s1) := fetchOne ex_fetcher ex_item ex_refused in
  let '(o, s2) := settle ex_fetcher (mkLenv None false false) ex_item r s1 in
  o = Go ∧ fs_in s2 = [Ok (MPing (Ping.mk 1))] ∧ atBoundary (fs_in ex_refused) (fs_in s2).
Proof.
  pose proof (channel_reused_in_sync ex_fetcher ex_item ex_meta [bs "d"] (bs "b")) as Hv.
  specialize (Hv ltac:(by vm_compute) ltac:(refine (bool_decide_eq_true_1 (Forall plainName _) _); vm_compute; reflexivity)
                 ltac:(by vm_compute) ltac:(reflexivity) (mkLenv None false false) ex_refused).
  assert (Hs : (settle ex_fetcher (mkLenv None false false) ex_item (fetchOne ex_fetcher ex_item ex_refused).1 (fetchOne ex_fetcher ex_item ex_refused).2).1 = Go ∧
    fs_in (settle ex_fetcher (mkLenv None false false) ex_item (fetchOne ex_fetcher ex_item ex_refused).1 (fetchOne ex_fetcher ex_item ex_refused).2).2 = [Ok (MPing (Ping.mk 1))])
    by (split; vm_compute; reflexivity).
  destruct (fetchOne ex_fetcher ex_item ex_refused) as [r s1]. cbn [fst snd] in Hs.
  destruct (settle _ _ _ r s1) as [o s2] eqn:Es. cbn [fst snd] in Hs. destruct Hs as [-> Hin].
  split; [reflexivity|]. split; [exact Hin|].
  exact (Hv r s1 s2 ltac:(apply fsOkb_ok; by vm_compute) ex_partSafe ltac:(reflexivity) ltac:(by vm_compute) eq_refl Es).
Defined.

Definition ex_envs : list lenv := [mkLenv None false false; mkLenv (Some StdCanceled) true false].

Lemma error_codes_travel_witness :
  GetCode (faultFromFileError (FileError.mk 3 (codeNum E6003) 1 (bs "drift"))) = E6003.
Proof.
  apply (proj2 error_codes_travel E6003 (Fault.lookup E6003)); [|done|reflexivity].
  apply list_elem_of_In, find_some with (f := λ p, bool_decide (p.1 = E6003)). vm_compute. reflexivity.
Defined.
