(* ===== verification/Paircode.v ===== *)
(** * Paircode: the pairing code (src/internal/paircode)

    The code the sender prints and the user types on the other machine:
    a payload of one to four endpoints and the 128-bit secret, a CRC-32C, all in
    Crockford Base32.  [encodePayload] and [decodePayload] are the two directions
    between a payload and its bytes, [Encode] and [Decode] those with the text. *)
From S2P Require Import Prelude Fault Strconv Handshake.

(** ** netip.Addr: the zero address, IPv4, IPv6 with its zone *)
Inductive Addr := NoAddr | V4 (a : bytes) | V6 (a zone : bytes).
#[global] Instance Addr_eq_dec : EqDecision Addr.
Proof. solve_decision. Defined.
Definition Is4 (a : Addr) : bool := match a with V4 _ => true | _ => false end.
Definition IsValid (a : Addr) : bool := match a with NoAddr => false | _ => true end.
Definition zeroBytes (n : nat) : bytes := replicate n Byte.x00.
Definition IsUnspecified (a : Addr) : bool :=
  bool_decide (a = V4 (zeroBytes 4)) || bool_decide (a = V6 (zeroBytes 16) []).
Definition As16 (a : Addr) : bytes :=
  match a with
  | NoAddr => zeroBytes 16
  | V4 b => zeroBytes 10 ++ [Byte.xff; Byte.xff] ++ b
  | V6 b _ => b
  end.
Definition AddrFromSlice (b : bytes) : option Addr :=
  match length b with 4%nat => Some (V4 b) | 16%nat => Some (V6 b []) | _ => None end.

(** [Addr.Unmap] and the classes of addresses the program asks for. *)
Definition Unmap (a : Addr) : Addr :=
  match a with
  | V6 b _ => if bool_decide (take 12 b = zeroBytes 10 ++ [Byte.xff; Byte.xff]) then V4 (drop 12 b) else a
  | _ => a
  end.
Definition octet (i : nat) (b : bytes) : Z := Z_of_byte (nth i b Byte.x00).
Definition IsLoopback (a : Addr) : bool :=
  match Unmap a with
  | V4 b => octet 0 b =? 127
  | V6 b _ => bool_decide (b = zeroBytes 15 ++ [Byte.x01])
  | NoAddr => false
  end.
Definition IsPrivate (a : Addr) : bool :=
  match Unmap a with
  | V4 b => (octet 0 b =? 10) || ((octet 0 b =? 172) && (Z.land (octet 1 b) 0xf0 =? 16)) || ((octet 0 b =? 192) && (octet 1 b =? 168))
  | V6 b _ => Z.land (octet 0 b) 0xfe =? 0xfc
  | NoAddr => false
  end.
Definition IsLinkLocalUnicast (a : Addr) : bool :=
  match Unmap a with
  | V4 b => (octet 0 b =? 169) && (octet 1 b =? 254)
  | V6 b _ => (octet 0 b =? 0xfe) && (Z.land (octet 1 b) 0xc0 =? 0x80)
  | NoAddr => false
  end.
Definition IsMulticast (a : Addr) : bool :=
  match Unmap a with
  | V4 b => Z.land (octet 0 b) 0xf0 =? 0xe0
  | V6 b _ => octet 0 b =? 0xff
  | NoAddr => false
  end.
Definition Is6 (a : Addr) : bool := match a with V6 _ _ => true | _ => false end.
Definition IsGlobalUnicast (a : Addr) : bool :=
  match a with
  | NoAddr => false
  | V4 b => negb (bool_decide (b = zeroBytes 4)) && negb (bool_decide (b = replicate 4 Byte.xff)) &&
            negb (IsLoopback a) && negb (IsMulticast a) && negb (IsLinkLocalUnicast a)
  | V6 _ _ => negb (bool_decide (a = V6 (zeroBytes 16) [])) &&
              negb (IsLoopback a) && negb (IsMulticast a) && negb (IsLinkLocalUnicast a)
  end.
Definition WithZone (a : Addr) (zone : bytes) : Addr := match a with V6 b _ => V6 b zone | _ => a end.

Record Endpoint := mkEndpoint { ep_addr : Addr; ep_port : Z }.
#[global] Instance Endpoint_eq_dec : EqDecision Endpoint.
Proof. solve_decision. Defined.
Definition usable (e : Endpoint) : bool :=
  IsValid (ep_addr e) && negb (IsUnspecified (ep_addr e)) && negb (ep_port e =? 0).
Record Payload := mkPayload { Endpoints : list Endpoint; Secret : bytes; Restricted : bool }.

(** ** Constants *)
Definition Alphabet : bytes := bs "0123456789ABCDEFGHJKMNPQRSTVWXYZ".
Definition Version : Z := 1.
Definition SecretLen : nat := 16.
Definition familyV4 : byte := Byte.x04.
Definition familyV6 : byte := Byte.x06.
Definition minPayloadLen : nat := 1 + 1 + (1 + 4 + 2) + SecretLen + 4.
Definition maxEndpoints : nat := 4.
Definition maxPayloadLen : nat := 1 + 1 + maxEndpoints * (1 + 16 + 2) + SecretLen + 4.
Definition maxCodeLen : nat := 260.

(** ** encoding/base32, without padding

    The bits of [l], most significant first, in groups of five, the last group
    filled with zeros. *)
Fixpoint digits32 (m : nat) (v : Z) : list Z :=
  match m with O => [] | S k => (v / 32 ^ Z.of_nat k) mod 32 :: digits32 k v end.
Definition undigits32 (ds : list Z) : Z := foldl (λ a d, a * 32 + d) 0 ds.
Definition symbol (d : Z) : byte := nth (Z.to_nat d) Alphabet Byte.x00.
(** The number of symbols for [n] bytes, and the bits they leave unused. *)
Definition symbols (n : nat) : nat := (8 * n + 4) / 5.
Definition slack (m n : nat) : Z := 5 * Z.of_nat m - 8 * Z.of_nat n.
Definition b32_encode (l : bytes) : bytes :=
  let m := symbols (length l) in symbol <$> digits32 m (unbe l * 2 ^ slack m (length l)).

Definition alphabetIndex (c : byte) : Z :=
  match list_find (eq c) Alphabet with Some (i, _) => Z.of_nat i | None => -1 end.
(** A last quantum of 1, 3 or 6 symbols gives no byte. *)
Definition b32_decode (s : bytes) : option bytes :=
  if negb (forallb (λ c, 0 <=? alphabetIndex c) s) then None
  else
    let q := (length s `mod` 8)%nat in
    let m := if bool_decide (q ∈ [1; 3; 6]%nat) then (length s - q)%nat else length s in
    let n := (5 * m / 8)%nat in
    Some (be n (undigits32 (alphabetIndex <$> take m s) / 2 ^ slack m n)).

(** ** Encode *)
Definition encodeEndpoint (e : Endpoint) : bytes :=
  (if Is4 (ep_addr e) then familyV4 :: match ep_addr e with V4 a => a | _ => [] end
   else familyV6 :: As16 (ep_addr e)) ++ be 2 (ep_port e).
(** [copy(sec[:], p.Secret.Bytes())] *)
Definition secretBytes (s : bytes) : bytes := take SecretLen (s ++ zeroBytes SecretLen).
Definition header (n : nat) (restricted : bool) : Z :=
  let h := wrap_u 8 (Z.shiftl (Z.of_nat n - 1) 6) in if restricted then Z.lor h (Z.shiftl 1 3) else h.
Definition encodePayload (n : nat) (p : Payload) : bytes :=
  let b := [byte_of_Z Version; byte_of_Z (header n (Restricted p))] ++
           mjoin (encodeEndpoint <$> take n (Endpoints p)) ++ secretBytes (Secret p) in
  b ++ be 4 (crc32 Castagnoli b).

Definition dash : byte := byte_of_Z 45.
Fixpoint group_go (i : nat) (s : bytes) : bytes :=
  match s with
  | [] => []
  | c :: s => (if (0 <? i)%nat && (i mod 5 =? 0)%nat then [dash] else []) ++ c :: group_go (S i) s
  end.
Definition group (s : bytes) : bytes := group_go 0 s.
(** [None]: the slice [p.Endpoints[:n]] panics. *)
Definition Encode (p : Payload) : option bytes :=
  let n := length (Endpoints p) in
  let n := if (n <? 1)%nat then 1%nat else n in
  let n := if (maxEndpoints <? n)%nat then maxEndpoints else n in
  if (length (Endpoints p) <? n)%nat then None else Some (group (b32_encode (encodePayload n p))).

(** ** Decode *)
(** One character: dropped, or folded to the canonical one. *)
Definition cleanChar (c : byte) : option byte :=
  if bool_decide (c ∈ [dash; byte_of_Z 32; byte_of_Z 9; byte_of_Z 10; byte_of_Z 13]) then None
  else
    let c := if (97 <=? Z_of_byte c) && (Z_of_byte c <=? 122) then byte_of_Z (Z_of_byte c - 32) else c in
    Some (if bool_decide (c = Byte.x49) || bool_decide (c = Byte.x4c) then Byte.x31
          else if bool_decide (c = Byte.x4f) then Byte.x30 else c).
Definition clean (s : bytes) : bytes := omap cleanChar s.

Definition badCode (c : Code) (cause : option gerr) : gerr := fault c "decode pairing code" [] cause.
Fixpoint decodeEndpoints (count : nat) (l : bytes) : option (list Endpoint * bytes) :=
  match count with
  | O => Some ([], l)
  | S count =>
      match l with
      | [] => None
      | fam :: l =>
          alen ← (if bool_decide (fam = familyV4) then Some 4%nat else if bool_decide (fam = familyV6) then Some 16%nat else None);
          if (length l <? alen + 2)%nat then None
          else
            addr ← AddrFromSlice (take alen l);
            '(eps, rest) ← decodeEndpoints count (drop (alen + 2) l);
            Some (mkEndpoint addr (unbe (take 2 (drop alen l))) :: eps, rest)
      end
  end.
Definition decodePayload (raw : bytes) : result gerr Payload :=
  if negb (Z_of_byte (nth 0 raw Byte.x00) =? Version) then Err (badCode E2002 None)
  else
    let h := Z_of_byte (nth 1 raw Byte.x00) in
    if negb (Z.land h 0x37 =? 0) then Err (badCode E2001 None)
    else
      let count := Z.to_nat (Z.shiftr h 6 + 1) in
      let restricted := negb (Z.land h (Z.shiftl 1 3) =? 0) in
      match decodeEndpoints count (drop 2 raw) with
      | None => Err (badCode E2001 None)
      | Some (eps, rest) =>
          if negb (length rest =? SecretLen + 4)%nat then Err (badCode E2001 None)
          else if negb (crc32 Castagnoli (take (length raw - 4) raw) =? unbe (drop (length raw - 4) raw)) then Err (badCode E2001 None)
          else if negb (existsb usable eps) then Err (badCode E2004 None)
          else Ok (mkPayload eps (take SecretLen rest) restricted)
      end.
Definition Decode (code : bytes) : result gerr Payload :=
  let cleaned := clean code in
  if (length cleaned <? 47)%nat || (maxCodeLen <? length cleaned)%nat then Err (badCode E2001 None)
  else if negb (forallb (λ c, 0 <=? alphabetIndex c) cleaned) then Err (badCode E2001 None)
  else
    match b32_decode cleaned with
    | None => Err (badCode E2001 None)
    | Some raw =>
        if (length raw <? minPayloadLen)%nat || (maxPayloadLen <? length raw)%nat then Err (badCode E2001 None)
        else if negb (bool_decide (b32_encode raw = cleaned)) then Err (badCode E2001 None)
        else decodePayload raw
    end.

(** ** What both sides derive from the secret (derive.go) *)
Section derive.
Context `{HandshakeCrypto}.
Definition SessionID (secret : bytes) : bytes := take 8 (sha256 (bs "esync/v1/session-id" ++ secret)).
Definition KPair (secret : bytes) : result stdErr bytes :=
  prk ← hkdfExtract secret (bs "esync/v1/pair"); hkdfExpand prk [].
End derive.

Example golden_one_v4 :
  Encode (mkPayload [mkEndpoint (V4 (be 4 0xC0A80118)) 49721] (byte_of_Z <$> seqZ 0 16) false) =
  Some (bs "04009-G5804-CC4E8-00410-61050-R3GG2-8A1C6-0T3GF-98RV1-A8").
Proof. vm_compute. reflexivity. Qed.
Example golden_decodes :
  Decode (bs "o4oo9 g58o4-CC4E8-00410-6io50-R3GG2-8alC6-0T3GF-98RV1-A8") =
  Ok (mkPayload [mkEndpoint (V4 (be 4 0xC0A80118)) 49721] (byte_of_Z <$> seqZ 0 16) false).
Proof. vm_compute. reflexivity. Qed.

(** ** Base32 *)
Lemma length_digits32 m v : length (digits32 m v) = m.
Proof. induction m; cbn; congruence. Qed.
Lemma undigits32_app l1 l2 : undigits32 (l1 ++ l2) = undigits32 l1 * 32 ^ Z.of_nat (length l2) + undigits32 l2.
Proof.
  assert (Hacc : ∀ l acc, foldl (λ a d, a * 32 + d) acc l = acc * 32 ^ Z.of_nat (length l) + undigits32 l).
  { clear. intros l. unfold undigits32. induction l as [|d l IH]; intros acc; cbn [foldl length]; [rewrite Z.pow_0_r; lia|].
    rewrite IH, (IH (0 * 32 + d)), Nat2Z.inj_succ, Z.pow_succ_r by lia. ring. }
  unfold undigits32 at 1. rewrite foldl_app. apply Hacc.
Qed.
Lemma undigits32_cons d l : undigits32 (d :: l) = d * 32 ^ Z.of_nat (length l) + undigits32 l.
Proof. change (d :: l) with ([d] ++ l). by rewrite undigits32_app. Qed.
Lemma undigits32_range l : Forall (in_u 5) l → 0 <= undigits32 l < 32 ^ Z.of_nat (length l).
Proof.
  induction 1 as [|d l Hd Hl IH]; [by cbn|]. rewrite undigits32_cons. cbn [length].
  rewrite Nat2Z.inj_succ, Z.pow_succ_r by lia. unfold in_u in Hd. change (2 ^ 5) with 32 in Hd. nia.
Qed.
Lemma undigits32_digits m v : undigits32 (digits32 m v) = v mod 32 ^ Z.of_nat m.
Proof.
  induction m as [|m IH]; cbn [digits32]; [by rewrite Z.mod_1_r|].
  rewrite undigits32_cons, length_digits32, IH, Nat2Z.inj_succ, Z.pow_succ_r, (Z.mul_comm 32), Z.rem_mul_r by lia. lia.
Qed.
Lemma digits32_range m v : Forall (in_u 5) (digits32 m v).
Proof.
  induction m as [|m IH]; cbn [digits32]; constructor; [|done]. pose proof (Z.mod_pos_bound (v / 32 ^ Z.of_nat m) 32). unfold in_u. lia.
Qed.

(** A symbol is one of the 32, none of which [clean] changes. *)
Lemma symbol_facts d : in_u 5 d → alphabetIndex (symbol d) = d ∧ cleanChar (symbol d) = Some (symbol d).
Proof.
  intros Hd. change (in_u 5 d) with (0 <= d < 32) in Hd. revert d Hd. apply (Z_enum (λ d, _ ∧ _)). vm_compute. reflexivity.
Qed.
Lemma alphabetIndex_range c : alphabetIndex c < 32 ∧ (0 <= alphabetIndex c → symbol (alphabetIndex c) = c ∧ cleanChar c = Some c).
Proof.
  rewrite <- (byte_of_Z_of_byte c). pose proof (Z_of_byte_range c) as Hc. revert Hc. generalize (Z_of_byte c). intros z Hz.
  revert z Hz. apply (Z_enum (λ z, _ ∧ (_ → _ ∧ _))). vm_compute. reflexivity.
Qed.
Lemma indices_symbols ds : Forall (in_u 5) ds → alphabetIndex <$> (symbol <$> ds) = ds.
Proof. induction 1 as [|d ds Hd _ IH]; [done|]. by rewrite !fmap_cons, (proj1 (symbol_facts d Hd)), IH. Qed.
Lemma symbols_indices s : forallb (λ c, 0 <=? alphabetIndex c) s = true → symbol <$> (alphabetIndex <$> s) = s ∧ Forall (in_u 5) (alphabetIndex <$> s).
Proof.
  induction s as [|c s IH]; [split; constructor|]. rewrite !fmap_cons. cbn [forallb]. intros [Hc%Z.leb_le Hs]%andb_true_iff. destruct (IH Hs) as [-> IH2].
  destruct (alphabetIndex_range c) as [Hlt Hsym]. rewrite (proj1 (Hsym Hc)). split; [done|]. constructor; [|done]. unfold in_u. lia.
Qed.

Lemma slack_range n : 0 <= slack (symbols n) n < 5 ∧ (symbols n `mod` 8 ∉ [1; 3; 6])%nat ∧ (5 * symbols n / 8 = n)%nat.
Proof.
  unfold slack, symbols. pose proof (Nat.div_mod_eq (8 * n + 4) 5). pose proof (Nat.mod_upper_bound (8 * n + 4) 5).
  set (m := ((8 * n + 4) / 5)%nat) in *. split; [lia|].
  pose proof (Nat.div_mod_eq m 8). pose proof (Nat.mod_upper_bound m 8). pose proof (Nat.div_mod_eq (5 * m) 8). pose proof (Nat.mod_upper_bound (5 * m) 8).
  split; [rewrite !not_elem_of_cons; split_and!; try lia; by apply not_elem_of_nil|lia].
Qed.

Lemma b32_decode_encode l : b32_decode (b32_encode l) = Some l.
Proof.
  unfold b32_encode. set (n := length l). set (m := symbols n). destruct (slack_range n) as (Hs & Hq & Hn). fold m in Hs, Hq, Hn.
  set (ds := digits32 m _). pose proof (digits32_range m (unbe l * 2 ^ slack m n)) as Hds. fold ds in Hds.
  assert (Hlen : length (symbol <$> ds) = m) by (rewrite length_fmap; apply length_digits32).
  assert (Hall : forallb (λ c, 0 <=? alphabetIndex c) (symbol <$> ds) = true).
  { clear -Hds. induction Hds as [|d ds Hd _ IH]; [done|]. rewrite fmap_cons. cbn [forallb]. rewrite IH, (proj1 (symbol_facts d Hd)), andb_true_r. apply Z.leb_le, Hd. }
  unfold b32_decode. rewrite Hall, Hlen, bool_decide_false by done. cbn [negb].
  rewrite firstn_all2 by lia. rewrite Hn, indices_symbols by done. unfold ds. rewrite undigits32_digits.
  rewrite Z.mod_small.
  - rewrite Z.div_mul by (apply Z.pow_nonzero; lia). f_equal. apply be_unbe.
  - pose proof (unbe_in_u l n eq_refl) as [H1 H2]. change 32 with (2 ^ 5). rewrite <- Z.pow_mul_r by lia.
    replace (5 * Z.of_nat m) with (8 * Z.of_nat n + slack m n) by (unfold slack; lia). rewrite Z.pow_add_r by lia.
    pose proof (Z.pow_pos_nonneg 2 (slack m n)). nia.
Qed.
Lemma length_b32_encode l : length (b32_encode l) = symbols (length l).
Proof. unfold b32_encode. by rewrite length_fmap, length_digits32. Qed.

(** *** The printed form *)
Lemma clean_group s : Forall (λ c, cleanChar c = Some c) s → clean (group s) = s.
Proof.
  unfold group. generalize 0%nat. intros i Hs. revert i. induction Hs as [|c s Hc _ IH]; intros i; [done|].
  cbn [group_go]. unfold clean. rewrite omap_app. cbn [omap list_omap]. rewrite Hc. fold (clean (group_go (S i) s)). rewrite IH.
  by destruct (_ && _).
Qed.
Lemma b32_symbols l : Forall (λ c, cleanChar c = Some c) (b32_encode l) ∧ forallb (λ c, 0 <=? alphabetIndex c) (b32_encode l) = true.
Proof.
  unfold b32_encode. pose proof (digits32_range (symbols (length l)) (unbe l * 2 ^ slack (symbols (length l)) (length l))) as Hd.
  revert Hd. generalize (digits32 (symbols (length l)) (unbe l * 2 ^ slack (symbols (length l)) (length l))). clear. intros ds.
  induction 1 as [|d ds Hd _ [IH1 IH2]]; [done|]. destruct (symbol_facts d Hd) as [H1 H2]. rewrite fmap_cons. cbn [forallb]. split; [by constructor|].
  rewrite H1, IH2, andb_true_r. apply Z.leb_le, Hd.
Qed.

(** ** The payload *)
Definition wfEndpoint (e : Endpoint) : Prop :=
  match ep_addr e with V4 a => length a = 4%nat | V6 a zone => length a = 16%nat ∧ zone = [] | NoAddr => False end ∧
  in_u 16 (ep_port e).
(** What a code can carry. *)
Record wfPayload (p : Payload) : Prop := {
  wf_count : (1 <= length (Endpoints p) <= maxEndpoints)%nat;
  wf_endpoints : Forall wfEndpoint (Endpoints p);
  wf_secret : length (Secret p) = SecretLen;
  wf_usable : existsb usable (Endpoints p) = true;
}.
(** ... but for a usable endpoint. *)
Definition shaped (p : Payload) : Prop :=
  (1 <= length (Endpoints p) <= maxEndpoints)%nat ∧ Forall wfEndpoint (Endpoints p) ∧ length (Secret p) = SecretLen.
Lemma wf_shaped p : wfPayload p ↔ shaped p ∧ existsb usable (Endpoints p) = true.
Proof. split; [intros [? ? ? ?]; by split|intros [(? & ? & ?) ?]; by split]. Qed.
Definition encodeEndpoints (eps : list Endpoint) : bytes := mjoin (encodeEndpoint <$> eps).

Lemma header_facts n r : (1 <= n <= 4)%nat →
  0 <= header n r < 256 ∧ Z.land (header n r) 0x37 = 0 ∧ Z.to_nat (Z.shiftr (header n r) 6 + 1) = n ∧
  negb (Z.land (header n r) (Z.shiftl 1 3) =? 0) = r.
Proof. intros Hn. destruct r; do 5 (destruct n as [|n]; [try lia; vm_compute; by split_and!|]); lia. Qed.
Lemma header_unique h : 0 <= h < 256 → Z.land h 0x37 = 0 →
  h = header (Z.to_nat (Z.shiftr h 6 + 1)) (negb (Z.land h (Z.shiftl 1 3) =? 0)) ∧ (1 <= Z.to_nat (Z.shiftr h 6 + 1) <= 4)%nat.
Proof. intros Hh. revert h Hh. apply (Z_enum (λ h, _ → _ ∧ _)). vm_compute. reflexivity. Qed.

Lemma decodeEndpoint_encode e n l :
  wfEndpoint e → decodeEndpoints (S n) (encodeEndpoint e ++ l) = ('(eps, rest) ← decodeEndpoints n l; Some (e :: eps, rest)).
Proof.
  destruct e as [[|a|a zone] port]; intros [Ha Hp]; [done| |]; cbn [ep_addr ep_port] in *.
  - unfold encodeEndpoint. cbn [ep_addr ep_port Is4 app]. rewrite <- app_assoc. cbn [decodeEndpoints].
    rewrite bool_decide_true by done. cbn [mbind option_bind].
    rewrite (proj2 (Nat.ltb_ge _ _)) by (rewrite !length_app, length_be; lia).
    rewrite take_app_length', drop_app_length' by done. unfold AddrFromSlice. rewrite Ha. cbn [mbind option_bind].
    rewrite (app_assoc a), drop_app_length' by (rewrite length_app, length_be; lia).
    rewrite take_app_length', unbe_be_id by (rewrite ?length_be; done). done.
  - destruct Ha as [Ha ->]. unfold encodeEndpoint. cbn [ep_addr ep_port Is4 As16 app]. rewrite <- app_assoc. cbn [decodeEndpoints].
    rewrite bool_decide_false, bool_decide_true by done. cbn [mbind option_bind].
    rewrite (proj2 (Nat.ltb_ge _ _)) by (rewrite !length_app, length_be; lia).
    rewrite take_app_length', drop_app_length' by done. unfold AddrFromSlice. rewrite Ha. cbn [mbind option_bind].
    rewrite (app_assoc a), drop_app_length' by (rewrite length_app, length_be; lia).
    rewrite take_app_length', unbe_be_id by (rewrite ?length_be; done). done.
Qed.
Lemma decodeEndpoints_encode eps rest :
  Forall wfEndpoint eps → decodeEndpoints (length eps) (encodeEndpoints eps ++ rest) = Some (eps, rest).
Proof.
  induction 1 as [|e eps He _ IH]; [done|]. unfold encodeEndpoints in *. rewrite fmap_cons, mjoin_cons, <- app_assoc. cbn [length].
  by rewrite decodeEndpoint_encode, IH.
Qed.

Lemma decodeEndpoints_sound n : ∀ l eps rest, decodeEndpoints n l = Some (eps, rest) →
  length eps = n ∧ Forall wfEndpoint eps ∧ l = encodeEndpoints eps ++ rest.
Proof.
  induction n as [|n IH]; intros l eps rest; cbn [decodeEndpoints]; [by intros [= <- <-]|].
  destruct l as [|fam l]; [done|]. set (alen := if bool_decide (fam = familyV4) then _ else _).
  destruct alen as [k|] eqn:Ek; [|done]. cbn [mbind option_bind]. destruct (Nat.ltb_spec (length l) (k + 2)) as [|Hl]; [done|].
  destruct (AddrFromSlice (take k l)) as [addr|] eqn:Ea; [|done]. cbn [mbind option_bind].
  destruct (decodeEndpoints n (drop (k + 2) l)) as [[eps' rest']|] eqn:Ed; [|done]. intros [= <- <-].
  apply IH in Ed as (H1 & H2 & H3). set (port := unbe (take 2 (drop k l))).
  assert (Hlp : length (take 2 (drop k l)) = 2%nat) by (rewrite length_take, length_drop; lia).
  assert (Hk : length (take k l) = k) by (rewrite length_take; lia).
  assert (Hport : in_u 16 port) by exact (unbe_in_u _ 2 Hlp).
  assert (Hbe : be 2 port = take 2 (drop k l)) by (rewrite <- Hlp at 1; apply be_unbe).
  assert (He : wfEndpoint (mkEndpoint addr port) ∧ encodeEndpoint (mkEndpoint addr port) = fam :: take (k + 2) l).
  { assert (Hsplit : take (k + 2) l = take k l ++ be 2 port) by (rewrite Hbe, <- take_take_drop; done).
    unfold alen in Ek. unfold AddrFromSlice in Ea. rewrite Hk in Ea.
    destruct (bool_decide_reflect (fam = familyV4)) as [->|]; [|destruct (bool_decide_reflect (fam = familyV6)) as [->|]; [|done]];
      injection Ek as <-; injection Ea as <-; unfold wfEndpoint, encodeEndpoint; cbn [ep_addr ep_port Is4 As16];
      by rewrite Hk, Hsplit. }
  destruct He as [He1 He2]. split_and!; [cbn; congruence|by constructor|].
  unfold encodeEndpoints. rewrite fmap_cons, mjoin_cons, He2, <- app_assoc. cbn [app].
  fold (encodeEndpoints eps'). by rewrite <- H3, take_drop.
Qed.

Lemma encodePayload_split p :
  encodePayload (length (Endpoints p)) p =
  let b := [byte_of_Z Version; byte_of_Z (header (length (Endpoints p)) (Restricted p))] ++
           encodeEndpoints (Endpoints p) ++ secretBytes (Secret p) in b ++ be 4 (crc32 Castagnoli b).
Proof. unfold encodePayload. by rewrite firstn_all. Qed.
Lemma secretBytes_id s : length s = SecretLen → secretBytes s = s.
Proof. intros Hs. unfold secretBytes. by apply take_app_length'. Qed.

Lemma decodePayload_sound raw p :
  (minPayloadLen <= length raw)%nat → decodePayload raw = Ok p →
  wfPayload p ∧ raw = encodePayload (length (Endpoints p)) p.
Proof.
  intros Hmin. unfold minPayloadLen, SecretLen in Hmin. destruct raw as [|v [|h raw]]; [cbn in Hmin; lia..|].
  unfold decodePayload. cbn [nth]. change (drop 2 (v :: h :: raw)) with raw.
  destruct (Z.eqb_spec (Z_of_byte v) Version) as [Hv|]; [|done]. cbn [negb].
  destruct (Z.eqb_spec (Z.land (Z_of_byte h) 0x37) 0) as [Hh|]; [|done]. cbn [negb].
  destruct (header_unique (Z_of_byte h) (Z_of_byte_range h) Hh) as [Hhe Hn].
  set (r := negb _) in *. set (n := Z.to_nat _) in *.
  destruct (decodeEndpoints n raw) as [[eps rest]|] eqn:Ed; [|done]. apply decodeEndpoints_sound in Ed as (E1 & E2 & E3).
  destruct (Nat.eqb_spec (length rest) (SecretLen + 4)) as [Hrest|]; [|done]. cbn [negb].
  destruct (Z.eqb_spec (crc32 Castagnoli (take (length (v :: h :: raw) - 4) (v :: h :: raw)))
    (unbe (drop (length (v :: h :: raw) - 4) (v :: h :: raw)))) as [Hc|]; [|done]. cbn [negb].
  destruct (existsb usable eps) eqn:Hu; [|done]. intros [= <-]. unfold SecretLen in Hrest.
  assert (Hsec : length (take SecretLen rest) = SecretLen) by (unfold SecretLen; rewrite length_take; lia).
  split; [by split; cbn; [rewrite E1|..]|]. rewrite encodePayload_split. cbn [Endpoints Restricted Secret]. rewrite secretBytes_id by done.
  rewrite E1, <- Hhe, byte_of_Z_of_byte, <- Hv, byte_of_Z_of_byte.
  set (b := _ ++ _ ++ _). assert (Hb : v :: h :: raw = b ++ drop SecretLen rest).
  { unfold b. cbn [app]. by rewrite E3, <- app_assoc, take_drop. }
  assert (Hl : length (v :: h :: raw) = (length b + 4)%nat).
  { rewrite Hb, length_app, length_drop. unfold SecretLen. lia. }
  rewrite Hl, Nat.add_sub, Hb, take_app_length, drop_app_length in Hc. cbv zeta. rewrite Hb, Hc. f_equal. symmetry.
  replace 4%nat with (length (drop SecretLen rest)); [apply be_unbe|]. rewrite length_drop. unfold SecretLen. lia.
Qed.
Lemma length_encodeEndpoints eps : Forall wfEndpoint eps →
  (7 * length eps <= length (encodeEndpoints eps) <= 19 * length eps)%nat.
Proof.
  induction 1 as [|e eps He _ IH]; [cbn; lia|]. unfold encodeEndpoints in *. rewrite fmap_cons, mjoin_cons, length_app. cbn [length].
  assert (7 <= length (encodeEndpoint e) <= 19)%nat; [|lia].
  destruct e as [[|a|a zone] port], He as [Ha _]; cbn [ep_addr] in Ha; [done|rename Ha into H1|destruct Ha as [H1 _]];
    unfold encodeEndpoint; cbn [ep_addr ep_port Is4 As16]; rewrite length_app, length_be; cbn [length]; lia.
Qed.
Lemma length_encodePayload p : shaped p →
  (minPayloadLen <= length (encodePayload (length (Endpoints p)) p) <= maxPayloadLen)%nat.
Proof.
  intros (Hn & He & Hs). rewrite encodePayload_split. cbv zeta. rewrite secretBytes_id, !length_app, length_be, Hs by done.
  pose proof (length_encodeEndpoints _ He). unfold minPayloadLen, maxPayloadLen, SecretLen, maxEndpoints in *. cbn [length]. lia.
Qed.
Lemma decodePayload_encode p : shaped p →
  decodePayload (encodePayload (length (Endpoints p)) p) = if existsb usable (Endpoints p) then Ok p else Err (badCode E2004 None).
Proof.
  intros (Hn & He & Hs). rewrite encodePayload_split. cbv zeta. set (b := _ ++ _ ++ _).
  destruct (header_facts (length (Endpoints p)) (Restricted p) Hn) as (H1 & H2 & H3 & H4).
  set (crc := be 4 (crc32 Castagnoli b)).
  assert (Hd : drop 2 (b ++ crc) = encodeEndpoints (Endpoints p) ++ secretBytes (Secret p) ++ crc) by (unfold b; cbn [app drop]; by rewrite app_assoc).
  assert (Hl : (length (b ++ crc) - 4)%nat = length b) by (unfold crc; by rewrite length_app, length_be, Nat.add_sub).
  unfold decodePayload. rewrite Hd, Hl, take_app_length, drop_app_length.
  assert (Hcrc : unbe crc = crc32 Castagnoli b) by (apply unbe_be_id, crc32_range; by vm_compute). rewrite Hcrc.
  change (nth 0 (b ++ crc) Byte.x00) with (byte_of_Z Version).
  change (nth 1 (b ++ crc) Byte.x00) with (byte_of_Z (header (length (Endpoints p)) (Restricted p))).
  rewrite !Z_of_byte_of_Z, (Z.mod_small (header _ _)) by done. change (Version mod 256) with Version.
  rewrite !Z.eqb_refl, H2, H3, H4. cbn [negb Z.eqb]. rewrite decodeEndpoints_encode by done.
  assert (Hlc : length crc = 4%nat) by apply length_be.
  rewrite secretBytes_id, length_app, Hlc, Hs by done. cbn [negb Nat.add Nat.eqb SecretLen]. destruct (existsb usable (Endpoints p)); [|done].
  cbn [negb]. rewrite take_app_length' by done. by destruct p.
Qed.

Lemma Encode_shaped p : shaped p → Encode p = Some (group (b32_encode (encodePayload (length (Endpoints p)) p))).
Proof.
  intros (Hn & _ & _). unfold Encode, maxEndpoints in *. rewrite (proj2 (Nat.ltb_ge (length _) 1)), (proj2 (Nat.ltb_ge 4 _)) by lia.
  by rewrite Nat.ltb_irrefl.
Qed.
Lemma Encode_wf p : wfPayload p → Encode p = Some (group (b32_encode (encodePayload (length (Endpoints p)) p))).
Proof. intros [Hp _]%wf_shaped. by apply Encode_shaped. Qed.
Lemma Decode_shaped code p : shaped p → clean code = b32_encode (encodePayload (length (Endpoints p)) p) →
  Decode code = if existsb usable (Endpoints p) then Ok p else Err (badCode E2004 None).
Proof.
  intros Hwf Hc. unfold Decode. rewrite Hc. pose proof (length_encodePayload p Hwf) as Hl.
  rewrite <- (decodePayload_encode p Hwf). set (raw := encodePayload _ p) in *.
  rewrite length_b32_encode. assert (Hsym : (47 <= symbols (length raw) <= maxCodeLen)%nat).
  { destruct (slack_range (length raw)) as (Hs & _). unfold slack, minPayloadLen, maxPayloadLen, SecretLen, maxEndpoints, maxCodeLen in *. lia. }
  rewrite (proj2 (Nat.ltb_ge _ 47)), (proj2 (Nat.ltb_ge maxCodeLen _)) by lia. cbn [orb].
  rewrite (proj2 (b32_symbols raw)). cbn [negb]. rewrite b32_decode_encode.
  rewrite (proj2 (Nat.ltb_ge _ _)), (proj2 (Nat.ltb_ge maxPayloadLen _)) by lia. cbn [orb].
  by rewrite bool_decide_true.
Qed.
Lemma Decode_printed code p : wfPayload p → clean code = b32_encode (encodePayload (length (Endpoints p)) p) → Decode code = Ok p.
Proof. intros [Hp Hu]%wf_shaped Hc. by rewrite (Decode_shaped code p), Hu. Qed.

(** What a code carries of a payload: four endpoints at most, without their zones, an
    invalid address as the unspecified one, and sixteen bytes of the secret. *)
Definition carriedEndpoint (e : Endpoint) : Endpoint :=
  mkEndpoint (match ep_addr e with NoAddr => V6 (zeroBytes 16) [] | V4 a => V4 a | V6 a _ => V6 a [] end) (ep_port e).
Definition carried (p : Payload) : Payload :=
  mkPayload (carriedEndpoint <$> take maxEndpoints (Endpoints p)) (secretBytes (Secret p)) (Restricted p).
(** A value of the Go types: four or sixteen bytes and a 16-bit port. *)
Definition typedEndpoint (e : Endpoint) : Prop :=
  match ep_addr e with NoAddr => True | V4 a => length a = 4%nat | V6 a _ => length a = 16%nat end ∧ in_u 16 (ep_port e).

Lemma secretBytes_length s : length (secretBytes s) = SecretLen.
Proof. unfold secretBytes, SecretLen, zeroBytes. rewrite length_take, length_app, length_replicate. lia. Qed.
Lemma carried_shaped p : Forall typedEndpoint (Endpoints p) → Endpoints p ≠ [] → shaped (carried p).
Proof.
  intros Ht Hne. split; [|split].
  - cbn. rewrite length_fmap, length_take. destruct (Endpoints p); [done|]. unfold maxEndpoints. cbn [length]. lia.
  - cbn. apply Forall_fmap. eapply Forall_impl; [by apply Forall_take|]. intros [[|a|a z] port] [Ha Hp]; by split.
  - apply secretBytes_length.
Qed.
Lemma encodeEndpoint_carried e : encodeEndpoint (carriedEndpoint e) = encodeEndpoint e.
Proof. by destruct e as [[|a|a z] port]. Qed.
Lemma Encode_carried p : Endpoints p ≠ [] → Encode (carried p) = Encode p.
Proof.
  intros Hne. set (n := Nat.min (length (Endpoints p)) maxEndpoints).
  assert (Hn : (1 <= n)%nat) by (unfold n, maxEndpoints; destruct (Endpoints p); [done|cbn [length]; lia]).
  assert (Hc : length (Endpoints (carried p)) = n) by (unfold n; cbn [carried Endpoints]; rewrite length_fmap, length_take; lia).
  assert (Hp : encodePayload n (carried p) = encodePayload n p).
  { assert (Hs : secretBytes (secretBytes (Secret p)) = secretBytes (Secret p)) by apply secretBytes_id, secretBytes_length.
    unfold encodePayload. cbn [carried Endpoints Secret Restricted]. rewrite Hs, <- fmap_take, take_take, Nat.min_l by (unfold n; lia).
    rewrite <- list_fmap_compose, (list_fmap_ext (encodeEndpoint ∘ carriedEndpoint) encodeEndpoint); [done|].
    intros i e _. apply encodeEndpoint_carried. }
  unfold Encode. rewrite Hc, (proj2 (Nat.ltb_ge n 1)), (proj2 (Nat.ltb_ge maxEndpoints n)) by (unfold n; lia).
  rewrite Nat.ltb_irrefl, Hp. unfold n in *. destruct (Nat.ltb_spec (length (Endpoints p)) 1); [lia|].
  destruct (Nat.ltb_spec maxEndpoints (length (Endpoints p))).
  - rewrite (proj2 (Nat.ltb_ge _ _)), Nat.min_r by lia. done.
  - rewrite Nat.ltb_irrefl, Nat.min_l by lia. done.
Qed.

(** C16: the pairing code is exact.  [Decode] gives a payload back precisely when the
    payload is one that a code can carry whole (one to four valid endpoints without
    a zone, of which one is usable, and a 128-bit secret) and the text is, up to
    case, separators and the aliases I, L and O, the code [Encode] prints for it: no
    other text is accepted for the same payload.  And whatever payload of the Go
    types is printed, what is read back is what the code carries of it, [carried]: its
    first four endpoints without their zones, and sixteen bytes of the secret; if
    none of these endpoints is usable the code is refused with E2004.  Only a
    payload without endpoints is not printed ([Encode] panics). *)
Theorem Decode_exact :
  (∀ code p, Decode code = Ok p ↔ wfPayload p ∧ ∃ printed, Encode p = Some printed ∧ clean code = clean printed) ∧
  ∀ p, Forall typedEndpoint (Endpoints p) →
    match Encode p with
    | None => Endpoints p = []
    | Some printed => ∀ code, clean code = clean printed →
        Decode code = if existsb usable (Endpoints (carried p)) then Ok (carried p) else Err (badCode E2004 None)
    end.
Proof.
  split.
  - intros code p. split.
    + unfold Decode. destruct (_ || _); [done|]. destruct (negb (forallb _ _)); [done|]. destruct (b32_decode _) as [raw|]; [|done].
      destruct (Nat.ltb_spec (length raw) minPayloadLen) as [|Hmin]; [done|]. cbn [orb]. destruct (_ <? _)%nat; [done|].
      destruct (bool_decide_reflect (b32_encode raw = clean code)) as [Hcan|]; [|done]. cbn [negb]. intros Hd.
      apply decodePayload_sound in Hd as [Hwf ->]; [|done]. split; [done|]. eexists. split; [by apply Encode_wf|].
      rewrite clean_group by apply b32_symbols. by rewrite Hcan.
    + intros (Hwf & printed & Hp & Hc). rewrite Encode_wf in Hp by done. injection Hp as <-. rewrite clean_group in Hc by apply b32_symbols.
      by apply Decode_printed.
  - intros p Ht. destruct (decide (Endpoints p = [])) as [Hnil|Hne]; [unfold Encode; by rewrite Hnil|].
    pose proof (carried_shaped p Ht Hne) as Hs. rewrite <- Encode_carried, Encode_shaped by done. intros code Hc.
    apply Decode_shaped; [done|]. rewrite Hc. apply clean_group, b32_symbols.
Qed.

(** ** What the CRC detects

    The CRC is linear over exclusive or, one bit step is injective at zero, and a
    window of three bytes enters the register whole. *)
Definition step8 (c : Z) : Z := Nat.iter 8 (crc_bit Castagnoli) c.

Lemma crc_bit_lxor a b : crc_bit Castagnoli (Z.lxor a b) = Z.lxor (crc_bit Castagnoli a) (crc_bit Castagnoli b).
Proof.
  unfold crc_bit. rewrite Z.lxor_spec, Z.shiftr_lxor. destruct (Z.testbit a 0), (Z.testbit b 0); cbn [xorb]; try done.
  - rewrite (Z.lxor_comm (Z.shiftr b 1)), <- Z.lxor_assoc, (Z.lxor_assoc (Z.shiftr a 1)), Z.lxor_nilpotent, Z.lxor_0_r. done.
  - by rewrite !Z.lxor_assoc, (Z.lxor_comm Castagnoli).
  - by rewrite Z.lxor_assoc.
Qed.
Lemma step8_lxor a b : step8 (Z.lxor a b) = Z.lxor (step8 a) (step8 b).
Proof. unfold step8. cbn [Nat.iter nat_rect]. by rewrite !crc_bit_lxor. Qed.
Lemma crc_bit_range c : in_u 32 c → in_u 32 (crc_bit Castagnoli c).
Proof.
  intros Hc. unfold crc_bit. assert (Hs : in_u 32 (Z.shiftr c 1)).
  { unfold in_u in *. rewrite Z.shiftr_div_pow2 by lia. change (2 ^ 1) with 2. div_lia. }
  destruct (Z.testbit c 0); [|done]. by apply lxor_range.
Qed.
Lemma crc_bit_zero c : in_u 32 c → crc_bit Castagnoli c = 0 → c = 0.
Proof.
  intros Hc. unfold crc_bit. rewrite Z.bit0_odd, Z.shiftr_div_pow2 by lia. change (2 ^ 1) with 2.
  destruct (Z.odd c) eqn:Eo.
  - intros E%Z.lxor_eq. unfold in_u in Hc. unfold Castagnoli in E. div_lia.
  - intros E. pose proof (Zdiv2_odd_eqn c) as Hd. rewrite Eo, Z.div2_div in Hd. lia.
Qed.
Lemma iter_crc n c : in_u 32 c →
  in_u 32 (Nat.iter n (crc_bit Castagnoli) c) ∧ (Nat.iter n (crc_bit Castagnoli) c = 0 → c = 0).
Proof.
  intros Hc. induction n as [|n [IH1 IH2]]; [done|]. change (Nat.iter (S n) (crc_bit Castagnoli) c) with (crc_bit Castagnoli (Nat.iter n (crc_bit Castagnoli) c)).
  split; [by apply crc_bit_range|]. intros E. by apply IH2, crc_bit_zero.
Qed.

Lemma step8_range c : in_u 32 c → in_u 32 (step8 c).
Proof. apply iter_crc. Qed.
Lemma step8_zero c : in_u 32 c → step8 c = 0 → c = 0.
Proof. apply iter_crc. Qed.
Lemma crc_byte_step8 c b : crc_byte Castagnoli c b = step8 (Z.lxor c (Z_of_byte b)).
Proof. reflexivity. Qed.

#[local] Opaque crc_byte step8.

(** The register after two inputs differs by that of the difference. *)
Definition xorBytes (l1 l2 : bytes) : bytes := zip_with (λ a b, byte_of_Z (Z.lxor (Z_of_byte a) (Z_of_byte b))) l1 l2.
Definition reg (c : Z) (l : bytes) : Z := foldl (crc_byte Castagnoli) c l.
Lemma lxor_bytes a b : Z_of_byte (byte_of_Z (Z.lxor (Z_of_byte a) (Z_of_byte b))) = Z.lxor (Z_of_byte a) (Z_of_byte b).
Proof.
  rewrite Z_of_byte_of_Z. apply Z.mod_small. apply (lxor_range 8); [lia|..]; apply Z_of_byte_range.
Qed.
Lemma reg_lxor l1 : ∀ l2 c1 c2, length l1 = length l2 →
  Z.lxor (reg c1 l1) (reg c2 l2) = reg (Z.lxor c1 c2) (xorBytes l1 l2).
Proof.
  unfold reg, xorBytes. induction l1 as [|b1 l1 IH]; intros [|b2 l2] c1 c2 Hl; try done. cbn [foldl zip_with]. injection Hl as Hl.
  rewrite IH by done. f_equal. rewrite !crc_byte_step8, <- step8_lxor, lxor_bytes. f_equal.
  rewrite !Z.lxor_assoc. f_equal. rewrite <- !Z.lxor_assoc. f_equal. apply Z.lxor_comm.
Qed.
Lemma reg_range l : ∀ c, in_u 32 c → in_u 32 (reg c l).
Proof.
  unfold reg. induction l as [|b l IH]; intros c Hc; [done|]. apply IH. rewrite crc_byte_step8. apply step8_range.
  apply lxor_range; [done..|]. pose proof (Z_of_byte_range b). unfold in_u. lia.
Qed.
Lemma step8_inj a b : in_u 32 a → in_u 32 b → step8 a = step8 b → a = b.
Proof.
  intros Ha Hb E. apply Z.lxor_eq, step8_zero; [by apply lxor_range|]. by rewrite step8_lxor, E, Z.lxor_nilpotent.
Qed.
Lemma byte_u32 b : in_u 32 (Z_of_byte b).
Proof. pose proof (Z_of_byte_range b). unfold in_u. lia. Qed.
Lemma lxor_cancel a b c : Z.lxor a c = Z.lxor b c → a = b.
Proof. intros E. by rewrite <- (Z.lxor_0_r a), <- (Z.lxor_nilpotent c), <- Z.lxor_assoc, E, Z.lxor_assoc, Z.lxor_nilpotent, Z.lxor_0_r. Qed.
Lemma reg_inj l : ∀ c1 c2, in_u 32 c1 → in_u 32 c2 → reg c1 l = reg c2 l → c1 = c2.
Proof.
  unfold reg. induction l as [|b l IH]; intros c1 c2 H1 H2 E; [done|]. cbn [foldl] in E.
  assert (Hr : ∀ c, in_u 32 c → in_u 32 (crc_byte Castagnoli c b)) by (intros c Hc; by apply (reg_range [b])).
  apply IH in E; [|by apply Hr..]. rewrite !crc_byte_step8 in E.
  apply step8_inj in E; [|apply lxor_range; [done..|apply byte_u32]..]. by apply lxor_cancel in E.
Qed.

(** A byte shifted up by eight is what eight steps shift down. *)
Lemma step8_shift y : 0 <= y < 256 → step8 (y * 2 ^ 8) = y ∧ step8 (y * 2 ^ 16) = y * 2 ^ 8.
Proof. intros Hy. revert y Hy. apply (Z_enum (λ y, _ ∧ _)). vm_compute. reflexivity. Qed.
Definition window (x1 x2 x3 : Z) : Z := Z.lxor x1 (Z.lxor (x2 * 2 ^ 8) (x3 * 2 ^ 16)).
Lemma window_reg x1 x2 x3 : 0 <= x2 < 256 → 0 <= x3 < 256 →
  Z.lxor (step8 (Z.lxor (step8 x1) x2)) x3 = step8 (step8 (window x1 x2 x3)).
Proof.
  intros H2 H3. destruct (step8_shift x2 H2) as [E2 _]. destruct (step8_shift x3 H3) as [E3 E3'].
  unfold window. by rewrite !step8_lxor, E3', E2, E3, Z.lxor_assoc.
Qed.
Lemma window_zero x1 x2 x3 : 0 <= x1 < 256 → 0 <= x2 < 256 → 0 <= x3 < 256 →
  in_u 32 (window x1 x2 x3) ∧ (window x1 x2 x3 = 0 → x1 = 0 ∧ x2 = 0 ∧ x3 = 0).
Proof.
  intros H1 H2 H3. unfold window. split; [repeat apply lxor_range; unfold in_u; lia|].
  intros E%Z.lxor_eq.
  assert (Hx : x1 = Z.lxor (x2 * 2 ^ 8) (x3 * 2 ^ 16) mod 2 ^ 8) by (rewrite <- E; symmetry; by apply Z.mod_small).
  assert (Hz : Z.lxor (x2 * 2 ^ 8) (x3 * 2 ^ 16) mod 2 ^ 8 = 0).
  { rewrite <- Z.land_ones by done. apply Z.bits_inj'. intros n Hn. rewrite Z.land_spec, Z.lxor_spec, Z.bits_0.
    rewrite Z.testbit_ones_nonneg by lia. destruct (Z.ltb_spec n 8); [|apply andb_false_r]. rewrite !Z.mul_pow2_bits_low by lia. done. }
  rewrite Hz in Hx. rewrite Hx in E. symmetry in E. apply Z.lxor_eq in E. split; [done|]. lia.
Qed.

Lemma foldl3 {A B} (f : B → A → B) c x y z : foldl f c [x; y; z] = f (f (f c x) y) z.
Proof. reflexivity. Qed.
Lemma zip_with3 {A} (f : A → A → A) a1 a2 a3 b1 b2 b3 : zip_with f [a1; a2; a3] [b1; b2; b3] = [f a1 b1; f a2 b2; f a3 b3].
Proof. reflexivity. Qed.
(** Two registers that a three-byte window takes to the same value. *)
Lemma reg_window c a1 a2 a3 b1 b2 b3 :
  in_u 32 c → reg c [a1; a2; a3] = reg c [b1; b2; b3] → [a1; a2; a3] = [b1; b2; b3].
Proof.
  intros Hc E. assert (Hd : Z.lxor (reg c [a1; a2; a3]) (reg c [b1; b2; b3]) = 0) by (by rewrite E, Z.lxor_nilpotent).
  rewrite reg_lxor, Z.lxor_nilpotent in Hd by done. unfold reg, xorBytes in Hd.
  rewrite zip_with3, foldl3, !crc_byte_step8, !lxor_bytes, Z.lxor_0_l in Hd.
  assert (Hx : ∀ a b, 0 <= Z.lxor (Z_of_byte a) (Z_of_byte b) < 256) by (intros a b; rewrite <- lxor_bytes; apply Z_of_byte_range).
  destruct (window_zero (Z.lxor (Z_of_byte a1) (Z_of_byte b1)) (Z.lxor (Z_of_byte a2) (Z_of_byte b2)) (Z.lxor (Z_of_byte a3) (Z_of_byte b3))) as [Hr Hz]; [done..|].
  apply step8_zero in Hd; [|apply lxor_range; [done| |unfold in_u; pose proof (Hx a3 b3); lia]; apply step8_range, lxor_range; [done| |];
    [apply step8_range|]; unfold in_u; [pose proof (Hx a1 b1)|pose proof (Hx a2 b2)]; lia].
  rewrite window_reg in Hd by done. do 2 (apply step8_zero in Hd; [|repeat apply step8_range; exact Hr]). apply Hz in Hd as (E1 & E2 & E3).
  apply Z.lxor_eq in E1, E2, E3. by rewrite (Z_of_byte_inj _ _ E1), (Z_of_byte_inj _ _ E2), (Z_of_byte_inj _ _ E3).
Qed.

(** Two integers that agree but for ten bits have bytes that agree but for three. *)
Ltac pow_lia := first [lia|apply Z.pow_nonzero; lia|apply Z.pow_pos_nonneg; lia].
Lemma be_app a b z : be (a + b) z = be a (z / 256 ^ Z.of_nat b) ++ be b z.
Proof.
  induction a as [|a IH]; [done|]. cbn [Nat.add be app]. rewrite IH, Z.div_div, <- Z.pow_add_r by pow_lia.
  do 4 f_equal. lia.
Qed.
Lemma be_eq_mod n z1 z2 : z1 mod 256 ^ Z.of_nat n = z2 mod 256 ^ Z.of_nat n → be n z1 = be n z2.
Proof. intros E. by rewrite <- (be_mod n n z1), <- (be_mod n n z2), E. Qed.
Lemma be_window n r1 r2 k t :
  (3 <= n)%nat → 0 <= k → 0 <= t → in_u (8 * Z.of_nat n) r1 → in_u (8 * Z.of_nat n) r2 →
  r1 * 2 ^ k / 2 ^ (t + 10) = r2 * 2 ^ k / 2 ^ (t + 10) → (2 ^ t | r1 * 2 ^ k - r2 * 2 ^ k) →
  ∃ pre w1 w2 post, be n r1 = pre ++ w1 ++ post ∧ be n r2 = pre ++ w2 ++ post ∧ length w1 = 3%nat ∧ length w2 = 3%nat.
Proof.
  intros Hn Hk Ht H1 H2 Hhi Hlo.
  assert (Hu : ∃ u : nat, (u + 3 <= n)%nat ∧ 8 * Z.of_nat u <= Z.max 0 (t - k) ∧ ((u + 3)%nat = n ∨ t - k <= 8 * Z.of_nat u + 7)).
  { destruct (decide (8 * Z.of_nat (n - 3) <= Z.max 0 (t - k))); [exists (n - 3)%nat; split_and!; [lia..|left; lia]|].
    exists (Z.to_nat (Z.max 0 (t - k) / 8)). pose proof (Z.div_mod (Z.max 0 (t - k)) 8). pose proof (Z.mod_pos_bound (Z.max 0 (t - k)) 8).
    rewrite Z2Nat.id by (apply Z.div_pos; lia). split_and!; lia. }
  destruct Hu as (u & Hu1 & Hu2 & Hu3).
  assert (Hsplit : ∀ r, be n r = be (n - 3 - u) (r / 256 ^ Z.of_nat (3 + u)) ++ be 3 (r / 256 ^ Z.of_nat u) ++ be u r).
  { intros r. replace n with (n - 3 - u + (3 + u))%nat at 1 by lia. by rewrite be_app, (be_app 3 u). }
  assert (Hpow : ∀ j, 256 ^ Z.of_nat j = 2 ^ (8 * Z.of_nat j)) by (intros j; by rewrite Z.pow_mul_r by lia).
  assert (Hpre : be (n - 3 - u) (r1 / 256 ^ Z.of_nat (3 + u)) = be (n - 3 - u) (r2 / 256 ^ Z.of_nat (3 + u))).
  { destruct Hu3 as [<-|Hu3]; [by replace (u + 3 - 3 - u)%nat with 0%nat by lia|]. f_equal. rewrite !Hpow.
    assert (Hdiv : ∀ r, r / 2 ^ (8 * Z.of_nat (3 + u)) = r * 2 ^ k / 2 ^ (t + 10) / 2 ^ (8 * Z.of_nat (3 + u) + k - (t + 10))).
    { intros r. rewrite Z.div_div, <- Z.pow_add_r by pow_lia.
      replace (t + 10 + (8 * Z.of_nat (3 + u) + k - (t + 10))) with (8 * Z.of_nat (3 + u) + k) by lia.
      rewrite Z.pow_add_r, Z.div_mul_cancel_r by pow_lia. done. }
    by rewrite !Hdiv, Hhi. }
  assert (Hpost : be u r1 = be u r2).
  { apply be_eq_mod. rewrite Hpow. destruct (decide (t < k)); [replace (Z.of_nat u) with 0 by lia; by rewrite !Z.mod_1_r|].
    apply Z.cong_iff_ex. destruct Hlo as [x Hx].
    exists (x * 2 ^ (t - k - 8 * Z.of_nat u)). rewrite <- Z.mul_assoc, <- Z.pow_add_r by lia.
    replace (t - k - 8 * Z.of_nat u + 8 * Z.of_nat u) with (t - k) by lia.
    apply (Z.mul_cancel_r _ _ (2 ^ k)); [apply Z.pow_nonzero; lia|]. rewrite <- Z.mul_assoc, <- Z.pow_add_r by lia.
    replace (t - k + k) with t by lia. lia. }
  exists (be (n - 3 - u) (r2 / 256 ^ Z.of_nat (3 + u))), (be 3 (r1 / 256 ^ Z.of_nat u)), (be 3 (r2 / 256 ^ Z.of_nat u)), (be u r2).
  split_and!; [by rewrite (Hsplit r1), Hpre, Hpost|apply Hsplit|apply length_be..].
Qed.

Definition crcValid (raw : bytes) : Prop :=
  crc32 Castagnoli (take (length raw - 4) raw) = unbe (drop (length raw - 4) raw).
Lemma Decode_checked code :
  (∃ e, Decode code = Err e ∧ GetCode e ∈ [E2001; E2002]) ∨
  ∃ raw, clean code = b32_encode raw ∧ (minPayloadLen <= length raw)%nat ∧ crcValid raw.
Proof.
  assert (H1 : ∃ e, Err (A := Payload) (badCode E2001 None) = Err e ∧ GetCode e ∈ [E2001; E2002]) by (eexists; split; [done|by left]).
  assert (H2 : ∃ e, Err (A := Payload) (badCode E2002 None) = Err e ∧ GetCode e ∈ [E2001; E2002]) by (eexists; split; [done|by right; left]).
  unfold Decode. destruct (_ || _); [by left|]. destruct (negb (forallb _ _)); [by left|]. destruct (b32_decode _) as [raw|]; [|by left].
  destruct (Nat.ltb_spec (length raw) minPayloadLen) as [|Hmin]; [by left|]. cbn [orb]. destruct (_ <? _)%nat; [by left|].
  destruct (bool_decide_reflect (b32_encode raw = clean code)) as [Hcan|]; [|by left]. cbn [negb]. unfold decodePayload.
  destruct (negb (Z_of_byte _ =? _)); [by left|]. destruct (negb (Z.land _ _ =? 0)); [by left|].
  destruct (decodeEndpoints _ _) as [[eps rest]|]; [|by left]. destruct (negb (length rest =? _)%nat); [by left|].
  destruct (Z.eqb_spec (crc32 Castagnoli (take (length raw - 4) raw)) (unbe (drop (length raw - 4) raw))) as [Hc|]; [|by left].
  right. by exists raw.
Qed.

Lemma encode_value raw :
  undigits32 (alphabetIndex <$> b32_encode raw) = unbe raw * 2 ^ slack (symbols (length raw)) (length raw).
Proof.
  unfold b32_encode. rewrite indices_symbols by apply digits32_range. rewrite undigits32_digits. apply Z.mod_small.
  destruct (slack_range (length raw)) as (Hs & _). set (n := length raw) in *. set (m := symbols n) in *.
  pose proof (unbe_in_u raw n eq_refl) as [H1 H2]. change 32 with (2 ^ 5). rewrite <- Z.pow_mul_r by lia.
  replace (5 * Z.of_nat m) with (8 * Z.of_nat n + slack m n) by (unfold slack; lia). rewrite Z.pow_add_r by lia.
  pose proof (Z.pow_pos_nonneg 2 (slack m n)). nia.
Qed.

(** Two codes that differ in two adjacent symbols come from bytes that differ in a
    window of three. *)
Lemma typo_window raw1 raw2 a x1 x2 y1 y2 z :
  (3 <= length raw1)%nat →
  b32_encode raw1 = a ++ [x1; x2] ++ z → b32_encode raw2 = a ++ [y1; y2] ++ z →
  ∃ pre w1 w2 post, raw1 = pre ++ w1 ++ post ∧ raw2 = pre ++ w2 ++ post ∧ length w1 = 3%nat ∧ length w2 = 3%nat.
Proof.
  intros Hn E1 E2.
  assert (Hlen : length raw2 = length raw1).
  { assert (Hs : symbols (length raw2) = symbols (length raw1)) by (rewrite <- !length_b32_encode, E1, E2, !length_app; done).
    destruct (slack_range (length raw1)) as (_ & _ & <-), (slack_range (length raw2)) as (_ & _ & <-). by rewrite Hs. }
  pose proof (encode_value raw1) as V1. pose proof (encode_value raw2) as V2. rewrite Hlen in V2.
  destruct (slack_range (length raw1)) as (Hk & _). set (k := slack _ _) in *.
  assert (Hval : ∀ u v raw, b32_encode raw = a ++ [u; v] ++ z →
    ∃ w, 0 <= w < 1024 ∧ undigits32 (alphabetIndex <$> b32_encode raw) =
      (undigits32 (alphabetIndex <$> a) * 1024 + w) * 2 ^ (5 * Z.of_nat (length z)) + undigits32 (alphabetIndex <$> z)).
  { intros u v raw E. assert (Hall : Forall (in_u 5) (alphabetIndex <$> b32_encode raw)) by (apply symbols_indices, b32_symbols).
    rewrite E, !fmap_app in Hall. apply Forall_app in Hall as [_ [Huv _]%Forall_app].
    exists (undigits32 (alphabetIndex <$> [u; v])). split; [exact (undigits32_range _ Huv)|].
    rewrite E, !fmap_app, !undigits32_app, length_app, !length_fmap. change (length [u; v]) with 2%nat. change 32 with (2 ^ 5).
    rewrite <- !Z.pow_mul_r, Nat2Z.inj_add, Z.mul_add_distr_l, Z.pow_add_r by lia. change (2 ^ (5 * Z.of_nat 2)) with 1024. ring. }
  assert (Hz : Forall (in_u 5) (alphabetIndex <$> z)).
  { assert (Hall : Forall (in_u 5) (alphabetIndex <$> b32_encode raw1)) by (apply symbols_indices, b32_symbols).
    rewrite E1, !fmap_app in Hall. by apply Forall_app in Hall as [_ [_ ?]%Forall_app]. }
  apply undigits32_range in Hz. rewrite length_fmap in Hz. change 32 with (2 ^ 5) in Hz. rewrite <- Z.pow_mul_r in Hz by lia.
  destruct (Hval _ _ _ E1) as (w1 & Hw1 & F1), (Hval _ _ _ E2) as (w2 & Hw2 & F2). rewrite V1 in F1. rewrite V2 in F2.
  set (t := 5 * Z.of_nat (length z)) in *.
  destruct (be_window (length raw1) (unbe raw1) (unbe raw2) k t) as (pre & b1 & b2 & post & H1 & H2 & H3 & H4);
    [done|lia|unfold t; lia|by apply unbe_in_u|by apply unbe_in_u| | |].
  - rewrite F1, F2. assert (Hq : ∀ w, 0 <= w < 1024 →
      ((undigits32 (alphabetIndex <$> a) * 1024 + w) * 2 ^ t + undigits32 (alphabetIndex <$> z)) / 2 ^ (t + 10) = undigits32 (alphabetIndex <$> a)).
    { intros w Hw. symmetry. apply (Z.div_unique _ _ _ (w * 2 ^ t + undigits32 (alphabetIndex <$> z))).
      - left. rewrite Z.pow_add_r by (unfold t; lia). nia.
      - rewrite Z.pow_add_r by (unfold t; lia). change (2 ^ 10) with 1024. ring. }
    by rewrite !Hq.
  - rewrite F1, F2. exists (w1 - w2). ring.
  - exists pre, b1, b2, post. rewrite be_unbe in H1. rewrite <- Hlen, be_unbe in H2. by split_and!.
Qed.

(** *** A window across the end of the payload *)
Lemma lxor_mod_eq e a b : 0 <= e → a mod 2 ^ e = b mod 2 ^ e → Z.lxor a b mod 2 ^ e = 0.
Proof.
  intros He E. apply Z.bits_inj'. intros n Hn. rewrite Z.bits_0. destruct (Z.lt_ge_cases n e).
  - rewrite Z.mod_pow2_bits_low, Z.lxor_spec, <- (Z.mod_pow2_bits_low a e), E, Z.mod_pow2_bits_low by lia. apply xorb_nilpotent.
  - by apply Z.mod_pow2_bits_high.
Qed.
(** One bit step backwards. *)
Definition uncrc_bit (y : Z) : Z := if Z.testbit y 31 then Z.lxor y Castagnoli * 2 + 1 else y * 2.
Lemma uncrc_crc c : in_u 32 c → uncrc_bit (crc_bit Castagnoli c) = c.
Proof.
  intros Hc. unfold crc_bit. rewrite Z.bit0_odd, Z.shiftr_div_pow2 by lia. change (2 ^ 1) with 2. unfold in_u in Hc.
  assert (Hb : Z.testbit (c / 2) 31 = false).
  { destruct (decide (c / 2 = 0)) as [->|]; [done|]. apply Z.bits_above_log2; [apply Z.div_pos; lia|].
    apply Z.log2_lt_pow2; div_lia. }
  pose proof (Zdiv2_odd_eqn c) as Hd. rewrite Z.div2_div in Hd. destruct (Z.odd c); unfold uncrc_bit.
  - rewrite Z.lxor_spec, Hb. change (xorb false (Z.testbit Castagnoli 31)) with true. cbn iota.
    rewrite Z.lxor_assoc, Z.lxor_nilpotent, Z.lxor_0_r. lia.
  - rewrite Hb. lia.
Qed.
Lemma uncrc_step8 c : in_u 32 c → Nat.iter 8 uncrc_bit (step8 c) = c.
Proof.
  intros Hc. assert (Hn : ∀ n c, in_u 32 c → Nat.iter n uncrc_bit (Nat.iter n (crc_bit Castagnoli) c) = c); [|by apply (Hn 8%nat)].
  clear. induction n as [|n IH]; intros c Hc; [done|]. rewrite Nat.iter_succ_r.
  change (Nat.iter (S n) (crc_bit Castagnoli) c) with (crc_bit Castagnoli (Nat.iter n (crc_bit Castagnoli) c)).
  rewrite uncrc_crc by by apply iter_crc. by apply IH.
Qed.

(** One byte leaves no register that ends in sixteen zeros, two leave none that
    ends in twenty-four. *)
Lemma one_byte x : 0 <= x < 256 → step8 x mod 2 ^ 16 = 0 → x = 0.
Proof. intros Hx. revert x Hx. apply (Z_enum (λ x, _ → _)). vm_compute. reflexivity. Qed.
Lemma two_bytes z : 0 <= z < 2 ^ 16 → step8 (step8 z) mod 2 ^ 24 = 0 → z = 0.
Proof.
  intros Hz Hm. assert (Hu : in_u 32 z) by (unfold in_u; lia).
  assert (Hr : in_u 32 (step8 (step8 z))) by by apply step8_range, step8_range.
  set (k := step8 (step8 z) / 2 ^ 24). assert (Hk : step8 (step8 z) = k * 2 ^ 24).
  { unfold k. pose proof (Z.div_mod (step8 (step8 z)) (2 ^ 24)). lia. }
  assert (Hkr : 0 <= k < 256).
  { unfold k, in_u in *. split; [apply Z.div_pos; lia|]. apply Z.div_lt_upper_bound; lia. }
  assert (Hback : z = Nat.iter 8 uncrc_bit (Nat.iter 8 uncrc_bit (k * 2 ^ 24))).
  { rewrite <- Hk, uncrc_step8 by by apply step8_range. by rewrite uncrc_step8. }
  assert (Hall : ∀ k, 0 <= k < 256 → Nat.iter 8 uncrc_bit (Nat.iter 8 uncrc_bit (k * 2 ^ 24)) < 2 ^ 16 → k = 0).
  { clear. intros k Hk. revert k Hk. apply (Z_enum (λ k, _ → _)). vm_compute. reflexivity. }
  assert (k = 0) as E by (apply Hall; [done|]; rewrite <- Hback; lia). rewrite Hback, E. reflexivity.
Qed.

Lemma crc32_lxor l1 l2 p : length l1 = length l2 →
  Z.lxor (crc32 Castagnoli (p ++ l1)) (crc32 Castagnoli (p ++ l2)) = reg 0 (xorBytes l1 l2).
Proof.
  intros Hl. unfold crc32. rewrite !foldl_app. set (c := foldl _ _ p).
  rewrite <- (Z.lxor_nilpotent c), <- reg_lxor by done. unfold reg. set (r1 := foldl _ c l1). set (r2 := foldl _ c l2).
  rewrite Z.lxor_assoc, (Z.lxor_comm _ (Z.lxor r2 _)), Z.lxor_assoc, Z.lxor_nilpotent, Z.lxor_0_r. done.
Qed.
Lemma crcValid_split p s : length s = 4%nat → crcValid (p ++ s) ↔ crc32 Castagnoli p = unbe s.
Proof. intros Hs. unfold crcValid. rewrite length_app, Hs, Nat.add_sub, take_app_length, drop_app_length. done. Qed.
Lemma crcValid_payload p s1 s2 : length s1 = 4%nat → length s2 = 4%nat → crcValid (p ++ s1) → crcValid (p ++ s2) → s1 = s2.
Proof.
  intros H1 H2 E1 E2. rewrite crcValid_split in E1, E2 by done. rewrite <- (be_unbe s1), <- (be_unbe s2), H1, H2. congruence.
Qed.
(** The tail of the stored CRC that two codes share shows in the registers. *)
Lemma crcValid_tail p l1 l2 c1 c2 s : length l1 = length l2 → length (c1 ++ s) = 4%nat → length c1 = length c2 →
  crcValid (p ++ l1 ++ c1 ++ s) → crcValid (p ++ l2 ++ c2 ++ s) →
  reg 0 (xorBytes l1 l2) mod 2 ^ (8 * Z.of_nat (length s)) = 0.
Proof.
  intros Hl Hc Hcc E1 E2. rewrite app_assoc in E1, E2. rewrite crcValid_split in E1, E2 by (rewrite length_app in *; lia).
  rewrite <- (crc32_lxor l1 l2 p Hl), E1, E2. apply lxor_mod_eq; [lia|].
  assert (Hm : ∀ c, unbe (c ++ s) mod 2 ^ (8 * Z.of_nat (length s)) = unbe s).
  { intros c. unfold unbe at 1. rewrite foldl_app, unbe_acc, Z.pow_mul_r by lia. change (2 ^ 8) with 256.
    rewrite Z.add_comm, Z.mod_add by pow_lia. apply Z.mod_small, unbe_range. }
  by rewrite !Hm.
Qed.

Lemma window_detected pre w1 w2 post :
  length w1 = 3%nat → length w2 = 3%nat → (4 <= length pre + length post)%nat →
  crcValid (pre ++ w1 ++ post) → crcValid (pre ++ w2 ++ post) → w1 = w2.
Proof.
  intros H1 H2 Hpre E1 E2. destruct w1 as [|a1 [|a2 [|a3 []]]], w2 as [|b1 [|b2 [|b3 []]]]; try done. clear H1 H2.
  assert (Hbyte : ∀ a b, Z.lxor (Z_of_byte a) (Z_of_byte b) = 0 → a = b) by (intros a b E%Z.lxor_eq; by apply Z_of_byte_inj).
  assert (Hx : ∀ a b, 0 <= Z.lxor (Z_of_byte a) (Z_of_byte b) < 256) by (intros a b; rewrite <- lxor_bytes; apply Z_of_byte_range).
  destruct (decide (4 <= length post)%nat) as [Hl|Hl]; [|destruct (decide (length post = 3)%nat) as [Hl3|]; [|destruct (decide (length post = 2)%nat) as [Hl2|]]].
  - (* inside the payload *)
    rewrite <- (take_drop (length post - 4) post) in E1, E2. set (p := take _ post) in *. set (q := drop _ post) in *.
    assert (Hq : length q = 4%nat) by (unfold q; rewrite length_drop; lia).
    rewrite (app_assoc [a1; a2; a3]), app_assoc in E1. rewrite (app_assoc [b1; b2; b3]), app_assoc in E2.
    rewrite crcValid_split in E1, E2 by done. rewrite <- E2 in E1. unfold crc32 in E1. apply lxor_cancel in E1.
    rewrite !foldl_app in E1. set (c := foldl _ _ pre) in *. assert (Hc : in_u 32 c) by (apply (reg_range pre); by vm_compute).
    apply (reg_inj p) in E1; [by eapply (reg_window c)|by apply (reg_range [a1; a2; a3])|by apply (reg_range [b1; b2; b3])].
  - (* two bytes of the payload, one of the CRC *)
    pose proof (crcValid_tail pre [a1; a2] [b1; b2] [a3] [b3] post eq_refl ltac:(rewrite length_app, Hl3; done) eq_refl E1 E2) as Hm.
    rewrite Hl3 in Hm. unfold reg, xorBytes in Hm. cbn [zip_with foldl] in Hm. rewrite !crc_byte_step8, !lxor_bytes, Z.lxor_0_l in Hm.
    destruct (step8_shift _ (Hx a2 b2)) as [Hs _]. rewrite <- Hs in Hm at 1. rewrite <- step8_lxor in Hm.
    set (x1 := Z.lxor (Z_of_byte a1) (Z_of_byte b1)) in *. set (x2 := Z.lxor (Z_of_byte a2) (Z_of_byte b2)) in *.
    destruct (window_zero x1 x2 0) as [Hr Hz]; [apply Hx|apply Hx|lia|]. unfold window in Hr, Hz. rewrite Z.mul_0_l, Z.lxor_0_r in Hr, Hz.
    apply two_bytes in Hm; [|apply (lxor_range 16); [done|unfold in_u..]; pose proof (Hx a1 b1); pose proof (Hx a2 b2); lia].
    apply Hz in Hm as (?%Hbyte & ?%Hbyte & _). subst.
    assert (E : [a3] ++ post = [b3] ++ post).
    { apply (crcValid_payload (pre ++ [b1; b2])); [by cbn; lia..|by rewrite <- app_assoc|by rewrite <- app_assoc]. }
    by injection E as ->.
  - (* one byte of the payload, two of the CRC *)
    pose proof (crcValid_tail pre [a1] [b1] [a2; a3] [b2; b3] post eq_refl ltac:(rewrite length_app, Hl2; done) eq_refl E1 E2) as Hm.
    rewrite Hl2 in Hm. unfold reg, xorBytes in Hm. cbn [zip_with foldl] in Hm. rewrite !crc_byte_step8, !lxor_bytes, Z.lxor_0_l in Hm.
    apply one_byte in Hm; [|apply Hx]. apply Hbyte in Hm. subst.
    assert (E : [a2; a3] ++ post = [b2; b3] ++ post).
    { apply (crcValid_payload (pre ++ [b1])); [by cbn; lia..|by rewrite <- app_assoc|by rewrite <- app_assoc]. }
    by injection E as -> ->.
  - (* inside the CRC *)
    rewrite <- (take_drop (length pre - (1 - length post)) pre) in E1, E2. set (p := take _ pre) in *. set (q := drop _ pre) in *.
    rewrite <- app_assoc in E1, E2. assert (Hq : (length q + 3 + length post = 4)%nat) by (unfold q; rewrite length_drop; lia).
    assert (E : q ++ [a1; a2; a3] ++ post = q ++ [b1; b2; b3] ++ post).
    { apply (crcValid_payload p); [rewrite !length_app; cbn [length]; lia..|done|done]. }
    apply app_inv_head in E. by injection E as -> -> ->.
Qed.

(** E2002 is for another format version only. *)
Lemma Decode_version code e : Decode code = Err e → GetCode e = E2002 →
  ∃ raw, b32_decode (clean code) = Some raw ∧ Z_of_byte (nth 0 raw Byte.x00) ≠ Version.
Proof.
  unfold Decode. destruct (_ || _); [by intros [= <-]|]. destruct (negb (forallb _ _)); [by intros [= <-]|].
  destruct (b32_decode (clean code)) as [raw|]; [|by intros [= <-]]. destruct (_ || _); [by intros [= <-]|].
  destruct (negb _); [by intros [= <-]|]. unfold decodePayload.
  destruct (Z.eqb_spec (Z_of_byte (nth 0 raw Byte.x00)) Version) as [|Hv]; [|intros _ _; by exists raw]. cbn [negb].
  destruct (negb _); [by intros [= <-]|]. destruct (decodeEndpoints _ _) as [[eps rest]|]; [|by intros [= <-]].
  destruct (negb _); [by intros [= <-]|]. destruct (negb _); [by intros [= <-]|]. destruct (negb _); [by intros [= <-]|done].
Qed.

(** C17: a mistyped pairing code is refused.  If a code is accepted, then every text
    that differs from it in one character, or in two adjacent ones (a
    transposition included), after the folding of case, separators and aliases, is
    rejected with E2001, or E2002 if it is the format version that was hit. *)
Theorem typo_detected code1 code2 p a x1 x2 y1 y2 z :
  Decode code1 = Ok p → clean code1 = a ++ [x1; x2] ++ z → clean code2 = a ++ [y1; y2] ++ z →
  clean code2 ≠ clean code1 → ∃ e, Decode code2 = Err e ∧ GetCode e ∈ [E2001; E2002] ∧
    (GetCode e = E2002 → ∃ raw, b32_decode (clean code2) = Some raw ∧ Z_of_byte (nth 0 raw Byte.x00) ≠ Version).
Proof.
  intros Hd H1 H2 Hne.
  destruct (Decode_checked code1) as [(e & E & _)|(raw1 & R1 & Hmin & V1)]; [congruence|].
  destruct (Decode_checked code2) as [(e & E & Hc)|(raw2 & R2 & _ & V2)].
  { exists e. split_and!; [done|done|by apply Decode_version]. }
  exfalso. apply Hne.
  destruct (typo_window raw1 raw2 a x1 x2 y1 y2 z) as (pre & w1 & w2 & post & E1 & E2 & L1 & L2);
    [unfold minPayloadLen in Hmin; lia|congruence|congruence|].
  rewrite R1, R2, E1, E2. rewrite E1 in V1, Hmin. rewrite E2 in V2. do 3 f_equal. symmetry.
  apply (window_detected pre w1 w2 post); try done. rewrite !length_app in Hmin. unfold minPayloadLen, SecretLen in Hmin. lia.
Qed.

(** *** Witnesses *)
Definition ex_payload : Payload := mkPayload [mkEndpoint (V4 (be 4 0xC0A80118)) 49721] (byte_of_Z <$> seqZ 0 16) false.
(** "61" typed as "16". *)
Lemma typo_detected_witness :
  ∃ e, Decode (bs "04009-G5804-CC4E8-00410-16050-R3GG2-8A1C6-0T3GF-98RV1-A8") = Err e ∧ GetCode e ∈ [E2001; E2002].
Proof.
  destruct (typo_detected (bs "04009-G5804-CC4E8-00410-61050-R3GG2-8A1C6-0T3GF-98RV1-A8")
    (bs "04009-G5804-CC4E8-00410-16050-R3GG2-8A1C6-0T3GF-98RV1-A8") ex_payload
    (bs "04009G5804CC4E800410") Byte.x36 Byte.x31 Byte.x31 Byte.x36 (bs "050R3GG28A1C60T3GF98RV1A8"))
    as (e & E & Hc & _); [vm_compute; reflexivity..| |exists e; split; [exact E|exact Hc]].
  intros E. vm_compute in E. discriminate E.
Defined.

(** A link-local endpoint with its zone beside [ex_payload]'s: the zone is lost. *)
Definition ex_zoned : Payload :=
  mkPayload (mkEndpoint (V6 (be 16 (0xfe80 * 2 ^ 112 + 1)) (bs "eth0")) 49721 :: Endpoints ex_payload) (Secret ex_payload) false.
Lemma Decode_exact_witness : ∃ printed, Encode ex_zoned = Some printed ∧
  Decode printed = Ok (mkPayload (mkEndpoint (V6 (be 16 (0xfe80 * 2 ^ 112 + 1)) []) 49721 :: Endpoints ex_payload) (Secret ex_payload) false).
Proof.
  pose proof (proj2 Decode_exact ex_zoned) as H.
  assert (Ht : Forall typedEndpoint (Endpoints ex_zoned)) by (repeat (apply Forall_cons; split; [by vm_compute|]); constructor).
  specialize (H Ht). destruct (Encode ex_zoned) as [printed|]; [|discriminate H].
  exists printed. split; [reflexivity|]. rewrite (H printed eq_refl). vm_compute. reflexivity.
Defined.
