(* ===== verification/Discover.v ===== *)
(** * Discover: the endpoints a pairing code advertises (src/internal/paircode/discover.go)

    [Discover] over what [net.Interfaces] answers.  The theorems say which addresses
    are chosen, and that what is chosen can always be put in a pairing code and comes
    out of it again, less the zones, which a code does not carry. *)
From S2P Require Import Prelude Fault Strconv Glob Paths Handshake Paircode.

(** ** netip.ParseAddr *)
Definition c_dot : byte := byte_of_Z 46.
Definition c_colon : byte := byte_of_Z 58.
Definition c_percent : byte := byte_of_Z 37.
(** One octet of an IPv4 address: digits, no leading zero, at most 255. *)
Definition parseOctet (s : bytes) : option byte :=
  match digits_of 10 s with
  | Some ds =>
      if bool_decide (ds = []) || ((1 <? length ds)%nat && bool_decide (head ds = Some 0)) then None
      else let v := of_digits 10 ds in if 255 <? v then None else Some (byte_of_Z v)
  | None => None
  end.
Definition parseIPv4Fields (s : bytes) : option bytes :=
  match Split c_dot s with
  | [a; b; c; d] => mapM parseOctet [a; b; c; d]
  | _ => None
  end.

(** The leading hexadecimal digits of a group. *)
Fixpoint hexRun (s : bytes) : list Z * bytes :=
  match s with
  | c :: s' => match hex_digit c with Some d => let '(ds, r) := hexRun s' in (d :: ds, r) | None => ([], s) end
  | [] => ([], [])
  end.
(** The loop of [parseIPv6]: [ip] holds the bytes read, [ellipsis] the position of
    the [::]; a group per turn, at most eight. *)
Fixpoint parseGroups (fuel : nat) (ip : bytes) (ellipsis : option nat) (s : bytes) : option (bytes * option nat * bytes) :=
  match fuel with
  | O => Some (ip, ellipsis, s)
  | S fuel =>
      if (16 <=? length ip)%nat then Some (ip, ellipsis, s)
      else
        let '(ds, rest) := hexRun s in
        if (4 <? length ds)%nat || (length ds =? 0)%nat then None
        else
          match rest with
          | c :: _ =>
              if bool_decide (c = c_dot) then
                if negb (bool_decide (ellipsis ≠ None)) && negb (length ip =? 12)%nat then None
                else if (16 <? length ip + 4)%nat then None
                else v4 ← parseIPv4Fields s; Some (ip ++ v4, ellipsis, [])
              else
                let ip := ip ++ be 2 (of_digits 16 ds) in
                if negb (bool_decide (c = c_colon)) then None
                else
                  match drop 1 rest with
                  | [] => None
                  | c' :: s' =>
                      if bool_decide (c' = c_colon) then
                        if bool_decide (ellipsis ≠ None) then None
                        else if bool_decide (s' = []) then Some (ip, Some (length ip), [])
                        else parseGroups fuel ip (Some (length ip)) s'
                      else parseGroups fuel ip ellipsis (c' :: s')
                  end
          | [] => Some (ip ++ be 2 (of_digits 16 ds), ellipsis, [])
          end
  end.
Definition expand (ip : bytes) (ellipsis : option nat) : option bytes :=
  match ellipsis with
  | None => if (length ip <? 16)%nat then None else Some ip
  | Some k => if (length ip <? 16)%nat then Some (take k ip ++ zeroBytes (16 - length ip) ++ drop k ip) else None
  end.
Definition parseIPv6 (s zone : bytes) : option Addr :=
  let '(ellipsis, s) :=
    match s with
    | c :: d :: s' => if bool_decide (c = c_colon) && bool_decide (d = c_colon) then (Some 0%nat, s') else (None, s)
    | _ => (None, s)
    end in
  if bool_decide (ellipsis = Some 0%nat) && bool_decide (s = []) then Some (V6 (zeroBytes 16) zone)
  else
    '(ip, ellipsis, rest) ← parseGroups 8 [] ellipsis s;
    if bool_decide (rest = []) then ip ← expand ip ellipsis; Some (V6 ip zone) else None.
Fixpoint cutPercent (s : bytes) : bytes * option bytes :=
  match s with
  | [] => ([], None)
  | c :: s => if bool_decide (c = c_percent) then ([], Some s) else let '(a, z) := cutPercent s in (c :: a, z)
  end.
Definition ParseAddr (s : bytes) : option Addr :=
  match filter (λ c, c = c_dot ∨ c = c_colon ∨ c = c_percent) s with
  | c :: _ =>
      if bool_decide (c = c_dot) then V4 <$> parseIPv4Fields s
      else if bool_decide (c = c_colon) then
        match cutPercent s with
        | (_, Some []) => None
        | (s, Some zone) => parseIPv6 s zone
        | (s, None) => parseIPv6 s []
        end
      else None
  | [] => None
  end.

(** ** Discover *)
(** An interface address is a network with an address, or something else. *)
Record Interface := mkInterface { if_name : bytes; if_up : bool; if_loopback : bool; if_addrs : result stdErr (list (option bytes)) }.
Record ranked := mkRanked { rk_ep : Endpoint; rk_score : Z }.

Section discover.
Context `{Unicode}.

(** 0 means "do not advertise". *)
Definition score (ip : Addr) (wired : bool) : Z :=
  if Is4 ip && IsGlobalUnicast ip && negb (IsPrivate ip) then (if wired then 100 else 90)
  else if Is4 ip && IsPrivate ip then (if wired then 80 else 70)
  else if Is6 ip && (IsGlobalUnicast ip || IsPrivate ip) && negb (IsLinkLocalUnicast ip) then 50
  else if Is6 ip && IsLinkLocalUnicast ip then 20
  else 0.
Definition isWired (name : bytes) : bool :=
  let n := ToLower name in negb (existsb (λ p, HasPrefix n (bs p)) ["wl"; "wlan"; "wifi"; "wlp"; "ath"; "ra"]%string).

Definition parsedAddrs (addrs : list (option bytes)) : list Addr :=
  omap (λ a, b ← a; ip ← AddrFromSlice b; Some (Unmap ip)) addrs.
Definition routable (ip : Addr) : bool := negb (IsLinkLocalUnicast ip) && negb (IsLoopback ip).
Definition candidate (ifi : Interface) (wired : bool) (ip : Addr) : option ranked :=
  let s := score ip wired in
  if s =? 0 then None
  else Some (mkRanked (mkEndpoint (if IsLinkLocalUnicast ip then WithZone ip (if_name ifi) else ip) 0) s).
Definition candidatesOf (ifi : Interface) : list ranked :=
  if negb (if_up ifi) || if_loopback ifi then []
  else
    match if_addrs ifi with
    | Err _ => []
    | Ok addrs =>
        let parsed := parsedAddrs addrs in
        if existsb routable parsed then omap (candidate ifi (isWired (if_name ifi))) parsed else []
    end.
Definition candidates (ifaces : list Interface) : list ranked := mjoin (candidatesOf <$> ifaces).

Definition Discover (bind : bytes) (interfaces : result gerr (list Interface)) : result gerr (list Endpoint) :=
  if negb (bool_decide (bind = [])) then
    match ParseAddr (TrimSpace bind) with
    | Some addr => if IsUnspecified addr then Err (fault E1005 "resolve --bind" bind None) else Ok [mkEndpoint addr 0]
    | None => Err (fault E1005 "resolve --bind" bind (Some (EStd (StdOther "ParseAddr"))))
    end
  else
    match interfaces with
    | Err e => Err (fault E1005 "enumerate interfaces" [] (Some e))
    | Ok ifaces =>
        let cands := candidates ifaces in
        if bool_decide (cands = []) then Err (fault E1005 "discover endpoints" [] None)
        else Ok (rk_ep <$> take maxEndpoints (SliceStable (λ c, - rk_score c) cands))
    end.
End discover.

Example ParseAddr_v4 : ParseAddr (bs "192.168.1.24") = Some (V4 (be 4 0xC0A80118)).
Proof. by vm_compute. Qed.
Example ParseAddr_v6 : ParseAddr (bs "fe80::1%eth0") = Some (V6 (be 16 (0xfe80 * 2 ^ 112 + 1)) (bs "eth0")).
Proof. by vm_compute. Qed.
Example ParseAddr_mapped : Unmap <$> ParseAddr (bs "::ffff:10.0.0.1") = Some (V4 (be 4 0x0A000001)).
Proof. by vm_compute. Qed.
Example ParseAddr_bad : (λ s, ParseAddr (bs s)) <$> ["1.2.3"; "1.2.3.04"; "1.2.3.256"; "::1::2"; ":1"; "1:2:3:4:5:6:7"; "eth0"; "fe80::1%"; "1:2:3:4:5:6:7:8:"; "12345::"]%string = replicate 10 None.
Proof. by vm_compute. Qed.

(** ** Which addresses are advertised *)
(** The sizes net/netip gives. *)
Definition addrOk (a : Addr) : Prop := match a with V4 b => length b = 4%nat | V6 b _ => length b = 16%nat | NoAddr => False end.
Lemma AddrFromSlice_ok b a : AddrFromSlice b = Some a → addrOk (Unmap a) ∧ WithZone (Unmap a) [] = Unmap a.
Proof.
  unfold AddrFromSlice. destruct (length b) as [|[|[|[|[|n]]]]] eqn:Hl; try done; [by intros [= <-]|].
  do 11 (destruct n as [|n]; [done|]). destruct n; [|done]. intros [= <-]. cbn [Unmap]. case_bool_decide; (split; [|done]); cbn [addrOk]; try done.
  by rewrite length_drop, Hl.
Qed.
(** Nothing that names this machine or a group of machines is offered. *)
Definition offerable (a : Addr) : Prop := a ≠ NoAddr ∧ IsUnspecified a = false ∧ IsLoopback a = false ∧ IsMulticast a = false.
Lemma offerable_unmap a : a ≠ NoAddr → IsUnspecified a = false → offerable (Unmap a) → offerable a.
Proof.
  intros Ha Hu (_ & _ & H3 & H4). unfold offerable, IsLoopback, IsMulticast in *.
  assert (Hi : Unmap (Unmap a) = Unmap a) by (destruct a as [|b|b z]; [done..|]; cbn [Unmap]; case_bool_decide as E; cbn [Unmap]; [done|by rewrite bool_decide_false]).
  by rewrite Hi in H3, H4.
Qed.
Lemma IsPrivate_offerable a : IsPrivate a = true → offerable a.
Proof.
  unfold IsPrivate, offerable, IsUnspecified, IsLoopback, IsMulticast. intros Hp. split; [by intros ->|]. destruct (Unmap a) as [|b|b z] eqn:Ea; [done| |].
  - assert (H0 : octet 0 b = 10 ∨ octet 0 b = 172 ∨ octet 0 b = 192) by (apply orb_true_iff in Hp as [[H%Z.eqb_eq|[H%Z.eqb_eq _]%andb_true_iff]%orb_true_iff|[H%Z.eqb_eq _]%andb_true_iff]; auto).
    split; [|by destruct H0 as [-> |[-> | ->]]]. apply orb_false_iff. split; apply bool_decide_eq_false; intros ->; [|done]. injection Ea as <-. by destruct H0 as [|[|]].
  - apply Z.eqb_eq in Hp. split; [|split].
    + apply orb_false_iff. split; apply bool_decide_eq_false; intros ->; [done|]. vm_compute in Ea. injection Ea as <- _. by vm_compute in Hp.
    + apply bool_decide_eq_false. intros ->. by vm_compute in Hp.
    + apply Z.eqb_neq. intros E. by rewrite E in Hp.
Qed.
Lemma IsLinkLocal_offerable a : IsLinkLocalUnicast a = true → offerable a.
Proof.
  unfold IsLinkLocalUnicast, offerable, IsUnspecified, IsLoopback, IsMulticast. intros Hp. split; [by intros ->|].
  destruct (Unmap a) as [|b|b z] eqn:Ea; [done| |]; apply andb_true_iff in Hp as [H0%Z.eqb_eq _]; rewrite H0; (split; [|split; [|done]]).
  - apply orb_false_iff. split; apply bool_decide_eq_false; intros ->; [|done]. injection Ea as <-. by vm_compute in H0.
  - done.
  - apply orb_false_iff. split; apply bool_decide_eq_false; intros ->; [done|]. vm_compute in Ea. injection Ea as <- _. by vm_compute in H0.
  - apply bool_decide_eq_false. intros ->. by vm_compute in H0.
Qed.
Lemma IsGlobal_offerable a : IsGlobalUnicast a = true → offerable a.
Proof.
  unfold IsGlobalUnicast, offerable, IsUnspecified. destruct a as [|b|b z]; [done| |]; intros Hg; bool_to_prop; (split; [done|]).
  - split; [|done]. rewrite (bool_decide_false (V4 b = V6 _ _)) by done. rewrite orb_false_r. apply bool_decide_eq_false. by intros [= ->].
  - split; [|done]. rewrite (bool_decide_false (V6 b z = V4 _)) by done. by apply bool_decide_eq_false.
Qed.
Lemma score_offerable a wired : score a wired ≠ 0 → 20 <= score a wired <= 100 ∧ offerable a.
Proof.
  unfold score. destruct (Is4 a && IsGlobalUnicast a && negb (IsPrivate a)) eqn:E1.
  { bool_to_prop. intros _. split; [by destruct wired|by apply IsGlobal_offerable]. }
  destruct (Is4 a && IsPrivate a) eqn:E2; [bool_to_prop; split; [by destruct wired|by apply IsPrivate_offerable]|].
  destruct (Is6 a && _ && _) eqn:E3.
  { apply andb_true_iff in E3 as [[_ [E|E]%orb_true_iff]%andb_true_iff _]; (split; [done|]); [by apply IsGlobal_offerable|by apply IsPrivate_offerable]. }
  destruct (Is6 a && IsLinkLocalUnicast a) eqn:E4; [|done]. bool_to_prop. split; [done|by apply IsLinkLocal_offerable].
Qed.

Lemma parseIPv4_length s v : parseIPv4Fields s = Some v → length v = 4%nat.
Proof.
  unfold parseIPv4Fields. destruct (Split c_dot s) as [|a [|b [|c [|d [|]]]]]; try done. intros E. by apply length_mapM in E.
Qed.
(** Groups are two bytes each, and an embedded IPv4 address fits. *)
Lemma parseGroups_length fuel : ∀ k ip ell s ip' ell' rest, length ip = (2 * k)%nat → (k <= 8)%nat →
  parseGroups fuel ip ell s = Some (ip', ell', rest) → (length ip' <= 16)%nat.
Proof.
  induction fuel as [|fuel IH]; intros k ip ell s ip' ell' rest Hl Hk; cbn [parseGroups]; [intros [= <- _ _]; lia|].
  destruct (16 <=? length ip)%nat eqn:E16; [intros [= <- _ _]; lia|]. apply Nat.leb_gt in E16.
  assert (Hn : ∀ v, length (ip ++ be 2 v) = (2 * S k)%nat) by (intros v; rewrite length_app, length_be; lia).
  destruct (hexRun s) as [ds tl]. destruct (_ || _); [done|].
  destruct tl as [|c tl]; [intros [= <- _ _]; rewrite Hn; lia|]. case_bool_decide.
  { destruct (_ && _); [done|]. destruct (16 <? length ip + 4)%nat eqn:E4; [done|]. apply Nat.ltb_ge in E4.
    destruct (parseIPv4Fields s) as [v|] eqn:Ev; [|done]. cbn. intros [= <- _ _]. apply parseIPv4_length in Ev. rewrite length_app. lia. }
  destruct (negb _); [done|]. destruct (drop 1 (c :: tl)) as [|c' tl']; [done|]. case_bool_decide; [|by apply (IH (S k)); [apply Hn|lia]].
  destruct (bool_decide (ell ≠ None)); [done|]. case_bool_decide; [intros [= <- _ _]; rewrite Hn; lia|]. by apply (IH (S k)); [apply Hn|lia].
Qed.
Lemma ParseAddr_ok s a : ParseAddr s = Some a → addrOk a.
Proof.
  assert (H6 : ∀ s z a, parseIPv6 s z = Some a → addrOk a).
  { clear. intros s z a. unfold parseIPv6. destruct (match s with [] => _ | _ => _ end) as [ell t]. destruct (_ && _); [by intros [= <-]|].
    destruct (parseGroups 8 [] ell t) as [[[ip ell'] rest]|] eqn:E; [|done]. cbn. case_bool_decide; [|done].
    apply (parseGroups_length 8 0) in E; [|done|lia]. unfold expand.
    destruct ell' as [k|]; destruct (Nat.ltb_spec (length ip) 16); cbn; try done; intros [= <-]; cbn [addrOk]; [|lia].
    unfold zeroBytes. rewrite !length_app, length_replicate, length_take, length_drop. lia. }
  unfold ParseAddr. destruct (filter _ s) as [|c l]; [done|]. case_bool_decide.
  { destruct (parseIPv4Fields s) eqn:E; [|done]. intros [= <-]. by apply parseIPv4_length in E. }
  case_bool_decide; [|done]. destruct (cutPercent s) as [t [[|? ?]|]]; [done|apply H6..].
Qed.

Section best.
Context `{Unicode}.
(** A candidate is an address of an interface that is up, is not loopback and has a
    routable address, when its score is positive. *)
Definition advertisable (ifaces : list Interface) (c : ranked) : Prop := ∃ ifi addrs ip,
  ifi ∈ ifaces ∧ if_up ifi = true ∧ if_loopback ifi = false ∧ if_addrs ifi = Ok addrs ∧
  existsb routable (parsedAddrs addrs) = true ∧ ip ∈ parsedAddrs addrs ∧ candidate ifi (isWired (if_name ifi)) ip = Some c.
Lemma candidates_elem c ifaces : c ∈ candidates ifaces ↔ advertisable ifaces c.
Proof.
  unfold candidates, advertisable. rewrite list_elem_of_join. setoid_rewrite list_elem_of_fmap. split.
  - intros (l & Hc & ifi & -> & Hi). unfold candidatesOf in Hc. destruct (if_up ifi) eqn:Eu, (if_loopback ifi) eqn:El; cbn [negb orb] in Hc; try by apply elem_of_nil in Hc.
    destruct (if_addrs ifi) as [addrs|] eqn:Ea; [|by apply elem_of_nil in Hc]. destruct (existsb _ _) eqn:Er; [|by apply elem_of_nil in Hc].
    apply list_elem_of_omap in Hc as (ip & Hip & Hs). by exists ifi, addrs, ip.
  - intros (ifi & addrs & ip & Hi & Hu & Hl & Ha & Hr & Hip & Hs). exists (candidatesOf ifi). split; [|by exists ifi].
    unfold candidatesOf. rewrite Hu, Hl, Ha, Hr. cbn [negb orb]. apply list_elem_of_omap. by exists ip.
Qed.
Lemma candidate_ok c ifaces : c ∈ candidates ifaces → 20 <= rk_score c <= 100 ∧ addrOk (ep_addr (rk_ep c)) ∧ offerable (WithZone (ep_addr (rk_ep c)) []).
Proof.
  intros (ifi & addrs & ip & _ & _ & _ & _ & _ & Hip & Hc)%candidates_elem.
  assert (Hok : addrOk ip ∧ WithZone ip [] = ip).
  { apply list_elem_of_omap in Hip as ([b|] & _ & Hb); [|done]. cbn in Hb. destruct (AddrFromSlice b) as [a|] eqn:E; [|done]. cbn in Hb.
    injection Hb as <-. by apply AddrFromSlice_ok in E. }
  unfold candidate in Hc. cbv zeta in Hc. destruct (Z.eqb_spec (score ip (isWired (if_name ifi))) 0) as [|Hs]; [done|]. injection Hc as <-. cbn [rk_score rk_ep ep_addr].
  apply score_offerable in Hs as [Hr Ho]. split; [done|]. destruct Hok as [Hk Hz].
  destruct (IsLinkLocalUnicast ip); [|by rewrite Hz]. destruct ip as [|b|b z]; [done..|]. split; [done|]. cbn [WithZone] in *. by rewrite Hz.
Qed.

(** The four best: what [Discover] returns without --bind. *)
Lemma Discover_candidates ifaces out : Discover [] (Ok ifaces) = Ok out →
  candidates ifaces ≠ [] ∧ out = rk_ep <$> take maxEndpoints (SliceStable (λ c, - rk_score c) (candidates ifaces)).
Proof. unfold Discover. rewrite bool_decide_true by done. cbn [negb]. cbv zeta. case_bool_decide; [done|]. by intros [= <-]. Qed.
Lemma Discover_codable bind ifs out : Discover bind ifs = Ok out → (1 <= length out <= maxEndpoints)%nat ∧
  (bind = [] → Forall (λ e, addrOk (ep_addr e) ∧ offerable (WithZone (ep_addr e) [])) out) ∧
  (bind ≠ [] → ∃ a, out = [mkEndpoint a 0] ∧ ParseAddr (TrimSpace bind) = Some a ∧ IsUnspecified a = false).
Proof.
  unfold Discover. case_bool_decide as Hb; cbn [negb].
  - destruct ifs as [ifaces|]; [|done]. cbv zeta. case_bool_decide as Hc; [done|]. intros [= <-].
    set (l := SliceStable _ _). assert (Hp : l ≡ₚ candidates ifaces) by apply SliceStable_perm. split; [|split; [intros _|done]].
    + rewrite length_fmap, length_take, Hp. destruct (candidates ifaces); [done|]. cbn [length]. unfold maxEndpoints. lia.
    + rewrite Forall_fmap. apply Forall_take. rewrite Forall_forall. intros c Hin. rewrite Hp in Hin. by apply candidate_ok in Hin as (_ & ? & ?).
  - destruct (ParseAddr _) as [a|]; [|done]. destruct (IsUnspecified a) eqn:Eu; [done|]. intros [= <-].
    split; [unfold maxEndpoints; cbn; lia|]. split; [done|]. intros _. by exists a.
Qed.
End best.

(** A code carries no zone. *)
Definition atPort (port : Z) (e : Endpoint) : Endpoint := mkEndpoint (ep_addr e) port.
Definition unzoned (e : Endpoint) : Endpoint := mkEndpoint (WithZone (ep_addr e) []) (ep_port e).
Lemma encodeEndpoint_unzoned e : encodeEndpoint (unzoned e) = encodeEndpoint e.
Proof. by destruct e as [[|b|b z] port]. Qed.
Lemma Encode_unzoned eps secret r : Encode (mkPayload (unzoned <$> eps) secret r) = Encode (mkPayload eps secret r).
Proof.
  assert (Hm : ∀ n l, encodeEndpoint <$> take n (unzoned <$> l) = encodeEndpoint <$> take n l).
  { intros n l. rewrite <- fmap_take, <- list_fmap_compose. apply list_fmap_ext. intros i e _. apply encodeEndpoint_unzoned. }
  unfold Encode, encodePayload. cbn [Endpoints Secret Restricted]. by rewrite length_fmap, !Hm.
Qed.
Lemma wfEndpoint_unzoned port e : addrOk (ep_addr e) → in_u 16 port → wfEndpoint (unzoned (atPort port e)).
Proof. destruct e as [[|b|b z] p0]; [done|by split|]. intros Hl Hp. by split. Qed.
Lemma usable_unzoned port e : addrOk (ep_addr e) → IsUnspecified (WithZone (ep_addr e) []) = false → 0 < port → usable (unzoned (atPort port e)) = true.
Proof.
  intros Ha Hu Hp. unfold usable. cbn [unzoned atPort ep_addr ep_port]. rewrite Hu. destruct (Z.eqb_spec port 0); [lia|]. by destruct (ep_addr e).
Qed.

(** A pairing code can always be printed.  Whatever [Discover] returns, from the
    interfaces or from --bind, [Encode] prints with the bound port and the session
    secret, and the receiver decodes the same addresses from what is printed, less
    their zones; only a --bind address that is unspecified but for its zone is
    excepted. *)
Theorem discovered_codes `{Unicode} bind ifs out port secret r :
  Discover bind ifs = Ok out → (∀ a, ParseAddr (TrimSpace bind) = Some a → bind ≠ [] → IsUnspecified (WithZone a []) = false) →
  0 < port < 2 ^ 16 → length secret = SecretLen →
  ∃ printed, Encode (mkPayload (atPort port <$> out) secret r) = Some printed ∧
    ∀ code, clean code = clean printed → Decode code = Ok (mkPayload (unzoned <$> (atPort port <$> out)) secret r).
Proof.
  intros (Hlen & Hifs & Hbind)%Discover_codable Hz Hport Hs.
  assert (Hall : Forall (λ e, addrOk (ep_addr e) ∧ IsUnspecified (WithZone (ep_addr e) []) = false) out).
  { destruct (decide (bind = [])) as [->|Hb].
    - eapply Forall_impl; [by apply Hifs|]. intros e (? & _ & ? & _). done.
    - destruct (Hbind Hb) as (a & -> & Ha & _). apply Forall_singleton. split; [by apply ParseAddr_ok in Ha|by apply (Hz a)]. }
  set (q := mkPayload (unzoned <$> (atPort port <$> out)) secret r).
  assert (Hwf : wfPayload q).
  { split; cbn [q Endpoints Secret]; [by rewrite !length_fmap| |done|].
    - rewrite !Forall_fmap. eapply Forall_impl; [exact Hall|]. intros e [Ha _]. apply wfEndpoint_unzoned; [done|]. unfold in_u. lia.
    - destruct out as [|e out]; [cbn in Hlen; lia|]. apply Forall_cons in Hall as [[Ha Hu] _]. cbn [fmap list_fmap existsb]. by rewrite usable_unzoned by (done || lia). }
  exists (group (b32_encode (encodePayload (length (Endpoints q)) q))). split; [rewrite <- Encode_unzoned; by apply Encode_wf|].
  intros code Hc. apply Decode_printed; [done|]. rewrite Hc. by apply clean_group, b32_symbols.
Qed.

(** The four best endpoints are advertised.  Without --bind, [Discover] returns at
    most four of the [advertisable] addresses, in the order of their score; no address
    it leaves out has a higher score, addresses of one score keep the order of the
    interfaces, none is unspecified, loopback or multicast, and it fails only when
    there is none. *)
Theorem Discover_best `{Unicode} ifaces :
  match Discover [] (Ok ifaces) with
  | Err e => (∀ c, ¬ advertisable ifaces c) ∧ GetCode e = E1005
  | Ok out => ∃ chosen left, out = rk_ep <$> chosen ∧ length chosen = Nat.min maxEndpoints (length (chosen ++ left)) ∧ chosen ≠ [] ∧
      (∀ c, c ∈ chosen ++ left ↔ advertisable ifaces c) ∧
      StronglySorted (λ c d, rk_score d <= rk_score c) (chosen ++ left) ∧
      (∀ k, filter (λ c, - rk_score c = k) (chosen ++ left) = filter (λ c, - rk_score c = k) (candidates ifaces)) ∧
      Forall (λ c, offerable (WithZone (ep_addr (rk_ep c)) [])) chosen
  end.
Proof.
  destruct (Discover [] (Ok ifaces)) as [out|e] eqn:E.
  - apply Discover_candidates in E as [Hne ->]. set (l := SliceStable (λ c, - rk_score c) (candidates ifaces)).
    assert (Hp : l ≡ₚ candidates ifaces) by apply SliceStable_perm.
    exists (take maxEndpoints l), (drop maxEndpoints l). rewrite take_drop. split; [done|]. split; [by rewrite length_take|].
    split; [|split; [|split; [|split]]].
    + intros Hl. apply Hne. apply Permutation_nil_r. rewrite <- Hp. by destruct l.
    + intros c. by rewrite Hp, candidates_elem.
    + eapply StronglySorted_weaken; [|apply SliceStable_sorted]. cbn. intros; lia.
    + intros k. apply SliceStable_stable.
    + apply Forall_take. rewrite Forall_forall. intros c Hc. rewrite Hp in Hc. by destruct (candidate_ok _ _ Hc) as (_ & _ & ?).
  - unfold Discover in E. cbn in E. case_bool_decide as Hc; [|done]. injection E as <-. split; [|by vm_compute].
    intros c Ha. apply candidates_elem in Ha. rewrite Hc in Ha. by apply elem_of_nil in Ha.
Qed.

(** ** A concrete machine *)
#[local] Existing Instance ascii_unicode.
Definition ex_ifaces : list Interface := [
  mkInterface (bs "lo") true true (Ok [Some (be 4 0x7F000001)]);
  mkInterface (bs "wlan0") true false (Ok [Some (be 4 0xC0A80118); Some (be 16 (0xfe80 * 2 ^ 112 + 7))]);
  mkInterface (bs "eth0") true false (Ok [None; Some (be 4 0xC0A80119); Some (be 16 (0x2a00 * 2 ^ 112 + 9))]);
  mkInterface (bs "eth1") true false (Ok [Some (be 16 (0xfe80 * 2 ^ 112 + 3))])].
Definition ex_found : list Endpoint := (λ a, mkEndpoint a 0) <$> [
  V4 (be 4 0xC0A80119); V4 (be 4 0xC0A80118); V6 (be 16 (0x2a00 * 2 ^ 112 + 9)) []; V6 (be 16 (0xfe80 * 2 ^ 112 + 7)) (bs "wlan0")].
Example Discover_ex : Discover [] (Ok ex_ifaces) = Ok ex_found.
Proof. by vm_compute. Qed.
(** Section 5.4 of the architecture document has a link-local address advertised with
    its zone and only when nothing else exists: it is advertised beside others, comes
    out of the code without the zone it is useless without, and an interface that
    has nothing else is left out. *)
Lemma link_local_unusable :
  (∃ e, e ∈ ex_found ∧ IsLinkLocalUnicast (ep_addr e) = true ∧ unzoned e ≠ e) ∧
  Discover [] (Ok (drop 3 ex_ifaces)) = Err (fault E1005 "discover endpoints" [] None).
Proof.
  split; [|by vm_compute]. exists (mkEndpoint (V6 (be 16 (0xfe80 * 2 ^ 112 + 7)) (bs "wlan0")) 0). split; [|by vm_compute].
  refine (bool_decide_eq_true_1 _ _). vm_compute. reflexivity.
Qed.
Lemma discovered_codes_witness : ∃ printed, Encode (mkPayload (atPort 49721 <$> ex_found) (zeroBytes 16) false) = Some printed ∧
  Decode printed = Ok (mkPayload (unzoned <$> (atPort 49721 <$> ex_found)) (zeroBytes 16) false).
Proof.
  destruct (discovered_codes [] (Ok ex_ifaces) ex_found 49721 (zeroBytes 16) false) as (printed & E & Hp);
    [exact Discover_ex|intros a _ H; by destruct H|lia|done|]. exists printed. split; [exact E|]. by apply Hp.
Defined.
