(* ===== verification/Obs.v ===== *)
(** * Obs: the logger (src/internal/obs: level.go, redact.go, ring.go, ctx.go, obs.go, summary.go, goroutine.go)

    A record goes to the trace ring whatever its level, and to the sink when its
    level is enabled.  The sink is a bounded queue between the goroutines that log
    and the one that writes: a full queue drops the record and counts it.  [run_] is
    an interleaving of these steps, [None] a panic.  The theorems say that the ring
    holds the last records, that the sink loses nothing it does not count, and that
    what is written does not depend on the contents of a value logged as a [Secret] or
    a [RedactedString].

    A clock reading is its formatted text; a float is carried as the text it prints
    as. *)
From S2P Require Import Prelude Fault Strconv Glob Paths.

(** ** Levels (level.go) *)
Definition LevelError : Z := 1.
Definition LevelWarn : Z := 2.
Definition LevelInfo : Z := 3.
Definition LevelDebug : Z := 4.
Definition LevelTrace : Z := 5.
Definition LevelString (l : Z) : bytes :=
  if l =? LevelError then bs "ERROR" else if l =? LevelWarn then bs "WARN" else if l =? LevelInfo then bs "INFO"
  else if l =? LevelDebug then bs "DEBUG" else if l =? LevelTrace then bs "TRACE" else bs "INFO".
Definition ParseLevel `{Unicode} (s : bytes) : result gerr Z :=
  let t := ToLower (TrimSpace s) in
  if bool_decide (t = bs "error") then Ok LevelError
  else if bool_decide (t = bs "warn") || bool_decide (t = bs "warning") then Ok LevelWarn
  else if bool_decide (t = bs "info") then Ok LevelInfo
  else if bool_decide (t = bs "debug") then Ok LevelDebug
  else if bool_decide (t = bs "trace") then Ok LevelTrace
  else Err (fault E1007 "parse log level" s None).

(** ** Values of a field, and redaction (redact.go)

    A [Secret] and a [RedactedString] print as [redacted] through every interface
    the formatter asks for. *)
Inductive value := VString (s : bytes) | VInt (z : Z) | VFloat (shown : bytes) | VBool (b : bool) | VSecret (b : bytes) | VRedactedString (s : bytes).
Definition redacted : bytes := bs "[redacted]".
(** [%v]: [Format] for the two redacting types. *)
Definition fmtV (v : value) : bytes :=
  match v with
  | VString s => s
  | VInt z => FormatInt z 10
  | VFloat s => s
  | VBool b => if b then bs "true" else bs "false"
  | VSecret _ => redacted
  | VRedactedString _ => redacted
  end.
(** [Secret.Bytes] and [RedactedString.Reveal], the only ways to the content. *)
Definition Bytes (v : value) : option bytes := match v with VSecret b => Some b | _ => None end.
Definition Reveal (v : value) : option bytes := match v with VRedactedString s => Some s | _ => None end.
Definition Zero (v : value) : value := match v with VSecret b => VSecret ((λ _, Byte.x00) <$> b) | _ => v end.

(** encoding/json: a string, with its HTML escapes; an invalid byte is U+FFFD. *)
Definition hex4 (r : Z) : bytes := bs "\u" ++ (digit_char <$> [r / 4096 mod 16; r / 256 mod 16; r / 16 mod 16; r mod 16]).
Definition jsonByte (c : byte) : bytes :=
  let z := Z_of_byte c in
  if (z =? 34) || (z =? 92) then [byte_of_Z 92; c]
  else if z =? 8 then bs "\b" else if z =? 9 then bs "\t" else if z =? 10 then bs "\n" else if z =? 12 then bs "\f" else if z =? 13 then bs "\r"
  else if (z <? 32) || (z =? 60) || (z =? 62) || (z =? 38) then hex4 z
  else [c].
Fixpoint json_go (fuel : nat) (s : bytes) : bytes :=
  match fuel, s with
  | S fuel, c :: s' =>
      if Z_of_byte c <? 128 then jsonByte c ++ json_go fuel s'
      else
        let '(r, n) := DecodeRune s in
        if (r =? RuneError) && (n =? 1)%nat then bs "\ufffd" ++ json_go fuel s'
        else if (r =? 0x2028) || (r =? 0x2029) then hex4 r ++ json_go fuel (drop n s)
        else take n s ++ json_go fuel (drop n s)
  | _, _ => []
  end.
Definition quote : byte := byte_of_Z 34.
Definition jsonString (s : bytes) : bytes := [quote] ++ json_go (length s) s ++ [quote].
(** [MarshalJSON] for the two redacting types. *)
Definition jsonV (v : value) : bytes :=
  match v with
  | VString s => jsonString s
  | VSecret _ => [quote] ++ redacted ++ [quote]
  | VRedactedString _ => [quote] ++ redacted ++ [quote]
  | v => fmtV v
  end.

(** ** Records *)
Definition Field : Type := bytes * value.
Definition F (key : bytes) (val : value) : Field := (key, val).
Record record := mkRecord { r_ts : bytes; r_level : Z; r_role : bytes; r_msg : bytes; r_fields : list Field }.
Definition zeroRecord : record := mkRecord [] 0 [] [] [].

(** ** The trace ring (ring.go) *)
Record ring := mkRing { rg_buf : list record; rg_next : nat; rg_full : bool }.
Definition newRing (n : Z) : ring :=
  let n := if n <=? 0 then 2048 else n in mkRing (replicate (Z.to_nat n) zeroRecord) 0 false.
Definition add (rec : record) (r : ring) : ring :=
  let buf := <[rg_next r := rec]> (rg_buf r) in
  if (S (rg_next r) =? length buf)%nat then mkRing buf 0 true else mkRing buf (S (rg_next r)) (rg_full r).
Definition snapshot (r : ring) : list record :=
  if negb (rg_full r) then take (rg_next r) (rg_buf r) else drop (rg_next r) (rg_buf r) ++ take (rg_next r) (rg_buf r).

(** ** Trace fields (ctx.go) *)
Definition traceOrder : list bytes := bs <$> ["session"; "group"; "file"; "req"; "chan"; "span"]%string.
Definition tfields : Type := gmap bytes value.
Definition With (tf : tfields) (fields : list Field) : tfields := foldl (λ tf f, <[f.1 := f.2]> tf) tf fields.
Definition canonFields (tf : tfields) : list Field := omap (λ k, v ← tf !! k; Some (F k v)) traceOrder.
Definition Session (tf : tfields) : bytes := match tf !! bs "session" with Some (VString s) => s | _ => [] end.

(** ** The logger (obs.go) *)
Definition sinkDepth : Z := 8192.
Definition fieldOrder : list bytes :=
  bs <$> ["session"; "group"; "file"; "path"; "req"; "chan"; "span"; "dur_ms"; "code"; "bytes"; "files"; "count"; "rate_mbps"; "attempt"; "peer"; "err"]%string.
Module Config.
Record t := mk { Level : Z; Format : bytes; File : bytes; RingSize : Z; RedactPaths : bool; Sync : bool; ProgressInterval : Z; Role : bytes }.
End Config.
Definition withDefaults (c : Config.t) : Config.t :=
  Config.mk (if Config.Level c =? 0 then LevelInfo else Config.Level c) (if bool_decide (Config.Format c = []) then bs "text" else Config.Format c)
    (Config.File c) (if Config.RingSize c <=? 0 then 2048 else Config.RingSize c) (Config.RedactPaths c) (Config.Sync c)
    (if Config.ProgressInterval c <=? 0 then 5 * 10 ^ 9 else Config.ProgressInterval c) (Config.Role c).

(** [ch] is the queue to the writer goroutine, [written] what has been written. *)
Record logger := mkLogger {
  level : Z; format : bytes; role : bytes; redactPaths : bool; sync : bool;
  written : list bytes; ch : list bytes; closed : bool; drops : Z; lring : ring;
}.
Definition newLogger (cfg : Config.t) : logger :=
  mkLogger (Config.Level cfg) (Config.Format cfg) (Config.Role cfg) (Config.RedactPaths cfg) (Config.Sync cfg) [] [] false 0 (newRing (Config.RingSize cfg)).
Definition Init (cfg : Config.t) : logger := newLogger (withDefaults cfg).
Definition withSink (w q : list bytes) (c : bool) (d : Z) (l : logger) : logger :=
  mkLogger (level l) (format l) (role l) (redactPaths l) (sync l) w q c d (lring l).
Definition withRing (r : ring) (l : logger) : logger :=
  mkLogger (level l) (format l) (role l) (redactPaths l) (sync l) (written l) (ch l) (closed l) (drops l) r.

(** A later value of a key takes the place of the first. *)
Fixpoint setField (f : Field) (l : list Field) : list Field :=
  match l with
  | [] => [f]
  | g :: l => if bool_decide (g.1 = f.1) then (g.1, f.2) :: l else g :: setField f l
  end.
Definition mergeFields (l : list Field) : list Field := foldl (λ acc f, setField f acc) [] l.
Definition getField (k : bytes) (l : list Field) : option value := snd <$> head (filter (λ f, f.1 = k) l).
Definition redactPath (l : list Field) : list Field :=
  (λ f, if bool_decide (f.1 = bs "path") then (f.1, VString redacted) else f) <$> l.
(** [%-ns] *)
Definition padRight (n : nat) (s : bytes) : bytes := s ++ replicate (n - length s) space.
Definition pair_ (f : Field) : bytes := f.1 ++ bs "=" ++ fmtV f.2.
Definition formatText (rec : record) (fields : list Field) : bytes :=
  r_ts rec ++ [space] ++ padRight 5 (LevelString (r_level rec)) ++ [space] ++ padRight 9 (r_role rec) ++ [space] ++
  mjoin (omap (λ k, v ← getField k fields; Some (pair_ (k, v) ++ [space])) fieldOrder) ++ r_msg rec ++
  mjoin ((λ f, space :: pair_ f) <$> filter (λ f, f.1 ∉ fieldOrder) fields) ++ [newline].
(** A JSON object has its keys in order; a field may take the place of a fixed key. *)
Definition bytes_leb (a b : bytes) : bool := match bytes_Compare a b with Gt => false | _ => true end.
Fixpoint insertKey (f : Field) (l : list Field) : list Field :=
  match l with
  | [] => [f]
  | g :: l' => if bytes_leb f.1 g.1 then f :: l else g :: insertKey f l'
  end.
Fixpoint commas (l : list bytes) : bytes :=
  match l with [] => [] | [x] => x | x :: l => x ++ bs "," ++ commas l end.
Definition formatJSON (rec : record) (fields : list Field) : bytes :=
  let m := foldl (λ acc f, setField f acc)
    [(bs "ts", VString (r_ts rec)); (bs "level", VString (LevelString (r_level rec))); (bs "msg", VString (r_msg rec)); (bs "role", VString (r_role rec))] fields in
  bs "{" ++ commas ((λ f, jsonString f.1 ++ bs ":" ++ jsonV f.2) <$> foldr insertKey [] m) ++ bs "}" ++ [newline].
Definition formatRecord (l : logger) (rec : record) : bytes :=
  let fields := mergeFields (r_fields rec) in
  let fields := if redactPaths l then redactPath fields else fields in
  if bool_decide (format l = bs "json") then formatJSON rec fields else formatText rec fields.

Definition enabled (l : logger) (lvl : Z) : bool := lvl <=? level l.
(** A send on the closed queue panics, in a [select] as well. *)
Definition emit (b : bytes) (l : logger) : option logger :=
  if sync l then Some (withSink (written l ++ [b]) (ch l) (closed l) (drops l) l)
  else if closed l then None
  else if Z.of_nat (length (ch l)) <? sinkDepth then Some (withSink (written l) (ch l ++ [b]) (closed l) (drops l) l)
  else Some (withSink (written l) (ch l) (closed l) (wrap_i 64 (drops l + 1)) l).
Definition log (tf : tfields) (ts : bytes) (lvl : Z) (msg : bytes) (user : list Field) (l : logger) : option logger :=
  let rec := mkRecord ts lvl (role l) msg (canonFields tf ++ user) in
  let l := withRing (add rec (lring l)) l in
  if enabled l lvl then emit (formatRecord l rec) l else Some l.
(** One turn of the writer goroutine. *)
Definition drainStep (l : logger) : logger :=
  match ch l with b :: q => withSink (written l ++ [b]) q (closed l) (drops l) l | [] => l end.
(** [close] waits for the writer to have written what is queued. *)
Definition close (l : logger) : option logger :=
  if sync l then Some l
  else if closed l then None
  else Some (withSink (written l ++ ch l) [] true (drops l) l).
Fixpoint emitAll (bs : list bytes) (l : logger) : option logger :=
  match bs with [] => Some l | b :: bs => match emit b l with Some l => emitAll bs l | None => None end end.
Definition dumpHeader (ts : bytes) (l : logger) (n : nat) : bytes :=
  ts ++ [space] ++ padRight 5 (bs "ERROR") ++ [space] ++ padRight 9 (role l) ++ bs " trace ring dump records=" ++ FormatInt (Z.of_nat n) 10 ++ [newline].
Definition DumpRing (ts : bytes) (l : logger) : option logger :=
  let recs := snapshot (lring l) in
  emitAll (dumpHeader ts l (length recs) :: (formatRecord l <$> recs)) l.

(** ** The summary (summary.go), whatever the level *)
Record Counters := mkCounters {
  FilesTransferred : Z; FilesSkipped : Z; FilesExcluded : Z; FilesRejected : Z; FilesFailed : Z; BytesDone : Z; Dirs : Z;
  Symlinks : Z; SymlinksRejected : Z; Retries : Z; RetriesOK : Z; CacheHit : Z; CacheMiss : Z;
}.
Definition padLeft (n : nat) (s : bytes) : bytes := replicate (n - length s) space ++ s.
Definition d8 (z : Z) : bytes := padLeft 8 (FormatInt z 10).
Definition dec (z : Z) : bytes := FormatInt z 10.
Definition line (parts : list bytes) : bytes := mjoin parts ++ [newline].
Definition summaryText (tf : tfields) (c : Counters) (outcome : bytes) (exit : Z) (elapsed : bytes) (failedItems : list bytes) (l : logger) : bytes :=
  [newline] ++ line [bs "esync summary  session="; Session tf; bs "  role="; role l; bs "  outcome="; outcome; bs "  exit="; dec exit; [newline]] ++
  line [bs "  transferred   "; d8 (FilesTransferred c); bs " files   "; padLeft 14 (dec (BytesDone c)); bs " bytes"] ++
  line [bs "  skipped       "; d8 (FilesSkipped c); bs " files"] ++
  line [bs "  excluded      "; d8 (FilesExcluded c); bs " entries"] ++
  line [bs "  rejected      "; d8 (FilesRejected c); bs " entries"] ++
  line [bs "  failed        "; d8 (FilesFailed c); bs " files"] ++
  line [bs "  directories   "; d8 (Dirs c); bs " created"] ++
  line [bs "  symlinks      "; d8 (Symlinks c); bs " created, "; dec (SymlinksRejected c); bs " rejected"] ++
  line [bs "  retries       "; d8 (Retries c); bs " ("; dec (RetriesOK c); bs " succeeded)"] ++
  line [bs "  hash cache    hit "; dec (CacheHit c); bs " / miss "; dec (CacheMiss c)] ++
  line [bs "  elapsed       "; elapsed] ++
  line [bs "  log           "; d8 (drops l); bs " records dropped"] ++
  (if bool_decide (failedItems = []) then [] else line [newline :: bs "  failed items:"] ++ mjoin ((λ it, line [bs "    "; it]) <$> failedItems)).
Definition Summary (tf : tfields) (ts : bytes) (c : Counters) (outcome : bytes) (exit : Z) (elapsed : bytes) (failedItems : list bytes) (l : logger) : option logger :=
  emit (formatRecord l (mkRecord ts LevelInfo (role l) (summaryText tf c outcome exit elapsed failedItems l) [])) l.

(** ** Faults, spans and goroutines (ctx.go, goroutine.go)

    An error with the texts its formatting gives: [Error()], the detail of [Newf],
    the cause, and the trace context in the order the map is walked. *)
Record shown := mkShown { sh_err : gerr; sh_text : bytes; sh_detail : bytes; sh_cause : bytes; sh_ctx : list Field }.
Definition LogFault (tf : tfields) (ts : bytes) (e : shown) (l : logger) : option logger :=
  match asFault (sh_err e) with
  | None => log tf ts LevelError (bs "error") [F (bs "err") (VString (sh_text e))] l
  | Some f =>
      let fields := [F (bs "code") (VString (fCode f))] ++
        (if bool_decide (fSubject f = []) then [] else [F (bs "subject") (VString (fSubject f))]) ++
        (if bool_decide (sh_detail e = []) then [] else [F (bs "detail") (VString (sh_detail e))]) ++
        (if fCause f is Some _ then [F (bs "err") (VString (sh_cause e))] else []) ++
        [F (bs "action") (VString (bs (Action (fCode f))))] ++ sh_ctx e in
      let msg := if bool_decide (fOp f = ""%string) then bs (Condition (fCode f)) else bs (fOp f) in
      match fClass f with
      | Warn => log tf ts LevelWarn msg fields l
      | _ => log tf ts LevelError msg fields l
      end
  end.
Definition spanLevel (name : bytes) : Z :=
  if bool_decide (name ∈ bs <$> ["session"; "pair"; "scan"]%string) then LevelInfo
  else if bool_decide (name ∈ bs <$> ["group.publish"; "file.transfer"; "file.verify"; "file.publish"]%string) then LevelTrace
  else LevelDebug.
(** The function [Start] returns, with the duration it measures. *)
Definition spanEnd (tf : tfields) (ts name outcome dur : bytes) (fields : list Field) (l : logger) : option logger :=
  log tf ts (spanLevel name) (name ++ bs " span")
    ([F (bs "span") (VString name); F (bs "outcome") (VString outcome); F (bs "dur_ms") (VFloat dur)] ++ fields) l.

(** How the function of a goroutine ends. *)
Inductive ended := Returned | Failed (e : shown) | Panicked (msg : bytes).
(** What [Go] does then: the logger, and the error handed to the fatal handler; the
    ring is dumped when [Init] has registered the root context. *)
Definition triggerFatal (registered : bool) (ts : bytes) (l : logger) : option logger := if registered then DumpRing ts l else Some l.
Definition Go (tf : tfields) (registered : bool) (ts name : bytes) (e : ended) (l : logger) : option (logger * option gerr) :=
  match e with
  | Returned => Some (l, None)
  | Failed e =>
      l ← LogFault tf ts e l;
      if IsFatal (Some (sh_err e)) then l ← triggerFatal registered ts l; Some (l, Some (sh_err e)) else Some (l, None)
  | Panicked msg =>
      l ← log tf ts LevelError (bs "goroutine panic") [F (bs "code") (VString E9001); F (bs "name") (VString name); F (bs "err") (VString msg)] l;
      l ← triggerFatal registered ts l;
      Some (l, Some (fault E9001 "goroutine" name None))
  end.

(** ** The ring holds the last records *)
Definition lastn {A} (n : nat) (l : list A) : list A := drop (length l - n) l.
Lemma lastn_le {A} n (l : list A) : (length l <= n)%nat → lastn n l = l.
Proof. intros Hl. unfold lastn. by replace (length l - n)%nat with 0%nat by lia. Qed.
Lemma lastn_snoc {A} n (l : list A) x : (0 < n <= length l)%nat → lastn n (l ++ [x]) = drop 1 (lastn n l) ++ [x].
Proof.
  intros Hl. unfold lastn. rewrite length_app, drop_drop, drop_app_le by (cbn; lia). cbn [length]. do 2 f_equal. lia.
Qed.
Definition ringSize (n : Z) : nat := Z.to_nat (if n <=? 0 then 2048 else n).
Lemma ringSize_pos n : (0 < ringSize n)%nat.
Proof. unfold ringSize. destruct (Z.leb_spec n 0); lia. Qed.
(** After [rs]: the buffer has its size, the next place is inside, and the ring is
    full from the moment it has wrapped. *)
Record ringOf (n : Z) (rs : list record) (r : ring) : Prop := {
  ro_size : length (rg_buf r) = ringSize n;
  ro_next : (rg_next r < ringSize n)%nat;
  ro_full : rg_full r = (ringSize n <=? length rs)%nat;
  ro_fresh : (length rs < ringSize n)%nat → rg_next r = length rs;
  ro_snapshot : snapshot r = lastn (ringSize n) rs;
}.
Lemma newRing_of n : ringOf n [] (newRing n).
Proof.
  pose proof (ringSize_pos n) as Hp. split; cbn [newRing rg_buf rg_next rg_full length]; [apply length_replicate|done| |done|].
  - symmetry. apply Nat.leb_gt. lia.
  - unfold snapshot. cbn [newRing rg_buf rg_next rg_full negb]. by rewrite lastn_le by (cbn; lia).
Qed.
Lemma add_of n rs r rec : ringOf n rs r → ringOf n (rs ++ [rec]) (add rec r).
Proof.
  intros [Hs Hn Hf Hr Hsn]. pose proof (ringSize_pos n) as Hp. unfold add. rewrite length_insert, Hs.
  assert (Hb : take (S (rg_next r)) (<[rg_next r := rec]> (rg_buf r)) = take (rg_next r) (rg_buf r) ++ [rec]).
  { rewrite (take_S_r _ _ rec) by (apply list_lookup_insert_eq; lia). by rewrite take_insert_ge by lia. }
  assert (Hd : drop (S (rg_next r)) (<[rg_next r := rec]> (rg_buf r)) = drop 1 (drop (rg_next r) (rg_buf r))) by (rewrite drop_drop, drop_insert_lt by lia; f_equal; lia).
  destruct (decide (length rs < ringSize n)%nat) as [Hlt|Hge].
  - assert (Hf' : rg_full r = false) by (rewrite Hf; apply Nat.leb_gt; lia). specialize (Hr Hlt). rewrite lastn_le in Hsn by lia.
    unfold snapshot in Hsn. rewrite Hf' in Hsn. cbn [negb] in Hsn. rewrite Hsn in Hb.
    destruct (Nat.eqb_spec (S (rg_next r)) (ringSize n)) as [E|Hne]; split; cbn [rg_buf rg_next rg_full]; rewrite ?length_insert, ?length_app; cbn [length]; try done; try lia.
    + symmetry. apply Nat.leb_le. lia.
    + unfold snapshot. cbn [rg_full negb rg_next rg_buf]. rewrite drop_0, take_0, app_nil_r, lastn_le by (rewrite length_app; cbn; lia).
      rewrite <- Hb, E, <- Hs. rewrite <- (length_insert (rg_buf r) (rg_next r) rec). by rewrite firstn_all.
    + rewrite Hf'. symmetry. apply Nat.leb_gt. lia.
    + unfold snapshot. cbn [rg_full negb rg_next rg_buf]. rewrite Hf', lastn_le by (rewrite length_app; cbn; lia). exact Hb.
  - assert (Hf' : rg_full r = true) by (rewrite Hf; apply Nat.leb_le; lia).
    unfold snapshot in Hsn. rewrite Hf' in Hsn. cbn [negb] in Hsn.
    assert (Hls : lastn (ringSize n) (rs ++ [rec]) = drop 1 (drop (rg_next r) (rg_buf r)) ++ take (rg_next r) (rg_buf r) ++ [rec]).
    { rewrite lastn_snoc, <- Hsn by lia. rewrite drop_app_le by (rewrite length_drop; lia). by rewrite app_assoc. }
    destruct (Nat.eqb_spec (S (rg_next r)) (ringSize n)) as [E|Hne]; split; cbn [rg_buf rg_next rg_full]; rewrite ?length_insert, ?length_app; cbn [length]; try done; try lia.
    + symmetry. apply Nat.leb_le. lia.
    + unfold snapshot. cbn [rg_full negb rg_next rg_buf]. rewrite Hls, drop_0, take_0, app_nil_r.
      rewrite drop_drop, drop_ge by lia. cbn [app]. rewrite <- Hb, E, <- Hs. rewrite <- (length_insert (rg_buf r) (rg_next r) rec). by rewrite firstn_all.
    + rewrite Hf'. symmetry. apply Nat.leb_le. lia.
    + unfold snapshot. cbn [rg_full negb rg_next rg_buf]. rewrite Hf'. cbn [negb]. by rewrite Hb, Hd, Hls.
Qed.
Lemma ring_of n rs : ringOf n rs (foldl (λ r rec, add rec r) (newRing n) rs).
Proof.
  induction rs as [|rec rs IH] using rev_ind; [apply newRing_of|]. rewrite foldl_app. by apply add_of.
Qed.

(** ** An interleaving of the goroutines that log with the writer *)
Inductive op :=
| OLog (tf : tfields) (ts : bytes) (lvl : Z) (msg : bytes) (user : list Field)
| ODump (ts : bytes)
| OSummary (tf : tfields) (ts : bytes) (c : Counters) (outcome : bytes) (exit : Z) (elapsed : bytes) (failedItems : list bytes)
| ODrain
| OClose.
Definition step (o : op) (l : logger) : option logger :=
  match o with
  | OLog tf ts lvl msg user => log tf ts lvl msg user l
  | ODump ts => DumpRing ts l
  | OSummary tf ts c outcome exit elapsed failed => Summary tf ts c outcome exit elapsed failed l
  | ODrain => Some (drainStep l)
  | OClose => close l
  end.
(** The run, with the texts it hands to [emit] on the way. *)
Definition texts (o : op) (l : logger) : list bytes :=
  match o with
  | OLog tf ts lvl msg user => if enabled l lvl then [formatRecord l (mkRecord ts lvl (role l) msg (canonFields tf ++ user))] else []
  | ODump ts => dumpHeader ts l (length (snapshot (lring l))) :: (formatRecord l <$> snapshot (lring l))
  | OSummary tf ts c outcome exit elapsed failed => [formatRecord l (mkRecord ts LevelInfo (role l) (summaryText tf c outcome exit elapsed failed l) [])]
  | _ => []
  end.
Fixpoint run_ (ops : list op) (l : logger) : option (logger * list bytes) :=
  match ops with
  | [] => Some (l, [])
  | o :: ops => match step o l with Some l' => '(l'', ts) ← run_ ops l'; Some (l'', texts o l ++ ts) | None => None end
  end.
Definition records (rl : bytes) (ops : list op) : list record :=
  omap (λ o, match o with OLog tf ts lvl msg user => Some (mkRecord ts lvl rl msg (canonFields tf ++ user)) | _ => None end) ops.

(** What does not change while a logger runs. *)
Definition sameConfig (l l' : logger) : Prop :=
  level l' = level l ∧ format l' = format l ∧ role l' = role l ∧ redactPaths l' = redactPaths l ∧ sync l' = sync l.
Definition sinkOk (l : logger) : Prop :=
  Z.of_nat (length (ch l)) <= sinkDepth ∧ (sync l = true → ch l = []) ∧ (closed l = true → ch l = []) ∧ in_i 64 (drops l).
Definition accounted (ts : list bytes) (l l' : logger) : Prop := ∃ kept, kept `sublist_of` ts ∧
  written l' ++ ch l' = (written l ++ ch l) ++ kept ∧ drops l' = wrap_i 64 (drops l + Z.of_nat (length ts - length kept)) ∧
  (sync l = true → kept = ts).
Record stepped (ts : list bytes) (l l' : logger) : Prop := {
  sd_config : sameConfig l l';
  sd_ok : sinkOk l';
  sd_acc : accounted ts l l';
}.
Lemma accounted_none l l' : in_i 64 (drops l) → written l' ++ ch l' = written l ++ ch l → drops l' = drops l → accounted [] l l'.
Proof.
  intros Hd Hw Hdr. exists []. rewrite app_nil_r, Hdr. split_and!; [done..| |done]. cbn. by rewrite Z.add_0_r, wrap_i_id.
Qed.
Lemma stepped_refl l : sinkOk l → stepped [] l l.
Proof. intros H. split; [done|done|]. apply accounted_none; [by destruct H as (_ & _ & _ & ?)|done..]. Qed.
Lemma wrap_i_add w a b : wrap_i w (wrap_i w a + b) = wrap_i w (a + b).
Proof.
  unfold wrap_i. replace (_ + b + 2 ^ (w - 1)) with ((a + 2 ^ (w - 1)) mod 2 ^ w + b) by lia. rewrite Zplus_mod_idemp_l. do 2 f_equal. lia.
Qed.
Lemma stepped_trans ts1 ts2 l1 l2 l3 : stepped ts1 l1 l2 → stepped ts2 l2 l3 → stepped (ts1 ++ ts2) l1 l3.
Proof.
  intros [(C1 & C2 & C3 & C4 & C5) _ (k1 & S1 & W1 & D1 & Y1)] [(E1 & E2 & E3 & E4 & E5) Hok (k2 & S2 & W2 & D2 & Y2)].
  split; [split_and!; congruence|done|]. exists (k1 ++ k2). split_and!.
  - by apply sublist_app.
  - by rewrite W2, W1, <- !app_assoc.
  - rewrite D2, D1, wrap_i_add. apply sublist_length in S1, S2. rewrite !length_app. f_equal. lia.
  - intros Hs. rewrite Y1, Y2 by congruence. done.
Qed.
Lemma emit_stepped b l l' : sinkOk l → emit b l = Some l' → stepped [b] l l' ∧ lring l' = lring l ∧ closed l' = closed l.
Proof.
  intros (Hn & Hs & Hc & Hd). unfold emit. destruct (sync l) eqn:Es.
  { intros [= <-]. split; [|done]. specialize (Hs eq_refl). split; [done|done|]. exists [b]. cbn. rewrite Hs, !app_nil_r.
    split_and!; [done..| |done]. by rewrite Z.add_0_r, wrap_i_id. }
  destruct (closed l) eqn:Ec; [done|]. destruct (Z.ltb_spec (Z.of_nat (length (ch l))) sinkDepth); intros [= <-]; (split; [|done]).
  - split; [done| |].
    + split_and!; [|by cbn; rewrite ?Es|by cbn; rewrite ?Ec|done]. cbn. rewrite length_app. cbn [length]. lia.
    + exists [b]. cbn. rewrite app_assoc. split_and!; [done..| |by rewrite ?Es]. by rewrite Z.add_0_r, wrap_i_id.
  - split; [done| |].
    + split_and!; [done|by cbn; rewrite ?Es|by cbn; rewrite ?Ec|]. apply wrap_i_range. lia.
    + exists []. rewrite app_nil_r. split_and!; [apply sublist_nil_l|done|done|by rewrite ?Es].
Qed.
Lemma emitAll_stepped ts : ∀ l l', sinkOk l → emitAll ts l = Some l' → stepped ts l l' ∧ lring l' = lring l ∧ closed l' = closed l.
Proof.
  induction ts as [|b ts IH]; intros l l' Hok; cbn [emitAll]; [intros [= <-]; by split; [apply stepped_refl|]|].
  destruct (emit b l) as [l1|] eqn:E; [|done]. apply emit_stepped in E as (E & R1 & C1); [|done]. intros (E2 & R2 & C2)%IH; [|by apply (sd_ok _ _ _ E)].
  split; [by apply (stepped_trans [b] ts l l1 l')|split; congruence].
Qed.
(** Before [OClose] no step panics or blocks. *)
Lemma emitAll_open ts : ∀ l, closed l = false → is_Some (emitAll ts l).
Proof.
  induction ts as [|b ts IH]; intros l Hc; cbn [emitAll]; [by eexists|]. unfold emit. rewrite Hc. destruct (sync l); [by apply IH|].
  destruct (_ <? _); by apply IH.
Qed.
Lemma emitAll_one b l : emitAll [b] l = emit b l.
Proof. cbn. by destruct (emit b l). Qed.
Lemma withRing_emit r b l : withRing r <$> emit b l = emit b (withRing r l).
Proof. unfold emit. cbn. by repeat case_match. Qed.

Lemma step_texts o l : ∃ r, step o l = match o with ODrain => Some (drainStep l) | OClose => close l | _ => emitAll (texts o l) (withRing r l) end ∧
  r = match o with OLog tf ts lvl msg user => add (mkRecord ts lvl (role l) msg (canonFields tf ++ user)) (lring l) | _ => lring l end.
Proof.
  eexists. split; [|reflexivity]. assert (Hw : withRing (lring l) l = l) by (by destruct l).
  destruct o; cbn [step texts]; rewrite ?Hw; [|done|by rewrite emitAll_one|done..].
  unfold log. change (enabled (withRing _ l) lvl) with (enabled l lvl). destruct (enabled l lvl); [|done]. by rewrite emitAll_one.
Qed.
Lemma step_stepped o l l' : sinkOk l → step o l = Some l' → stepped (texts o l) l l' ∧
  lring l' = foldl (λ r rec, add rec r) (lring l) (records (role l) [o]) ∧ (closed l' = true → closed l = true ∨ o = OClose).
Proof.
  intros Hok. destruct (step_texts o l) as (r & -> & Hr). pose proof Hok as (Hn & Hs & Hc & Hd).
  assert (He : ∀ ts, emitAll ts (withRing r l) = Some l' → stepped ts l l' ∧ lring l' = r ∧ closed l' = closed l).
  { intros ts E. apply emitAll_stepped in E; [|done]. destruct E as [[E1 E2 E3] E]. split; [by split|done]. }
  destruct o; cbn [records omap list_omap foldl]; try (intros (H1 & H2 & H3)%He; rewrite <- Hr; split; [done|split; [done|]]; rewrite H3; by left).
  - intros [= <-]. split; [|split; [unfold drainStep; by destruct (ch l)|left; unfold drainStep in *; by destruct (ch l)]].
    unfold drainStep. destruct (ch l) as [|b q] eqn:Eq; [by apply stepped_refl|]. split; [done| |].
    + split_and!; cbn; [cbn in Hn; lia|intros H; by specialize (Hs H)|intros H; by specialize (Hc H)|done].
    + apply accounted_none; [done| |done]. cbn. by rewrite Eq, <- app_assoc.
  - unfold close. destruct (sync l) eqn:Es; [intros [= <-]; split; [by apply stepped_refl|split; [done|by left]]|].
    destruct (closed l) eqn:Ec; [done|]. intros [= <-]. split; [|split; [done|by right]]. split; [done| |].
    + split_and!; cbn; [unfold sinkDepth; lia|done..].
    + apply accounted_none; [done| |done]. cbn. by rewrite app_nil_r.
Qed.
Lemma records_app rl ops1 ops2 : records rl (ops1 ++ ops2) = records rl ops1 ++ records rl ops2.
Proof. apply omap_app. Qed.
Lemma run_stepped ops : ∀ l l' ts, sinkOk l → run_ ops l = Some (l', ts) → stepped ts l l' ∧
  lring l' = foldl (λ r rec, add rec r) (lring l) (records (role l) ops) ∧ (closed l' = true → closed l = true ∨ OClose ∈ ops).
Proof.
  induction ops as [|o ops IH]; intros l l' ts Hok; cbn [run_].
  { intros [= <- <-]. split; [by apply stepped_refl|]. split; [done|by left]. }
  destruct (step o l) as [l1|] eqn:E; [|done]. apply step_stepped in E as (E & R1 & C1); [|done].
  destruct (run_ ops l1) as [[l2 ts2]|] eqn:E2; [|done]. cbn. intros [= <- <-].
  apply IH in E2 as (E2 & R2 & C2); [|by apply (sd_ok _ _ _ E)]. split; [by eapply stepped_trans|]. split.
  - rewrite R2, R1. destruct E as [(_ & _ & -> & _) _ _]. by rewrite <- foldl_app, <- (records_app (role l) [o] ops).
  - intros H. destruct (C2 H) as [H1|H1]; [|right; by right]. destruct (C1 H1) as [?| ->]; [by left|right; by left].
Qed.
Lemma Init_ok cfg : sinkOk (Init cfg).
Proof. split_and!; cbn; [unfold sinkDepth; lia|done..]. Qed.
Lemma run_open ops : ∀ l, sinkOk l → closed l = false → OClose ∉ ops → is_Some (run_ ops l).
Proof.
  induction ops as [|o ops IH]; intros l Hok Hc Hn; cbn [run_]; [by eexists|].
  assert (Hs : is_Some (step o l)).
  { destruct (step_texts o l) as (r & -> & _). destruct o; [apply emitAll_open; exact Hc..|by eexists|]. destruct Hn. by left. }
  destruct Hs as [l1 E]. rewrite E. destruct (step_stepped o l l1 Hok E) as ([_ Hok1 _] & _ & C1).
  destruct (IH l1) as [[l2 ts] ->]; [done| |by intros ?; apply Hn; right|by eexists].
  destruct (closed l1) eqn:E1; [|done]. destruct (C1 eq_refl) as [?| ->]; [congruence|]. destruct Hn. by left.
Qed.

(** The log sink loses nothing it does not count, and never stops the transfer.
    Whatever goroutines log, whenever the writer runs: until the logger is closed no
    call panics or blocks; what is written and queued are, in order and unchanged,
    the enabled records, the dumps and the summary, less exactly as many as the drop
    counter says; a synchronous logger drops none, and closing leaves nothing queued. *)
Theorem sink_accounts cfg ops :
  (OClose ∉ ops → is_Some (run_ ops (Init cfg))) ∧
  ∀ l ts, run_ ops (Init cfg) = Some (l, ts) →
    (∃ kept, written l ++ ch l = kept ∧ kept `sublist_of` ts ∧ drops l = wrap_i 64 (Z.of_nat (length ts - length kept)) ∧
             (Config.Sync cfg = true → written l = ts)) ∧
    Z.of_nat (length (ch l)) <= sinkDepth ∧ (closed l = true → ch l = []).
Proof.
  split; [intros H; by apply run_open; [apply Init_ok| |]|]. intros l ts E. apply run_stepped in E as ([C Hok (k & S & W & D & Y)] & _ & _); [|apply Init_ok].
  destruct Hok as (Hn & Hs & Hc & _). destruct C as (_ & _ & _ & _ & C). cbn in W, D, C. split; [|done]. exists k. split_and!; [done..|].
  intros Hy. rewrite Hs, app_nil_r in W by congruence. rewrite W. by apply Y.
Qed.

(** The trace ring holds the last records logged, in order, at every level, and a
    dump writes exactly those: however the ring has wrapped around, whatever level
    is enabled, after any run [DumpRing] hands the sink a header that counts them and
    the last [RingSize] records. *)
Theorem trace_ring_exact cfg ops l ts now :
  run_ ops (Init cfg) = Some (l, ts) →
  let last := lastn (ringSize (Config.RingSize (withDefaults cfg))) (records (Config.Role cfg) ops) in
  snapshot (lring l) = last ∧ DumpRing now l = emitAll (dumpHeader now l (length last) :: (formatRecord l <$> last)) l.
Proof.
  intros (_ & R & _)%run_stepped; [|apply Init_ok]. cbv zeta. unfold DumpRing. cbv zeta.
  assert (Hs : snapshot (lring l) = lastn (ringSize (Config.RingSize (withDefaults cfg))) (records (Config.Role cfg) ops)); [|by rewrite Hs].
  rewrite R. exact (ro_snapshot _ _ _ (ring_of _ _)).
Qed.

(** ** What is written does not depend on a secret

    Two values a logger cannot tell apart, and the same for fields, records, rings,
    loggers and steps. *)
Inductive vsim : value → value → Prop :=
| vs_secret a b : vsim (VSecret a) (VSecret b)
| vs_redacted a b : vsim (VRedactedString a) (VRedactedString b)
| vs_same v : vsim v v.
Definition fsim (f g : Field) : Prop := f.1 = g.1 ∧ vsim f.2 g.2.
Definition tfsim (tf tf' : tfields) : Prop := ∀ k, option_Forall2 vsim (tf !! k) (tf' !! k).
Definition rsim (r r' : record) : Prop :=
  r_ts r = r_ts r' ∧ r_level r = r_level r' ∧ r_role r = r_role r' ∧ r_msg r = r_msg r' ∧ Forall2 fsim (r_fields r) (r_fields r').
Definition gsim (g g' : ring) : Prop := Forall2 rsim (rg_buf g) (rg_buf g') ∧ rg_next g = rg_next g' ∧ rg_full g = rg_full g'.
Definition lsim (l l' : logger) : Prop := ∃ g, l' = withRing g l ∧ gsim (lring l) g.
Inductive opsim : op → op → Prop :=
| os_log tf tf' ts lvl msg user user' : tfsim tf tf' → Forall2 fsim user user' → opsim (OLog tf ts lvl msg user) (OLog tf' ts lvl msg user')
| os_summary tf tf' ts c outcome exit elapsed failed : tfsim tf tf' →
    opsim (OSummary tf ts c outcome exit elapsed failed) (OSummary tf' ts c outcome exit elapsed failed)
| os_same o : opsim o o.

#[local] Instance vsim_refl : Reflexive vsim.
Proof. intros v. constructor. Qed.
#[local] Instance fsim_refl : Reflexive fsim.
Proof. intros f. by split. Qed.
#[local] Instance rsim_refl : Reflexive rsim.
Proof. intros r. split_and!; try done; reflexivity. Qed.
Lemma fmtV_sim v v' : vsim v v' → fmtV v = fmtV v'.
Proof. by destruct 1. Qed.
Lemma jsonV_sim v v' : vsim v v' → jsonV v = jsonV v'.
Proof. by destruct 1. Qed.
Lemma setField_sim f f' l l' : fsim f f' → Forall2 fsim l l' → Forall2 fsim (setField f l) (setField f' l').
Proof.
  intros [Hk Hv] Hl. induction Hl as [|g g' l l' [Hg Hgv] Hl IH]; cbn [setField]; [by repeat constructor|]. rewrite Hk, Hg.
  by case_bool_decide; constructor.
Qed.
Lemma setFields_sim l l' : Forall2 fsim l l' → ∀ acc acc', Forall2 fsim acc acc' →
  Forall2 fsim (foldl (λ acc f, setField f acc) acc l) (foldl (λ acc f, setField f acc) acc' l').
Proof. induction 1 as [|f f' l l' Hf Hl IH]; intros acc acc' Ha; [done|]. cbn. apply IH. by apply setField_sim. Qed.
Lemma insertKey_sim f f' l l' : fsim f f' → Forall2 fsim l l' → Forall2 fsim (insertKey f l) (insertKey f' l').
Proof.
  intros Hf Hl. pose proof Hf as [Hk _]. induction Hl as [|g g' l l' Hg Hl IH]; cbn [insertKey]; [constructor; [exact Hf|constructor]|].
  pose proof Hg as [Hgk _]. rewrite Hk, Hgk. destruct (bytes_leb _ _); constructor; try exact Hf; try exact Hg; [by constructor|exact IH].
Qed.
Lemma redactPath_sim l l' : Forall2 fsim l l' → Forall2 fsim (redactPath l) (redactPath l').
Proof.
  induction 1 as [|f f' l l' [Hk Hv] Hl IH]; [done|]. cbn. constructor; [|done]. rewrite Hk. by case_bool_decide; split.
Qed.
Lemma getField_sim k l l' : Forall2 fsim l l' → fmtV <$> getField k l = fmtV <$> getField k l'.
Proof.
  unfold getField. induction 1 as [|f f' l l' [Hk Hv] Hl IH]; [done|]. rewrite !filter_cons, Hk. case_decide; [|done]. cbn. by rewrite (fmtV_sim _ _ Hv).
Qed.
Lemma leading_sim l l' : Forall2 fsim l l' → ∀ ks : list bytes,
  omap (λ k, v ← getField k l; Some (pair_ (k, v) ++ [space])) ks = omap (λ k, v ← getField k l'; Some (pair_ (k, v) ++ [space])) ks.
Proof.
  intros Hl. induction ks as [|k ks IH]; [done|]. cbn. pose proof (getField_sim k l l' Hl) as E.
  destruct (getField k l), (getField k l'); try done. cbn in E |- *. injection E as E. unfold pair_. cbn [mbind option_bind fst snd]. rewrite E. f_equal. exact IH.
Qed.
Lemma trailing_sim l l' : Forall2 fsim l l' →
  (λ f, space :: pair_ f) <$> filter (λ f, f.1 ∉ fieldOrder) l = (λ f, space :: pair_ f) <$> filter (λ f, f.1 ∉ fieldOrder) l'.
Proof.
  induction 1 as [|f f' l l' [Hk Hv] Hl IH]; [done|]. rewrite !filter_cons, Hk. case_decide; [|done].
  rewrite !fmap_cons. f_equal; [|exact IH]. unfold pair_. by rewrite Hk, (fmtV_sim _ _ Hv).
Qed.
Lemma object_sim l l' : Forall2 fsim l l' →
  (λ f, jsonString f.1 ++ bs ":" ++ jsonV f.2) <$> foldr insertKey [] l = (λ f, jsonString f.1 ++ bs ":" ++ jsonV f.2) <$> foldr insertKey [] l'.
Proof.
  intros Hl. assert (Hs : Forall2 fsim (foldr insertKey [] l) (foldr insertKey [] l')).
  { induction Hl; cbn [foldr]; [constructor|by apply insertKey_sim]. }
  induction Hs as [|f f' m m' [Hk Hv] _ IH]; [done|]. rewrite !fmap_cons. f_equal; [|exact IH]. by rewrite Hk, (jsonV_sim _ _ Hv).
Qed.
Lemma formatRecord_sim g l r r' : rsim r r' → formatRecord l r = formatRecord (withRing g l) r'.
Proof.
  intros (Hts & Hlvl & Hrole & Hmsg & Hf). unfold formatRecord. cbv zeta. change (redactPaths (withRing g l)) with (redactPaths l).
  change (format (withRing g l)) with (format l). set (F1 := if redactPaths l then _ else _). set (F2 := if redactPaths l then redactPath (mergeFields (r_fields r')) else _).
  assert (Hs : Forall2 fsim F1 F2).
  { pose proof (setFields_sim _ _ Hf [] [] (List.Forall2_nil _)) as Hm. unfold F1, F2, mergeFields. destruct (redactPaths l); [by apply redactPath_sim|done]. }
  clearbody F1 F2. case_bool_decide.
  - unfold formatJSON. cbv zeta. rewrite Hts, Hlvl, Hrole, Hmsg. do 3 f_equal. apply object_sim. apply setFields_sim; [done|]. reflexivity.
  - unfold formatText. by rewrite Hts, Hlvl, Hrole, Hmsg, (leading_sim _ _ Hs), (trailing_sim _ _ Hs).
Qed.

Lemma canonFields_sim tf tf' : tfsim tf tf' → Forall2 fsim (canonFields tf) (canonFields tf').
Proof.
  intros Ht. unfold canonFields. induction traceOrder as [|k ks IH]; cbn; [constructor|]. destruct (Ht k) as [v v' Hv|]; cbn; [|done].
  by constructor.
Qed.
Lemma Session_sim tf tf' : tfsim tf tf' → Session tf = Session tf'.
Proof. intros Ht. unfold Session. destruct (Ht (bs "session")) as [v v' [| |]|]; done. Qed.
Lemma add_sim r r' g g' : rsim r r' → gsim g g' → gsim (add r g) (add r' g').
Proof.
  intros Hr (Hb & Hn & Hf). unfold add. rewrite !length_insert, (Forall2_length _ _ _ Hb), Hn, Hf.
  destruct (_ =? _)%nat; (split_and!; [by apply Forall2_insert|done|done]).
Qed.
Lemma snapshot_sim g g' : gsim g g' → Forall2 rsim (snapshot g) (snapshot g').
Proof.
  intros (Hb & Hn & Hf). unfold snapshot. rewrite Hn, Hf. destruct (negb _); [by apply Forall2_take|].
  apply Forall2_app; [by apply Forall2_drop|by apply Forall2_take].
Qed.
(** Two loggers, or both have panicked. *)
Definition osim (o o' : option logger) : Prop := option_Forall2 lsim o o'.
Lemma emitAll_sim ts g : ∀ l, gsim (lring l) g → osim (emitAll ts l) (emitAll ts (withRing g l)).
Proof.
  induction ts as [|b ts IH]; intros l Hg; cbn [emitAll]; [constructor; by exists g|].
  rewrite <- withRing_emit. destruct (emit b l) as [l1|] eqn:E; cbn [fmap option_fmap option_map]; [|constructor].
  assert (lring l1 = lring l) as Hr by (revert E; unfold emit; repeat case_match; intros; simplify_eq; done). apply IH. by rewrite Hr.
Qed.
Lemma texts_sim o o' l g : opsim o o' → gsim (lring l) g → texts o l = texts o' (withRing g l).
Proof.
  intros Ho Hg. assert (Hdump : (formatRecord l <$> snapshot (lring l)) = (formatRecord (withRing g l) <$> snapshot g)).
  { pose proof (snapshot_sim _ _ Hg) as Hs. induction Hs as [|r r' s s' Hr Hs IH]; [done|]. by rewrite !fmap_cons, IH, (formatRecord_sim g l r r'). }
  destruct Ho as [tf tf' ts lvl msg user user' Ht Hu|tf tf' ts c outcome exit elapsed failed Ht|o].
  - cbn [texts]. change (enabled (withRing g l) lvl) with (enabled l lvl). destruct (enabled l lvl); [|done]. f_equal. apply formatRecord_sim.
    split_and!; try done. apply Forall2_app; [by apply canonFields_sim|done].
  - cbn [texts]. f_equal. rewrite (formatRecord_sim g l _ _ (reflexivity _)). unfold summaryText. by rewrite (Session_sim _ _ Ht).
  - destruct o; cbn [texts]; try done. change (lring (withRing g l)) with g. rewrite <- Hdump. f_equal.
    pose proof (snapshot_sim _ _ Hg) as Hs. by rewrite (Forall2_length _ _ _ Hs).
Qed.
Lemma step_sim o o' l l' : opsim o o' → lsim l l' → osim (step o l) (step o' l').
Proof.
  intros Ho (g & -> & Hg). pose proof (texts_sim o o' l g Ho Hg) as Ht.
  destruct (step_texts o l) as (r & E & Hr), (step_texts o' (withRing g l)) as (r' & E' & Hr'). rewrite E, E', <- Ht.
  assert (Hgs : gsim r r').
  { rewrite Hr, Hr'. destruct Ho as [tf tf' ts lvl msg user user' Htf Hu|tf tf' ts c outcome exit elapsed failed Htf|o]; [|done|].
    - apply add_sim; [|done]. split_and!; try done. apply Forall2_app; [by apply canonFields_sim|done].
    - destruct o; try done. by apply add_sim. }
  assert (Hl : osim (emitAll (texts o l) (withRing r l)) (emitAll (texts o l) (withRing r' (withRing g l)))) by exact (emitAll_sim _ r' (withRing r l) Hgs).
  destruct Ho as [| |[]]; try exact Hl.
  - constructor. unfold drainStep. change (ch (withRing g l)) with (ch l). destruct (ch l); by exists g.
  - unfold close. change (sync (withRing g l)) with (sync l). change (closed (withRing g l)) with (closed l).
    destruct (sync l); [constructor; by exists g|]. destruct (closed l); constructor. by exists g.
Qed.

Lemma run_sim ops ops' : Forall2 opsim ops ops' → ∀ l l', lsim l l' →
  option_Forall2 (λ p q, lsim p.1 q.1 ∧ p.2 = q.2) (run_ ops l) (run_ ops' l').
Proof.
  induction 1 as [|o o' ops ops' Hoo Ho IH]; intros l l' Hl; cbn [run_]; [by constructor|].
  pose proof Hl as (g & E & Hg). assert (Ht : texts o l = texts o' l') by (rewrite E; by apply texts_sim).
  destruct (step_sim o o' l l' Hoo Hl) as [l1 l1' Hl1|]; [|constructor]. rewrite Ht.
  destruct (IH l1 l1' Hl1) as [[l2 ts] [l2' ts'] [H1 H2]|]; [|constructor]. cbn [fst snd] in *. subst ts'. by constructor.
Qed.

(** C25: what is logged as a [Secret] or a [RedactedString] does not reach the log.
    Two runs of logger operations that differ only in the contents of such values, in
    fields or in the trace context, hand the sink the same texts, dumps of the ring
    included, in text and in JSON, and leave the same bytes written, the same queue
    and the same drop count; and one panics where the other does.  This is a statement
    about the logger: it says nothing of a value its caller hands over in another
    form (the session id is logged as it is, and the pairing code is a plain string
    where the sender keeps it), and which values callers wrap is not modelled. *)
Theorem logged_secrets_redacted cfg ops ops' : Forall2 opsim ops ops' →
  match run_ ops (Init cfg), run_ ops' (Init cfg) with
  | Some (l, ts), Some (l', ts') => ts = ts' ∧ written l = written l' ∧ ch l = ch l' ∧ drops l = drops l'
  | None, None => True
  | _, _ => False
  end.
Proof.
  intros Ho. assert (Hl : lsim (Init cfg) (Init cfg)) by (exists (lring (Init cfg)); split; [done|split_and!; reflexivity]).
  destruct (run_sim ops ops' Ho _ _ Hl) as [[l ts] [l' ts'] [(g & E & _) H2]|]; [|done]. cbn [fst snd] in *. subst l' ts'. done.
Qed.

(** ** Concrete runs *)
Definition ex_obs (lvl : Z) (redact synchronous : bool) : Config.t := Config.mk lvl [] [] 2 redact synchronous 0 (bs "sender").
Definition ex_log (lvl : Z) (msg : string) (user : list Field) : op := OLog {[bs "session" := VString (bs "8f3a")]} (bs "T") lvl (bs msg) user.
Definition outOf (cfg : Config.t) (ops : list op) : option (list bytes) := (λ p, written p.1) <$> run_ ops (Init cfg).
Example log_ex : outOf (ex_obs LevelInfo false true) [ex_log LevelInfo "paired" [F (bs "code") (VRedactedString (bs "ABCDE")); F (bs "n") (VInt 3)]]
  = Some [bs "T INFO  sender    session=8f3a code=[redacted] paired n=3" ++ [newline]].
Proof. by vm_compute. Qed.
Example json_ex : outOf (Config.mk 0 (bs "json") [] 0 false true 0 (bs "sender")) [ex_log LevelInfo "a<b" [F (bs "n") (VInt (-3))]]
  = Some [bs "{" ++ commas ((λ p, jsonString p.1 ++ bs ":" ++ p.2) <$>
      [(bs "level", jsonString (bs "INFO")); (bs "msg", [quote] ++ bs "a\u003cb" ++ [quote]); (bs "n", bs "-3"); (bs "role", jsonString (bs "sender"));
       (bs "session", jsonString (bs "8f3a")); (bs "ts", jsonString (bs "T"))]) ++ bs "}" ++ [newline]].
Proof. by vm_compute. Qed.

(** The log file of --log-file shares the sink, so it gets the enabled records only,
    where the documentation promises it full fidelity at a level of its own. *)
Lemma log_file_filtered : outOf (ex_obs LevelInfo false true) [ex_log LevelTrace "queue push" []] = Some [].
Proof. by vm_compute. Qed.
(** --redact-paths replaces the field path; the path in the field subject of a
    logged fault stays. *)
Lemma subject_not_redacted : outOf (ex_obs LevelInfo true true)
    [ex_log LevelWarn "open source file" [F (bs "path") (VString (bs "p/q")); F (bs "subject") (VString (bs "p/q"))]]
  = Some [bs "T WARN  sender    session=8f3a path=[redacted] open source file subject=p/q" ++ [newline]].
Proof. by vm_compute. Qed.
(** Flushing closes the queue: a goroutine that logs between the flush and the exit of
    the process panics on the closed channel. *)
Lemma log_after_flush_panics : run_ [OClose; ex_log LevelWarn "second signal received" []] (Init (ex_obs LevelInfo false false)) = None.
Proof. by vm_compute. Qed.

Lemma trace_ring_exact_witness : exists l ts, run_ [ex_log LevelTrace "one" []; ex_log LevelTrace "two" []; ex_log LevelInfo "three" []] (Init (ex_obs LevelInfo false false)) = Some (l, ts) /\
  (r_msg <$> snapshot (lring l)) = [bs "two"; bs "three"].
Proof.
  destruct (run_ [ex_log LevelTrace "one" []; ex_log LevelTrace "two" []; ex_log LevelInfo "three" []] (Init (ex_obs LevelInfo false false))) as [[l ts]|] eqn:E; [|vm_compute in E; discriminate E].
  exists l, ts. split; [reflexivity|]. destruct (trace_ring_exact _ _ _ _ (bs "T") E) as [Hs _]. rewrite Hs. vm_compute. reflexivity.
Defined.
Lemma sink_accounts_witness : exists l ts, run_ [ex_log LevelInfo "one" []; ODrain; ex_log LevelInfo "two" []; OClose] (Init (ex_obs LevelInfo false false)) = Some (l, ts) /\
  (length ts = 2)%nat /\ written l ++ ch l = written l /\ exists kept, written l ++ ch l = kept /\ kept `sublist_of` ts.
Proof.
  destruct (run_ [ex_log LevelInfo "one" []; ODrain; ex_log LevelInfo "two" []; OClose] (Init (ex_obs LevelInfo false false))) as [[l ts]|] eqn:E; [|vm_compute in E; discriminate E].
  destruct (proj2 (sink_accounts _ _) l ts E) as ((kept & Hk & Hs & _) & _ & Hc). exists l, ts. split; [reflexivity|].
  rewrite Hc by (vm_compute in E; injection E as <- _; reflexivity). split; [vm_compute in E; injection E as _ <-; reflexivity|]. split; [apply app_nil_r|].
  exists kept. split; [|exact Hs]. rewrite <- Hk. rewrite Hc by (vm_compute in E; injection E as <- _; reflexivity). reflexivity.
Defined.
Definition ex_secret (b : bytes) : list op := [ex_log LevelInfo "keys" [F (bs "secret") (VSecret b)]; ODump (bs "T"); ODrain].
Lemma logged_secrets_redacted_witness :
  match run_ (ex_secret (bs "hunter2")) (Init (ex_obs LevelInfo false false)), run_ (ex_secret (bs "swordfish")) (Init (ex_obs LevelInfo false false)) with
  | Some (l, ts), Some (l', ts') => ts = ts' /\ written l = written l' /\ ch l = ch l' /\ drops l = drops l'
  | None, None => True
  | _, _ => False
  end.
Proof.
  apply (logged_secrets_redacted (ex_obs LevelInfo false false)). unfold ex_secret. repeat (apply List.Forall2_cons; [|]); [|apply os_same|apply os_same|apply List.Forall2_nil].
  apply os_log; [|apply List.Forall2_cons; [split; [reflexivity|apply vs_secret]|apply List.Forall2_nil]].
  intros k. destruct (_ !! k); constructor. reflexivity.
Defined.
