(* ===== verification/Progress.v ===== *)
(** * Progress: the progress line and the heartbeat (src/internal/obs/progress.go, heartbeat.go)

    [render] is a function from the counters and the clock to the line written; times
    are nanoseconds.  [None] is a panic: the unit prefix is indexed by an exponent
    that has no bound of its own. *)
From Stdlib Require Import SpecFloat.
From S2P Require Import Prelude Strconv Float64.

Definition Second : Z := 10 ^ 9.
(** [Duration.Seconds]. *)
Definition Seconds (d : Z) : float64 := add64 (ofInt (Z.quot d Second)) (div64 (ofInt (Z.rem d Second)) (ofInt Second)).
Definition zero64 : float64 := S754_zero false.
(** The nearest binary64 values of 0.6 and 0.4. *)
Definition c06 : float64 := S754_finite false 5404319552844595 (-53).
Definition c04 : float64 := S754_finite false 7205759403792794 (-54).

Definition prefixes : list bytes := bs <$> ["K"; "M"; "G"; "T"; "P"; "E"]%string.
(** [for x := n / unit; x >= unit; x /= unit]; a 63-bit number has at most seven turns. *)
Fixpoint binaryExp (fuel : nat) (x dv : Z) (exp : nat) : option (Z * nat) :=
  match fuel with
  | O => None
  | S fuel => if 1024 <=? x then binaryExp fuel (x / 1024) (dv * 1024) (S exp) else Some (dv, exp)
  end.
Definition humanBytes (n : Z) : option bytes :=
  if n <? 1024 then Some (FormatInt n 10 ++ bs "B")
  else '(dv, exp) ← binaryExp 8 (n / 1024) 1024 0; p ← prefixes !! exp; Some (fixed1 (div64 (ofInt n) (ofInt dv)) ++ p ++ bs "iB").
Fixpoint decimalExp (fuel : nat) (n dv : float64) (exp : nat) : option (float64 * nat) :=
  match fuel with
  | O => None
  | S fuel => if le64 (ofInt 1000) n then decimalExp fuel (div64 n (ofInt 1000)) (mul64 dv (ofInt 1000)) (S exp) else Some (dv, exp)
  end.
(** The largest finite value has 103 turns; infinity would loop for ever. *)
Definition humanRate (r : float64) : option bytes :=
  let r := if lt64 r zero64 then zero64 else r in
  if lt64 r (ofInt 1000) then Some (fixed0 r ++ bs " B/s")
  else '(dv, exp) ← decimalExp 110 (div64 r (ofInt 1000)) (ofInt 1000) 0; p ← prefixes !! exp; Some (fixed1 (div64 r dv) ++ bs " " ++ p ++ bs "B/s").
Definition d02 (z : Z) : bytes := if z <? 10 then bs "0" ++ FormatInt z 10 else FormatInt z 10.
Definition formatETA (d : Z) : option bytes :=
  let d := if d <? 0 then 0 else d in
  s ← trunc (Seconds d);
  let h := s / 3600 in let m := s mod 3600 / 60 in let sec := s mod 60 in
  Some (if 0 <? h then FormatInt h 10 ++ bs ":" ++ d02 m ++ bs ":" ++ d02 sec else d02 m ++ bs ":" ++ d02 sec).

Record Progress := mkProgress {
  interval : Z; tty : bool; doneBytes : Z; totalBytes : Z; doneFiles : Z; totalFiles : Z; lastAt : option Z; lastBytes : Z; rate : float64;
}.
Definition newProgress (tt : bool) (ival : Z) : Progress := mkProgress (if ival <=? 0 then 5 * Second else ival) tt 0 0 0 0 None 0 zero64.
Definition Update (db tb df tf : Z) (p : Progress) : Progress := mkProgress (interval p) (tty p) db tb df tf (lastAt p) (lastBytes p) (rate p).
(** The rate at [now]: the first reading only starts the clock. *)
Definition nextRate (now : Z) (p : Progress) : float64 :=
  match lastAt p with
  | None => rate p
  | Some at_ =>
      let dt := Seconds (wrap_i 64 (now - at_)) in
      if lt64 zero64 dt then
        let inst := div64 (ofInt (wrap_i 64 (doneBytes p - lastBytes p))) dt in
        let inst := if lt64 inst zero64 then zero64 else inst in
        if eq64 (rate p) zero64 then inst else add64 (mul64 c06 (rate p)) (mul64 c04 inst)
      else rate p
  end.
(** [render]: what is written, and the new estimate; [stamp] is the formatted time. *)
Definition render (now : Z) (stamp : bytes) (p : Progress) : option (bytes * Progress) :=
  let db := doneBytes p in let tb := totalBytes p in let df := doneFiles p in let tf := totalFiles p in
  let r := nextRate now p in
  b ← humanBytes db;
  bytesStr ← (if 0 <? tb then t ← humanBytes tb; Some (b ++ bs " / " ++ t) else Some b);
  let filesStr := if 0 <? tf then FormatInt df 10 ++ bs " / " ++ FormatInt tf 10 else FormatInt df 10 in
  hr ← humanRate r;
  let line := bytesStr ++ bs "   " ++ filesStr ++ bs " files   " ++ hr in
  line ← (if (db <? tb) && lt64 zero64 r then
            e ← trunc (mul64 (div64 (ofInt (wrap_i 64 (tb - db))) r) (ofInt Second)); eta ← formatETA e; Some (line ++ bs "   eta " ++ eta)
          else Some line);
  let clear := [byte_of_Z 13; byte_of_Z 27] ++ bs "[K  " in
  Some (if tty p then clear ++ line else stamp ++ bs " progress  " ++ line ++ [newline],
        mkProgress (interval p) (tty p) db tb df tf (Some now) db r).

(** ** The heartbeat *)
Definition defaultHeartbeatSample : Z := 10 * Second.
Definition defaultHeartbeatLog : Z := 60 * Second.
Definition samplesPerLog (sample log : Z) : Z :=
  let sample := if sample <=? 0 then defaultHeartbeatSample else sample in
  let log := if log <=? 0 then defaultHeartbeatLog else log in
  let n := Z.quot log sample in if n <? 1 then 1 else n.
Definition formatGroups (ids : list Z) : bytes :=
  match ids with
  | [] => bs "none"
  | id :: ids => FormatUint id 10 ++ mjoin ((λ i, bs "," ++ FormatUint i 10) <$> ids)
  end.
Record heartbeat := mkBeat { hb_bytes : Z; hb_at : Z; hb_rate : float64; hb_ticks : Z }.
(** One tick: the new state, and the rate it logs on every [n]th. *)
Definition beat (n now b : Z) (h : heartbeat) : heartbeat * option (option bytes) :=
  let elapsed := Seconds (wrap_i 64 (now - hb_at h)) in
  let r := if lt64 zero64 elapsed then div64 (ofInt (wrap_i 64 (b - hb_bytes h))) elapsed else hb_rate h in
  let t := hb_ticks h + 1 in
  (mkBeat b now r t, if t mod n =? 0 then Some (humanRate r) else None).

Example render_ex : fst <$> (p ← snd <$> render 0 (bs "T") (Update 0 (2 ^ 30) 0 3 (newProgress false 0)); render (2 * Second) (bs "T") (Update (100 * 2 ^ 20) (2 ^ 30) 1 3 p))
  = Some (bs "T progress  100.0MiB / 1.0GiB   1 / 3 files   52.4 MB/s   eta 00:18" ++ [newline]).
Proof. by vm_compute. Qed.
Example beat_ex : beat 1 (10 * Second) 423000000 (mkBeat 0 0 zero64 0) = (mkBeat 423000000 (10 * Second) (div64 (ofInt 423000000) (ofInt 10)) 1, Some (Some (bs "42.3 MB/s"))).
Proof. by vm_compute. Qed.

(** No byte count overruns the prefixes. *)
Lemma binaryExp_ok k : ∀ fuel x dv e, (k < fuel)%nat → 0 <= x < 8 * 1024 ^ Z.of_nat k → (e + k <= 5)%nat →
  ∃ dv' e', binaryExp fuel x dv e = Some (dv', e') ∧ (e' <= 5)%nat.
Proof.
  induction k as [|k IH]; intros [|fuel] x dv e Hf Hx He; try lia; cbn [binaryExp]; (destruct (Z.leb_spec 1024 x) as [Hl|Hl]; [|exists dv, e; split; [done|lia]]).
  - change (1024 ^ Z.of_nat 0) with 1 in Hx. lia.
  - apply IH; [lia| |lia]. rewrite Nat2Z.inj_succ, Z.pow_succ_r in Hx by lia. split; [apply Z.div_pos; lia|]. apply Z.div_lt_upper_bound; lia.
Qed.
Lemma humanBytes_total n : in_i 64 n → is_Some (humanBytes n).
Proof.
  intros Hn. unfold humanBytes. destruct (Z.ltb_spec n 1024) as [|Hl]; [by eexists|]. unfold in_i in Hn.
  destruct (binaryExp_ok 5 8 (n / 1024) 1024 0) as (dv & e & -> & He); [lia| |lia|].
  { split; [apply Z.div_pos; lia|]. apply Z.div_lt_upper_bound; [lia|]. change (1024 * (8 * 1024 ^ Z.of_nat 5)) with (2 ^ 63). lia. }
  cbn [mbind option_bind]. destruct (lookup_lt_is_Some_2 prefixes e) as [p ->]; [change (length prefixes) with 6%nat; lia|]. by eexists.
Qed.
(** A rate of 10^21 bytes per second would. *)
Lemma humanRate_overruns : humanRate (ofInt (10 ^ 21)) = None.
Proof. by vm_compute. Qed.
