(* ===== verification/Pool.v ===== *)
(** * Pool: the receiver's data channels (src/internal/receiver/run.go, tune.go)

    The set of live data channels grows and shrinks while a session runs: the
    adaptive tuner opens and retires channels, a lost channel is replaced by a
    rejoin loop, the pipeline's end stops both.  The operations are functions on
    [pool], one per critical section of [chMu]; [step] interleaves the goroutines
    that call them. *)
From Stdlib Require Import SpecFloat.
From stdpp Require Import relations.
From S2P Require Import Prelude Fault Strconv Float64.

(** ** decideRamp (tune.go) *)
(** The nearest binary64 values of 1.08 and 0.92. *)
Definition tuneRampUpThreshold : float64 := S754_finite false 4863887597560136 (-52).
Definition tuneRampDnThreshold : float64 := S754_finite false 8286623314361713 (-53).
Definition tuneRampUpStep : Z := 2.
Definition tuneMaxUnproductive : Z := 3.
(** [tuneWindow.Seconds()] *)
Definition windowSeconds : float64 := ofInt 2.

Inductive rampAction := rampHold | rampUp | rampDown.
(** The built-in [max] of two floats that are not NaN. *)
Definition max64 (x y : float64) : float64 := if lt64 x y then y else x.
Definition decideRamp (n minCh maxCh : Z) (g bestG : float64) (errored : bool) : rampAction * float64 :=
  if negb errored && (n <? maxCh) && lt64 (mul64 bestG tuneRampUpThreshold) g then (rampUp, max64 bestG g)
  else if (minCh <? n) && lt64 g (mul64 bestG tuneRampDnThreshold) then (rampDown, bestG)
  else (rampHold, bestG).

(** ** The tuner (tune.go), one window at a time *)
Record poolConfig := mkPoolConfig {
  MinChannels : Z; MaxChannels : Z; Channels : Z; ChannelsPinned : bool; senderMaxChannels : Z;
}.
(** The bounds [tune] clamps to. *)
Definition tuneMax (cfg : poolConfig) : Z :=
  let m := MaxChannels cfg in
  let m := if (0 <? senderMaxChannels cfg) && (senderMaxChannels cfg <? m) then senderMaxChannels cfg else m in
  if m <? MinChannels cfg then MinChannels cfg else m.
(** A reading of the counters: bytes, retries, failed files. *)
Record reading := mkReading { rd_bytes : Z; rd_retries : Z; rd_failed : Z }.
Record tuner := mkTuner { bestG : float64; lastRead : reading; unproductive : Z; stopped : bool }.
Definition newTuner (r : reading) : tuner := mkTuner (ofInt 0) r 0 false.
(** What a window makes the tuner do: open up to so many channels, or retire one. *)
Inductive tuneAct := TuneHold | TuneOpen (k : Z) | TuneRetire.
(** One tick: the counters and the channel count it reads, and the state it leaves;
    [retired] is what [retireOne] will answer. *)
Definition tick (cfg : poolConfig) (now : reading) (n : Z) (retired : bool) (t : tuner) : tuneAct * tuner :=
  let g := div64 (ofInt (rd_bytes now - rd_bytes (lastRead t))) windowSeconds in
  let errored := (rd_retries (lastRead t) <? rd_retries now) || (rd_failed (lastRead t) <? rd_failed now) in
  if stopped t then (TuneHold, mkTuner (bestG t) now (unproductive t) true)
  else if n =? 0 then (TuneHold, mkTuner (bestG t) now (unproductive t) false)
  else
    let '(action, best) := decideRamp n (MinChannels cfg) (tuneMax cfg) g (bestG t) errored in
    let '(act, unprod) :=
      match action with
      | rampUp => (TuneOpen (Z.min (n + tuneRampUpStep) (tuneMax cfg) - n), 0)
      | rampDown => (TuneRetire, if retired then unproductive t + 1 else unproductive t)
      | rampHold => (TuneHold, unproductive t)
      end in
    (act, mkTuner best now unprod (tuneMaxUnproductive <=? unprod)).
Fixpoint ticks (cfg : poolConfig) (l : list (reading * Z * bool)) (t : tuner) : list tuneAct * tuner :=
  match l with
  | [] => ([], t)
  | (now, n, retired) :: l => let '(a, t) := tick cfg now n retired t in let '(acts, t) := ticks cfg l t in (a :: acts, t)
  end.

(** ** The pool (run.go) *)
Record chanWorker := mkWorker { w_id : Z; w_cancelled : bool; w_ended : bool }.
(** Who called [addChannel]: the tuner, or a rejoin loop at its attempt [i]. *)
Inductive caller := Tuner | Rejoin (i : nat).
#[global] Instance caller_eq_dec : EqDecision caller.
Proof. solve_decision. Defined.
(** [workers], [nextChID], [pipelineDone] and [chWg] are the session's; [dialing]
    the [addChannel] calls between their critical section and their end, [plan] the
    channels the tuner still wants in this window, [rejoins] the rejoin loops that
    wait before an attempt, [unwinding] the removed workers that have not called
    [chWg.Done] yet; [drained] says that the need queue is closed and empty,
    [joined] which channel ids the sender has accepted. *)
Record pool := mkPool {
  workers : list chanWorker; nextChID : Z; pipelineDone : bool; chWg : Z;
  dialing : list (caller * Z); plan : Z; rejoins : list nat; unwinding : Z;
  rootDone : bool; fatalErr : option gerr; drained : bool; joined : gset Z;
}.
Definition channelCount (s : pool) : Z := Z.of_nat (length (workers s)).
Definition dataCeiling (cfg : poolConfig) : Z :=
  let m := if ChannelsPinned cfg then Channels cfg else MaxChannels cfg in
  let m := if (0 <? senderMaxChannels cfg) && (senderMaxChannels cfg <? m) then senderMaxChannels cfg else m in
  if m <? 1 then 1 else m.

Definition setWorkers (l : list chanWorker) (s : pool) : pool :=
  mkPool l (nextChID s) (pipelineDone s) (chWg s) (dialing s) (plan s) (rejoins s) (unwinding s) (rootDone s) (fatalErr s) (drained s) (joined s).
Definition setDialing (l : list (caller * Z)) (s : pool) : pool :=
  mkPool (workers s) (nextChID s) (pipelineDone s) (chWg s) l (plan s) (rejoins s) (unwinding s) (rootDone s) (fatalErr s) (drained s) (joined s).
Definition setPlan (k : Z) (s : pool) : pool :=
  mkPool (workers s) (nextChID s) (pipelineDone s) (chWg s) (dialing s) k (rejoins s) (unwinding s) (rootDone s) (fatalErr s) (drained s) (joined s).
Definition setRejoins (l : list nat) (s : pool) : pool :=
  mkPool (workers s) (nextChID s) (pipelineDone s) (chWg s) (dialing s) (plan s) l (unwinding s) (rootDone s) (fatalErr s) (drained s) (joined s).
(** [chWg.Add(d)]; [u] more workers are unwinding. *)
Definition addWg (d u : Z) (s : pool) : pool :=
  mkPool (workers s) (nextChID s) (pipelineDone s) (chWg s + d) (dialing s) (plan s) (rejoins s) (unwinding s + u) (rootDone s) (fatalErr s) (drained s) (joined s).
Definition setPipelineDone (s : pool) : pool :=
  mkPool (workers s) (nextChID s) true (chWg s) (dialing s) (plan s) (rejoins s) (unwinding s) (rootDone s) (fatalErr s) (drained s) (joined s).
Definition setDrained (s : pool) : pool :=
  mkPool (workers s) (nextChID s) (pipelineDone s) (chWg s) (dialing s) (plan s) (rejoins s) (unwinding s) (rootDone s) (fatalErr s) true (joined s).
(** [s.fail(err)]: the first error is kept, the root context cancelled. *)
Definition fail (e : option gerr) (s : pool) : pool :=
  mkPool (workers s) (nextChID s) (pipelineDone s) (chWg s) (dialing s) (plan s) (rejoins s) (unwinding s) true
    (match fatalErr s with Some x => Some x | None => e end) (drained s) (joined s).

(** [addChannel] up to the dial; [None] is [errPipelineDone]. *)
Definition addChannel (c : caller) (s : pool) : option pool :=
  if pipelineDone s then None
  else
    let id := wrap_u 8 (nextChID s + 1) in
    Some (mkPool (workers s) id false (chWg s + 1) (dialing s ++ [(c, id)]) (plan s) (rejoins s) (unwinding s) (rootDone s) (fatalErr s) (drained s) (joined s)).
(** The dial failed: [chWg.Done], and the caller goes on with the error. *)
Definition addFailed (c : caller) (s : pool) : pool :=
  let s := addWg (-1) 0 s in
  match c with Tuner => setPlan 0 s | Rejoin i => setRejoins (rejoins s ++ [S i]) s end.
(** The sender has accepted the join. *)
Definition setJoined (j : gset Z) (s : pool) : pool :=
  mkPool (workers s) (nextChID s) (pipelineDone s) (chWg s) (dialing s) (plan s) (rejoins s) (unwinding s) (rootDone s) (fatalErr s) (drained s) j.
Definition registerAndStart (id : Z) (s : pool) : pool := setWorkers (workers s ++ [mkWorker id false false]) s.
Fixpoint removeFirst (id : Z) (l : list chanWorker) : list chanWorker :=
  match l with [] => [] | w :: l => if w_id w =? id then l else w :: removeFirst id l end.
Definition removeWorker (id : Z) (s : pool) : pool := setWorkers (removeFirst id (workers s)) s.
(** [None]: there is no channel to spare. *)
Definition retireOne (s : pool) : option pool :=
  if (length (workers s) <=? 1)%nat then None
  else
    match last (workers s) with
    | None => None
    | Some w => Some (setWorkers (removelast (workers s) ++ [mkWorker (w_id w) true (w_ended w)]) s)
    end.
Definition cancelled (w : chanWorker) (s : pool) : bool := w_cancelled w || rootDone s.

(** The fetch loop of a worker has returned [lost]. *)
Definition loopEnded (lost : bool) (l1 : list chanWorker) (w : chanWorker) (l2 : list chanWorker) (s : pool) : pool :=
  let s := setWorkers (l1 ++ mkWorker (w_id w) (w_cancelled w) true :: l2) s in
  if lost && negb (rootDone s) then setRejoins (rejoins s ++ [0%nat]) s else s.
(** Its deferred function, before [chWg.Done]. *)
Definition unwind (id : Z) (s : pool) : pool :=
  let s := removeWorker id s in
  mkPool (workers s) (nextChID s) (pipelineDone s) (chWg s) (dialing s) (plan s) (rejoins s) (unwinding s + 1) (rootDone s) (fatalErr s) (drained s) (joined s).

(** The rejoin loop: three attempts, then the verdict. *)
Definition joinAttempts : nat := 3.
Definition rejoinWake (cfg : poolConfig) (i : nat) (s : pool) : pool :=
  if bool_decide (fatalErr s ≠ None) then s
  else if dataCeiling cfg <=? channelCount s then s
  else match addChannel (Rejoin i) s with None => s | Some s => s end.
Definition rejoinExhausted (s : pool) : pool :=
  if bool_decide (fatalErr s = None) && (channelCount s =? 0) && negb (drained s)
  then fail (Some (fault E3005 "last data channel retired" [] None)) s else s.

(** ** The interleavings

    [negotiated] is the sender's limit on channel ids ([AcceptChannel]). *)
Section pool.
Context (cfg : poolConfig) (negotiated : Z).

(** The tuner's goroutine is between two windows. *)
Definition tunerIdle (s : pool) : Prop := plan s = 0 ∧ Tuner ∉ (fst <$> dialing s).

Inductive step : pool → pool → Prop :=
  | step_rampUp s :
      tunerIdle s → channelCount s ≠ 0 → channelCount s < tuneMax cfg →
      step s (setPlan (Z.min (channelCount s + tuneRampUpStep) (tuneMax cfg) - channelCount s) s)
  | step_rampDown s s' : tunerIdle s → MinChannels cfg < channelCount s → retireOne s = Some s' → step s s'
  | step_tunerAdd s :
      0 < plan s → Tuner ∉ (fst <$> dialing s) →
      step s (match addChannel Tuner (setPlan (plan s - 1) s) with Some s' => s' | None => setPlan 0 s end)
  | step_dialled s l1 c id l2 :
      dialing s = l1 ++ (c, id) :: l2 → 1 <= id <= negotiated → id ∉ joined s →
      step s (registerAndStart id (setJoined ({[id]} ∪ joined s) (setDialing (l1 ++ l2) s)))
  | step_dialFailed s l1 c id l2 : dialing s = l1 ++ (c, id) :: l2 → step s (addFailed c (setDialing (l1 ++ l2) s))
  | step_acceptLost s l1 c id l2 :
      dialing s = l1 ++ (c, id) :: l2 → 1 <= id <= negotiated → id ∉ joined s →
      step s (addFailed c (setJoined ({[id]} ∪ joined s) (setDialing (l1 ++ l2) s)))
  | step_loopEnded s l1 w l2 lost :
      workers s = l1 ++ w :: l2 → w_ended w = false → (lost = false → cancelled w s = true ∨ drained s = true) →
      step s (loopEnded lost l1 w l2 s)
  | step_unwind s w : w ∈ workers s → w_ended w = true → step s (unwind (w_id w) s)
  | step_wgDone s : 0 < unwinding s → step s (addWg (-1) (-1) s)
  | step_rejoinCancelled s l1 i l2 : rejoins s = l1 ++ i :: l2 → rootDone s = true → step s (setRejoins (l1 ++ l2) s)
  | step_rejoinWake s l1 i l2 : rejoins s = l1 ++ i :: l2 → (i < joinAttempts)%nat → step s (rejoinWake cfg i (setRejoins (l1 ++ l2) s))
  | step_rejoinExhausted s l1 i l2 : rejoins s = l1 ++ i :: l2 → (joinAttempts <= i)%nat → step s (rejoinExhausted (setRejoins (l1 ++ l2) s))
  | step_fail s e : step s (fail e s)
  | step_drained s : step s (setDrained s)
  | step_pipelineDone s : drained s = true ∨ rootDone s = true → step s (setPipelineDone s).

(** The pool after the initial batch of [n] channels ([dialData]). *)
Definition initial (n : nat) : pool :=
  mkPool ((λ id, mkWorker id false false) <$> seqZ 1 (Z.of_nat n)) (wrap_u 8 (Z.of_nat n)) false (Z.of_nat n)
    [] 0 [] 0 false None false (list_to_set (seqZ 1 (Z.of_nat n))).

(** *** The invariant *)
Record pool_ok (s : pool) : Prop := {
  po_wg : chWg s = channelCount s + Z.of_nat (length (dialing s)) + unwinding s;
  po_unwinding : 0 <= unwinding s;
  po_nodup : NoDup (w_id <$> workers s);
  po_ids : Forall (λ id, id ∈ joined s) (w_id <$> workers s);
  po_joined : ∀ id, id ∈ joined s → 1 <= id <= negotiated;
}.
Lemma initial_ok n : Z.of_nat n <= negotiated → pool_ok (initial n).
Proof.
  intros Hn. split; unfold initial, channelCount; cbn.
  - rewrite length_fmap, length_seqZ. lia.
  - lia.
  - rewrite <- list_fmap_compose, (list_fmap_ext _ id) by done. rewrite list_fmap_id. apply NoDup_seqZ.
  - rewrite <- list_fmap_compose, (list_fmap_ext _ id) by done. rewrite list_fmap_id. apply Forall_forall. intros id Hid. by apply elem_of_list_to_set.
  - intros id Hid%elem_of_list_to_set%elem_of_seqZ. lia.
Qed.

Lemma removeFirst_split id l : id ∈ (w_id <$> l) →
  ∃ l1 w l2, l = l1 ++ w :: l2 ∧ w_id w = id ∧ removeFirst id l = l1 ++ l2.
Proof.
  induction l as [|w l IH]; cbn [fmap list_fmap removeFirst]; [by intros ?%elem_of_nil|].
  intros Hid. destruct (Z.eqb_spec (w_id w) id) as [E|E]; [by exists [], w, l|].
  apply elem_of_cons in Hid as [?|Hid]; [congruence|]. destruct (IH Hid) as (l1 & w' & l2 & -> & E' & ->). by exists (w :: l1), w', l2.
Qed.
Lemma retireOne_ids s s' : retireOne s = Some s' →
  (w_id <$> workers s') = (w_id <$> workers s) ∧ dialing s' = dialing s ∧ chWg s' = chWg s ∧ unwinding s' = unwinding s ∧ joined s' = joined s ∧
  pipelineDone s' = pipelineDone s ∧ rejoins s' = rejoins s.
Proof.
  unfold retireOne. destruct (_ <=? _)%nat; [done|]. destruct (last (workers s)) as [w|] eqn:El; [|done]. intros [= <-]. cbn. split; [|done].
  apply last_Some in El as [l ->]. by rewrite removelast_last, !fmap_app.
Qed.
Lemma ids_length (l1 l2 : list chanWorker) : (w_id <$> l1) = (w_id <$> l2) → length l1 = length l2.
Proof. intros E. by rewrite <- (length_fmap w_id l1), E, length_fmap. Qed.

(** Steps that leave the books alone. *)
Lemma pool_ok_same s s' : pool_ok s → (w_id <$> workers s') = (w_id <$> workers s) → length (dialing s') = length (dialing s) → chWg s' = chWg s →
  unwinding s' = unwinding s → joined s' = joined s → pool_ok s'.
Proof.
  intros [W U N I J] E1 E2 E3 E4 E5. pose proof (ids_length _ _ E1) as El. split.
  - unfold channelCount in *. rewrite E3, E4, E2, El. done.
  - by rewrite E4.
  - by rewrite E1.
  - by rewrite E1, E5.
  - by rewrite E5.
Qed.
Lemma addChannel_ok c s s' : pool_ok s → addChannel c s = Some s' → pool_ok s'.
Proof.
  intros [W U N I J]. unfold addChannel. destruct (pipelineDone s); [done|]. intros [= <-].
  split; cbn; try done. rewrite length_app. unfold channelCount in *. cbn in *. lia.
Qed.
Lemma addFailed_ok s l1 c x l2 :
  pool_ok s → dialing s = l1 ++ x :: l2 → pool_ok (addFailed c (setDialing (l1 ++ l2) s)).
Proof.
  intros [W U N I J] Hd. assert (Hl : length (dialing s) = S (length (l1 ++ l2))) by (rewrite Hd, !length_app; cbn; lia).
  destruct c; split; cbn; try done; unfold channelCount in *; cbn in *; lia.
Qed.
Lemma joined_ok s id : pool_ok s → 1 <= id <= negotiated → pool_ok (setJoined ({[id]} ∪ joined s) s).
Proof.
  intros [W U N I J] Hid. split; cbn; try done.
  - eapply Forall_impl; [exact I|]. set_solver.
  - intros x. rewrite elem_of_union, elem_of_singleton. intros [->|?]; [done|by apply J].
Qed.
Lemma register_ok s l1 c id l2 : pool_ok s → dialing s = l1 ++ (c, id) :: l2 → 1 <= id <= negotiated → id ∉ joined s →
  pool_ok (registerAndStart id (setJoined ({[id]} ∪ joined s) (setDialing (l1 ++ l2) s))).
Proof.
  intros Hok Hd Hid Hn. pose proof (joined_ok s id Hok Hid) as [_ _ _ I J]. destruct Hok as [W U N I0 _].
  assert (Hl : length (dialing s) = S (length (l1 ++ l2))) by (rewrite Hd, !length_app; cbn; lia).
  split; cbn; try done.
  - unfold channelCount in *. cbn. rewrite length_app. cbn. lia.
  - rewrite fmap_app. apply NoDup_app. split_and!; [done| |apply NoDup_singleton].
    intros x Hx Hx2. apply list_elem_of_singleton in Hx2 as ->.
    rewrite Forall_forall in I0. by apply Hn, I0.
  - rewrite fmap_app. apply Forall_app. split; [done|]. apply Forall_singleton. set_solver.
Qed.
Lemma unwind_ok s w : pool_ok s → w ∈ workers s → pool_ok (unwind (w_id w) s).
Proof.
  intros [W U N I J] Hw. destruct (removeFirst_split (w_id w) (workers s)) as (l1 & w' & l2 & E & _ & Hr).
  { by apply list_elem_of_fmap_2. }
  unfold unwind, removeWorker. split; cbn; rewrite ?Hr; try done.
  - unfold channelCount in *. cbn. rewrite E in W. rewrite length_app in *. cbn in W. lia.
  - lia.
  - rewrite E in N. rewrite fmap_app in *. cbn in N. apply NoDup_app in N as (N1 & N2 & N3). apply NoDup_cons in N3 as [_ N3].
    apply NoDup_app. split_and!; [done| |done]. intros x Hx Hx2. apply (N2 x Hx). by apply elem_of_cons; right.
  - rewrite E in I. rewrite fmap_app in *. apply Forall_app in I as [I1 I2]. apply Forall_cons in I2 as [_ I2]. by apply Forall_app.
Qed.

Lemma step_ok s s' : pool_ok s → step s s' → pool_ok s'.
Proof.
  intros Hok Hs. destruct Hs as [s|s s' _ _ Hr|s _ _|s l1 c id l2 Hd Hid Hn|s l1 c id l2 Hd|s l1 c id l2 Hd Hid _|s l1 w l2 lost Hw _ _|
    s w Hw _|s Hu|s l1 i l2 Hr _|s l1 i l2 Hr _|s l1 i l2 Hr _|s e|s|s _].
  - by apply (pool_ok_same s).
  - apply retireOne_ids in Hr as (? & E & ? & ? & ? & _). apply (pool_ok_same s); congruence || done.
  - destruct (addChannel Tuner _) as [s'|] eqn:E; [|by apply (pool_ok_same s)]. eapply addChannel_ok; [|exact E]. by apply (pool_ok_same s).
  - by eapply register_ok.
  - by eapply addFailed_ok.
  - apply (addFailed_ok (setJoined ({[id]} ∪ joined s) s) l1 c (c, id) l2); [by apply joined_ok|done].
  - apply (pool_ok_same s); try done; unfold loopEnded; destruct (lost && _); cbn; try done; rewrite Hw, !fmap_app; done.
  - by apply unwind_ok.
  - destruct Hok as [W U N I J]. split; cbn; try done; unfold channelCount in *; cbn; lia.
  - by apply (pool_ok_same s).
  - assert (Hok' : pool_ok (setRejoins (l1 ++ l2) s)) by by apply (pool_ok_same s).
    unfold rejoinWake. destruct (bool_decide _); [done|]. destruct (_ <=? _); [done|].
    destruct (addChannel _ _) eqn:E; [by eapply addChannel_ok|done].
  - unfold rejoinExhausted. destruct (_ && _); by apply (pool_ok_same s).
  - by apply (pool_ok_same s).
  - by apply (pool_ok_same s).
  - by apply (pool_ok_same s).
Qed.
Lemma reach_ok s s' : pool_ok s → rtc step s s' → pool_ok s'.
Proof. intros Hok Hr. induction Hr as [|s1 s2 s3 Hs _ IH]; [done|]. by eapply IH, step_ok. Qed.

(** *** The end of the pipeline *)
Lemma step_draining s s' : step s s' → pipelineDone s = true → pipelineDone s' = true ∧ chWg s' <= chWg s.
Proof.
  intros Hs Hp. destruct Hs as [s|s s' _ _ Hr|s _ _|s l1 c id l2 Hd Hid Hn|s l1 c id l2 Hd|s l1 c id l2 Hd Hid _|s l1 w l2 lost Hw _ _|
    s w Hw _|s Hu|s l1 i l2 Hr _|s l1 i l2 Hr _|s l1 i l2 Hr _|s e|s|s _]; try (cbn; split; [done|lia]).
  - apply retireOne_ids in Hr as (_ & _ & E & _ & _ & E2 & _). rewrite E, E2. split; [done|lia].
  - unfold addChannel. cbn. rewrite Hp. cbn. split; [done|lia].
  - destruct c; cbn; (split; [done|lia]).
  - destruct c; cbn; (split; [done|lia]).
  - unfold loopEnded. destruct (_ && _); cbn; (split; [done|lia]).
  - unfold rejoinWake, addChannel. cbn. rewrite Hp. repeat case_match; cbn; (split; [done|lia]).
  - unfold rejoinExhausted. destruct (_ && _); cbn; (split; [done|lia]).
Qed.

(** C9: the channel pool keeps its books.  However the tuner, the rejoin loops, the
    fetch loops and the end of the pipeline interleave, the wait group counts
    exactly the live channels, the dials under way and the workers about to leave;
    live channels have distinct ids, never more than the sender negotiated.  Once
    the pipeline is done the count only falls, so that when [chWg.Wait] returns no
    channel is live or being opened, then or ever after. *)
Theorem pool_accounts n s s' :
  Z.of_nat n <= negotiated → rtc step (initial n) s → rtc step s s' →
  chWg s = channelCount s + Z.of_nat (length (dialing s)) + unwinding s ∧
  NoDup (w_id <$> workers s) ∧ channelCount s <= Z.max 0 negotiated ∧
  (pipelineDone s = true → chWg s' <= chWg s ∧ (chWg s = 0 → workers s' = [] ∧ dialing s' = [])).
Proof.
  intros Hn Hr Hr'. pose proof (reach_ok _ _ (initial_ok n Hn) Hr) as [W U N I J].
  split_and!; [done|done| |].
  - assert (Hsub : w_id <$> workers s ⊆+ seqZ 1 negotiated).
    { apply NoDup_submseteq; [done|]. intros id Hid. apply elem_of_seqZ. rewrite Forall_forall in I. pose proof (J id (I id Hid)). lia. }
    apply submseteq_length in Hsub. rewrite length_fmap, length_seqZ in Hsub. unfold channelCount. lia.
  - intros Hp. assert (Hd : ∀ s1 s2, rtc step s1 s2 → pipelineDone s1 = true → chWg s2 <= chWg s1).
    { clear. intros s1 s2 Hr. induction Hr as [|s1 s2 s3 Hs _ IH]; intros Hp; [lia|]. destruct (step_draining _ _ Hs Hp) as [Hp2 Hle].
      specialize (IH Hp2). lia. }
    specialize (Hd s s' Hr' Hp). split; [done|]. intros H0.
    pose proof (reach_ok _ _ (reach_ok _ _ (initial_ok n Hn) Hr) Hr') as [W' U' _ _ _]. unfold channelCount in W'.
    destruct (workers s'), (dialing s'); cbn in W'; done || lia.
Qed.

(** *** Channel ids run out

    Every [addChannel] takes a new id and the sender accepts an id once, up to its
    limit: when all have been joined no lost channel can come back. *)
Lemma joins_run_out s s' :
  (∀ id, 1 <= id <= negotiated → id ∈ joined s) → rtc step s s' → channelCount s' <= channelCount s.
Proof.
  intros Hall Hr. induction Hr as [|s1 s2 s3 Hs _ IH]; [lia|].
  assert (Hstep : channelCount s2 <= channelCount s1 ∧ joined s1 ⊆ joined s2).
  { clear IH. destruct Hs as [s|s s' _ _ Hr|s _ _|s l1 c id l2 Hd Hid Hn|s l1 c id l2 Hd|s l1 c id l2 Hd Hid _|s l1 w l2 lost Hw _ _|
      s w Hw _|s Hu|s l1 i l2 Hr _|s l1 i l2 Hr _|s l1 i l2 Hr _|s e|s|s _]; try (split; [unfold channelCount; cbn; lia|cbn; set_solver]).
    - apply retireOne_ids in Hr as (E & _ & _ & _ & E2 & _). apply ids_length in E. unfold channelCount. rewrite E, E2. done.
    - unfold addChannel. destruct (pipelineDone _); done.
    - by apply Hall in Hid.
    - by destruct c.
    - destruct c; cbn; unfold channelCount; cbn; (split; [lia|set_solver]).
    - unfold loopEnded, channelCount. destruct (_ && _); cbn; rewrite Hw, !length_app; done.
    - destruct (removeFirst_split (w_id w) (workers s)) as (l1 & w' & l2 & E & _ & Hrm); [by apply list_elem_of_fmap_2|].
      unfold channelCount. cbn. rewrite Hrm, E, !length_app. cbn. split; [lia|done].
    - unfold rejoinWake, addChannel. repeat case_match; simplify_eq; done.
    - unfold rejoinExhausted. destruct (_ && _); done. }
  destruct Hstep as [H1 H2]. etrans; [apply IH; set_solver|done].
Qed.

(** *** The last channel can go unnoticed

    Nothing is live, dialling or waiting to rejoin, no error is recorded and work
    is left. *)
Definition deserted (s : pool) : Prop :=
  workers s = [] ∧ dialing s = [] ∧ rejoins s = [] ∧ plan s = 0 ∧ unwinding s = 0 ∧
  fatalErr s = None ∧ rootDone s = false ∧ drained s = false.
(** Only an outside event ends that. *)
Lemma deserted_stays s s' : deserted s → step s s' → (∃ e, s' = fail e s) ∨ s' = setDrained s.
Proof.
  intros (Hw & Hd & Hr & Hp & Hu & Hf & Hroot & Hdr) Hs.
  destruct Hs as [s _ Hn _|s s' _ _ Hr'|s Hp' _|s l1 c id l2 Hd' _ _|s l1 c id l2 Hd'|s l1 c id l2 Hd' _ _|s l1 w l2 lost Hw' _ _|
    s w Hw' _|s Hu'|s l1 i l2 Hr' _|s l1 i l2 Hr' _|s l1 i l2 Hr' _|s e|s|s [?|?]]; try congruence; try lia.
  - unfold channelCount in Hn. by rewrite Hw in Hn.
  - unfold retireOne in Hr'. by rewrite Hw in Hr'.
  - rewrite Hd in Hd'. by destruct l1.
  - rewrite Hd in Hd'. by destruct l1.
  - rewrite Hd in Hd'. by destruct l1.
  - rewrite Hw in Hw'. by destruct l1.
  - rewrite Hw in Hw'. by apply elem_of_nil in Hw'.
  - rewrite Hr in Hr'. by destruct l1.
  - rewrite Hr in Hr'. by destruct l1.
  - rewrite Hr in Hr'. by destruct l1.
  - left. by exists e.
  - by right.
Qed.
End pool.

(** ** The tuner *)
Definition isOpen (a : tuneAct) : bool := match a with TuneOpen _ => true | _ => false end.
(** The retirements that took place. *)
Fixpoint retirements (l : list (reading * Z * bool)) (acts : list tuneAct) : Z :=
  match l, acts with
  | (_, _, retired) :: l, a :: acts => (match a with TuneRetire => if retired : bool then 1 else 0 | _ => 0 end) + retirements l acts
  | _, _ => 0
  end.
Record tuner_ok (t : tuner) : Prop := {
  to_range : 0 <= unproductive t <= tuneMaxUnproductive;
  to_stopped : stopped t = true ↔ unproductive t = tuneMaxUnproductive;
}.
(** What one window may do with [n] channels. *)
Definition withinBounds (cfg : poolConfig) (n : Z) (a : tuneAct) : Prop :=
  match a with
  | TuneOpen k => 0 < k <= tuneRampUpStep ∧ n + k <= tuneMax cfg
  | TuneRetire => MinChannels cfg < n
  | TuneHold => True
  end.

Lemma tick_spec cfg now n retired t a t' :
  tuner_ok t → tick cfg now n retired t = (a, t') →
  tuner_ok t' ∧ withinBounds cfg n a ∧ (stopped t = true → a = TuneHold ∧ stopped t' = true) ∧
  (isOpen a = false → unproductive t' = unproductive t + retirements [(now, n, retired)] [a]) ∧
  (isOpen a = true → rd_retries now <= rd_retries (lastRead t) ∧ rd_failed now <= rd_failed (lastRead t)).
Proof.
  intros [Hr Hs]. unfold tick. destruct (stopped t) eqn:Est; [intros [= <- <-]; cbn; split_and!; [by split|done|done|lia|done]|].
  assert (Hlt : unproductive t < tuneMaxUnproductive) by (destruct (decide (unproductive t = tuneMaxUnproductive)); [naive_solver|lia]).
  destruct (n =? 0); [intros [= <- <-]; cbn; split_and!; [split; cbn; [done|split; [done|lia]]|done|done|lia|done]|].
  assert (Hok : ∀ best u, 0 <= u <= tuneMaxUnproductive → tuner_ok (mkTuner best now u (tuneMaxUnproductive <=? u))).
  { intros best u Hu. split; cbn; [done|]. rewrite Z.leb_le. unfold tuneMaxUnproductive in *. lia. }
  unfold decideRamp. destruct (negb _ && (n <? tuneMax cfg) && _) eqn:Eu; [|destruct ((MinChannels cfg <? n) && _) eqn:Ed]; intros [= <- <-].
  - apply andb_true_iff in Eu as [Eu _]. apply andb_true_iff in Eu as [Ee En%Z.ltb_lt]. rewrite negb_true_iff, orb_false_iff, !Z.ltb_ge in Ee.
    cbn. split_and!; [apply Hok; unfold tuneMaxUnproductive; lia|unfold tuneRampUpStep; lia..|done|done|lia].
  - apply andb_true_iff in Ed as [En%Z.ltb_lt _]. cbn. split_and!; [|done|done|destruct retired; lia|done].
    apply Hok. unfold tuneMaxUnproductive in *. destruct retired; lia.
  - cbn. split_and!; [by apply Hok|done|done|lia|done].
Qed.

(** The tuner stays within its bounds and settles.  In every window it opens at
    most two channels and never past the ceiling, retires only above the floor, and
    opens none when an error was seen; between two openings at most three channels
    are retired, after which it never acts again. *)
Theorem tuner_settles cfg l : ∀ t acts t',
  tuner_ok t → ticks cfg l t = (acts, t') →
  tuner_ok t' ∧ Forall2 (λ x, withinBounds cfg x.1.2) l acts ∧
  (stopped t = true → Forall (λ a, a = TuneHold) acts ∧ stopped t' = true) ∧
  (Forall (λ a, isOpen a = false) acts →
     unproductive t' = unproductive t + retirements l acts ∧ retirements l acts <= tuneMaxUnproductive).
Proof.
  induction l as [|[[now n] retired] l IH]; intros t acts t' Hok; cbn [ticks].
  { intros [= <- <-]. cbn. unfold tuneMaxUnproductive. split_and!; [done|by constructor|by split|lia]. }
  destruct (tick cfg now n retired t) as [a t1] eqn:E1. destruct (ticks cfg l t1) as [acts1 t2] eqn:E2. intros [= <- <-].
  destruct (tick_spec _ _ _ _ _ _ _ Hok E1) as (Hok1 & Hb & Hst & Hret & _).
  destruct (IH _ _ _ Hok1 E2) as (Hok2 & Hb2 & Hst2 & Hret2). split_and!; [done|by constructor| |].
  - intros Hs. destruct (Hst Hs) as [-> Hs1]. destruct (Hst2 Hs1) as [? ?]. split; [by constructor|done].
  - intros [Ha Hacts]%Forall_cons. specialize (Hret Ha). destruct (Hret2 Hacts) as [Hu _].
    assert (Hsum : retirements ((now, n, retired) :: l) (a :: acts1) = retirements [(now, n, retired)] [a] + retirements l acts1) by (cbn; lia).
    destruct Hok as [Hr _], Hok2 as [Hr2 _]. rewrite Hsum. lia.
Qed.

(** ** Concrete runs *)
Definition ex_cfg : poolConfig := mkPoolConfig 1 8 4 false 8.
Definition ex_readings : list (reading * Z * bool) :=
  [(mkReading 1000 0 0, 2, true); (mkReading 1100 0 0, 4, true); (mkReading 1200 1 0, 3, true); (mkReading 9000 1 0, 2, true)].
Example ex_tunes : (ticks ex_cfg ex_readings (newTuner (mkReading 0 0 0))).1 = [TuneOpen 2; TuneRetire; TuneRetire; TuneOpen 2].
Proof. vm_compute. reflexivity. Qed.
Lemma tuner_settles_witness :
  let '(acts, t) := ticks ex_cfg (take 3 (drop 1 ex_readings)) (newTuner (mkReading 0 0 0)) in
  Forall2 (λ x, withinBounds ex_cfg x.1.2) (take 3 (drop 1 ex_readings)) acts ∧ 0 <= unproductive t <= 3.
Proof.
  pose proof (tuner_settles ex_cfg (take 3 (drop 1 ex_readings)) (newTuner (mkReading 0 0 0))) as H.
  destruct (ticks _ _ _) as [acts t]. destruct (H acts t) as (Hok & Hb & _); [|reflexivity|].
  - split; [vm_compute; split; discriminate|split; intros E; vm_compute in E; discriminate E].
  - split; [exact Hb|]. apply Hok.
Defined.

(** The last channel but one is lost and cannot rejoin while the last one, already
    retired by the tuner, finishes its file: nobody notices that it leaves. *)
Definition ex_pool (ws : list chanWorker) (next wg : Z) (rs : list nat) (u : Z) (j : gset Z) : pool :=
  mkPool ws next false wg [] 0 rs u false None false j.
(** An attempt to rejoin that fails. *)
Lemma ex_attempt w next wg i u j :
  (i < 3)%nat → in_u 8 (next + 1) → rtc (step ex_cfg 8) (ex_pool [w] next wg [i] u j) (ex_pool [w] (next + 1) wg [S i] u j).
Proof.
  intros Hi Hn. set (s := ex_pool [w] next wg [i] u j).
  assert (E : rejoinWake ex_cfg i (setRejoins [] s) = mkPool [w] (next + 1) false (wg + 1) [(Rejoin i, next + 1)] 0 [] u false None false j).
  { unfold rejoinWake. rewrite bool_decide_false by (by intros []). change (dataCeiling ex_cfg <=? channelCount (setRejoins [] s)) with false.
    unfold addChannel. cbn. by rewrite wrap_u_id. }
  eapply rtc_l; [apply (step_rejoinWake ex_cfg 8 s [] i []); [done|done]|]. cbn [app]. rewrite E.
  eapply rtc_l; [by apply (step_dialFailed ex_cfg 8 _ [] (Rejoin i) (next + 1) [])|].
  assert (E2 : addFailed (Rejoin i) (setDialing [] (mkPool [w] (next + 1) false (wg + 1) [(Rejoin i, next + 1)] 0 [] u false None false j)) =
    ex_pool [w] (next + 1) wg [S i] u j).
  { unfold addFailed, addWg, setRejoins, setDialing, ex_pool. cbn [workers nextChID pipelineDone chWg dialing plan rejoins unwinding rootDone fatalErr drained joined app]. f_equal; lia. }
  cbn [app]. by rewrite E2.
Qed.
Lemma ex_leaves id c lost next wg j ws rs :
  (lost = false → c = true) →
  rtc (step ex_cfg 8) (ex_pool (mkWorker id c false :: ws) next wg rs 0 j)
    (ex_pool ws next (wg - 1) (if lost then rs ++ [0%nat] else rs) 0 j).
Proof.
  intros Hc. set (s := ex_pool _ _ _ _ _ _).
  eapply rtc_l; [apply (step_loopEnded ex_cfg 8 s [] (mkWorker id c false) ws lost); [done|done|]|].
  { intros Hl. left. unfold cancelled. cbn. by rewrite Hc. }
  assert (E : loopEnded lost [] (mkWorker id c false) ws s = ex_pool (mkWorker id c true :: ws) next wg (if lost then rs ++ [0%nat] else rs) 0 j) by by destruct lost.
  rewrite E. eapply rtc_l; [apply (step_unwind ex_cfg 8 _ (mkWorker id c true)); [left|done]|].
  set (rs' := if lost then _ else _). assert (E2 : unwind id (ex_pool (mkWorker id c true :: ws) next wg rs' 0 j) = ex_pool ws next wg rs' 1 j).
  { unfold unwind, removeWorker. cbn [removeFirst ex_pool workers w_id]. by rewrite Z.eqb_refl. }
  cbn [w_id]. rewrite E2. eapply rtc_l; [by apply step_wgDone|]. apply rtc_refl.
Qed.
Lemma last_channel_unnoticed : ∃ s, rtc (step ex_cfg 8) (initial 2) s ∧ deserted s.
Proof.
  set (j := list_to_set (seqZ 1 2) : gset Z). exists (ex_pool [] 5 0 [] 0 j). split; [|by split_and!].
  assert (E : initial 2 = ex_pool [mkWorker 1 false false; mkWorker 2 false false] 2 2 [] 0 j) by done. rewrite E.
  eapply rtc_l; [apply (step_rampDown ex_cfg 8 _ (ex_pool [mkWorker 1 false false; mkWorker 2 true false] 2 2 [] 0 j)); [|done|done]|].
  { split; [done|by intros ?%elem_of_nil]. }
  etrans; [by apply (ex_leaves 1 false true)|]. cbn [app].
  do 3 (etrans; [apply ex_attempt; [lia|unfold in_u; lia]|]).
  eapply rtc_l; [apply (step_rejoinExhausted ex_cfg 8 _ [] 3 []); [done|unfold joinAttempts; lia]|].
  assert (E2 : ∀ next wg, rejoinExhausted (setRejoins [] (ex_pool [mkWorker 2 true false] next wg [3%nat] 0 j)) = ex_pool [mkWorker 2 true false] next wg [] 0 j).
  { intros next wg. unfold rejoinExhausted. change (channelCount _ =? 0) with false. by rewrite andb_false_r. }
  cbn [app]. rewrite E2. exact (ex_leaves 2 true false 5 1 j [] [] (λ _, eq_refl)).
Qed.
Lemma pool_accounts_witness :
  let s := setPipelineDone (setDrained (initial 2)) in
  rtc (step ex_cfg 8) (initial 2) s ∧ NoDup (w_id <$> workers s) ∧ (chWg s = 0 → workers s = [] ∧ dialing s = []).
Proof.
  assert (Hr : rtc (step ex_cfg 8) (initial 2) (setPipelineDone (setDrained (initial 2)))).
  { eapply rtc_l; [apply step_drained|]. eapply rtc_l; [apply step_pipelineDone; left; reflexivity|]. apply rtc_refl. }
  destruct (pool_accounts ex_cfg 8 2 _ _ ltac:(vm_compute; discriminate) Hr (rtc_refl _ _)) as (_ & Hn & _ & Hd).
  split; [exact Hr|]. split; [exact Hn|]. apply Hd. reflexivity.
Defined.
