(* ===== verification/Pipeline.v ===== *)
(** * Pipeline: the receiver's goroutines around the need queue
    (src/internal/receiver/run.go, fetch.go, queue.go)

    The decide pool takes groups from the manifest channel and pushes what they
    need, the fetch workers pop and resolve it, and [pipeline.wait] closes the
    queue, waits until it is drained and then for the workers.  A goroutine that
    waits on a condition variable of the queue sleeps until a broadcast; every
    broadcast of the code, and the callbacks of the contexts, is an effect of an
    action here.  An execution is any sequence of actions.  (A dry run starts no
    worker and pushes nothing.) *)
From S2P Require Import Prelude Fault Queue Fetch.

(** ** The goroutines *)

(** The files a group needs, and its hard-link secondaries, which are linked later
    or, when that fails, fetched like the needed ones. *)
Record group := mkGroup { g_needs : list needItem; g_seconds : list needItem }.

(** A goroutine of the decide pool: at the head of its loop, deciding a group, in
    [pushGroup], asleep there, before the CREDIT, returned. *)
Inductive decider :=
| DRange | DDecide (its : list needItem) | DPush (its : list needItem) | DAsleep (its : list needItem)
| DCredit | DEnded.
(** A fetch worker: in [pop], asleep there, with an item in flight, returned; and
    whether the tuner has cancelled its context. *)
Inductive wphase := WPop | WAsleep | WHold (it : needItem) | WEnded.
Record worker := mkWorker { w_phase : wphase; w_retired : bool }.
(** [pipeline.wait]: in [decideWg.Wait], in [waitDrained], asleep there, in
    [chWg.Wait], returned. *)
Inductive mphase := MDecide | MDrain | MAsleep | MWorkers | MDone.
#[global] Instance mphase_eq_dec : EqDecision mphase.
Proof. solve_decision. Defined.

(** What has gone through: the items of the groups received, those a failed link
    added, all that the queue accepted, and those resolved. *)
Record ledger := mkLedger { given : list needItem; fallen : list needItem; accepted : list needItem; resolved : list needItem }.

Record pipe := mkPipe {
  manifestCh : list group; manifestClosed : bool; parked : list needItem;
  deciders : list decider; workers : list worker; joins : nat; chWg : Z; mainPhase : mphase;
  nq : needQueue; pipelineDone : bool; rootDone : bool; books : ledger;
}.

(** The pipeline as [Run] starts it: [d] deciders, [n] channels. *)
Definition newPipe (cap : Z) (d n : nat) : pipe :=
  mkPipe [] false [] (replicate d DRange) (replicate n (mkWorker WPop false)) 0 (Z.of_nat n) MDecide
    (newNeedQueue cap) false false (mkLedger [] [] [] []).

Definition setManifests (l : list group) (b : bool) (p : pipe) : pipe :=
  mkPipe l b (parked p) (deciders p) (workers p) (joins p) (chWg p) (mainPhase p) (nq p) (pipelineDone p) (rootDone p) (books p).
Definition setParked (l : list needItem) (p : pipe) : pipe :=
  mkPipe (manifestCh p) (manifestClosed p) l (deciders p) (workers p) (joins p) (chWg p) (mainPhase p) (nq p) (pipelineDone p) (rootDone p) (books p).
Definition setDeciders (l : list decider) (p : pipe) : pipe :=
  mkPipe (manifestCh p) (manifestClosed p) (parked p) l (workers p) (joins p) (chWg p) (mainPhase p) (nq p) (pipelineDone p) (rootDone p) (books p).
Definition setWorkers (l : list worker) (p : pipe) : pipe :=
  mkPipe (manifestCh p) (manifestClosed p) (parked p) (deciders p) l (joins p) (chWg p) (mainPhase p) (nq p) (pipelineDone p) (rootDone p) (books p).
Definition setJoins (n : nat) (wg : Z) (p : pipe) : pipe :=
  mkPipe (manifestCh p) (manifestClosed p) (parked p) (deciders p) (workers p) n wg (mainPhase p) (nq p) (pipelineDone p) (rootDone p) (books p).
Definition setMain (m : mphase) (p : pipe) : pipe :=
  mkPipe (manifestCh p) (manifestClosed p) (parked p) (deciders p) (workers p) (joins p) (chWg p) m (nq p) (pipelineDone p) (rootDone p) (books p).
Definition setQueue (q : needQueue) (p : pipe) : pipe :=
  mkPipe (manifestCh p) (manifestClosed p) (parked p) (deciders p) (workers p) (joins p) (chWg p) (mainPhase p) q (pipelineDone p) (rootDone p) (books p).
Definition setDone (b : bool) (p : pipe) : pipe :=
  mkPipe (manifestCh p) (manifestClosed p) (parked p) (deciders p) (workers p) (joins p) (chWg p) (mainPhase p) (nq p) b (rootDone p) (books p).
Definition cancel (p : pipe) : pipe :=
  mkPipe (manifestCh p) (manifestClosed p) (parked p) (deciders p) (workers p) (joins p) (chWg p) (mainPhase p) (nq p) (pipelineDone p) true (books p).
Definition setBooks (l : ledger) (p : pipe) : pipe :=
  mkPipe (manifestCh p) (manifestClosed p) (parked p) (deciders p) (workers p) (joins p) (chWg p) (mainPhase p) (nq p) (pipelineDone p) (rootDone p) l.

Definition setDecider (j : nat) (d : decider) (p : pipe) : pipe := setDeciders (<[j := d]> (deciders p)) p.
Definition setWorker (i : nat) (w : worker) (p : pipe) : pipe := setWorkers (<[i := w]> (workers p)) p.
(** The deferred calls of a fetch goroutine. *)
Definition endWorker (i : nat) (ret : bool) (p : pipe) : pipe :=
  setJoins (joins p) (chWg p - 1) (setWorker i (mkWorker WEnded ret) p).

(** [notFull.Broadcast] and [notEmpty.Broadcast]. *)
Definition wakeDecider (d : decider) : decider := match d with DAsleep its => DPush its | _ => d end.
Definition wakeWorker (w : worker) : worker := match w_phase w with WAsleep => mkWorker WPop (w_retired w) | _ => w end.
Definition wakeMain (m : mphase) : mphase := match m with MAsleep => MDrain | _ => m end.
Definition wakeFull (p : pipe) : pipe := setDeciders (wakeDecider <$> deciders p) p.
Definition wakeEmpty (p : pipe) : pipe := setMain (wakeMain (mainPhase p)) (setWorkers (wakeWorker <$> workers p) p).

Definition isEnded (d : decider) : bool := match d with DEnded => true | _ => false end.
(** [ctx.Err()] of a context under the root. *)
Definition ctxErr (b : bool) : option stdErr := if b then Some StdCanceled else None.
Definition cancelled (p : pipe) (w : worker) : bool := rootDone p || w_retired w.

(** ** Actions *)

(** How a worker is done with its item: resolved, back in the queue as it was, or
    back with one more attempt; [stop]: the worker ends. *)
Inductive fate := Resolved (stop : bool) | Back | Retried (stop : bool).
Inductive caller := ByDecider (j : nat) | ByWorker (i : nat).
Inductive thread := TDecider (j : nat) | TWorker (i : nat) | TMain.
Inductive action :=
| AManifest (g : group) | ACloseManifest | ACancel | ARetire (i : nat) | AJoin      (** the world *)
| AJoined (ok : bool)                                                                (** [addChannel] *)
| ATake (j : nat) | ADecided (j : nat) (ok : bool) | APush (j : nat) | ACredit (j : nat) (ok : bool)
| APop (i : nat) | AResolve (i : nat) (f : fate)
| AFallback (c : caller) (k : nat) | ALinked (c : caller) (k : nat)
| ACallback (t : thread) | AMain.

(** A decider that has decided may call [fetchInstead], and so may a worker with an
    item in flight. *)
Definition mayFallBack (p : pipe) (c : caller) : bool :=
  match c with
  | ByDecider j => match deciders p !! j with Some (DDecide _) => true | _ => false end
  | ByWorker i => match workers p !! i with Some (mkWorker (WHold _) _) => true | _ => false end
  end.

(** What that does to the queue. *)
Definition fateQueue (it : needItem) (f : fate) (q : needQueue) : needQueue :=
  match f with
  | Resolved _ => done_ (groupID it) q
  | Back => requeue it q
  | Retried _ => requeue (withAttempt it (attempt it + 1)) q
  end.

Section act.
Context (maxRetries : Z).

Definition resolveItem (i : nat) (it : needItem) (ret : bool) (f : fate) (p : pipe) : option pipe :=
  let stopped (stop : bool) (p : pipe) := if stop then endWorker i ret p else setWorker i (mkWorker WPop ret) p in
  match f with
  | Resolved stop =>
      let q := fateQueue it f (nq p) in
      let b := books p in
      let p := setBooks (mkLedger (given b) (fallen b) (accepted b) (it :: resolved b)) (setQueue q p) in
      Some (stopped stop (if drained q then wakeEmpty p else p))
  | Back => Some (stopped true (wakeEmpty (setQueue (fateQueue it f (nq p)) p)))
  | Retried stop =>
      if attempt it + 1 <=? maxRetries
      then Some (stopped stop (wakeEmpty (setQueue (fateQueue it f (nq p)) p)))
      else None
  end.

(** [None]: the action is not possible now. *)
Definition act (a : action) (p : pipe) : option pipe :=
  match a with
  | AManifest g =>
      if manifestClosed p then None
      else
        let b := books p in
        Some (setBooks (mkLedger (given b ++ g_needs g) (fallen b) (accepted b) (resolved b))
                (setManifests (manifestCh p ++ [g]) false p))
  | ACloseManifest => Some (setManifests (manifestCh p) true p)
  | ACancel => Some (cancel p)
  | ARetire i =>
      match workers p !! i with
      | Some w => Some (setWorker i (mkWorker (w_phase w) true) p)
      | None => None
      end
  | AJoin => if pipelineDone p then None else Some (setJoins (S (joins p)) (chWg p + 1) p)
  | AJoined ok =>
      match joins p with
      | S n =>
          Some (if ok then setWorkers (workers p ++ [mkWorker WPop false]) (setJoins n (chWg p) p)
                else setJoins n (chWg p - 1) p)
      | O => None
      end
  | ATake j =>
      match deciders p !! j, manifestCh p with
      | Some DRange, g :: l =>
          Some (setDecider j (DDecide (g_needs g)) (setParked (g_seconds g ++ parked p) (setManifests l (manifestClosed p) p)))
      | Some DRange, [] => if manifestClosed p then Some (setDecider j DEnded p) else None
      | _, _ => None
      end
  | ADecided j ok =>
      match deciders p !! j with
      | Some (DDecide its) => Some (if ok then setDecider j (DPush its) p else cancel (setDecider j DEnded p))
      | _ => None
      end
  | APush j =>
      match deciders p !! j with
      | Some (DPush its) =>
          match pushGroup (ctxErr (rootDone p)) its (nq p) with
          | None => Some (setDecider j (DAsleep its) p)
          | Some (Some _, _) => Some (setDecider j DRange p)
          | Some (None, q) =>
              let b := books p in
              let p := setBooks (mkLedger (given b) (fallen b) (accepted b ++ its) (resolved b)) (setQueue q p) in
              Some (setDecider j DCredit (match its with [] => p | _ => wakeEmpty p end))
          end
      | _ => None
      end
  | ACredit j ok =>
      match deciders p !! j with
      | Some DCredit => Some (if ok then setDecider j DRange p else cancel (setDecider j DEnded p))
      | _ => None
      end
  | APop i =>
      match workers p !! i with
      | Some (mkWorker WPop ret) =>
          match pop (ctxErr (rootDone p || ret)) (nq p) with
          | None => Some (setWorker i (mkWorker WAsleep ret) p)
          | Some (None, _) => Some (endWorker i ret p)
          | Some (Some it, q) => Some (wakeFull (setWorker i (mkWorker (WHold it) ret) (setQueue q p)))
          end
      | _ => None
      end
  | AResolve i f =>
      match workers p !! i with
      | Some (mkWorker (WHold it) ret) => resolveItem i it ret f p
      | _ => None
      end
  | AFallback c k =>
      match parked p !! k with
      | Some it =>
          if mayFallBack p c then
            let b := books p in
            Some (wakeEmpty (setBooks (mkLedger (given b) (fallen b ++ [it]) (accepted b ++ [it]) (resolved b))
                    (setQueue (pushFallback it (nq p)) (setParked (delete k (parked p)) p))))
          else None
      | None => None
      end
  | ALinked c k =>
      match parked p !! k with
      | Some _ => if mayFallBack p c then Some (setParked (delete k (parked p)) p) else None
      | None => None
      end
  | ACallback (TDecider j) =>
      match deciders p !! j with
      | Some (DAsleep _) => if rootDone p then Some (wakeFull p) else None
      | _ => None
      end
  | ACallback (TWorker i) =>
      match workers p !! i with
      | Some (mkWorker WAsleep ret) => if rootDone p || ret then Some (wakeEmpty p) else None
      | _ => None
      end
  | ACallback TMain =>
      match mainPhase p with MAsleep => if rootDone p then Some (wakeEmpty p) else None | _ => None end
  | AMain =>
      match mainPhase p with
      | MDecide =>
          if forallb isEnded (deciders p)
          then Some (setMain MDrain (wakeFull (wakeEmpty (setQueue (close (nq p)) p)))) else None
      | MDrain =>
          if waitDrained (ctxErr (rootDone p)) (nq p) then Some (setMain MWorkers (setDone true p))
          else Some (setMain MAsleep p)
      | MWorkers => if chWg p =? 0 then Some (setMain MDone p) else None
      | _ => None
      end
  end.
Fixpoint acts (l : list action) (p : pipe) : option pipe :=
  match l with [] => Some p | a :: l => match act a p with Some p => acts l p | None => None end end.
End act.

(** The actions of the pipeline's own goroutines. *)
Definition own (a : action) : Prop :=
  match a with AManifest _ | ACloseManifest | ACancel | ARetire _ | AJoin => False | _ => True end.
(** The groups received: one group id each, and within the capacity (the sender's
    plan puts at most 1024 entries in a group, the queue holds 4096). *)
Definition actionOk (cap : Z) (a : action) : Prop :=
  match a with
  | AManifest g => Z.of_nat (length (g_needs g)) <= cap ∧ ∀ x y, x ∈ g_needs g → y ∈ g_needs g → groupID x = groupID y
  | _ => True
  end.

(** ** The books *)
Definition heldBy (w : worker) : list needItem := match w_phase w with WHold it => [it] | _ => [] end.
Definition held (p : pipe) : list needItem := mjoin (heldBy <$> workers p).
Definition deciding (d : decider) : list needItem := match d with DDecide its | DPush its | DAsleep its => its | _ => [] end.
Definition undecided (p : pipe) : list needItem := mjoin (deciding <$> deciders p) ++ mjoin (g_needs <$> manifestCh p).
Definition alive (w : worker) : bool := match w_phase w with WEnded => false | _ => true end.
Definition live (p : pipe) : nat := countIf alive (workers p).
Definition oneGroup (its : list needItem) : Prop := ∀ x y, x ∈ its → y ∈ its → groupID x = groupID y.

(** The queue's part of the state. *)
Definition qOk (cap : Z) (q : needQueue) (fl : list needItem) (b : ledger) : Prop :=
  runOk cap (mkRun q fl (resolved b) (accepted b)).

(** A goroutine sleeps only while it has to: its condition is false. *)
Record sleepOk (p : pipe) : Prop := {
  so_decider : ∀ its, DAsleep its ∈ deciders p →
    its ≠ [] ∧ closed (nq p) = false ∧ capacity (nq p) < Z.of_nat (length (items (nq p)) + length its);
  so_worker : ∀ w, w ∈ workers p → w_phase w = WAsleep →
    items (nq p) = [] ∧ (closed (nq p) = false ∨ inflight (nq p) ≠ 0);
  so_main : mainPhase p = MAsleep → drained (nq p) = false;
}.
(** The stages of the shutdown. *)
Record stageOk (p : pipe) : Prop := {
  st_closed : closed (nq p) = negb (bool_decide (mainPhase p = MDecide));
  st_deciders : mainPhase p ≠ MDecide → Forall (λ d, d = DEnded) (deciders p);
  st_wg : chWg p = Z.of_nat (live p + joins p);
  st_done : pipelineDone p = bool_decide (mainPhase p = MWorkers ∨ mainPhase p = MDone);
  st_drained : pipelineDone p = true → rootDone p = true ∨ drained (nq p) = true;
  st_end : mainPhase p = MDone → chWg p = 0;
}.
(** No group is lost but by a cancelled session, and every group fits. *)
Record groupsOk (cap : Z) (p : pipe) : Prop := {
  go_given : rootDone p = false →
    given (books p) ++ fallen (books p) ≡ₚ accepted (books p) ++ undecided p;
  go_fits : Forall (λ g, Z.of_nat (length (g_needs g)) <= cap ∧ oneGroup (g_needs g)) (manifestCh p);
  go_deciding : Forall (λ d, Z.of_nat (length (deciding d)) <= cap ∧ oneGroup (deciding d)) (deciders p);
}.
Record pipeOk (cap : Z) (p : pipe) : Prop := {
  po_queue : qOk cap (nq p) (held p) (books p);
  po_sleep : sleepOk p;
  po_stage : stageOk p;
  po_groups : groupsOk cap p;
}.

(** ** Lists of goroutines *)
Lemma wakeWorker_held w : heldBy (wakeWorker w) = heldBy w.
Proof. by destruct w as [[] ?]. Qed.
Lemma wakeWorker_alive w : alive (wakeWorker w) = alive w.
Proof. by destruct w as [[] ?]. Qed.
Lemma wakeWorker_awake w : w_phase (wakeWorker w) ≠ WAsleep.
Proof. by destruct w as [[] ?]. Qed.
Lemma wakeDecider_deciding d : deciding (wakeDecider d) = deciding d.
Proof. by destruct d. Qed.
Lemma wakeDecider_awake d its : wakeDecider d ≠ DAsleep its.
Proof. by destruct d. Qed.
Lemma wakeDecider_ended d : wakeDecider d = DEnded ↔ d = DEnded.
Proof. by destruct d. Qed.

Lemma wake_holds (l : list worker) : heldBy <$> (wakeWorker <$> l) = heldBy <$> l.
Proof. rewrite <- list_fmap_compose. apply list_fmap_ext. intros ? w _. apply wakeWorker_held. Qed.
Lemma wake_deciding (l : list decider) : deciding <$> (wakeDecider <$> l) = deciding <$> l.
Proof. rewrite <- list_fmap_compose. apply list_fmap_ext. intros ? d _. apply wakeDecider_deciding. Qed.

(** What is counted over a list, and how one goroutine's change shows. *)
Lemma countLive_wake l : countIf alive (wakeWorker <$> l) = countIf alive l.
Proof. induction l as [|w l IH]; [done|]. by rewrite fmap_cons, !countIf_cons, IH, wakeWorker_alive. Qed.

(** ** The queue's accounting *)
Lemma runOk_fly cap q fl fl' fn ac : fl ≡ₚ fl' → runOk cap (mkRun q fl fn ac) → runOk cap (mkRun q fl' fn ac).
Proof.
  intros Hp [H1 H2 H3 H4 H5]. cbn [acc rq fly fin] in *. split; cbn [acc rq fly fin]; try done.
  - by rewrite H1, Hp.
  - by rewrite H2, Hp.
  - intros g. by rewrite H4, !groupCount_app, (groupCount_perm g _ _ Hp).
Qed.

Section queue.
Context (cap : Z).

Lemma qOk_fly q fl fl' b : fl ≡ₚ fl' → qOk cap q fl b → qOk cap q fl' b.
Proof. apply runOk_fly. Qed.
Lemma qOk_pop ctx it q q' fl b : pop ctx q = Some (Some it, q') → qOk cap q fl b → qOk cap q' (it :: fl) b.
Proof.
  intros E H%pop_ok. unfold qOk. cbn [qstep] in H. unfold pop in *. destruct ctx; [done|].
  destruct (items q); [by destruct (_ && _)|]. by injection E as <- <-.
Qed.
Lemma qOk_done it q fl b : qOk cap q (it :: fl) b →
  qOk cap (done_ (groupID it) q) fl (mkLedger (given b) (fallen b) (accepted b) (it :: resolved b)).
Proof. exact (done_ok cap 0 (mkRun q (it :: fl) (resolved b) (accepted b))). Qed.
Lemma qOk_requeue it a q fl b : qOk cap q (it :: fl) b → qOk cap (requeue (withAttempt it a) q) fl b.
Proof. exact (requeue_ok cap 0 a (mkRun q (it :: fl) (resolved b) (accepted b))). Qed.
Lemma qOk_requeue_same it q fl b : qOk cap q (it :: fl) b → qOk cap (requeue it q) fl b.
Proof. intros H. apply (qOk_requeue it (attempt it)) in H. by destruct it. Qed.
Lemma qOk_fallback it q fl b : qOk cap q fl b →
  qOk cap (pushFallback it q) fl (mkLedger (given b) (fallen b ++ [it]) (accepted b ++ [it]) (resolved b)).
Proof. exact (fallback_ok cap it (mkRun q fl (resolved b) (accepted b))). Qed.
Lemma qOk_push ctx its q q' fl b : oneGroup its → pushGroup ctx its q = Some (None, q') → qOk cap q fl b →
  qOk cap q' fl (mkLedger (given b) (fallen b) (accepted b ++ its) (resolved b)).
Proof.
  intros Hg E H0. pose proof (push_ok cap its _ Hg H0) as H. cbn [qstep] in H. unfold qOk. unfold pushGroup in *. destruct its as [|x its].
  { injection E as <-. by rewrite app_nil_r. }
  destruct (_ && negb _); [by destruct ctx|]. destruct (closed q); [done|]. by injection E as <-.
Qed.
Lemma qOk_inflight q fl b : qOk cap q fl b → inflight q = Z.of_nat (length fl).
Proof. by intros [_ ? _ _ _]. Qed.
Lemma qOk_capacity q fl b : qOk cap q fl b → capacity q = cap.
Proof. by intros [_ _ ? _ _]. Qed.
End queue.

(** One goroutine of a list changes. *)
Lemma holds_change l i w : l !! i = Some w →
  ∃ rest, mjoin (heldBy <$> l) ≡ₚ heldBy w ++ rest ∧
    ∀ w', mjoin (heldBy <$> <[i := w']> l) ≡ₚ heldBy w' ++ rest ∧
          mjoin (heldBy <$> <[i := w']> (wakeWorker <$> l)) ≡ₚ heldBy w' ++ rest.
Proof.
  intros Hi. destruct (mjoin_change (heldBy <$> l) i (heldBy w)) as (rest & H1 & H2).
  { by rewrite list_lookup_fmap, Hi. }
  exists rest. split; [done|]. intros w'. by rewrite !list_fmap_insert, wake_holds.
Qed.

(** Reduce the projections of an updated state. *)
Ltac proj := unfold held, undecided, live in *; cbn [setManifests setParked setDeciders setWorkers setJoins setMain setQueue setDone setBooks
  cancel setDecider setWorker endWorker wakeFull wakeEmpty manifestCh manifestClosed parked deciders workers joins chWg mainPhase
  nq pipelineDone rootDone books given fallen accepted resolved] in *.

Section preserved.
Context (maxRetries cap : Z).

Lemma resolve_queue i it ret f p p' :
  workers p !! i = Some (mkWorker (WHold it) ret) → qOk cap (nq p) (held p) (books p) →
  resolveItem maxRetries i it ret f p = Some p' → qOk cap (nq p') (held p') (books p').
Proof.
  intros Hi Hq. destruct (holds_change _ _ _ Hi) as (rest & H1 & H2). cbn [heldBy w_phase app] in H1.
  assert (Hq' : qOk cap (nq p) (it :: rest) (books p)) by exact (qOk_fly _ _ _ _ _ H1 Hq).
  unfold resolveItem. destruct f as [stop| |stop]; cbn [fateQueue].
  - apply qOk_done in Hq'. destruct (drained _), stop; intros [= <-]; proj;
      (eapply qOk_fly; [symmetry; first [apply (H2 (mkWorker _ ret))|apply H2]|exact Hq']).
  - apply qOk_requeue_same in Hq'. intros [= <-]; proj. eapply qOk_fly; [symmetry; apply H2|exact Hq'].
  - destruct (_ <=? _); [|done]. apply (qOk_requeue _ _ (attempt it + 1)) in Hq'.
    destruct stop; intros [= <-]; proj; (eapply qOk_fly; [symmetry; apply H2|exact Hq']).
Qed.

Lemma pop_none ctx q q' : pop ctx q = Some (None, q') → q' = q.
Proof. unfold pop. destruct ctx; [by intros [= <-]|]. destruct (items q); [|done]. destruct (_ && _); [by intros [= <-]|done]. Qed.

(** A worker that holds nothing, before and after. *)
Lemma holds_same l i w w' : l !! i = Some w → heldBy w = [] → heldBy w' = [] →
  mjoin (heldBy <$> <[i := w']> l) ≡ₚ mjoin (heldBy <$> l).
Proof. intros Hi E E'. destruct (holds_change _ _ _ Hi) as (rest & H1 & H2). by rewrite H1, (proj1 (H2 w')), E, E'. Qed.

Lemma act_queue a p p' : pipeOk cap p → act maxRetries a p = Some p' → qOk cap (nq p') (held p') (books p').
Proof.
  intros [Hq _ _ Hg]. destruct a as [g| | |i| |ok|j|j ok|j|j ok|i|i f|c k|c k|t|]; cbn [act].
  - destruct (manifestClosed p); [done|]. intros [= <-]. exact Hq.
  - intros [= <-]. exact Hq.
  - intros [= <-]. exact Hq.
  - destruct (workers p !! i) as [w|] eqn:Hi; [|done]. intros [= <-]. proj. eapply qOk_fly; [|exact Hq].
    destruct (holds_change _ _ _ Hi) as (rest & H1 & H2). by rewrite H1, (proj1 (H2 _)).
  - destruct (pipelineDone p); [done|]. intros [= <-]. exact Hq.
  - destruct (joins p); [done|]. destruct ok; intros [= <-]; [|exact Hq]. proj.
    rewrite fmap_app, join_app. cbn. by rewrite app_nil_r.
  - repeat case_match; intros; simplify_eq; exact Hq.
  - repeat case_match; intros; simplify_eq; exact Hq.
  - destruct (deciders p !! j) as [[| |its| | |]|] eqn:Hj; try done.
    destruct (pushGroup _ its (nq p)) as [[[e|] q]|] eqn:Ep; intros [= <-]; [exact Hq| |exact Hq].
    assert (Hits : oneGroup its) by apply (Forall_lookup_1 _ _ _ _ (go_deciding _ _ Hg) Hj).
    pose proof (qOk_push _ _ _ _ _ _ _ Hits Ep Hq) as H. destruct its; proj; [exact H|by rewrite wake_holds].
  - repeat case_match; intros; simplify_eq; exact Hq.
  - destruct (workers p !! i) as [[[| | |] ret]|] eqn:Hi; try done.
    destruct (pop _ (nq p)) as [[[it|] q]|] eqn:Ep; intros [= <-]; proj.
    + eapply qOk_fly; [|eapply qOk_pop; [exact Ep|exact Hq]].
      destruct (holds_change _ _ _ Hi) as (rest & H1 & H2). by rewrite (proj1 (H2 _)), H1.
    + eapply qOk_fly; [|exact Hq]. by rewrite (holds_same _ _ _ _ Hi).
    + eapply qOk_fly; [|exact Hq]. by rewrite (holds_same _ _ _ _ Hi).
  - destruct (workers p !! i) as [[[| |it|] ret]|] eqn:Hi; try done. by apply resolve_queue.
  - destruct (parked p !! k) as [it|]; [|done]. destruct (mayFallBack p c); [|done]. intros [= <-]. proj.
    rewrite wake_holds. by apply qOk_fallback.
  - repeat case_match; intros; simplify_eq; exact Hq.
  - repeat case_match; intros; simplify_eq; proj; rewrite ?wake_holds; exact Hq.
  - repeat case_match; intros; simplify_eq; proj; rewrite ?wake_holds; [by destruct Hq|exact Hq..].
Qed.

(** *** Sleepers *)
Lemma elem_insert {A} (l : list A) (i : nat) x y : x ∈ <[i := y]> l → x = y ∨ x ∈ l.
Proof.
  rewrite list_elem_of_lookup. intros (k & [(<- & <- & _)|[_ H]]%list_lookup_insert_Some); [by left|].
  right. by eapply list_elem_of_lookup_2.
Qed.
Lemma asleep_insert (l : list decider) (j : nat) d its : DAsleep its ∈ <[j := d]> l → d = DAsleep its ∨ DAsleep its ∈ l.
Proof. intros [->|?]%elem_insert; auto. Qed.
Lemma awake_deciders (l : list decider) its : DAsleep its ∉ wakeDecider <$> l.
Proof. intros (d & E & _)%list_elem_of_fmap. by apply (wakeDecider_awake d its). Qed.
Lemma awake_workers (l : list worker) w : w ∈ wakeWorker <$> l → w_phase w ≠ WAsleep.
Proof. intros (w0 & -> & _)%list_elem_of_fmap. apply wakeWorker_awake. Qed.

(** What a queue operation does to the conditions the sleepers wait for. *)
Lemma pop_some ctx q it q' : pop ctx q = Some (Some it, q') → items q ≠ [] ∧ inflight q' = inflight q + 1 ∧ closed q' = closed q.
Proof.
  unfold pop. destruct ctx; [done|]. destruct (items q); [by destruct (_ && _)|]. by intros [= <- <-].
Qed.
Lemma pop_waits ctx q : pop ctx q = None → ctx = None ∧ items q = [] ∧ (closed q = false ∨ inflight q ≠ 0).
Proof.
  unfold pop. destruct ctx; [done|]. destruct (items q); [|done].
  destruct (closed q), (Z.eqb_spec (inflight q) 0); cbn; auto; done.
Qed.
Lemma sortLargest_length l : length (sortLargest l) = length l.
Proof. by rewrite sortLargest_perm. Qed.
Lemma push_waits ctx its q : pushGroup ctx its q = None →
  ctx = None ∧ its ≠ [] ∧ closed q = false ∧ capacity q < Z.of_nat (length (items q) + length its).
Proof.
  unfold pushGroup. destruct its as [|x its]; [done|]. cbv zeta. rewrite sortLargest_length.
  destruct (Z.ltb_spec (capacity q) (Z.of_nat (length (items q)) + Z.of_nat (length (x :: its)))), (closed q);
    cbn [andb negb]; try done; destruct ctx; try done. intros _. split_and!; [done..|lia].
Qed.
Lemma push_done ctx its q q' : pushGroup ctx its q = Some (None, q') →
  its = [] ∧ q' = q ∨
  its ≠ [] ∧ closed q = false ∧ closed q' = false ∧ capacity q' = capacity q ∧ inflight q' = inflight q ∧
  length (items q') = (length (items q) + length its)%nat.
Proof.
  unfold pushGroup. destruct its as [|x its]; [intros [= <-]; by left|].
  destruct (_ && negb _); [by destruct ctx|]. destruct (closed q) eqn:Ec; [done|]. intros [= <-]. right. cbn [items inflight closed capacity].
  split_and!; [done..|]. rewrite length_app. f_equal. exact (sortLargest_length (x :: its)).
Qed.

Lemma sleep_queue p q : sleepOk p → closed q = closed (nq p) → capacity q = capacity (nq p) →
  (length (items (nq p)) <= length (items q))%nat →
  sleepOk (wakeEmpty (setQueue q p)).
Proof.
  intros [H1 H2 H3] Hc Hcap Hl. split; proj.
  - intros its (? & ? & ?)%H1. rewrite Hc, Hcap. split_and!; [done..|lia].
  - by intros w ?%awake_workers.
  - by destruct (mainPhase p).
Qed.
Lemma sleep_worker p i w : sleepOk p → w_phase w ≠ WAsleep → sleepOk (setWorker i w p).
Proof. intros [H1 H2 H3] Hw. split; proj; [done| |done]. intros w' [->|Hin]%elem_insert; [done|]. by apply H2. Qed.
Lemma sleep_decider p j d : sleepOk p → (∀ its, d ≠ DAsleep its) → sleepOk (setDecider j d p).
Proof. intros [H1 H2 H3] Hd. split; proj; [|done..]. intros its [->|Hin]%asleep_insert; [by destruct (Hd its)|]. by apply H1. Qed.
Lemma sleep_wakeEmpty p : sleepOk p → sleepOk (wakeEmpty p).
Proof. intros H. by apply (sleep_queue p (nq p)). Qed.
Lemma sleep_wakeFull p : sleepOk p → sleepOk (wakeFull p).
Proof. intros [H1 H2 H3]. split; proj; [|done..]. by intros its ?%awake_deciders. Qed.
Lemma sleep_ext p p' : sleepOk p → deciders p' = deciders p → workers p' = workers p → mainPhase p' = mainPhase p →
  nq p' = nq p → sleepOk p'.
Proof. intros [H1 H2 H3] Ed Ew Em Eq. split; rewrite ?Ed, ?Ew, ?Em, ?Eq; done. Qed.

Lemma sleep_endWorker p i ret : sleepOk p → sleepOk (endWorker i ret p).
Proof. intros H%(sleep_worker _ i (mkWorker WEnded ret)); [|done]. by eapply sleep_ext. Qed.

Lemma held_inflight p i it ret : qOk cap (nq p) (held p) (books p) → workers p !! i = Some (mkWorker (WHold it) ret) →
  0 < inflight (nq p).
Proof.
  intros Hq Hi. rewrite (qOk_inflight _ _ _ _ Hq). destruct (holds_change _ _ _ Hi) as (rest & H1 & _). unfold held. rewrite H1. cbn. lia.
Qed.

Lemma resolve_sleep i it ret f p p' :
  qOk cap (nq p) (held p) (books p) → workers p !! i = Some (mkWorker (WHold it) ret) → sleepOk p →
  resolveItem maxRetries i it ret f p = Some p' → sleepOk p'.
Proof.
  intros Hq Hi Hs. unfold resolveItem.
  assert (Hstop : ∀ stop p0, sleepOk p0 → sleepOk (if stop : bool then endWorker i ret p0 else setWorker i (mkWorker WPop ret) p0)).
  { intros [|] p0 H0; [by apply sleep_endWorker|by apply sleep_worker]. }
  pose proof (held_inflight _ _ _ _ Hq Hi) as Hpos.
  destruct f as [stop| |stop].
  - intros [= <-]. apply Hstop. destruct (done_spec (groupID it) (nq p) Hpos) as [D1 D2].
    destruct (drained (done_ (groupID it) (nq p))) eqn:Ed.
    + apply (sleep_ext (wakeEmpty (setQueue (done_ (groupID it) (nq p)) p))); [|done..].
      apply sleep_queue; [done..|]. by rewrite D1.
    + destruct Hs as [H1 H2 H3]. split; proj; [done| |done]. intros w Hw Ha. destruct (H2 w Hw Ha) as [H4 _]. split; [done|].
      unfold drained in Ed. rewrite D1, H4 in Ed. cbn [length Nat.eqb] in Ed. rewrite andb_true_r in Ed.
      apply andb_false_iff in Ed as [Ed|Ed%Z.eqb_neq]; auto.
  - intros [= <-]. apply sleep_endWorker, sleep_queue; [done..|]. cbn. rewrite length_app. lia.
  - destruct (_ <=? _); [|done]. intros [= <-]. apply Hstop, sleep_queue; [done..|]. cbn. rewrite length_app. lia.
Qed.

Lemma act_sleep a p p' : pipeOk cap p → act maxRetries a p = Some p' → sleepOk p'.
Proof.
  intros [Hq Hs Hst _]. destruct a as [g| | |i| |ok|j|j ok|j|j ok|i|i f|c k|c k|t|]; cbn [act].
  - destruct (manifestClosed p); [done|]. intros [= <-]. by eapply sleep_ext.
  - intros [= <-]. by eapply sleep_ext.
  - intros [= <-]. by eapply sleep_ext.
  - destruct (workers p !! i) as [w|] eqn:Hi; [|done]. intros [= <-]. destruct Hs as [H1 H2 H3]. split; proj; [done| |done].
    intros w' [->|Hin]%elem_insert; [|by apply H2]. apply (H2 w). by eapply list_elem_of_lookup_2.
  - destruct (pipelineDone p); [done|]. intros [= <-]. by eapply sleep_ext.
  - destruct (joins p); [done|]. destruct ok; intros [= <-]; [|by eapply sleep_ext]. destruct Hs as [H1 H2 H3].
    split; proj; [done| |done]. intros w' [Hin| ->%list_elem_of_singleton]%elem_of_app; [by apply H2|done].
  - destruct (deciders p !! j) as [[]|]; try done; destruct (manifestCh p) as [|g l]; try done.
    + destruct (manifestClosed p); [|done]. intros [= <-]. by apply sleep_decider.
    + intros [= <-]. apply sleep_decider; [|done]. by eapply sleep_ext.
  - destruct (deciders p !! j) as [[]|]; try done. destruct ok; intros [= <-]; [by apply sleep_decider|].
    eapply sleep_ext; [exact (sleep_decider p j DEnded Hs (λ _, ltac:(done)))|done..].
  - destruct (deciders p !! j) as [[| |its| | |]|] eqn:Hj; try done.
    destruct (pushGroup _ its (nq p)) as [[[e|] q]|] eqn:Ep; intros [= <-].
    + by apply sleep_decider.
    + apply sleep_decider; [|done]. apply push_done in Ep as [[-> ->]|(Hne & Hc & Hc' & Hcap & Hi & Hl)]; [by eapply sleep_ext|].
      destruct its as [|x its]; [done|]. apply (sleep_ext (wakeEmpty (setQueue q p))); [|done..]. apply sleep_queue; [done|congruence|done|lia].
    + apply push_waits in Ep as (_ & Hne & Hc & Hl). destruct Hs as [H1 H2 H3]. split; proj; [|done..].
      intros its' [[= ->]|Hin]%asleep_insert; [done|by apply H1].
  - destruct (deciders p !! j) as [[]|]; try done. destruct ok; intros [= <-]; [by apply sleep_decider|].
    eapply sleep_ext; [exact (sleep_decider p j DEnded Hs (λ _, ltac:(done)))|done..].
  - destruct (workers p !! i) as [[[| | |] ret]|] eqn:Hi; try done.
    destruct (pop _ (nq p)) as [[[it|] q]|] eqn:Ep; intros [= <-].
    + apply pop_some in Ep as (Hne & Hi' & Hc). destruct Hs as [H1 H2 H3]. split; proj.
      * by intros its ?%awake_deciders.
      * intros w [->|Hin]%elem_insert Ha; [done|]. by destruct (H2 w Hin Ha) as [? _].
      * intros _. unfold drained. rewrite Hc, Hi'. apply andb_false_iff. right. apply Z.eqb_neq.
        rewrite (qOk_inflight _ _ _ _ Hq). lia.
    + by apply sleep_endWorker.
    + apply pop_waits in Ep as (_ & He & Hd). destruct Hs as [H1 H2 H3]. split; proj; [done| |done].
      intros w [->|Hin]%elem_insert Ha; [done|by apply (H2 w)].
  - destruct (workers p !! i) as [[[| |it|] ret]|] eqn:Hi; try done. by apply resolve_sleep.
  - destruct (parked p !! k) as [it|]; [|done]. destruct (mayFallBack p c); [|done]. intros [= <-].
    apply (sleep_ext (wakeEmpty (setQueue (pushFallback it (nq p)) p))); [|done..]. apply sleep_queue; [done..|].
    cbn. rewrite length_app. lia.
  - destruct (parked p !! k) as [it|]; [|done]. destruct (mayFallBack p c); [|done]. intros [= <-]. by eapply sleep_ext.
  - destruct t as [j|i|]; repeat case_match; intros; simplify_eq; by apply sleep_wakeFull || apply sleep_wakeEmpty.
  - destruct (mainPhase p) eqn:Em; try done.
    + destruct (forallb _ _); [|done]. intros [= <-]. destruct Hs as [H1 H2 H3].
      split; proj; [by intros its ?%awake_deciders|by intros w ?%awake_workers|done].
    + destruct (waitDrained _ _) eqn:Ew; intros [= <-]; destruct Hs as [H1 H2 H3]; split; proj; try done.
      intros _. unfold waitDrained in Ew. by destruct (ctxErr _).
    + destruct (chWg p =? 0); [|done]. intros [= <-]. by destruct Hs as [H1 H2 H3].
Qed.

(** *** Stages *)
Lemma decider_running p j d : stageOk p → deciders p !! j = Some d → d ≠ DEnded → mainPhase p = MDecide.
Proof.
  intros Hs Hj Hd. destruct (decide (mainPhase p = MDecide)) as [|Hm]; [done|].
  pose proof (Forall_lookup_1 _ _ _ _ (st_deciders _ Hs Hm) Hj). done.
Qed.
Lemma done_not_deciding p : stageOk p → pipelineDone p = true → mainPhase p ≠ MDecide.
Proof. intros [_ _ _ -> _ _] [->| ->]%bool_decide_eq_true; done. Qed.

(** Whatever moves, but [pipeline.wait] itself. *)
Lemma stage_move p p' :
  stageOk p → mainPhase p' = mainPhase p ∨ mainPhase p' = wakeMain (mainPhase p) →
  (mainPhase p ≠ MDecide → deciders p' = deciders p ∨ deciders p' = wakeDecider <$> deciders p) →
  closed (nq p') = closed (nq p) → chWg p' = Z.of_nat (live p' + joins p') → pipelineDone p' = pipelineDone p →
  (rootDone p = true → rootDone p' = true) → (pipelineDone p = true → drained (nq p) = true → drained (nq p') = true) →
  (mainPhase p = MDone → chWg p' = 0) → stageOk p'.
Proof.
  intros [H1 H2 H3 H4 H5 H6] Hm Hd Hc Hw Hp Hr Hdr He.
  assert (Hwk : ∀ m, m = MDecide ∨ m = MWorkers ∨ m = MDone → mainPhase p' = m ↔ mainPhase p = m).
  { intros m Hmm. destruct Hm as [->| ->]; [done|]. destruct (mainPhase p); cbn; naive_solver. }
  split.
  - rewrite Hc, H1. f_equal. apply bool_decide_ext. rewrite Hwk; auto.
  - rewrite Hwk by auto. intros Hn. destruct (Hd Hn) as [->| ->]; [auto|]. apply Forall_fmap.
    eapply Forall_impl; [by apply H2|]. by intros d ->.
  - done.
  - rewrite Hp, H4. apply bool_decide_ext. by rewrite !Hwk by auto.
  - rewrite Hp. intros Hpd. destruct (H5 Hpd); auto.
  - rewrite Hwk by auto. done.
Qed.

(** A worker that is alive keeps the pipeline from its end. *)
Lemma live_pos p i w : workers p !! i = Some w → alive w = true → (0 < live p)%nat.
Proof. intros Hi Ha. pose proof (countIf_change alive _ _ _ (mkWorker WEnded false) Hi) as H. rewrite Ha in H. cbn in H. unfold live. lia. Qed.
Lemma live_running p i w : stageOk p → workers p !! i = Some w → alive w = true → mainPhase p ≠ MDone.
Proof. intros Hs Hi Ha Hm. pose proof (live_pos _ _ _ Hi Ha). pose proof (st_end _ Hs Hm). rewrite (st_wg _ Hs) in *. lia. Qed.
Lemma drained_not q : 0 < inflight q ∨ items q ≠ [] → drained q = true → False.
Proof.
  unfold drained. intros Hn [[_ Hl%Nat.eqb_eq]%andb_prop Hi%Z.eqb_eq]%andb_prop. destruct Hn as [?|Hn]; [lia|].
  by apply Hn, nil_length_inv.
Qed.

(** The deciders move: only before the queue is closed. *)
Lemma stage_decider p p' j d : stageOk p → deciders p !! j = Some d → d ≠ DEnded →
  mainPhase p' = mainPhase p ∨ mainPhase p' = wakeMain (mainPhase p) → closed (nq p') = closed (nq p) →
  countIf alive (workers p') = live p → joins p' = joins p → chWg p' = chWg p → pipelineDone p' = pipelineDone p →
  (rootDone p = true → rootDone p' = true) → stageOk p'.
Proof.
  intros Hs Hj Hd Hm Hc Hl Hjo Hw Hp Hr. pose proof (decider_running _ _ _ Hs Hj Hd) as Hmd.
  apply (stage_move p); try done.
  - unfold live at 1. rewrite Hw, Hl, Hjo. apply Hs.
  - intros Hpd. by destruct (done_not_deciding _ Hs Hpd).
  - by rewrite Hmd.
Qed.

(** A worker moves on or ends, with what it does to the queue. *)
Lemma stage_worker p p' i w w' : stageOk p → workers p !! i = Some w → alive w = true →
  workers p' = <[i := w']> (workers p) ∨ workers p' = <[i := w']> (wakeWorker <$> workers p) →
  chWg p' = chWg p - (if alive w' then 0 else 1) →
  mainPhase p' = mainPhase p ∨ mainPhase p' = wakeMain (mainPhase p) →
  deciders p' = deciders p ∨ deciders p' = wakeDecider <$> deciders p →
  closed (nq p') = closed (nq p) → joins p' = joins p → pipelineDone p' = pipelineDone p → rootDone p' = rootDone p →
  (drained (nq p) = true → drained (nq p') = true) → stageOk p'.
Proof.
  intros Hs Hi Ha Hw Hwg Hm Hd Hc Hj Hp Hr Hdr. apply (stage_move p); try done.
  - rewrite Hwg, Hj, (st_wg _ Hs). unfold live at 2.
    assert (Hl : (countIf alive (workers p') + 1 = live p + (if alive w' then 1 else 0))%nat).
    { destruct Hw as [->| ->].
      - pose proof (countIf_change alive _ _ _ w' Hi) as H. rewrite Ha in H. exact H.
      - assert (Hi' : (wakeWorker <$> workers p) !! i = Some (wakeWorker w)) by by rewrite list_lookup_fmap, Hi.
        pose proof (countIf_change alive _ _ _ w' Hi') as H. rewrite wakeWorker_alive, Ha, countLive_wake in H. exact H. }
    destruct (alive w'); lia.
  - by rewrite Hr.
  - intros Hmd. by destruct (live_running _ _ _ Hs Hi Ha).
Qed.

Lemma resolve_stage i it ret f p p' :
  qOk cap (nq p) (held p) (books p) → workers p !! i = Some (mkWorker (WHold it) ret) → stageOk p →
  resolveItem maxRetries i it ret f p = Some p' → stageOk p'.
Proof.
  intros Hq Hi Hs. pose proof (held_inflight _ _ _ _ Hq Hi) as Hpos.
  assert (Hno : ∀ q, drained (nq p) = true → drained q = true) by (intros q []%drained_not; by left).
  unfold resolveItem. destruct f as [stop| |stop]; cbn [fateQueue].
  - destruct (drained (done_ _ _)), stop; intros [= <-]; eapply (stage_worker p _ i _ (mkWorker _ ret)); try exact Hs; try exact Hi; proj; auto; cbn; auto; lia.
  - intros [= <-]; eapply (stage_worker p _ i _ (mkWorker _ ret)); try exact Hs; try exact Hi; proj; auto; cbn; auto; lia.
  - destruct (_ <=? _); [|done].
    destruct stop; intros [= <-]; eapply (stage_worker p _ i _ (mkWorker _ ret)); try exact Hs; try exact Hi; proj; auto; cbn; auto; lia.
Qed.

Lemma ended_all l : forallb isEnded l = true ↔ Forall (λ d, d = DEnded) l.
Proof.
  rewrite <- Is_true_true, forallb_True. split; intros H; (eapply Forall_impl; [exact H|]); by intros [].
Qed.

Lemma act_stage a p p' : pipeOk cap p → act maxRetries a p = Some p' → stageOk p'.
Proof.
  intros [Hq _ Hs _]. assert (Hsame : ∀ p', mainPhase p' = mainPhase p → deciders p' = deciders p → workers p' = workers p →
    joins p' = joins p → chWg p' = chWg p → nq p' = nq p → pipelineDone p' = pipelineDone p →
    (rootDone p = true → rootDone p' = true) → stageOk p').
  { intros p0 Em Ed Ew Ej Ec Eq Ep Er. apply (stage_move p); rewrite ?Eq; auto; rewrite Ec; [|apply (st_end _ Hs)].
    unfold live. rewrite Ew, Ej. apply (st_wg _ Hs). }
  destruct a as [g| | |i| |ok|j|j ok|j|j ok|i|i f|c k|c k|t|]; cbn [act].
  - destruct (manifestClosed p); [done|]. intros [= <-]. by apply Hsame.
  - intros [= <-]. by apply Hsame.
  - intros [= <-]. by apply Hsame.
  - destruct (workers p !! i) as [w|] eqn:Hi; [|done]. intros [= <-]. destruct (alive w) eqn:Ha.
    + eapply (stage_worker p _ i _ (mkWorker (w_phase w) true)); try exact Hs; try exact Hi; proj; auto.
      destruct w as [[] ?]; cbn; lia || done.
    + apply (stage_move p); proj; auto; try apply Hs.
      rewrite (st_wg _ Hs). unfold live. pose proof (countIf_change alive _ _ _ (mkWorker (w_phase w) true) Hi) as H.
      rewrite Ha in H. destruct w as [[] ?]; cbn in H |- *; done || lia.
  - destruct (pipelineDone p) eqn:Ep; [done|]. intros [= <-]. apply (stage_move p); proj; auto.
    + rewrite (st_wg _ Hs). unfold live. lia.
    + intros Hm. pose proof (st_done _ Hs) as H. rewrite Ep, bool_decide_true in H by auto. done.
  - destruct (joins p) as [|n] eqn:Ej; [done|]. pose proof (st_wg _ Hs) as Hwg. rewrite Ej in Hwg.
    assert (Hm : mainPhase p ≠ MDone) by (intros Hm%(st_end _ Hs); lia).
    destruct ok; intros [= <-]; apply (stage_move p); proj; auto; try (by intros ?; destruct Hm).
    + rewrite Hwg, countIf_app, countIf_cons. change (countIf alive []) with 0%nat. cbn [alive w_phase]. lia.
    + rewrite Hwg. unfold live. lia.
  - destruct (deciders p !! j) as [[]|] eqn:Hj; try done; destruct (manifestCh p) as [|g l]; try done.
    + destruct (manifestClosed p); [|done]. intros [= <-]. by apply (stage_decider p _ j DRange); auto.
    + intros [= <-]. by apply (stage_decider p _ j DRange); auto.
  - destruct (deciders p !! j) as [[]|] eqn:Hj; try done. destruct ok; intros [= <-]; by eapply (stage_decider p _ j); eauto.
  - destruct (deciders p !! j) as [[| |its| | |]|] eqn:Hj; try done.
    destruct (pushGroup _ its (nq p)) as [[[e|] q]|] eqn:Ep; intros [= <-]; eapply (stage_decider p _ j); eauto; try done.
    + destruct its; proj; auto.
    + apply push_done in Ep as [[-> ->]|(Hne & Hc & Hc' & _)]; [done|]. destruct its; proj; congruence.
    + destruct its; proj; [done|]. apply countLive_wake.
    + by destruct its.
    + by destruct its.
    + by destruct its.
    + by destruct its.
  - destruct (deciders p !! j) as [[]|] eqn:Hj; try done. destruct ok; intros [= <-]; by eapply (stage_decider p _ j); eauto.
  - destruct (workers p !! i) as [[[| | |] ret]|] eqn:Hi; try done.
    destruct (pop _ (nq p)) as [[[it|] q]|] eqn:Ep; intros [= <-].
    + apply pop_some in Ep as (Hne & Hi' & Hc).
      eapply (stage_worker p _ i _ (mkWorker (WHold it) ret)); try exact Hs; try exact Hi; proj; auto; [cbn; lia|].
      intros []%drained_not. by right.
    + eapply (stage_worker p _ i _ (mkWorker WEnded ret)); try exact Hs; try exact Hi; proj; auto; cbn; lia.
    + eapply (stage_worker p _ i _ (mkWorker WAsleep ret)); try exact Hs; try exact Hi; proj; auto; cbn; lia.
  - destruct (workers p !! i) as [[[| |it|] ret]|] eqn:Hi; try done. by apply resolve_stage.
  - destruct (parked p !! k) as [it|]; [|done]. destruct c as [j|i]; cbn [mayFallBack].
    + destruct (deciders p !! j) as [[]|] eqn:Hj; try done. intros [= <-].
      eapply (stage_decider p _ j); eauto; try done; proj; auto. apply countLive_wake.
    + destruct (workers p !! i) as [[[| |it'|] ret]|] eqn:Hi; try done. intros [= <-].
      apply (stage_move p); proj; auto; unfold live; rewrite ?countLive_wake; try apply Hs.
      intros _ []%drained_not. left. by apply (held_inflight _ _ _ _ Hq Hi).
  - destruct (parked p !! k) as [it|]; [|done]. destruct (mayFallBack p c); [|done]. intros [= <-]. by apply Hsame.
  - destruct t as [j|i|]; repeat case_match; intros; simplify_eq; apply (stage_move p); proj; auto;
      rewrite ?countLive_wake; apply Hs.
  - destruct (mainPhase p) eqn:Em; try done.
    + destruct (forallb _ _) eqn:Ed; [|done]. intros [= <-]. destruct Hs as [H1 H2 H3 H4 H5 H6]. rewrite Em in *. split; proj; try done.
      * intros _. apply Forall_fmap. eapply Forall_impl; [by apply ended_all|]. by intros d ->.
      * by rewrite countLive_wake.
      * rewrite H4. done.
    + destruct (waitDrained _ _) eqn:Ew; intros [= <-]; destruct Hs as [H1 H2 H3 H4 H5 H6]; rewrite Em in *;
        split; proj; try done; try (intros _; by apply H2).
      intros _. unfold waitDrained, ctxErr in Ew. destruct (rootDone p); auto.
    + destruct (Z.eqb_spec (chWg p) 0) as [E|]; [|done]. intros [= <-]. destruct Hs as [H1 H2 H3 H4 H5 H6]. rewrite Em in *.
      split; proj; try done. intros _. by apply H2.
Qed.

(** *** Groups *)
Definition fits (its : list needItem) : Prop := Z.of_nat (length its) <= cap ∧ oneGroup its.

Lemma groups_same p p' : groupsOk cap p → given (books p') = given (books p) → fallen (books p') = fallen (books p) →
  accepted (books p') = accepted (books p) → (rootDone p' = false → rootDone p = false) →
  deciding <$> deciders p' = deciding <$> deciders p → manifestCh p' = manifestCh p → groupsOk cap p'.
Proof.
  intros [H1 H2 H3] Eg Ef Ea Er Ed Em. split.
  - intros Hr. unfold undecided. rewrite Eg, Ef, Ea, Ed, Em. apply H1, Er, Hr.
  - by rewrite Em.
  - rewrite <- (Forall_fmap deciding fits), Ed. by apply Forall_fmap.
Qed.

(** One decider moves. *)
Lemma groups_decider p p' j d d' : groupsOk cap p → deciders p !! j = Some d →
  deciding <$> deciders p' = deciding <$> <[j := d']> (deciders p) →
  fits (deciding d') → Forall (λ g, fits (g_needs g)) (manifestCh p') →
  (rootDone p' = false → rootDone p = false ∧ ∀ rest,
     given (books p) ++ fallen (books p) ≡ₚ accepted (books p) ++ (deciding d ++ rest) ++ mjoin (g_needs <$> manifestCh p) →
     given (books p') ++ fallen (books p') ≡ₚ accepted (books p') ++ (deciding d' ++ rest) ++ mjoin (g_needs <$> manifestCh p')) →
  groupsOk cap p'.
Proof.
  intros [H1 H2 H3] Hj Ed Hf Hm Hg.
  destruct (mjoin_change (deciding <$> deciders p) j (deciding d)) as (rest & R1 & R2); [by rewrite list_lookup_fmap, Hj|].
  rewrite list_fmap_insert in Ed. split; [|done|].
  - intros Hr. apply Hg in Hr as [Hr Hg']. unfold undecided in *. rewrite Ed, R2. apply Hg'. rewrite <- R1. by apply H1.
  - rewrite <- (Forall_fmap deciding fits), Ed. apply Forall_insert; [|done]. by apply Forall_fmap.
Qed.
Lemma fits_nil : 0 <= cap → fits [].
Proof. split; [done|]. by intros x y ?%elem_of_nil. Qed.

Lemma push_refused ctx its q e q' : pushGroup ctx its q = Some (Some e, q') → is_Some ctx ∨ closed q = true.
Proof.
  unfold pushGroup. destruct its; [done|]. destruct (_ && _); [destruct ctx; [eauto|done]|]. destruct (closed q); [auto|done].
Qed.

Lemma act_groups a p p' : 0 <= cap → actionOk cap a → pipeOk cap p → act maxRetries a p = Some p' → groupsOk cap p'.
Proof.
  intros Hcap Ha [_ _ Hs Hg]. pose proof (fits_nil Hcap) as Hnil. pose proof (go_fits _ _ Hg) as Hm.
  destruct a as [g| | |i| |ok|j|j ok|j|j ok|i|i f|c k|c k|t|]; cbn [act].
  - destruct (manifestClosed p); [done|]. intros [= <-]. destruct Hg as [H1 H2 H3]. split; proj; [|by apply Forall_app; auto|done].
    intros Hr. rewrite fmap_app, join_app. cbn. rewrite app_nil_r, (app_assoc (accepted _)), (app_assoc (accepted _ ++ _)), <- (app_assoc (accepted _)), <- H1 by done.
    rewrite <- !app_assoc. apply Permutation_app_head, Permutation_app_comm.
  - intros [= <-]. by apply (groups_same p).
  - intros [= <-]. by apply (groups_same p).
  - destruct (workers p !! i); [|done]. intros [= <-]. by apply (groups_same p).
  - destruct (pipelineDone p); [done|]. intros [= <-]. by apply (groups_same p).
  - destruct (joins p); [done|]. destruct ok; intros [= <-]; by apply (groups_same p).
  - destruct (deciders p !! j) as [[]|] eqn:Hj; try done; destruct (manifestCh p) as [|g l] eqn:El; try done.
    + destruct (manifestClosed p); [|done]. intros [= <-]. apply (groups_decider p _ j DRange DEnded); proj; auto; by rewrite El.
    + apply Forall_cons in Hm as [Hm1 Hm2]. intros [= <-]. apply (groups_decider p _ j DRange (DDecide (g_needs g))); proj; auto.
      intros Hr. split; [done|]. intros rest ->. rewrite El, fmap_cons, mjoin_cons. cbn [deciding app].
      apply Permutation_app_head. rewrite <- app_assoc. apply Permutation_app_swap_app.
  - destruct (deciders p !! j) as [[]|] eqn:Hj; try done. pose proof (Forall_lookup_1 _ _ _ _ (go_deciding _ _ Hg) Hj) as Hf.
    destruct ok; intros [= <-]; [|by apply (groups_decider p _ j (DDecide its) DEnded)].
    by apply (groups_decider p _ j (DDecide its) (DPush its)).
  - destruct (deciders p !! j) as [[| |its| | |]|] eqn:Hj; try done. pose proof (Forall_lookup_1 _ _ _ _ (go_deciding _ _ Hg) Hj) as Hf.
    destruct (pushGroup _ its (nq p)) as [[[e|] q]|] eqn:Ep; intros [= <-].
    + apply (groups_decider p _ j (DPush its) DRange); auto. intros Hr. exfalso. proj. rewrite Hr in Ep.
      apply push_refused in Ep as [[? [=]]|Hc]. rewrite (st_closed _ Hs), bool_decide_true in Hc; [done|by eapply decider_running].
    + apply (groups_decider p _ j (DPush its) DCredit); auto; try by destruct its.
      intros Hr. assert (Hr' : rootDone p = false) by by destruct its. split; [done|]. intros rest H.
      transitivity (given (books p) ++ fallen (books p)); [by destruct its|]. rewrite H. by destruct its; proj; cbn [deciding app]; rewrite <- ?app_assoc.
    + by apply (groups_decider p _ j (DPush its) (DAsleep its)).
  - destruct (deciders p !! j) as [[]|] eqn:Hj; try done.
    destruct ok; intros [= <-]; [by apply (groups_decider p _ j DCredit DRange)|by apply (groups_decider p _ j DCredit DEnded)].
  - destruct (workers p !! i) as [[[| | |] ret]|] eqn:Hi; try done.
    destruct (pop _ (nq p)) as [[[it|] q]|] eqn:Ep; intros [= <-]; try by apply (groups_same p).
    apply (groups_same p); proj; auto. apply wake_deciding.
  - destruct (workers p !! i) as [[[| |it|] ret]|] eqn:Hi; try done. unfold resolveItem.
    destruct f as [[]| |[]]; repeat case_match; intros; simplify_eq; by apply (groups_same p).
  - destruct (parked p !! k) as [it|]; [|done]. destruct (mayFallBack p c); [|done]. intros [= <-].
    destruct Hg as [H1 H2 H3]. split; proj; [|done..]. intros Hr. rewrite app_assoc, H1, <- !app_assoc by done.
    apply Permutation_app_head. rewrite (Permutation_app_comm [it]), <- app_assoc. done.
  - destruct (parked p !! k) as [it|]; [|done]. destruct (mayFallBack p c); [|done]. intros [= <-]. by apply (groups_same p).
  - destruct t as [j|i|]; repeat case_match; intros; simplify_eq; apply (groups_same p); proj; auto. apply wake_deciding.
  - destruct (mainPhase p); try done; repeat case_match; intros; simplify_eq; apply (groups_same p); proj; auto. apply wake_deciding.
Qed.

Lemma pipe_act_ok a p p' : 0 <= cap → actionOk cap a → pipeOk cap p → act maxRetries a p = Some p' → pipeOk cap p'.
Proof. intros Hc Ha Hp E. split; [by eapply act_queue|by eapply act_sleep|by eapply act_stage|by eapply act_groups]. Qed.
Lemma pipe_acts_ok l p p' : 0 <= cap → Forall (actionOk cap) l → pipeOk cap p → acts maxRetries l p = Some p' → pipeOk cap p'.
Proof.
  intros Hc Hl. revert p. induction Hl as [|a l Ha Hl IH]; intros p Hp; cbn [acts]; [by intros [= <-]|].
  destruct (act maxRetries a p) as [p1|] eqn:E; [|done]. apply IH. by eapply pipe_act_ok.
Qed.
Lemma newPipe_ok d n : 0 <= cap → pipeOk cap (newPipe cap d n).
Proof.
  intros Hc. assert (Hh : mjoin (heldBy <$> replicate n (mkWorker WPop false)) = []) by (induction n; [done|exact IHn]).
  assert (Hl : countIf alive (replicate n (mkWorker WPop false)) = n).
  { induction n as [|n IH]; [done|]. cbn [replicate]. rewrite countIf_cons, IH; [done|exact Hh]. }
  split.
  - unfold qOk, held. cbn [newPipe workers nq books resolved accepted]. rewrite Hh. by split.
  - split; cbn; [| |done].
    + by intros its ?%elem_of_replicate_inv.
    + by intros w ->%elem_of_replicate_inv.
  - split; try done. unfold live. cbn [newPipe workers joins chWg]. rewrite Hl. lia.
  - split; cbn; [|done|].
    + intros _. unfold undecided. cbn. rewrite app_nil_r. by induction d.
    + apply Forall_replicate. by apply fits_nil.
Qed.
End preserved.

(** ** Termination

    A weight that every action of the pipeline's own goroutines lowers.  [effort]
    falls with the actions that make progress; between two of them each goroutine
    can go to sleep once, and [awake] counts those that still can.  A cancelled
    goroutine never goes to sleep again, and one that sleeps costs a callback. *)
Section measure.
Context (maxRetries : Z).

Definition itemW (it : needItem) : nat := 2 * Z.to_nat (maxRetries + 1 - attempt it) + 2.
Definition groupW (g : group) : nat := 4 + sum_list_with itemW (g_needs g) + sum_list_with (λ it, S (itemW it)) (g_seconds g).
Definition callbackW (off asleep : bool) : nat := if off && negb asleep then 0 else 1.
Definition deciderW (root : bool) (d : decider) : nat :=
  match d with
  | DRange => 1 + callbackW root false
  | DDecide its => 4 + sum_list_with itemW its + callbackW root false
  | DPush its => 3 + sum_list_with itemW its + callbackW root false
  | DAsleep its => 3 + sum_list_with itemW its + callbackW root true
  | DCredit => 2 + callbackW root false
  | DEnded => callbackW root false
  end.
Definition workerW (root : bool) (w : worker) : nat :=
  match w_phase w with
  | WPop => 2 + callbackW (root || w_retired w) false
  | WAsleep => 2 + callbackW (root || w_retired w) true
  | WHold it => 1 + itemW it + callbackW (root || w_retired w) false
  | WEnded => callbackW (root || w_retired w) false
  end.
Definition mainW (root : bool) (m : mphase) : nat :=
  match m with
  | MDecide => 3 + callbackW root false
  | MDrain => 2 + callbackW root false
  | MAsleep => 2 + callbackW root true
  | MWorkers => 1 + callbackW root false
  | MDone => callbackW root false
  end.
Definition effort (p : pipe) : nat :=
  sum_list_with groupW (manifestCh p) + sum_list_with (λ it, S (itemW it)) (parked p) +
  sum_list_with (deciderW (rootDone p)) (deciders p) + sum_list_with (workerW (rootDone p)) (workers p) +
  4 * joins p + mainW (rootDone p) (mainPhase p) + sum_list_with itemW (items (nq p)).
Definition awakeD (d : decider) : nat := match d with DPush _ => 1 | _ => 0 end.
Definition awakeW (w : worker) : nat := match w_phase w with WPop => 1 | _ => 0 end.
Definition awakeM (m : mphase) : nat := match m with MDrain => 1 | _ => 0 end.
Definition awake (p : pipe) : nat :=
  sum_list_with awakeD (deciders p) + sum_list_with awakeW (workers p) + awakeM (mainPhase p).
Definition threads (p : pipe) : nat := length (deciders p) + length (workers p) + joins p + 1.
Definition work (p : pipe) : nat := effort p * (threads p + 1) + awake p.

(** *** Sums *)
Lemma sum_le {A} (f g : A → nat) l : (∀ x, (f x <= g x)%nat) → (sum_list_with f l <= sum_list_with g l)%nat.
Proof. intros H. induction l as [|x l IH]; cbn; [done|]. specialize (H x). lia. Qed.
Lemma sum_perm {A} (f : A → nat) l l' : l ≡ₚ l' → sum_list_with f l = sum_list_with f l'.
Proof. induction 1; cbn; lia. Qed.
Lemma sum_wake {A} (f : A → nat) (g : A → A) l : (∀ x, (f (g x) <= f x)%nat) → (sum_list_with f (g <$> l) <= sum_list_with f l)%nat.
Proof. intros H. induction l as [|x l IH]; cbn; [done|]. specialize (H x). lia. Qed.
Lemma sum_wake_lt {A} (f : A → nat) (g : A → A) (l : list A) i x : (∀ x, (f (g x) <= f x)%nat) → l !! i = Some x →
  (f (g x) < f x)%nat → (sum_list_with f (g <$> l) < sum_list_with f l)%nat.
Proof.
  intros Hle (l1 & l2 & -> & _)%list_split_at Hx. rewrite fmap_app, fmap_cons, !sum_list_with_app. cbn.
  pose proof (sum_wake f g l1 Hle). pose proof (sum_wake f g l2 Hle). lia.
Qed.
Lemma sum_change {A} (f : A → nat) l i x y : l !! i = Some x →
  (sum_list_with f (<[i := y]> l) + f x = sum_list_with f l + f y)%nat.
Proof. intros (l1 & l2 & -> & E)%list_split_at. rewrite E, !sum_list_with_app. cbn. lia. Qed.
Lemma sum_delete {A} (f : A → nat) l i x : l !! i = Some x → (sum_list_with f (delete i l) + f x = sum_list_with f l)%nat.
Proof. intros Hi. rewrite (sum_perm f l _ (delete_Permutation _ _ _ Hi)). cbn. lia. Qed.

Lemma callbackW_off root root' b b' : (root = true → root' = true) → (b' = true → b = true) → (callbackW root' b' <= callbackW root b)%nat.
Proof. destruct root, root', b, b'; cbn; intuition (try lia; try discriminate). Qed.
Lemma deciderW_wake root d : (deciderW root (wakeDecider d) <= deciderW root d)%nat.
Proof. destruct d, root; cbn; lia. Qed.
Lemma workerW_wake root w : (workerW root (wakeWorker w) <= workerW root w)%nat.
Proof. destruct w as [[] []], root; cbn; lia. Qed.
Lemma mainW_wake root m : (mainW root (wakeMain m) <= mainW root m)%nat.
Proof. destruct m, root; cbn; lia. Qed.
Lemma deciderW_cancel d : (deciderW true d <= deciderW false d)%nat.
Proof. destruct d; cbn; lia. Qed.
Lemma workerW_cancel w : (workerW true w <= workerW false w)%nat.
Proof. destruct w as [[] []]; cbn; lia. Qed.
Lemma mainW_cancel m : (mainW true m <= mainW false m)%nat.
Proof. destruct m; cbn; lia. Qed.

Lemma awake_threads p : (awake p <= threads p)%nat.
Proof.
  assert (H : ∀ {A} (f : A → nat) l, (∀ x, (f x <= 1)%nat) → (sum_list_with f l <= length l)%nat).
  { intros A f l Hf. induction l as [|x l IH]; cbn; [done|]. specialize (Hf x). lia. }
  unfold awake, threads. pose proof (H _ awakeD (deciders p) ltac:(intros []; cbn; lia)).
  pose proof (H _ awakeW (workers p) ltac:(intros [[] ?]; cbn; lia)).
  destruct (mainPhase p); cbn [awakeM]; lia.
Qed.

(** An action makes progress, or puts one goroutine to sleep. *)
Definition progresses (p p' : pipe) : Prop := (effort p' < effort p)%nat ∧ (threads p' <= threads p)%nat.
Definition dozes (p p' : pipe) : Prop := effort p' = effort p ∧ threads p' = threads p ∧ (awake p' < awake p)%nat.
Lemma work_less p p' : progresses p p' ∨ dozes p p' → (work p' < work p)%nat.
Proof.
  unfold work. pose proof (awake_threads p'). intros [[H1 H2]|(-> & -> & H3)]; [|lia].
  assert (effort p' * (threads p' + 1) <= (effort p - 1) * (threads p + 1))%nat by (apply Nat.mul_le_mono; lia).
  rewrite Nat.mul_sub_distr_r in *. assert (threads p + 1 <= effort p * (threads p + 1))%nat by nia. lia.
Qed.

Ltac weigh := unfold progresses, effort, threads; proj; rewrite ?length_insert, ?length_fmap, ?length_app.
Lemma pop_item ctx q it q' : pop ctx q = Some (Some it, q') → items q = it :: items q'.
Proof. unfold pop. destruct ctx; [done|]. destruct (items q); [by destruct (_ && _)|]. by intros [= <- <-]. Qed.
Lemma push_items ctx its q q' : pushGroup ctx its q = Some (None, q') →
  sum_list_with itemW (items q') = (sum_list_with itemW (items q) + sum_list_with itemW its)%nat.
Proof.
  unfold pushGroup. destruct its as [|x its]; [intros [= <-]; cbn; lia|].
  destruct (_ && negb _); [by destruct ctx|]. destruct (closed q); [done|]. intros [= <-]. cbn [items].
  rewrite sum_list_with_app. f_equal. exact (sum_perm itemW _ _ (sortLargest_perm (x :: its))).
Qed.

(** Cancelling and waking do not add to the effort. *)
Lemma decider_moves root root' (l : list decider) j d d' :
  l !! j = Some d → (root = true → root' = true) →
  (sum_list_with (deciderW root') (<[j := d']> l) + deciderW root' d <= sum_list_with (deciderW root) l + deciderW root' d')%nat.
Proof.
  intros Hj Hr. pose proof (sum_change (deciderW root') _ _ _ d' Hj) as H.
  pose proof (sum_le (deciderW root') (deciderW root) l) as Hle. rewrite H. apply Nat.add_le_mono_r, Hle.
  intros x. destruct root, root'; try done; [by discriminate Hr|apply deciderW_cancel].
Qed.
Lemma worker_moves root (l : list worker) i w w' : l !! i = Some w →
  (sum_list_with (workerW root) (<[i := w']> l) + workerW root w = sum_list_with (workerW root) l + workerW root w')%nat ∧
  (sum_list_with (workerW root) (<[i := w']> (wakeWorker <$> l)) + workerW root w <= sum_list_with (workerW root) l + workerW root w' + (workerW root w - workerW root (wakeWorker w)))%nat.
Proof.
  intros Hi. split; [by apply sum_change|].
  assert (Hi' : (wakeWorker <$> l) !! i = Some (wakeWorker w)) by by rewrite list_lookup_fmap, Hi.
  pose proof (sum_change (workerW root) _ _ _ w' Hi') as H. pose proof (sum_wake (workerW root) wakeWorker l (workerW_wake root)).
  pose proof (workerW_wake root w). lia.
Qed.

Lemma resolve_less i it ret f p p' : workers p !! i = Some (mkWorker (WHold it) ret) →
  resolveItem maxRetries i it ret f p = Some p' → progresses p p'.
Proof.
  intros Hi. pose proof (mainW_wake (rootDone p) (mainPhase p)) as Hm.
  assert (Hw : ∀ w', (sum_list_with (workerW (rootDone p)) (<[i := w']> (workers p)) + workerW (rootDone p) (mkWorker (WHold it) ret)
      <= sum_list_with (workerW (rootDone p)) (workers p) + workerW (rootDone p) w')%nat ∧
    (sum_list_with (workerW (rootDone p)) (<[i := w']> (wakeWorker <$> workers p)) + workerW (rootDone p) (mkWorker (WHold it) ret)
      <= sum_list_with (workerW (rootDone p)) (workers p) + workerW (rootDone p) w')%nat).
  { intros w'. destruct (worker_moves (rootDone p) _ _ _ w' Hi) as [H1 H2]. cbn [wakeWorker w_phase] in H2. lia. }
  destruct (Hw (mkWorker WEnded ret)) as [E1 E2], (Hw (mkWorker WPop ret)) as [P1 P2]. clear Hw.
  cbn [workerW w_phase w_retired] in *. set (cb := callbackW (rootDone p || ret) false) in *.
  unfold resolveItem. destruct f as [stop| |stop]; cbn [fateQueue].
  - assert (Hd : sum_list_with itemW (items (done_ (groupID it) (nq p))) = sum_list_with itemW (items (nq p))) by done.
    assert (1 < itemW it)%nat by (unfold itemW; lia).
    destruct (drained _), stop; intros [= <-]; weigh; lia.
  - assert (Hd : sum_list_with itemW (items (requeue it (nq p))) = (sum_list_with itemW (items (nq p)) + itemW it)%nat).
    { cbn. rewrite sum_list_with_app. cbn. lia. }
    intros [= <-]. weigh. lia.
  - destruct (Z.leb_spec (attempt it + 1) maxRetries) as [Hr|]; [|done].
    assert (Hd : (sum_list_with itemW (items (requeue (withAttempt it (attempt it + 1)) (nq p))) + 2 = sum_list_with itemW (items (nq p)) + itemW it)%nat).
    { cbn. rewrite sum_list_with_app. cbn. unfold itemW. cbn [attempt withAttempt]. lia. }
    destruct stop; intros [= <-]; weigh; lia.
Qed.

Lemma cancel_workers p : (sum_list_with (workerW true) (workers p) <= sum_list_with (workerW (rootDone p)) (workers p))%nat.
Proof. apply sum_le. intros w. destruct (rootDone p); [done|apply workerW_cancel]. Qed.
Lemma cancel_main p : (mainW true (mainPhase p) <= mainW (rootDone p) (mainPhase p))%nat.
Proof. destruct (rootDone p); [done|apply mainW_cancel]. Qed.

(** A callback wakes the goroutine whose context is cancelled for good. *)
Lemma callback_less t p p' : act maxRetries (ACallback t) p = Some p' → progresses p p'.
Proof.
  pose proof (sum_wake (workerW (rootDone p)) wakeWorker (workers p) (workerW_wake _)) as Hw.
  pose proof (mainW_wake (rootDone p) (mainPhase p)) as Hm.
  destruct t as [j|i|]; cbn [act].
  - destruct (deciders p !! j) as [[| | |its| |]|] eqn:Hj; try done. destruct (rootDone p) eqn:Hr; [|done]. intros [= <-].
    pose proof (sum_wake_lt (deciderW true) wakeDecider _ _ _ (deciderW_wake true) Hj ltac:(cbn; lia)) as H. weigh. rewrite Hr. lia.
  - destruct (workers p !! i) as [[[| | |] ret]|] eqn:Hi; try done. destruct (rootDone p || ret) eqn:Hr; [|done]. intros [= <-].
    assert (Hlt : (workerW (rootDone p) (wakeWorker (mkWorker WAsleep ret)) < workerW (rootDone p) (mkWorker WAsleep ret))%nat).
    { cbn. rewrite Hr. cbn. lia. }
    pose proof (sum_wake_lt (workerW (rootDone p)) wakeWorker _ _ _ (workerW_wake _) Hi Hlt) as H. weigh. lia.
  - destruct (mainPhase p) eqn:Em; try done. destruct (rootDone p) eqn:Hr; [|done]. intros [= <-].
    weigh. rewrite Em, Hr in *. cbn in *. lia.
Qed.

Lemma act_less a p p' : own a → act maxRetries a p = Some p' → progresses p p' ∨ dozes p p'.
Proof.
  intros Ho. destruct a as [g| | |i| |ok|j|j ok|j|j ok|i|i f|c k|c k|t|]; try done; cbn [act].
  - destruct (joins p) as [|n] eqn:Ej; [done|]. destruct ok; intros [= <-]; left; weigh; rewrite ?sum_list_with_app, ?Ej; cbn; [|lia].
    destruct (rootDone p); cbn; lia.
  - destruct (deciders p !! j) as [[]|] eqn:Hj; try done; destruct (manifestCh p) as [|g l] eqn:El; try done.
    + destruct (manifestClosed p); [|done]. intros [= <-]. left.
      pose proof (decider_moves (rootDone p) (rootDone p) _ _ _ DEnded Hj ltac:(done)). weigh. cbn in *. lia.
    + intros [= <-]. left. pose proof (decider_moves (rootDone p) (rootDone p) _ _ _ (DDecide (g_needs g)) Hj ltac:(done)).
      weigh. rewrite sum_list_with_app, El. cbn in *. unfold groupW. lia.
  - destruct (deciders p !! j) as [[]|] eqn:Hj; try done. destruct ok; intros [= <-]; left.
    + pose proof (decider_moves (rootDone p) (rootDone p) _ _ _ (DPush its) Hj ltac:(done)). weigh. cbn in *. lia.
    + pose proof (decider_moves (rootDone p) true _ _ _ DEnded Hj ltac:(done)) as H. weigh.
      pose proof (cancel_workers p). pose proof (cancel_main p). cbn in *. lia.
  - destruct (deciders p !! j) as [[| |its| | |]|] eqn:Hj; try done.
    destruct (pushGroup _ its (nq p)) as [[[e|] q]|] eqn:Ep; intros [= <-].
    + left. pose proof (decider_moves (rootDone p) (rootDone p) _ _ _ DRange Hj ltac:(done)). weigh. cbn in *. lia.
    + left. apply push_items in Ep. pose proof (decider_moves (rootDone p) (rootDone p) _ _ _ DCredit Hj ltac:(done)).
      pose proof (sum_wake (workerW (rootDone p)) wakeWorker (workers p) (workerW_wake _)). pose proof (mainW_wake (rootDone p) (mainPhase p)).
      destruct its; weigh; cbn in *; lia.
    + right. apply push_waits in Ep as (Hc & _). pose proof (sum_change (deciderW (rootDone p)) _ _ _ (DAsleep its) Hj).
      pose proof (sum_change awakeD _ _ _ (DAsleep its) Hj). unfold dozes, effort, threads, awake. proj. rewrite length_insert.
      destruct (rootDone p); [done|]. cbn in *. lia.
  - destruct (deciders p !! j) as [[]|] eqn:Hj; try done. destruct ok; intros [= <-]; left.
    + pose proof (decider_moves (rootDone p) (rootDone p) _ _ _ DRange Hj ltac:(done)). weigh. cbn in *. lia.
    + pose proof (decider_moves (rootDone p) true _ _ _ DEnded Hj ltac:(done)) as H. weigh.
      pose proof (cancel_workers p). pose proof (cancel_main p). cbn in *. lia.
  - destruct (workers p !! i) as [[[| | |] ret]|] eqn:Hi; try done.
    destruct (pop _ (nq p)) as [[[it|] q]|] eqn:Ep; intros [= <-].
    + left. apply pop_item in Ep. destruct (worker_moves (rootDone p) _ _ _ (mkWorker (WHold it) ret) Hi) as [H _].
      pose proof (sum_wake (deciderW (rootDone p)) wakeDecider (deciders p) (deciderW_wake _)). weigh. rewrite Ep. cbn in *. lia.
    + left. destruct (worker_moves (rootDone p) _ _ _ (mkWorker WEnded ret) Hi) as [H _]. weigh. cbn in *. lia.
    + right. apply pop_waits in Ep as (Hc & _). destruct (worker_moves (rootDone p) _ _ _ (mkWorker WAsleep ret) Hi) as [H _].
      pose proof (sum_change awakeW _ _ _ (mkWorker WAsleep ret) Hi). unfold dozes, effort, threads, awake. proj. rewrite length_insert.
      cbn [workerW w_phase w_retired awakeW] in *. destruct (rootDone p || ret); [done|]. cbn in *. lia.
  - destruct (workers p !! i) as [[[| |it|] ret]|] eqn:Hi; try done. intros E. left. by eapply resolve_less.
  - destruct (parked p !! k) as [it|] eqn:Hk; [|done]. destruct (mayFallBack p c); [|done]. intros [= <-]. left.
    pose proof (sum_delete (λ it, S (itemW it)) _ _ _ Hk).
    pose proof (sum_wake (workerW (rootDone p)) wakeWorker (workers p) (workerW_wake _)). pose proof (mainW_wake (rootDone p) (mainPhase p)).
    weigh. cbn [items pushFallback]. rewrite sum_list_with_app. cbn in *. lia.
  - destruct (parked p !! k) as [it|] eqn:Hk; [|done]. destruct (mayFallBack p c); [|done]. intros [= <-]. left.
    pose proof (sum_delete (λ it, S (itemW it)) _ _ _ Hk). weigh. lia.
  - intros E. left. by eapply callback_less.
  - destruct (mainPhase p) eqn:Em; try done.
    + destruct (forallb _ _); [|done]. intros [= <-]. left.
      pose proof (sum_wake (workerW (rootDone p)) wakeWorker (workers p) (workerW_wake _)).
      pose proof (sum_wake (deciderW (rootDone p)) wakeDecider (deciders p) (deciderW_wake _)). weigh. rewrite Em. cbn [items close mainW]. lia.
    + destruct (waitDrained _ _) eqn:Ew; intros [= <-].
      * left. weigh. rewrite Em. cbn [mainW]. lia.
      * right. unfold dozes, effort, threads, awake. proj. rewrite Em. unfold waitDrained, ctxErr in Ew. destruct (rootDone p); [done|]. cbn. lia.
    + destruct (chWg p =? 0); [|done]. intros [= <-]. left. weigh. rewrite Em. cbn [mainW]. lia.
Qed.

Lemma pipe_acts_work l p p' : Forall own l → acts maxRetries l p = Some p' → (length l + work p' <= work p)%nat.
Proof.
  intros Hl. revert p. induction Hl as [|a l Ha Hl IH]; intros p; cbn [acts]; [intros [= <-]; cbn; lia|].
  destruct (act maxRetries a p) as [p1|] eqn:E; [|done]. intros E1%IH. apply act_less, work_less in E; [|done]. cbn [length]. lia.
Qed.
End measure.

Lemma acts_app maxRetries l1 l2 p : acts maxRetries (l1 ++ l2) p = match acts maxRetries l1 p with Some p => acts maxRetries l2 p | None => None end.
Proof. revert p. induction l1 as [|a l1 IH]; intros p; cbn [acts app]; [done|]. destruct (act maxRetries a p); [apply IH|done]. Qed.

(** ** Progress *)
Section progress.
Context (maxRetries cap : Z).
Definition ready (w : worker) : bool := match w_phase w with WPop | WHold _ => true | _ => false end.
Definition readyD (d : decider) : bool := match d with DAsleep _ | DEnded => false | _ => true end.
Definition canGo (p : pipe) : Prop := ∃ a, own a ∧ is_Some (act maxRetries a p).

Lemma find_or_all {A} (f : A → bool) (l : list A) : (∃ i x, l !! i = Some x ∧ f x = true) ∨ Forall (λ x, f x = false) l.
Proof.
  destruct (decide (Exists (λ x, f x = true) l)) as [(x & Hx & Hf)%Exists_exists|H].
  - left. apply list_elem_of_lookup in Hx as [i Hi]. eauto.
  - right. apply not_Exists_Forall in H; [|apply _]. eapply Forall_impl; [exact H|]. intros x Hx. destruct (f x) eqn:E; [by destruct Hx|done].
Qed.

Lemma worker_goes p i w : workers p !! i = Some w → ready w = true ∨ w_phase w = WAsleep ∧ cancelled p w = true → canGo p.
Proof.
  unfold cancelled. destruct w as [ph ret]. cbn [w_phase w_retired]. intros Hi [Hr|[-> Hc]].
  - destruct ph as [| |it|]; try done.
    + exists (APop i). split; [done|]. cbn [act]. rewrite Hi. destruct (pop _ _) as [[[]]|]; eauto.
    + exists (AResolve i Back). split; [done|]. cbn [act]. rewrite Hi. eauto.
  - exists (ACallback (TWorker i)). split; [done|]. cbn [act]. rewrite Hi, Hc. eauto.
Qed.
Lemma decider_goes p j d : manifestClosed p = true → deciders p !! j = Some d →
  readyD d = true ∨ rootDone p = true ∧ d ≠ DEnded → canGo p.
Proof.
  intros Hm Hj Hd. destruct d as [|its|its|its| |].
  - exists (ATake j). split; [done|]. cbn [act]. rewrite Hj, Hm. destruct (manifestCh p); eauto.
  - exists (ADecided j true). split; [done|]. cbn [act]. rewrite Hj. eauto.
  - exists (APush j). split; [done|]. cbn [act]. rewrite Hj. destruct (pushGroup _ _ _) as [[[]]|]; eauto.
  - destruct Hd as [|[Hr _]]; [done|]. exists (ACallback (TDecider j)). split; [done|]. cbn [act]. rewrite Hj, Hr. eauto.
  - exists (ACredit j true). split; [done|]. cbn [act]. rewrite Hj. eauto.
  - by destruct Hd as [|[_ ?]].
Qed.

(** No worker is ready: none holds an item, and those alive sleep. *)
Lemma idle_held l : Forall (λ w, ready w = false) l → mjoin (heldBy <$> l) = [].
Proof. induction 1 as [|[[] ?] l Hw _ IH]; [done|..]; try discriminate Hw; exact IH. Qed.
Lemma idle_live l : Forall (λ w, ready w = false) l → (0 < countIf alive l)%nat → ∃ i ret, l !! i = Some (mkWorker WAsleep ret).
Proof.
  induction 1 as [|[[] ret] l Hw _ IH]; [by intros ?%Nat.lt_irrefl|..]; try discriminate Hw.
  - intros _. by exists 0%nat, ret.
  - rewrite countIf_cons. intros (i & r & Hi)%IH. by exists (S i), r.
Qed.

Lemma pipe_can_go p : pipeOk cap p → manifestClosed p = true → mainPhase p ≠ MDone →
  rootDone p = true ∨ (0 < live p + joins p)%nat → canGo p.
Proof.
  intros [Hq Hs Hst Hg] Hm Hmd Hlive.
  destruct (joins p) as [|n] eqn:Ej.
  2:{ exists (AJoined false). split; [done|]. cbn [act]. rewrite Ej. eauto. }
  destruct (find_or_all ready (workers p)) as [(i & w & Hi & Hw)|Hw]; [eapply worker_goes; eauto|].
  destruct (find_or_all readyD (deciders p)) as [(j & d & Hj & Hd)|Hd]; [eapply decider_goes; eauto|].
  pose proof (idle_held _ Hw) as Hheld. pose proof (qOk_inflight _ _ _ _ Hq) as Hinf. unfold held in Hinf. rewrite Hheld in Hinf.
  (* with a worker asleep and alive, the queue is empty and open *)
  assert (Hsleep : rootDone p = false ∨ (0 < live p)%nat → canGo p ∨ items (nq p) = [] ∧ closed (nq p) = false).
  { intros Hl. destruct (idle_live _ Hw) as (i & ret & Hi); [unfold live in *; destruct Hl; [destruct Hlive; [congruence|lia]|lia]|].
    destruct (cancelled p (mkWorker WAsleep ret)) eqn:Hc; [left; eapply worker_goes; eauto|].
    destruct (so_worker _ Hs _ (list_elem_of_lookup_2 _ _ _ Hi) eq_refl) as [He [Hcl|Hn]]; [by right|]. rewrite Hinf in Hn. done. }
  destruct (find_or_all (λ d, negb (isEnded d)) (deciders p)) as [(j & d & Hj & Hd1)|Hend].
  { destruct (rootDone p) eqn:Hr; [eapply decider_goes; eauto; right; split; [done|by intros ->]|].
    destruct Hsleep as [|[He Hcl]]; [by left|done|]. rewrite Forall_lookup in Hd. specialize (Hd _ _ Hj). destruct d as [| | |its| |]; try done.
    destruct (so_decider _ Hs its) as (_ & _ & Hlt); [by eapply list_elem_of_lookup_2|].
    destruct (Forall_lookup_1 _ _ _ _ (go_deciding _ _ Hg) Hj) as [Hfit _]. cbn [deciding] in Hfit.
    rewrite (qOk_capacity _ _ _ _ Hq), He in Hlt. cbn [length] in Hlt. lia. }
  assert (Hgo : ∀ p', act maxRetries AMain p = Some p' → canGo p) by (intros p' E; exists AMain; split; [done|eauto]).
  cbn [act] in Hgo. pose proof (st_closed _ Hst) as Hcl. destruct (mainPhase p) eqn:Em; try done.
  - rewrite (proj2 (ended_all (deciders p))) in Hgo; [by eapply Hgo|]. eapply Forall_impl; [exact Hend|]. by intros [].
  - destruct (waitDrained _ _) in Hgo; by eapply Hgo.
  - rewrite bool_decide_false in Hcl by done. destruct (rootDone p) eqn:Hr.
    { exists (ACallback TMain). split; [done|]. cbn [act]. rewrite Em, Hr. eauto. }
    destruct Hsleep as [|[_ Hc]]; [by left|done|]. by rewrite Hcl in Hc.
  - rewrite bool_decide_false in Hcl by done. destruct (Z.eqb_spec (chWg p) 0) as [E|E]; [by eapply Hgo|].
    rewrite (st_wg _ Hst), Ej in E. destruct Hsleep as [|[_ Hc]]; [right; unfold live in *; lia|done|]. by rewrite Hcl in Hc.
Qed.
End progress.

(** ** The end *)
Section finished.
Context (maxRetries cap : Z).

(** A decider returns when the channel is closed and empty, or the session is over. *)
Record endOk (d : nat) (p : pipe) : Prop := {
  en_length : length (deciders p) = d;
  en_ended : DEnded ∈ deciders p → rootDone p = true ∨ manifestClosed p = true ∧ manifestCh p = [];
}.

Lemma ended_wake (l : list decider) : DEnded ∈ wakeDecider <$> l → DEnded ∈ l.
Proof. intros ([] & E & Hd)%list_elem_of_fmap; done. Qed.
Lemma end_same d p p' : endOk d p → length (deciders p') = length (deciders p) → (DEnded ∈ deciders p' → DEnded ∈ deciders p) →
  (rootDone p = true → rootDone p' = true) → manifestClosed p' = manifestClosed p → manifestCh p' = manifestCh p → endOk d p'.
Proof. intros [H1 H2] Hl He Hr Hc Hm. split; [congruence|]. rewrite Hc, Hm. intros [?|?]%He%H2; auto. Qed.
(** A decider moves and does not return, or returns with the session over. *)
Lemma end_decider d p p' j x y : endOk d p → deciders p !! j = Some x → deciders p' = <[j := y]> (deciders p) →
  (y = DEnded → rootDone p' = true ∨ manifestClosed p' = true ∧ manifestCh p' = []) → (rootDone p = true → rootDone p' = true) →
  manifestClosed p' = manifestClosed p → (manifestCh p = [] → manifestCh p' = []) → endOk d p'.
Proof.
  intros [H1 H2] Hj Ed Hy Hr Hc Hm. split; [by rewrite Ed, length_insert|].
  rewrite Ed. intros [<-|[?|[? ?]]%H2]%elem_insert; [auto..|]. right. rewrite Hc. auto.
Qed.

Lemma act_end d a p p' : endOk d p → act maxRetries a p = Some p' → endOk d p'.
Proof.
  intros He. assert (Hw : ∀ p', deciders p' = wakeDecider <$> deciders p → rootDone p' = rootDone p →
    manifestClosed p' = manifestClosed p → manifestCh p' = manifestCh p → endOk d p').
  { intros p0 Ed Er Ec Em. apply (end_same d p); rewrite ?Ed, ?length_fmap, ?Er; auto. apply ended_wake. }
  destruct a as [g| | |i| |ok|j|j ok|j|j ok|i|i f|c k|c k|t|]; cbn [act].
  - destruct (manifestClosed p) eqn:Hc; [done|]. intros [= <-]. destruct He as [H1 H2]. split; proj; [done|].
    intros [?|[? _]]%H2; [auto|congruence].
  - intros [= <-]. destruct He as [H1 H2]. split; proj; [done|]. intros [?|[_ ?]]%H2; auto.
  - intros [= <-]. apply (end_same d p); proj; auto.
  - destruct (workers p !! i); [|done]. intros [= <-]. by apply (end_same d p).
  - destruct (pipelineDone p); [done|]. intros [= <-]. by apply (end_same d p).
  - destruct (joins p); [done|]. destruct ok; intros [= <-]; by apply (end_same d p).
  - destruct (deciders p !! j) as [[]|] eqn:Hj; try done; destruct (manifestCh p) as [|g l] eqn:El; try done.
    + destruct (manifestClosed p) eqn:Hc; [|done]. intros [= <-]. apply (end_decider d p _ j DRange DEnded); proj; auto.
    + intros [= <-]. apply (end_decider d p _ j DRange (DDecide (g_needs g))); proj; auto; [done|]. by rewrite El.
  - destruct (deciders p !! j) as [[]|] eqn:Hj; try done. destruct ok; intros [= <-].
    + by apply (end_decider d p _ j (DDecide its) (DPush its)).
    + apply (end_decider d p _ j (DDecide its) DEnded); proj; auto.
  - destruct (deciders p !! j) as [[| |its| | |]|] eqn:Hj; try done.
    destruct (pushGroup _ its (nq p)) as [[[e|] q]|] eqn:Ep; intros [= <-].
    + by apply (end_decider d p _ j (DPush its) DRange).
    + by apply (end_decider d p _ j (DPush its) DCredit); destruct its.
    + by apply (end_decider d p _ j (DPush its) (DAsleep its)).
  - destruct (deciders p !! j) as [[]|] eqn:Hj; try done. destruct ok; intros [= <-].
    + by apply (end_decider d p _ j DCredit DRange).
    + apply (end_decider d p _ j DCredit DEnded); proj; auto.
  - destruct (workers p !! i) as [[[| | |] ret]|] eqn:Hi; try done.
    destruct (pop _ (nq p)) as [[[it|] q]|] eqn:Ep; intros [= <-]; [by apply Hw|by apply (end_same d p)..].
  - destruct (workers p !! i) as [[[| |it|] ret]|] eqn:Hi; try done. unfold resolveItem.
    destruct f as [[]| |[]]; repeat case_match; intros; simplify_eq; by apply (end_same d p).
  - destruct (parked p !! k) as [it|]; [|done]. destruct (mayFallBack p c); [|done]. intros [= <-]. by apply (end_same d p).
  - destruct (parked p !! k) as [it|]; [|done]. destruct (mayFallBack p c); [|done]. intros [= <-]. by apply (end_same d p).
  - destruct t as [j|i|]; repeat case_match; intros; simplify_eq; first [by apply Hw|by apply (end_same d p)].
  - destruct (mainPhase p); try done; repeat case_match; intros; simplify_eq; first [by apply Hw|by apply (end_same d p)].
Qed.
Lemma acts_end d l p p' : endOk d p → acts maxRetries l p = Some p' → endOk d p'.
Proof.
  revert p. induction l as [|a l IH]; intros p Hp; cbn [acts]; [by intros [= <-]|].
  destruct (act maxRetries a p) as [p1|] eqn:E; [|done]. by apply IH, (act_end d a p).
Qed.
Lemma newPipe_end d n : endOk d (newPipe cap d n).
Proof. split; cbn; [apply length_replicate|]. by intros ?%elem_of_replicate_inv. Qed.

(** Nothing is left when [pipeline.wait] returns. *)
Lemma finished_all d p : (0 < d)%nat → pipeOk cap p → endOk d p → mainPhase p = MDone → rootDone p = false →
  live p = 0%nat ∧ manifestCh p = [] ∧ items (nq p) = [] ∧ held p = [] ∧
  given (books p) ++ fallen (books p) ≡ₚ accepted (books p).
Proof.
  intros Hd [Hq _ Hst Hg] [Hl He] Hm Hr.
  assert (Hnd : mainPhase p ≠ MDecide) by by rewrite Hm.
  assert (Hlive : live p = 0%nat) by (pose proof (st_end _ Hst Hm); rewrite (st_wg _ Hst) in *; lia).
  assert (Hpd : pipelineDone p = true) by (rewrite (st_done _ Hst); apply bool_decide_eq_true; by right).
  destruct (st_drained _ Hst Hpd) as [|Hdr]; [congruence|]. unfold drained in Hdr.
  apply andb_prop in Hdr as [[_ Hit%Nat.eqb_eq%nil_length_inv]%andb_prop Hin%Z.eqb_eq].
  pose proof (st_deciders _ Hst Hnd) as Hde.
  assert (Hmc : manifestCh p = []).
  { destruct (deciders p) as [|x ds]; [cbn in Hl; lia|]. apply Forall_cons in Hde as [-> _].
    destruct He as [|[_ ?]]; [by left|congruence|done]. }
  split_and!; [done..| |].
  - rewrite (qOk_inflight _ _ _ _ Hq) in Hin. apply nil_length_inv. lia.
  - rewrite (go_given _ _ Hg Hr). unfold undecided. rewrite Hmc. cbn. rewrite app_nil_r.
    assert (Hn : mjoin (deciding <$> deciders p) = []) by (clear -Hde; induction Hde as [|? ? -> _ IH]; [done|exact IH]).
    by rewrite Hn, app_nil_r.
Qed.
End finished.

(** ** The pipeline drains *)

(** C10: the receiver's pipeline drains.  After any interleaving of the decide pool,
    the fetch workers, [pipeline.wait], the broadcasts and the context callbacks:
    the items the queue accepted are those queued, in flight or resolved; a goroutine
    asleep on the queue is asleep because its condition is false, so no wake-up is
    lost; the pipeline's own goroutines make only finitely many steps; once the
    manifest channel is closed they are never stuck while the session is cancelled,
    a worker is alive or a channel is being joined; and when [pipeline.wait] is done
    in a session that was not cancelled, no worker is left and the needed files of
    every group received, and every hard link that had to be fetched instead, even
    after the queue was closed, are resolved exactly once. *)
Theorem pipeline_drains maxRetries cap d n l p :
  0 <= cap → (0 < d)%nat → Forall (actionOk cap) l → acts maxRetries l (newPipe cap d n) = Some p →
  (key <$> accepted (books p)) ≡ₚ (key <$> items (nq p)) ++ (key <$> held p) ++ (key <$> resolved (books p)) ∧
  sleepOk p ∧
  (∀ l' p', Forall own l' → acts maxRetries l' p = Some p' → (length l' <= work maxRetries p)%nat) ∧
  (manifestClosed p = true → mainPhase p ≠ MDone → rootDone p = true ∨ (0 < live p + joins p)%nat →
     ∃ a, own a ∧ is_Some (act maxRetries a p)) ∧
  (mainPhase p = MDone → live p = 0%nat ∧ joins p = 0%nat ∧
     (rootDone p = false → manifestCh p = [] ∧ (key <$> given (books p) ++ fallen (books p)) ≡ₚ (key <$> resolved (books p)))).
Proof.
  intros Hc Hd Hl E. pose proof (pipe_acts_ok _ _ _ _ _ Hc Hl (newPipe_ok _ d n Hc) E) as Hp.
  pose proof (acts_end _ _ _ _ _ (newPipe_end cap d n) E) as He.
  assert (Hacc : (key <$> accepted (books p)) ≡ₚ (key <$> items (nq p)) ++ (key <$> held p) ++ (key <$> resolved (books p))).
  { rewrite <- !fmap_app. apply (po_queue _ _ Hp). }
  split_and!; [done|apply Hp| | |].
  - intros l' p' Hl' E'. apply pipe_acts_work in E'; [lia|done].
  - intros Hm Hmd Hlv. by apply (pipe_can_go _ cap).
  - intros Hm. pose proof (st_end _ (po_stage _ _ Hp) Hm) as Hwg. rewrite (st_wg _ (po_stage _ _ Hp)) in Hwg.
    split_and!; [lia..|]. intros Hr. destruct (finished_all _ _ _ Hd Hp He Hm Hr) as (_ & Hmc & Hi & Hh & Hg). split; [done|].
    rewrite (fmap_Permutation key _ _ Hg), Hacc, Hi, Hh. done.
Qed.

(** *** Witness: one channel, a queue of two, a decider that has to wait, a retry,
    and a link that fails after the queue is closed *)
Definition ex_item (id g : Z) : needItem := mkItem id g (10 * id) [] 0.
Definition ex_g0 : group := mkGroup [ex_item 1 0; ex_item 2 0] [].
Definition ex_g1 : group := mkGroup [ex_item 3 1] [ex_item 4 1].
Definition ex_decided (j : nat) : list action := [ATake j; ADecided j true; APush j].
Definition ex_run : list action :=
  [AManifest ex_g0; APop 0] ++ ex_decided 0 ++ [AManifest ex_g1; ACloseManifest] ++ ex_decided 1 ++
  [ACredit 0 true; ATake 0; APop 0; APush 1; ACredit 1 true; ATake 1; AResolve 0 (Retried false);
   AMain; AMain; APop 0; AResolve 0 (Resolved false); APop 0; AResolve 0 (Resolved false);
   APop 0; AFallback (ByWorker 0) 0; AResolve 0 (Resolved false); APop 0; AResolve 0 (Resolved false);
   APop 0; AMain; AMain].
Definition ex_pipe : pipe := default (newPipe 2 2 1) (acts 3 ex_run (newPipe 2 2 1)).

Lemma oneGroup_all g its : Forall (λ x, groupID x = g) its → oneGroup its.
Proof. rewrite Forall_forall. intros H x y Hx Hy. by rewrite (H x Hx), (H y Hy). Qed.

Lemma pipeline_drains_witness :
  mainPhase ex_pipe = MDone ∧ (key <$> given (books ex_pipe) ++ fallen (books ex_pipe)) ≡ₚ (key <$> resolved (books ex_pipe)).
Proof.
  assert (E : acts 3 ex_run (newPipe 2 2 1) = Some ex_pipe) by (vm_compute; reflexivity).
  assert (Hl : Forall (actionOk 2) ex_run).
  { assert (H0 : actionOk 2 (AManifest ex_g0)) by (split; [vm_compute; discriminate|apply (oneGroup_all 0); by repeat constructor]).
    assert (H1 : actionOk 2 (AManifest ex_g1)) by (split; [vm_compute; discriminate|apply (oneGroup_all 1); by repeat constructor]).
    apply Forall_cons. split; [exact H0|]. do 4 (apply Forall_cons; split; [exact I|]). apply Forall_cons. split; [exact H1|].
    repeat (apply Forall_cons; split; [exact I|]). apply Forall_nil. exact I. }
  assert (Hm : mainPhase ex_pipe = MDone) by (vm_compute; reflexivity).
  destruct (pipeline_drains 3 2 2 1 ex_run ex_pipe) as (_ & _ & _ & _ & H); [lia|lia|exact Hl|exact E|].
  split; [exact Hm|]. destruct (H Hm) as (_ & _ & Hr). apply Hr. vm_compute. reflexivity.
Defined.

(** The decider of the example waits for room, and the last item was accepted
    after the queue was closed. *)
Lemma ex_decider_waits :
  (deciders <$> acts 3 (take 10 ex_run) (newPipe 2 2 1)) = Some [DCredit; DAsleep [ex_item 3 1]] ∧
  ((λ p, (closed (nq p), fallen (books p))) <$> acts 3 (take 26 ex_run) (newPipe 2 2 1)) = Some (true, [ex_item 4 1]).
Proof. split; vm_compute; reflexivity. Qed.

(** When the last channel is lost and no rejoin is under way, nothing moves: the
    queue still holds work, every goroutine sleeps, and only the rejoin loop's
    verdict or another cancellation ends the session. *)
Definition ex_lost : list action :=
  [AManifest ex_g0; ACloseManifest] ++ ex_decided 0 ++ [ACredit 0 true; ATake 0; AMain; AMain; APop 0; AResolve 0 Back; AMain].
Lemma last_worker_lost : ∃ p, acts 3 ex_lost (newPipe 2 1 1) = Some p ∧ live p = 0%nat ∧ mainPhase p = MAsleep ∧
  length (items (nq p)) = 2%nat ∧ ∀ a, own a → act 3 a p = None.
Proof.
  eexists. split; [vm_compute; reflexivity|]. split_and!; [reflexivity..|].
  intros a Ho. destruct a as [g| | |i| |ok|j|j ok|j|j ok|i|i f|c k|c k|t|]; try done.
  all: try (destruct j as [|[]]; reflexivity).
  all: try (destruct i as [|[]]; reflexivity).
  all: try (destruct t as [[|[]]|[|[]]|]; reflexivity).
Qed.
