(* ===== verification/Workers.v ===== *)
(** * Workers: the decisions and the fetch loop as goroutines of the pipeline

    Pipeline leaves open what a group needs, which hard links fail and how an item
    ends.  Here [loop] of Fetch and [decideGroup] of Decide are shown to be runs of
    its actions: the goroutines that are modelled in detail, over the file system,
    the journal and the channel, are goroutines of the pipeline. *)
From S2P Require Import Prelude Fault Strconv Glob Wire Digest Plan Paths Fs Dest Decide Queue Receiver Fetch Pipeline.

(** ** The worker of Fetch

    What [settle] of Fetch does with a popped item is one [fate], so a turn of its
    [loop] is [APop], the hard links of the item ([AFallback], [ALinked]) and
    [AResolve]. *)
Definition fateOf (maxRetries : Z) (env : lenv) (it : needItem) (r : result gerr unit) : fate :=
  match r with
  | Ok _ => Resolved false
  | Err err =>
      if le_cancelled env || asChannelLost err then Back
      else if IsFatal (Some err) then Resolved true
      else if IsRetryable err && (attempt it + 1 <=? maxRetries) then Retried (le_backoff env || asDesynced err)
      else Resolved (asDesynced err)
  end.
Definition stops (f : fate) : bool := match f with Back => true | Resolved b | Retried b => b end.

Lemma settle_fate f env it r s o s' : settle f env it r s = (o, s') →
  let ft := fateOf (fe_maxRetries f) env it r in
  Receiver.sh_q (fs_sh s') = fateQueue it ft (Receiver.sh_q (fs_sh s)) ∧
  match o with Go => stops ft = false | Stop _ => stops ft = true | Blocked => False end ∧
  (∀ b, ft = Retried b → attempt it + 1 <= fe_maxRetries f).
Proof.
  unfold settle, fateOf. destruct r as [u|err]; [by intros [= <- <-]|].
  destruct (le_cancelled env); cbn [orb]; [by intros [= <- <-]|].
  destruct (asChannelLost err); [by intros [= <- <-]|].
  destruct (IsFatal (Some err)); [by intros [= <- <-]|].
  destruct (IsRetryable err && (attempt it + 1 <=? fe_maxRetries f)) eqn:Hr.
  - apply andb_true_iff in Hr as [_ Hr%Z.leb_le]. intros [= <- <-]. destruct (le_backoff env), (asDesynced err); by split_and!.
  - intros [= <- <-]. split_and!; [exact (proj1 (giveUp_spec it s))|by destruct (asDesynced err)|done].
Qed.

(** The hard links that failed are pushed one by one. *)
Lemma acts_fallbacks maxRetries i it ret secs rest p :
  workers p !! i = Some (mkWorker (WHold it) ret) → parked p = secs ++ rest →
  ∃ p', acts maxRetries (replicate (length secs) (AFallback (ByWorker i) 0)) p = Some p' ∧
    nq p' = fallbacks secs (nq p) ∧ parked p' = rest ∧ workers p' !! i = Some (mkWorker (WHold it) ret).
Proof.
  revert p. induction secs as [|x secs IH]; intros p Hi Hk; [by exists p|].
  cbn [length replicate acts act mayFallBack]. rewrite Hk, Hi. cbn [lookup list_lookup app].
  apply IH; proj; [|done]. by rewrite list_lookup_fmap, Hi.
Qed.

(** A turn of the worker is a run of its actions here. *)
Lemma turn_is_acts `{Digest.HashFns} f env s o s' p i ret :
  workers p !! i = Some (mkWorker WPop ret) → nq p = Receiver.sh_q (fs_sh s) → le_pop env = ctxErr (rootDone p || ret) →
  turn f env s = (o, s') →
  ∃ secs l p', Forall own l ∧ acts (fe_maxRetries f) l (setParked (secs ++ parked p) p) = Some p' ∧
    nq p' = Receiver.sh_q (fs_sh s') ∧ parked p' = parked p ∧
    workers p' !! i = Some (mkWorker (match o with Go => WPop | Stop _ => WEnded | Blocked => WAsleep end) ret).
Proof.
  intros Hi Hq He Et%turn_queue. rewrite He, <- Hq in Et. pose proof (lookup_lt_Some _ _ _ Hi) as Hlt.
  destruct (pop (ctxErr (rootDone p || ret)) (nq p)) as [[[it|] q]|] eqn:Ep.
  - destruct Et as (secs & r & t & _ & Hqt & Es). apply settle_fate in Es as (Hq' & Ho & Hr).
    set (ft := fateOf (fe_maxRetries f) env it r) in *. set (p0 := setParked (secs ++ parked p) p).
    set (p1 := wakeFull (setWorker i (mkWorker (WHold it) ret) (setQueue q p0))).
    destruct (acts_fallbacks (fe_maxRetries f) i it ret secs (parked p) p1) as (p2 & E2 & Q2 & K2 & W2); [|done|].
    { unfold p1, p0. proj. by rewrite list_lookup_insert_eq. }
    assert (Hres : ∃ p3, resolveItem (fe_maxRetries f) i it ret ft p2 = Some p3 ∧ nq p3 = fateQueue it ft (nq p2) ∧ parked p3 = parked p2 ∧
      workers p3 !! i = Some (mkWorker (if stops ft then WEnded else WPop) ret)).
    { pose proof (lookup_lt_Some _ _ _ W2). unfold resolveItem. destruct ft as [stop| |stop] eqn:Ef.
      - destruct (drained _), stop; eexists; (split; [reflexivity|]); proj; by rewrite list_lookup_insert_eq by (rewrite ?length_fmap; done).
      - eexists; (split; [reflexivity|]); proj. by rewrite list_lookup_insert_eq by (rewrite ?length_fmap; done).
      - rewrite (proj2 (Z.leb_le _ _)) by (by eapply Hr).
        destruct stop; eexists; (split; [reflexivity|]); proj; by rewrite list_lookup_insert_eq by (rewrite ?length_fmap; done). }
    destruct Hres as (p3 & E3 & Q3 & K3 & W3).
    exists secs, (APop i :: replicate (length secs) (AFallback (ByWorker i) 0) ++ [AResolve i ft]), p3. split_and!.
    + apply Forall_cons. split; [done|]. apply Forall_app. split; [by apply Forall_replicate|by apply Forall_singleton].
    + fold p0. cbn [acts act]. change (workers p0) with (workers p). rewrite Hi. change (nq p0) with (nq p). change (rootDone p0) with (rootDone p).
      rewrite Ep. fold p1. rewrite acts_app, E2. cbn [acts act]. rewrite W2, E3. done.
    + rewrite Q3, Q2, Hq', Hqt. done.
    + by rewrite K3, K2.
    + rewrite W3. by destruct o; [rewrite Ho|rewrite Ho|].
  - destruct Et as [-> Hq']. exists [], [APop i]. eexists. split; [by apply Forall_singleton|]. cbn [acts act app].
    change (workers (setParked _ p)) with (workers p). rewrite Hi. change (nq (setParked _ p)) with (nq p).
    change (rootDone (setParked _ p)) with (rootDone p). rewrite Ep. split; [reflexivity|]. proj.
    apply pop_none in Ep. rewrite list_lookup_insert_eq by done. by rewrite Hq', Ep.
  - destruct Et as [-> ->]. exists [], [APop i]. eexists. split; [by apply Forall_singleton|]. cbn [acts act app].
    change (workers (setParked _ p)) with (workers p). rewrite Hi. change (nq (setParked _ p)) with (nq p).
    change (rootDone (setParked _ p)) with (rootDone p). rewrite Ep. split; [reflexivity|]. proj.
    by rewrite list_lookup_insert_eq by done.
Qed.

(** ** The decider of Decide

    What [decideGroup] does to the queue: the links that fail on the way are pushed
    one by one, then the group. *)
Section decideGroup.
Context `{Unicode} `{HashFns} (statKey : Z → inode → Algo → option CacheKey) (d : Decide.decider).
Implicit Types s : dst.

Definition enlarges s s' : Prop := gains (sh_q (ds_sh s)) (sh_q (ds_sh s')).
Lemma enlarges_same s s' : sh_q (ds_sh s') = sh_q (ds_sh s) → enlarges s s'.
Proof. unfold enlarges. intros ->. apply gains_refl. Qed.
Lemma enlarges_trans s1 s2 s3 : enlarges s1 s2 → enlarges s2 s3 → enlarges s1 s3.
Proof. apply gains_trans. Qed.
Lemma runDest_queue {A} (m : SE world gerr A) sh r sh' : runDest m sh = (r, sh') → sh_q sh' = sh_q sh.
Proof. unfold runDest. destruct (m _). by intros [= _ <-]. Qed.
Lemma runRoot_queue {A} (m : IO A) s r s' : runRoot m s = (r, s') → sh_q (ds_sh s') = sh_q (ds_sh s).
Proof. unfold runRoot. destruct (m _). by intros [= _ <-]. Qed.
Lemma foldl_fetchInstead_gains g (ls : list pendingLink) sh :
  gains (sh_q sh) (sh_q (foldl (λ sh o, fetchInstead g (pl_fileID o) (pl_rel o) sh) sh ls)).
Proof.
  revert sh. induction ls as [|l ls IH]; intros sh; cbn [foldl]; [apply gains_refl|].
  eapply gains_trans; [apply fetchInstead_joins|apply IH].
Qed.

Lemma decideFileContent_queue rel e s : sh_q (ds_sh (decideFileContent statKey d rel e s).2) = sh_q (ds_sh s).
Proof.
  unfold decideFileContent. destruct (runRoot (Lstat rel) s) as [fi s1] eqn:E. apply runRoot_queue in E.
  destruct fi as [[m|i|t]|]; try done. destruct (negb _); [done|]. destruct (_ && _); [done|].
  case_bool_decide; [done|]. unfold hashDest. destruct (runRoot (OpenRead rel) s1) as [o s2] eqn:E2.
  apply runRoot_queue in E2. rewrite <- E, <- E2.
  destruct o; destruct (HashFile _ _ _ _ _ _ _ _) as [r c]; by destruct r.
Qed.
Lemma decideFile_enlarges g rel id e s : enlarges s (decideFile statKey d g rel id e s).2.
Proof.
  assert (Hc : ∀ (b : bool) s1, enlarges s s1 →
    enlarges s (let '(need, s) := decideFileContent statKey d rel e s1 in
             if b && negb need && negb (de_dryRun d) then
               let '(ls, h) := registerMaterialised id rel (sh_hl (ds_sh s)) in
               (need, withSh (λ sh, linkOrFallback g rel ls (onHL h sh)) s)
             else (need, s)).2).
  { intros b s1 Hs. pose proof (decideFileContent_queue rel e s1) as Hk.
    destruct (decideFileContent statKey d rel e s1) as [need s2]. cbn [snd] in Hk. apply enlarges_same in Hk.
    pose proof (enlarges_trans _ _ _ Hs Hk) as Hs2. destruct (_ && _); [|done].
    destruct (registerMaterialised _ _ _) as [ls h]. eapply enlarges_trans; [exact Hs2|].
    exact (proj1 (linkOrFallback_joins g rel ls (onHL h (ds_sh s2)))). }
  unfold decideFile. destruct (hasHardlinkKey _); [|apply (Hc false), enlarges_same; done].
  destruct (pathFor _ _) as [p|].
  - destruct (de_dryRun d); [by apply enlarges_same|]. destruct (runDest _ (ds_sh s)) as [r sh] eqn:E. apply runDest_queue in E.
    destruct r; [by apply enlarges_same|]. destruct (clear _ _) as [orphans h]. apply (Hc true). unfold enlarges. rewrite <- E.
    exact (foldl_fetchInstead_gains g orphans (onHL h sh)).
  - destruct (claimSecondary _ _ _ _) as [[] h]; [by apply enlarges_same|]. apply (Hc true). by apply enlarges_same.
Qed.
Lemma decideDir_queue rel e s : sh_q (ds_sh (decideDir d rel e s)) = sh_q (ds_sh s).
Proof.
  unfold decideDir. destruct (de_dryRun d); case_bool_decide; try done.
  all: cbn [ds_sh withSh]; destruct (runDest _ _) as [r sh] eqn:E; by apply runDest_queue in E.
Qed.
Lemma decideSymlink_queue rel e s : sh_q (ds_sh (decideSymlink d rel e s)) = sh_q (ds_sh s).
Proof.
  unfold decideSymlink. destruct (de_dryRun d); [done|].
  assert (Hm : ∀ s1, sh_q (ds_sh (placeSymlink d rel (ManifestEntry.LinkTarget e) s1)) = sh_q (ds_sh s1)).
  { intros s1. unfold placeSymlink. destruct (runDest _ _) as [r sh] eqn:E. apply runDest_queue in E.
    destruct r; cbn; [done|]. by case_bool_decide. }
  destruct (runRoot (Lstat rel) s) as [fi s1] eqn:E. apply runRoot_queue in E.
  destruct fi as [[m|i|t]|]; try by rewrite Hm.
  destruct (runRoot (Readlink rel) s1) as [c s2] eqn:E2. apply runRoot_queue in E2.
  destruct c; [case_bool_decide|]; rewrite ?Hm; congruence.
Qed.
Lemma decideEntry_enlarges gm i e a s : enlarges s (decideEntry statKey d gm i e a s).2.
Proof.
  unfold decideEntry. destruct (ValidatePath _ _); [by apply enlarges_same; cbn; case_match|].
  destruct (Add _ _) as [cErr col]. set (s1 := mkDst _ _ _ _ _ _). assert (H1 : enlarges s s1) by by apply enlarges_same.
  destruct cErr; [by apply enlarges_same|]. destruct (de_prior d !! _); [by apply enlarges_same|].
  destruct (_ =? entryTypeDir); [eapply enlarges_trans; [exact H1|apply enlarges_same, decideDir_queue]|].
  destruct (_ =? entryTypeSymlink); [eapply enlarges_trans; [exact H1|apply enlarges_same, decideSymlink_queue]|].
  unfold decideRegular. destruct (decideFile _ _ _ _ _ _ _) as [need s2] eqn:E.
  assert (H2 : enlarges s s2).
  { eapply enlarges_trans; [exact H1|]. set (s1' := if fm_hasHLKey _ then _ else _) in E.
    pose proof (decideFile_enlarges (GroupManifest.GroupID gm) (FromSlash (ManifestEntry.Path e)) (wrap_u 64 (GroupManifest.FirstFileID gm + Z.of_nat i)) e s1') as Hg.
    rewrite E in Hg. eapply enlarges_trans; [|exact Hg]. apply enlarges_same. unfold s1'. by destruct (fm_hasHLKey _). }
  destruct (negb need); [eapply enlarges_trans; [exact H2|by apply enlarges_same]|].
  destruct (fm_hasHLKey _); [exact H2|eapply enlarges_trans; [exact H2|by apply enlarges_same]].
Qed.
Lemma decideEntries_enlarges gm es : ∀ i a s, enlarges s (decideEntries statKey d gm i es a s).2.
Proof.
  induction es as [|e es IH]; intros i a s; cbn [decideEntries]; [by apply enlarges_same|].
  pose proof (decideEntry_enlarges gm i e a s) as He. destruct (decideEntry _ _ _ _ _ _ _) as [a1 s1].
  eapply enlarges_trans; [exact He|apply IH].
Qed.

Lemma send_queue m s e s' : send m s = (e, s') → sh_q (ds_sh s') = sh_q (ds_sh s).
Proof. by intros [-> _]%send_spec. Qed.

(** What is left of a call that returned [e] or waits: the queue it leaves. *)
Definition leaves (ctx : option stdErr) (its : list needItem) (q : needQueue) (o : dres) : Prop :=
  match o with
  | Waiting its' s' => its' = its ∧ pushGroup ctx its q = None ∧ sh_q (ds_sh s') = q
  | Returned e s' =>
      is_Some e ∧ sh_q (ds_sh s') = q ∨
      pushGroup ctx its q = Some (None, sh_q (ds_sh s')) ∨
      e = None ∧ sh_q (ds_sh s') = q ∧ ∃ x, pushGroup ctx its q = Some (Some x, q)
  end.
Lemma decideResume_leaves ctx its s : de_dryRun d = false → leaves ctx its (sh_q (ds_sh s)) (decideResume d ctx its s).
Proof.
  intros Hd. unfold decideResume. rewrite Hd. destruct (pushGroup ctx its (sh_q (ds_sh s))) as [[[e|] q]|] eqn:Ep.
  - assert (Hq : q = sh_q (ds_sh s) ∧ (isStd (StdOther "need queue closed") e = true ∨ ctx ≠ None)).
    { unfold pushGroup in Ep. destruct its as [|x its]; [done|]. destruct (_ && _).
      - destruct ctx; [|done]. injection Ep as _ <-. split; [done|by right].
      - destruct (closed _); [|done]. injection Ep as <- <-. split; [done|by left]. }
    destruct Hq as [-> He]. destruct (_ || _) eqn:Eb.
    + right; right. split_and!; [done..|]. by exists e.
    + exfalso. apply orb_false_iff in Eb as [E1 E2]. destruct He as [He|He]; [congruence|]. by rewrite bool_decide_true in E2.
  - destruct (send _ _) as [e s'] eqn:E. apply send_queue in E. right; left. by rewrite E.
  - done.
Qed.

(** A whole group, from the channel on. *)
Lemma decideGroup_leaves ctx syncErr gm s : de_dryRun d = false →
  ∃ its q, gains (sh_q (ds_sh s)) q ∧ leaves ctx its q (decideGroup statKey d ctx syncErr gm s) ∧
    its = a_items (decideEntries statKey d gm 0 (GroupManifest.Entries gm) (mkAcc [] [] [] 0 0) s).1.
Proof.
  intros Hd. unfold decideGroup. pose proof (decideEntries_enlarges gm (GroupManifest.Entries gm) 0 (mkAcc [] [] [] 0 0) s) as Hg.
  destruct (decideEntries _ _ _ _ _ _ _) as [a s1]. cbn [fst snd] in *. exists (a_items a), (sh_q (ds_sh s1)).
  split; [exact Hg|]. split; [|done]. destruct (send _ _) as [[e|] s2] eqn:E; apply send_queue in E; [by left; eauto|].
  change (sh_q (ds_sh s1)) with (sh_q (ds_sh (withSh (addNeeded (a_bytes a) (Z.of_nat (length (merge_sort Z.le (a_needed a))))) s1))).
  rewrite <- E. destruct syncErr as [e|]; [by left; eauto|].
  destruct (0 <? a_bytes a); [|by apply decideResume_leaves].
  destruct (spaceGuard.reserve _ _) as [[w [e|]] g]; [by left; eauto|].
  by apply (decideResume_leaves ctx (a_items a) (withSh (onGuard g) s2)).
Qed.
End decideGroup.

(** The links that fail while a group is decided. *)
Lemma acts_decider_fallbacks maxRetries j its secs rest p :
  deciders p !! j = Some (DDecide its) → parked p = secs ++ rest →
  ∃ p', acts maxRetries (replicate (length secs) (AFallback (ByDecider j) 0)) p = Some p' ∧
    nq p' = fallbacks secs (nq p) ∧ parked p' = rest ∧ deciders p' = deciders p ∧ rootDone p' = rootDone p ∧ manifestCh p' = manifestCh p.
Proof.
  revert p. induction secs as [|x secs IH]; intros p Hj Hk; [by exists p|].
  cbn [length replicate acts act mayFallBack]. rewrite Hk, Hj. cbn [lookup list_lookup app].
  set (p1 := wakeEmpty (setBooks (mkLedger (given (books p)) (fallen (books p) ++ [x]) (accepted (books p) ++ [x]) (resolved (books p)))
    (setQueue (pushFallback x (nq p)) (setParked (secs ++ rest) p)))).
  destruct (IH p1) as (p' & E & Q & K & D & R & M); [exact Hj|done|]. exists p'. by split_and!.
Qed.

(** What a call of [decideGroup] leaves its goroutine in. *)
Definition deciderAfter (o : dres) : decider :=
  match o with Waiting its _ => DAsleep its | Returned None _ => DRange | Returned (Some _) _ => DEnded end.
Definition queueAfter (o : dres) : needQueue := match o with Waiting _ s | Returned _ s => sh_q (ds_sh s) end.

(** From the decision to the end of the call. *)
Lemma push_is_acts maxRetries p j its o :
  deciders p !! j = Some (DDecide its) → leaves (ctxErr (rootDone p)) its (nq p) o →
  ∃ las p', Forall own las ∧ acts maxRetries las p = Some p' ∧
    nq p' = queueAfter o ∧ deciders p' !! j = Some (deciderAfter o) ∧ manifestCh p' = manifestCh p ∧ parked p' = parked p.
Proof.
  intros Hj Hl. pose proof (lookup_lt_Some _ _ _ Hj) as Hlt. set (p1 := setDecider j (DPush its) p).
  assert (Hj1 : deciders p1 !! j = Some (DPush its)) by (unfold p1; proj; by rewrite list_lookup_insert_eq).
  assert (Hthen : ∀ las p', acts maxRetries las p1 = Some p' → acts maxRetries (ADecided j true :: las) p = Some p').
  { intros las p' E. assert (E1 : act maxRetries (ADecided j true) p = Some p1) by (cbn [act]; by rewrite Hj). cbn [acts]. by rewrite E1. }
  assert (Hpush : act maxRetries (APush j) p1 = match pushGroup (ctxErr (rootDone p)) its (nq p) with
    | None => Some (setDecider j (DAsleep its) p1) | Some (Some _, _) => Some (setDecider j DRange p1)
    | Some (None, q) =>
        let b := books p in
        let p := setBooks (mkLedger (given b) (fallen b) (accepted b ++ its) (resolved b)) (setQueue q p1) in
        Some (setDecider j DCredit (match its with [] => p | _ => wakeEmpty p end)) end).
  { cbn [act]. rewrite Hj1. change (nq p1) with (nq p). change (rootDone p1) with (rootDone p). by destruct (pushGroup _ its _) as [[[]]|]. }
  assert (Hmoved : ∀ x, deciders (setDecider j x p1) !! j = Some x).
  { intros x. unfold p1. proj. by rewrite list_insert_insert_eq, list_lookup_insert_eq. }
  destruct o as [e s'|its' s']; [destruct Hl as [[[x ->] Hs']|[Hp|(-> & Hs' & x & Hp)]]|destruct Hl as (-> & Hp & Hs')].
  - exists [ADecided j false], (cancel (setDecider j DEnded p)). split_and!; try done; [by apply Forall_singleton|cbn [acts act]; by rewrite Hj|].
    proj. by rewrite list_lookup_insert_eq.
  - rewrite Hp in Hpush. cbv zeta in Hpush.
    match type of Hpush with _ = Some ?x => set (p2 := x) in Hpush end.
    assert (H2 : nq p2 = sh_q (ds_sh s') ∧ deciders p2 !! j = Some DCredit ∧ manifestCh p2 = manifestCh p ∧ parked p2 = parked p).
    { unfold p2, p1. destruct its; proj; by rewrite list_insert_insert_eq, list_lookup_insert_eq. }
    destruct H2 as (Q2 & D2 & M2 & K2). pose proof (lookup_lt_Some _ _ _ D2). set (b := match e with None => true | Some _ => false end).
    exists [ADecided j true; APush j; ACredit j b], (if b then setDecider j DRange p2 else cancel (setDecider j DEnded p2)).
    split_and!; [by repeat constructor| |by destruct b| |by destruct b..].
    + apply Hthen. cbn [acts]. rewrite Hpush. cbn [act]. by rewrite D2.
    + destruct e; cbn [b deciderAfter]; proj; by rewrite list_lookup_insert_eq.
  - rewrite Hp in Hpush. exists [ADecided j true; APush j], (setDecider j DRange p1). split_and!; try done; [by repeat constructor|].
    apply Hthen. cbn [acts]. by rewrite Hpush.
  - rewrite Hp in Hpush. exists [ADecided j true; APush j], (setDecider j (DAsleep its) p1). split_and!; try done; [by repeat constructor|].
    apply Hthen. cbn [acts]. by rewrite Hpush.
Qed.

(** Deciding a group is a run of the decider's actions. *)
Lemma decide_is_acts `{Unicode} `{HashFns} maxRetries statKey d syncErr gm s p j l :
  de_dryRun d = false → deciders p !! j = Some DRange → nq p = sh_q (ds_sh s) →
  let o := decideGroup statKey d (ctxErr (rootDone p)) syncErr gm s in
  let its := a_items (decideEntries statKey d gm 0 (GroupManifest.Entries gm) (mkAcc [] [] [] 0 0) s).1 in
  ∃ secs las p', Forall own las ∧
    acts maxRetries las (setManifests (mkGroup its secs :: l) (manifestClosed p) p) = Some p' ∧
    nq p' = queueAfter o ∧ deciders p' !! j = Some (deciderAfter o) ∧ manifestCh p' = l ∧ parked p' = parked p.
Proof.
  intros Hd Hj Hq o its. pose proof (lookup_lt_Some _ _ _ Hj) as Hlt.
  destruct (decideGroup_leaves statKey d (ctxErr (rootDone p)) syncErr gm s Hd) as (its' & q & (secs & -> & _) & Hl & ->).
  fold its in Hl. fold o in Hl. set (p0 := setManifests (mkGroup its secs :: l) (manifestClosed p) p).
  set (p1 := setDecider j (DDecide its) (setParked (secs ++ parked p) (setManifests l (manifestClosed p) p))).
  assert (E1 : act maxRetries (ATake j) p0 = Some p1) by (unfold p0; cbn [act]; proj; by rewrite Hj).
  destruct (acts_decider_fallbacks maxRetries j its secs (parked p) p1) as (p2 & E2 & Q2 & K2 & D2 & R2 & M2); [|done|].
  { unfold p1. proj. by rewrite list_lookup_insert_eq. }
  change (rootDone p1) with (rootDone p) in R2. change (nq p1) with (nq p) in Q2. rewrite Hq in Q2. rewrite <- Q2, <- R2 in Hl.
  destruct (push_is_acts maxRetries p2 j its o) as (las & p' & Hown & E & Hn & Hdd & Hm & Hk); [|done|].
  { rewrite D2. unfold p1. proj. by rewrite list_lookup_insert_eq. }
  exists secs, (ATake j :: replicate (length secs) (AFallback (ByDecider j) 0) ++ las), p'. split_and!; try done.
  - apply Forall_cons. split; [done|]. apply Forall_app. split; [by apply Forall_replicate|done].
  - fold p0. change (acts maxRetries (ATake j :: ?la) ?st) with (match act maxRetries (ATake j) st with Some p => acts maxRetries la p | None => None end).
    by rewrite E1, acts_app, E2.
  - by rewrite Hm, M2.
  - by rewrite Hk, K2.
Qed.

(** ** Refinement *)

(** C11: the detailed goroutines are goroutines of the pipeline.  Whatever the
    channel, the disk and the journal do, a turn of a fetch worker's loop is a run
    of the pipeline's own actions: a pop, the content fallbacks of the hard links
    that failed, and one fate of the item, with the very queue the code leaves, the
    worker going on, ended or asleep as the loop says.  And whatever the tree, the
    cache and the sends do, a call of [decideGroup] outside a dry run is one: the
    fallbacks, then a push of exactly the items it found needed, the decider going
    on, ended or asleep in [pushGroup] as the call says. *)
Theorem goroutines_refine `{Unicode} `{HashFns} p :
  (∀ f env s o s' i ret,
     workers p !! i = Some (mkWorker WPop ret) → nq p = sh_q (fs_sh s) → le_pop env = ctxErr (rootDone p || ret) →
     turn f env s = (o, s') →
     ∃ secs las p', Forall own las ∧ acts (fe_maxRetries f) las (setParked (secs ++ parked p) p) = Some p' ∧
       nq p' = sh_q (fs_sh s') ∧ parked p' = parked p ∧
       workers p' !! i = Some (mkWorker (match o with Go => WPop | Stop _ => WEnded | Blocked => WAsleep end) ret)) ∧
  (∀ maxRetries statKey d syncErr gm s j l,
     de_dryRun d = false → deciders p !! j = Some DRange → nq p = sh_q (ds_sh s) →
     let o := decideGroup statKey d (ctxErr (rootDone p)) syncErr gm s in
     let its := a_items (decideEntries statKey d gm 0 (GroupManifest.Entries gm) (mkAcc [] [] [] 0 0) s).1 in
     ∃ secs las p', Forall own las ∧
       acts maxRetries las (setManifests (mkGroup its secs :: l) (manifestClosed p) p) = Some p' ∧
       nq p' = queueAfter o ∧ deciders p' !! j = Some (deciderAfter o) ∧ manifestCh p' = l ∧ parked p' = parked p).
Proof.
  split.
  - intros f env s o s' i ret. apply turn_is_acts.
  - intros maxRetries statKey d syncErr gm s j l. apply decide_is_acts.
Qed.

(** *** Witness: the example group of Decide *)
#[local] Instance ascii_names : Unicode := {| upperMap := id; lowerMap := id; normNFC := id |}.
#[local] Instance padded_hash : HashFns :=
  {| md5 c := take 16 (c ++ replicate 16 Byte.x00); sha256 c := take 32 (c ++ replicate 32 Byte.x00) |}.
Definition ex_workers : pipe := newPipe 10 1 1.
Lemma goroutines_refine_witness :
  ∃ its secs las p', length its = 1%nat ∧ Forall own las ∧ acts 3 las (setManifests [mkGroup its secs] false ex_workers) = Some p' ∧
    items (nq p') = its ∧ deciders p' !! 0%nat = Some DRange.
Proof.
  destruct (proj2 (goroutines_refine ex_workers) 3 Decide.ex_statKey Decide.ex_decider None Decide.ex_group Decide.ex_dst 0%nat [])
    as (secs & las & p' & Hown & E & Hq & Hd & _); [reflexivity..|].
  eexists _, secs, las, p'. split; [|split; [exact Hown|split; [exact E|split]]].
  - vm_compute. reflexivity.
  - rewrite Hq. vm_compute. reflexivity.
  - rewrite Hd. vm_compute. reflexivity.
Defined.
