(* ===== verification/Control.v ===== *)
(** * Control: the two readers of the control channel
    (src/internal/receiver/run.go, src/internal/sender/run.go)

    Each side has one goroutine that reads the control channel for the whole
    session and hands what it reads to the rest of the program.  A step takes one
    result of [RecvMsg].  The last part is the exchange of fatal errors. *)
From S2P Require Import Prelude Fault Strconv Glob Codec Record Wire Plan Digest Tracker Fs Manifest Serve Receiver Decide Fetch.

(** What a step leaves the goroutine doing; [Panicked] is a send on a closed Go
    channel. *)
Inductive readerState := Reading | Returned | Panicked.
#[global] Instance readerState_eq_dec : EqDecision readerState.
Proof. solve_decision. Defined.

Definition transportControl (err : gerr) : gerr :=
  if negb (bool_decide (GetCode err = [])) then err else EFault (Wrap E3004 "control channel transport" [] err).

(** ** The receiver's reader

    [total] and [seen] are its local variables; [manifestClosed], [manifests_] the
    channel to the deciders, [scanSlot] and [summarySlot] the two one-element
    channels; [fatal_] and [cancelled_] the session's. *)
Record rctl := mkRctl {
  total : Z; seen : Z; manifestClosed : bool; manifests_ : list GroupManifest.t;
  scanSlot : option ScanComplete.t; summarySlot : option SessionSummary.t; fatal_ : option gerr; cancelled_ : bool;
}.
Definition newRctl : rctl := mkRctl (-1) 0 false [] None None None false.
Definition rfail (e : gerr) (s : rctl) : rctl :=
  mkRctl (total s) (seen s) (manifestClosed s) (manifests_ s) (scanSlot s) (summarySlot s)
    (match fatal_ s with Some x => Some x | None => Some e end) true.
Definition rcancel (s : rctl) : rctl :=
  mkRctl (total s) (seen s) (manifestClosed s) (manifests_ s) (scanSlot s) (summarySlot s) (fatal_ s) true.
Definition closeManifest (s : rctl) : rctl :=
  mkRctl (total s) (seen s) true (manifests_ s) (scanSlot s) (summarySlot s) (fatal_ s) (cancelled_ s).
(** [return nil], with the deferred [closeManifest]. *)
Definition rreturn (s : rctl) : readerState * rctl := (Returned, closeManifest s).
Definition peerError (op : string) (v : Error.t) : gerr := fault (bs "E" ++ pad4 (Error.Code v)) op [] None.
Definition unexpected (m : Message) : gerr := fault E5001 "control.reader" (bs (MsgTypeString (Type_ m))) None.

(** [giveUp]: the select of a GROUP_MANIFEST took the cancelled context. *)
Definition rstep (r : result gerr Message) (giveUp : bool) (s : rctl) : readerState * rctl :=
  match r with
  | Err e =>
      let s := if negb (isStd StdEOF e) && negb (cancelled_ s) then rfail (transportControl e) s else s in
      rreturn (rcancel s)
  | Ok (MScanComplete v) =>
      let t := ScanComplete.TotalGroups v in
      let s := mkRctl t (seen s) (manifestClosed s) (manifests_ s) (match scanSlot s with Some x => Some x | None => Some v end)
                 (summarySlot s) (fatal_ s) (cancelled_ s) in
      (Reading, if t =? 0 then closeManifest s else s)
  | Ok (MGroupManifest v) =>
      if giveUp then rreturn s
      else if manifestClosed s then (Panicked, s)
      else
        let s := mkRctl (total s) (seen s + 1) false (manifests_ s ++ [v]) (scanSlot s) (summarySlot s) (fatal_ s) (cancelled_ s) in
        (Reading, if (0 <=? total s) && (total s <=? seen s) then closeManifest s else s)
  | Ok (MSessionSummary v) =>
      (Reading, mkRctl (total s) (seen s) (manifestClosed s) (manifests_ s) (scanSlot s)
         (match summarySlot s with Some x => Some x | None => Some v end) (fatal_ s) (cancelled_ s))
  | Ok (MError v) => rreturn (rfail (peerError "sender reported an error" v) s)
  | Ok m => rreturn (rfail (unexpected m) s)
  end.
Fixpoint rread (l : list (result gerr Message * bool)) (s : rctl) : readerState * rctl :=
  match l with
  | [] => (Reading, s)
  | (r, giveUp) :: l => match rstep r giveUp s with (Reading, s) => rread l s | x => x end
  end.

(** ** The sender's reader *)
Record sctl := mkSctl {
  s_tracker : tracker; s_credit : creditGate.t; s_skipped : Z; s_rejected : Z;
  ackSlot : option SessionSummaryAck.t; s_fatal : option gerr; s_cancelled : bool;
}.
(** The concrete type of a Go error; [fatal] is an [atomic.Value], whose
    [CompareAndSwap] panics on a value of another type than the one it holds. *)
Inductive goType := TFault | TChannelLost | TDesynced | TErrorString | TOther.
#[global] Instance goType_eq_dec : EqDecision goType.
Proof. solve_decision. Defined.
Definition typeOf (e : gerr) : goType :=
  match e with
  | EFault _ => TFault
  | EChannelLost _ => TChannelLost
  | EDesynced _ => TDesynced
  | EStd (StdEOF | StdUnexpectedEOF | StdCanceled) => TErrorString
  | EStd _ => TOther
  end.
(** [fatal.CompareAndSwap(nil, err)]; [None] is the panic. *)
Definition CompareAndSwap (e : gerr) (v : option gerr) : option (option gerr) :=
  match v with
  | None => Some (Some e)
  | Some x => if bool_decide (typeOf x = typeOf e) then Some v else None
  end.
Definition scancel (s : sctl) : sctl :=
  mkSctl (s_tracker s) (s_credit s) (s_skipped s) (s_rejected s) (ackSlot s) (s_fatal s) true.
(** [setFatal(err)]; [cancel()]; [return nil]. *)
Definition sfail (e : gerr) (s : sctl) : readerState * sctl :=
  match CompareAndSwap e (s_fatal s) with
  | None => (Panicked, s)
  | Some v => (Returned, scancel (mkSctl (s_tracker s) (s_credit s) (s_skipped s) (s_rejected s) (ackSlot s) v (s_cancelled s)))
  end.
Definition sstep (r : result gerr Message) (s : sctl) : readerState * sctl :=
  match r with
  | Err e => if negb (isStd StdEOF e) && negb (s_cancelled s) then sfail e s else (Returned, scancel s)
  | Ok (MGroupDecision v) =>
      match decision v (s_tracker s) with
      | (Some derr, t) => sfail derr (mkSctl t (s_credit s) (s_skipped s) (s_rejected s) (ackSlot s) (s_fatal s) (s_cancelled s))
      | (None, t) =>
          (Reading, mkSctl t (s_credit s) (wrap_i 64 (s_skipped s + GroupDecision.SkippedCount v))
             (s_rejected s + Z.of_nat (length (GroupDecision.Rejected v))) (ackSlot s) (s_fatal s) (s_cancelled s))
      end
  | Ok (MCredit v) =>
      (Reading, mkSctl (s_tracker s) (creditGate.add (Credit.AdditionalGroups v) (s_credit s)) (s_skipped s) (s_rejected s) (ackSlot s) (s_fatal s) (s_cancelled s))
  | Ok (MSessionSummaryAck v) =>
      (Reading, mkSctl (s_tracker s) (s_credit s) (s_skipped s) (s_rejected s) (match ackSlot s with Some x => Some x | None => Some v end) (s_fatal s) (s_cancelled s))
  | Ok (MError v) => sfail (peerError "receiver reported an error" v) s
  | Ok m => sfail (unexpected m) s
  end.
Fixpoint sread (l : list (result gerr Message)) (s : sctl) : readerState * sctl :=
  match l with
  | [] => (Reading, s)
  | r :: l => match sstep r s with (Reading, s) => sread l s | x => x end
  end.

(** ** Telling the peer why (the [Error] message of both [finish]es) *)
Definition notifyPeer (ferr : gerr) : option Message :=
  if isErrSignal ferr then None
  else
    let code := GetCode ferr in
    Some (MError (Error.mk (codeNum code) 1 code (bs (Condition code)))).

(** ** Every published group reaches the deciders, once and in order *)
Definition feed (ms : list Message) : list (result gerr Message * bool) := (λ m, (Ok m, false)) <$> ms.
Definition groupsOf (ms : list Message) : list GroupManifest.t := omap (λ m, match m with MGroupManifest v => Some v | _ => None end) ms.

Lemma rread_publishLoop env quick hash p gs : ∀ gi d ms r d' s,
  publishLoop env quick hash p gi gs d = (ms, r, d') →
  total s = Z.of_nat gi + Z.of_nat (length gs) → seen s = Z.of_nat gi → manifestClosed s = bool_decide (gs = []) →
  ∃ s', rread (feed ms) s = (Reading, s') ∧ total s' = total s ∧ scanSlot s' = scanSlot s ∧ summarySlot s' = summarySlot s ∧ fatal_ s' = fatal_ s ∧
    manifests_ s' = manifests_ s ++ groupsOf ms ∧ manifestClosed s' = bool_decide (r = None).
Proof.
  induction gs as [|es gs IH]; intros gi d ms r d' s; cbn [publishLoop].
  { intros [= <- <- <-] _ _ Hc. exists s. rewrite app_nil_r. by split_and!. }
  intros E Ht Hseen Hc. rewrite bool_decide_false in Hc by done.
  destruct (creditWait env gi) as [e|].
  { injection E as <- <- _. exists s. rewrite app_nil_r. by split_and!. }
  destruct (groupSend env gi) as [e|].
  { injection E as <- <- _. exists s. rewrite app_nil_r. by split_and!. }
  destruct (publishLoop _ _ _ _ _ _ _) as [[ms0 r0] d0] eqn:E0. injection E as <- <- _.
  cbn [feed fmap list_fmap rread rstep]. rewrite Hc. set (v := publishGroup _ _ _ _ _).
  set (s1 := mkRctl _ _ _ _ _ _ _ _). cbn [length] in Ht.
  assert (H1 : (0 <=? total s1) && (total s1 <=? seen s1) = bool_decide (gs = [])).
  { unfold s1. cbn [total seen]. rewrite Ht, Hseen, (proj2 (Z.leb_le 0 _)) by lia. cbn [andb]. destruct gs as [|g gs].
    - rewrite bool_decide_true by done. apply Z.leb_le. cbn [length]. lia.
    - rewrite bool_decide_false by done. apply Z.leb_gt. cbn [length]. lia. }
  rewrite H1. set (s2 := if bool_decide (gs = []) then closeManifest s1 else s1).
  assert (H2 : total s2 = total s ∧ seen s2 = seen s + 1 ∧ manifestClosed s2 = bool_decide (gs = []) ∧ manifests_ s2 = manifests_ s ++ [v] ∧
    scanSlot s2 = scanSlot s ∧ summarySlot s2 = summarySlot s ∧ fatal_ s2 = fatal_ s) by (unfold s2; by destruct (bool_decide _)).
  destruct H2 as (T2 & S2 & C2 & M2 & P2 & U2 & F2).
  destruct (IH (S gi) _ ms0 r0 d0 s2 E0) as (s' & R & T & P & U & F & M & C); [rewrite T2, Ht; lia|rewrite S2, Hseen; lia|done|].
  exists s'. change ((λ m, (Ok m, false)) <$> ms0) with (feed ms0). split_and!; try congruence; try done.
  rewrite M, M2, <- app_assoc. done.
Qed.

(** C30: what the publisher sends, the deciders get.  Whatever send or wait of the
    publisher fails, the receiver's control reader takes its messages without
    error, hands over exactly the published groups in order, and closes the
    channel to the deciders exactly when the whole plan has been published; a
    SESSION_SUMMARY after that is kept for the reconciliation. *)
Theorem published_reach_deciders env quick hash p skipped ms r d sum :
  Manifest.run env quick hash p skipped = (ms, r, d) → Z.of_nat (length (Groups p)) < 2 ^ 32 →
  ∃ s, rread (feed (ms ++ [MSessionSummary sum])) newRctl = (Reading, s) ∧ fatal_ s = None ∧
    manifests_ s = groupsOf ms ∧ summarySlot s = Some sum ∧ (manifestClosed s = true ↔ r = None) ∧
    (ms ≠ [] → scanSlot s = Some (scanComplete p skipped)) ∧
    (r = None → ∀ v, (rstep (Ok (MGroupManifest v)) false s).1 = Panicked).
Proof.
  intros E Hn.
  assert (Hfeed : ∀ l1 l2 s s', rread (feed l1) s = (Reading, s') → rread (feed (l1 ++ l2)) s = rread (feed l2) s').
  { intros l1 l2. induction l1 as [|m l1 IH]; intros s s'; [by intros [= <-]|]. cbn [feed fmap list_fmap app rread].
    destruct (rstep (Ok m) false s) as [[] s1]; [apply IH|done..]. }
  assert (Hms : ∃ s, rread (feed ms) newRctl = (Reading, s) ∧ fatal_ s = None ∧ manifests_ s = groupsOf ms ∧ summarySlot s = None ∧
    manifestClosed s = bool_decide (r = None) ∧ (ms ≠ [] → scanSlot s = Some (scanComplete p skipped))).
  { unfold Manifest.run in E. destruct (scanSend env) as [e|]; [injection E as <- <- _; by exists newRctl|].
    destruct (publishLoop _ _ _ _ _ _ _) as [[ms0 r0] d0] eqn:E0. injection E as <- <- _. cbn [feed fmap list_fmap rread rstep].
    assert (Ht : ScanComplete.TotalGroups (scanComplete p skipped) = Z.of_nat (length (Groups p)))
      by (cbn; unfold Groups in *; rewrite length_fmap, length_seq in *; apply wrap_u_id; unfold in_u; lia).
    rewrite Ht. set (s1 := mkRctl _ _ _ _ _ _ _ _). set (s2 := if _ =? 0 then _ else _).
    assert (H2 : total s2 = Z.of_nat (length (Groups p)) ∧ seen s2 = 0 ∧ manifestClosed s2 = bool_decide (Groups p = []) ∧ manifests_ s2 = [] ∧
      scanSlot s2 = Some (scanComplete p skipped) ∧ summarySlot s2 = None ∧ fatal_ s2 = None).
    { unfold s2. destruct (Groups p) as [|g gs]; [done|]. rewrite (proj2 (Z.eqb_neq _ 0)) by (cbn [length]; lia). by rewrite bool_decide_false. }
    destruct H2 as (T2 & S2 & C2 & M2 & P2 & U2 & F2).
    destruct (rread_publishLoop _ _ _ _ _ _ _ _ _ _ s2 E0) as (s' & R & T & P & U & F & M & C); [by rewrite T2|by rewrite S2|done|].
    exists s'. change ((λ m, (Ok m, false)) <$> ms0) with (feed ms0). split_and!; try congruence. by rewrite M, M2. }
  destruct Hms as (s & R & F & M & Su & C & Sc). rewrite (Hfeed _ _ _ _ R). cbn [feed fmap list_fmap rread rstep]. eexists. split; [reflexivity|].
  cbn. rewrite Su, C. split_and!; try done; [by rewrite bool_decide_eq_true|].
  intros -> v. by rewrite bool_decide_true.
Qed.

Definition ex_published : list Message * option gerr * digestStore.t := Manifest.run (mkPenv None (λ _, None) (λ _, None)) false (λ _, None) ex_plan 0.
Lemma published_reach_deciders_witness :
  ∃ s, rread (feed (ex_published.1.1 ++ [MSessionSummary (SessionSummary.mk 3 3 0 0 0 3 [])])) newRctl = (Reading, s) ∧ manifestClosed s = true ∧
    length (manifests_ s) = 3%nat.
Proof.
  assert (E : ex_published = (ex_published.1.1, ex_published.1.2, ex_published.2)) by (destruct ex_published as [[? ?] ?]; reflexivity).
  destruct (published_reach_deciders _ _ _ _ _ _ _ _ (SessionSummary.mk 3 3 0 0 0 3 []) E) as (s & R & _ & M & _ & C & _);
    [by vm_compute|].
  exists s. split; [exact R|]. split; [apply C; by vm_compute|]. rewrite M. by vm_compute.
Defined.

(** ** Both sides end with the same cause *)

(** The codes of the catalogue survive [codeNum] and [pad4]. *)
Lemma catalogue_codes c p : (c, p) ∈ catalogue → c = Signal ∨ (bs "E" ++ pad4 (codeNum c) = c ∧ Fault.lookup c = p).
Proof.
  intros Hc. change (let cp := (c, p) in cp.1 = Signal ∨ (bs "E" ++ pad4 (codeNum cp.1) = cp.1 ∧ Fault.lookup cp.1 = cp.2)).
  revert Hc. generalize (c, p). apply Forall_forall. unfold catalogue.
  repeat (apply Forall_cons; split; [first [right; split; vm_compute; reflexivity|left; reflexivity]|]). by apply Forall_nil.
Qed.

(** The sender's reader panics on no error of [RecvMsg]: every coded error is a
    fault, and a fault is what [fatal] holds. *)
Lemma sstep_type r s : (∀ e, r = Err e → isStd StdEOF e = true ∨ typeOf e = TFault) → (∀ e, s_fatal s = Some e → typeOf e = TFault) →
  (sstep r s).1 ≠ Panicked ∧ ∀ e, s_fatal (sstep r s).2 = Some e → typeOf e = TFault.
Proof.
  intros Hr Hs.
  assert (Hf : ∀ e s', typeOf e = TFault → s_fatal s' = s_fatal s → (sfail e s').1 ≠ Panicked ∧ ∀ x, s_fatal (sfail e s').2 = Some x → typeOf x = TFault).
  { intros e s' He Hs'. unfold sfail, CompareAndSwap. rewrite Hs'. destruct (s_fatal s) as [x|] eqn:E.
    - rewrite bool_decide_true by (rewrite He; by apply Hs). split; [done|]. cbn. intros y [= <-]. by apply Hs.
    - split; [done|]. by intros y [= <-]. }
  destruct r as [m|e]; [destruct m|]; cbn [sstep]; try (by apply Hf); try (split; [done|exact Hs]).
  - destruct (decision _ _) as [[derr|] t] eqn:E; [|split; [done|exact Hs]]. apply Hf; [|done]. unfold decision in E. revert E. repeat case_match; by intros [= <- _].
  - destruct (Hr e eq_refl) as [->|He]; [split; [done|exact Hs]|]. destruct (negb _ && negb _); [by apply Hf|split; [done|exact Hs]].
Qed.

(** Both sides end for the same cause.  The fatal error a side ends with,
    unless it is a signal, goes to the peer as an ERROR message; the peer's reader
    (the sender's or the receiver's), which still had no error of its own, records
    from it an error with the same code, the same exit code and the same class, and
    cancels its session.  A signal is not announced, and an error already recorded
    is never replaced: the first cause stays. *)
Theorem cause_shared c p op subject cause rs ss :
  (c, p) ∈ catalogue → isErrSignal (fault c op subject cause) = false → fatal_ rs = None → s_fatal ss = None →
  let e := fault c op subject cause in
  (∃ m e1 e2, notifyPeer e = Some m ∧
    (rstep (Ok m) false rs).1 = Returned ∧ fatal_ (rstep (Ok m) false rs).2 = Some e1 ∧ cancelled_ (rstep (Ok m) false rs).2 = true ∧
    (sstep (Ok m) ss).1 = Returned ∧ s_fatal (sstep (Ok m) ss).2 = Some e2 ∧ s_cancelled (sstep (Ok m) ss).2 = true ∧
    Forall (λ x, GetCode x = c ∧ ExitCode (Some x) = ExitCode (Some e) ∧ IsFatal (Some x) = IsFatal (Some e)) [e1; e2]) ∧
  notifyPeer ErrSignal = None ∧
  (∀ r giveUp s x, fatal_ s = Some x → fatal_ (rstep r giveUp s).2 = Some x) ∧
  (∀ r s x, s_fatal s = Some x → s_fatal (sstep r s).2 = Some x).
Proof.
  intros Hc Hne Hr Hs e. destruct (catalogue_codes c p Hc) as [->|[Hcode Hl]].
  { done. }
  split_and!.
  - unfold notifyPeer. unfold e in *. rewrite Hne. eexists _, _, _. split; [reflexivity|].
    unfold rstep, sstep, sfail, CompareAndSwap, rreturn, rfail, closeManifest, scancel. cbn [fst snd fatal_ s_fatal cancelled_ s_cancelled].
    rewrite Hr, Hs. split_and!; try reflexivity.
    unfold peerError. cbn [Error.Code]. change (GetCode (fault c op subject cause)) with c. rewrite Hcode.
    repeat (apply Forall_cons; split; [by split_and!|]). by apply Forall_nil.
  - by vm_compute.
  - intros r giveUp s x Hx. unfold rstep, rreturn, rfail, rcancel, closeManifest. repeat case_match; cbn; try done; by rewrite Hx.
  - intros r s x Hx. assert (Hf : ∀ e' s', s_fatal s' = Some x → s_fatal (sfail e' s').2 = Some x).
    { intros e' s' E. unfold sfail, CompareAndSwap. rewrite E. by destruct (bool_decide _). }
    unfold sstep. repeat case_match; try (by apply Hf); exact Hx.
Qed.

(** A FULL disk at the receiver ends the sender with the same exit code. *)
Definition ex_sctl : sctl := mkSctl (newTracker []) (creditGate.new 1) 0 0 None None false.
Lemma cause_shared_witness :
  ∃ m e, notifyPeer (fault E7003 "write" [] None) = Some m ∧ s_fatal (sstep (Ok m) ex_sctl).2 = Some e ∧ GetCode e = E7003 ∧ ExitCode (Some e) = 2.
Proof.
  destruct (cause_shared E7003 (Fault.lookup E7003) "write" [] None newRctl ex_sctl) as [(m & e1 & e2 & Hm & _ & _ & _ & _ & He & _ & H) _];
    [|by vm_compute|done..|].
  - apply list_elem_of_In, find_some with (f := λ p, bool_decide (p.1 = E7003)). vm_compute. reflexivity.
  - exists m, e2. split; [exact Hm|]. split; [exact He|]. apply Forall_cons in H as [_ H]. apply Forall_singleton in H as (H1 & H2 & _).
    split; [exact H1|]. rewrite H2. by vm_compute.
Defined.
