(* ===== verification/RunReceiver.v ===== *)
(** * RunReceiver: the receiver's session (src/internal/receiver/run.go, config.go)

    [Run] from the pairing code to the exit code, as a script over what each stage
    meets: [renv] says how every call to the outside, every wait and every
    background failure goes.  The stages modelled elsewhere (pairing code,
    handshake, control reader, decisions, fetches, journal) are called, or enter
    through their results.  Also candidate ranking, [Dial] (channel/dial.go) and
    [resolveDest]. *)
From S2P Require Import Prelude Fault Strconv Glob Record Wire Handshake Digest Tracker Fs Journal Fetch Paircode Control.

(** ** Configuration; durations in nanoseconds *)
Module Config.
Record t := mk {
  Link : bytes; Dest : bytes; Version : bytes; DryRun : bool;
  Channels : Z; ChannelsPinned : bool; MinChannels : Z; MaxChannels : Z; PipelineDepth : Z; GroupCredit : Z; DecideWorkers : Z;
  NoFsync : bool; CheckpointInterval : Z; ResumeWindow : Z; DrainTimeout : Z; StallTimeout : Z; ProgressInterval : Z;
  AllowUnsafeLinks : bool; Owner : bool; Quick : bool; NoCache : bool;
  ConnectTimeout : Z; HandshakeTimeout : Z; Stagger : Z; SocketBuffer : Z; MaxRetries : Z; HashAlg : Z;
}.
End Config.
Import Config.

Definition Second : Z := 10 ^ 9.
Definition orDefault (x d : Z) : Z := if x <=? 0 then d else x.
Definition withDefaults (numCPU : Z) (c : Config.t) : Config.t :=
  Config.mk (Link c) (Dest c) (Version c) (DryRun c)
    (orDefault (Channels c) 4) (ChannelsPinned c) (orDefault (MinChannels c) 4) (orDefault (MaxChannels c) 32)
    (orDefault (PipelineDepth c) 2) (orDefault (GroupCredit c) 4) (orDefault (DecideWorkers c) (Z.min 8 numCPU))
    (NoFsync c) (orDefault (CheckpointInterval c) (2 ^ 26)) (orDefault (ResumeWindow c) (60 * Second))
    (orDefault (DrainTimeout c) (60 * Second)) (orDefault (StallTimeout c) (60 * Second)) (orDefault (ProgressInterval c) (5 * Second))
    (AllowUnsafeLinks c) (Owner c) (Quick c) (NoCache c)
    (orDefault (ConnectTimeout c) (10 * Second)) (orDefault (HandshakeTimeout c) (10 * Second)) (orDefault (Stagger c) (250 * 10 ^ 6))
    (orDefault (SocketBuffer c) (2 ^ 22)) (orDefault (MaxRetries c) 3) (HashAlg c).

Definition platformID (goos : bytes) : Z := if bool_decide (goos = bs "darwin") then 1 else 0.

Record Summary := mkSummary {
  Outcome : string; FilesTotal : Z; FilesTransferred : Z; FilesSkipped : Z; FilesFailed : Z; FilesRejected : Z;
  BytesTransferred : Z; GroupsTotal : Z; ResumeCommand : bytes;
}.

(** ** Candidate endpoints *)
Definition candRank (e : Endpoint) : Z :=
  let a := ep_addr e in
  if IsLoopback a then 0
  else if Is4 a && IsPrivate a then 1
  else if Is4 a then 2
  else if IsPrivate a then 3
  else 4.
Definition orderCandidates (eps : list Endpoint) : list Endpoint := SliceStable candRank eps.

(** [Dial] on the outcomes of the candidates in the order they arrive ([None]: the
    handshake succeeded): the endpoint that wins, the table of reasons, the error. *)
Fixpoint dialLoop (results : list (Endpoint * option gerr)) (tab : list (Endpoint * gerr)) : option Endpoint * list (Endpoint * gerr) * option gerr :=
  match results with
  | [] => (None, tab, Some (fault E3001 "dial sender" [] None))
  | (ep, None) :: _ => (Some ep, tab, None)
  | (ep, Some e) :: results => dialLoop results (tab ++ [(ep, e)])
  end.
Definition Dial (endpoints : list Endpoint) (results : list (Endpoint * option gerr)) : option Endpoint * list (Endpoint * gerr) * option gerr :=
  if bool_decide (endpoints = []) then (None, [], Some (fault E3001 "dial sender" [] None)) else dialLoop results [].

Fixpoint authCodeFromTable (tab : list (Endpoint * gerr)) : Code :=
  match tab with
  | [] => []
  | (_, e) :: tab => if bool_decide (GetCode e ∈ [E4001; E4002; E2003]) then GetCode e else authCodeFromTable tab
  end.

(** ** The destination directory *)
Definition Abs (getwd : result stdErr bytes) (p : bytes) : result stdErr bytes :=
  if HasPrefix p [c_slash] then Ok (Clean p) else wd ← getwd; Ok (Join2 wd p).
Definition defaultDest (rootName : bytes) : bytes :=
  let base := Base (Clean rootName) in
  if bool_decide (base ∈ [[]; bs "."; bs "/"]) then bs "esync-received" else base.
Definition resolveDest (getwd : result stdErr bytes) (dest rootName : bytes) : result gerr bytes :=
  let d := if bool_decide (dest = []) then defaultDest rootName else dest in
  match Abs getwd d with
  | Ok p => Ok p
  | Err e => Err (EFault (Wrap E1006 "resolve destination path" d (EStd e)))
  end.
Definition checkWritable (probe : option stdErr) (dir : bytes) : option gerr :=
  (λ e, EFault (Wrap E1006 "verify destination is writable" dir (EStd e))) <$> probe.
Definition resumeCommand (destPath : bytes) : bytes := bs "esync --link <new code from the sender> --dest " ++ destPath.

(** ** The environment of a session

    A select takes a value, the cancelled root context, or its timer. *)
Inductive selected (A : Type) := Received (a : A) | Cancelled | TimedOut.
Arguments Received {A} a.
Arguments Cancelled {A}.
Arguments TimedOut {A}.
#[global] Instance Received_inj A : Inj (=) (=) (@Received A).
Proof. by intros a b [= ->]. Qed.
(** The points at which an error another goroutine recorded is first seen. *)
Inductive stage := AtScan | AtPipeline | AtSummary | AtFinish.
(** How the wait for the pipeline ends. *)
Inductive drained := Drained | DrainExpired | DrainCancelled.
Record counters := mkCounters { c_transferred : Z; c_skipped : Z; c_failed : Z; c_rejected : Z; c_bytes : Z }.

Record renv := mkRenv {
  goos : bytes; dialed : list Endpoint → list (Endpoint * option gerr); paramsRecv : result gerr Message;
  getwd : result stdErr bytes; mkdirAll : option stdErr; probe : option stdErr; openRoot : option stdErr; freeBytes : Z;
  readySend : option gerr; joinOne : Z → option gerr;
  scanWait : selected ScanComplete.t; journalEnv : openEnv;
  drain : drained; logged : list JRecord; flushed : nat;
  summaryWait : selected SessionSummary.t; completed : list Z; ackSend : option gerr; clearEnv : option stdErr;
  background : stage → option gerr; countersAt : stage → counters;
}.

(** What [Run] and its closures share. *)
Record session := mkSession_ {
  fatalErr : option gerr; ctrlUp : bool; sent : list Message; journal : option Journal; disk : option jdir;
  scComplete : option ScanComplete.t; destPath : bytes;
}.
Definition newSession (d : option jdir) : session := mkSession_ None false [] None d None [].
Definition fail_ (e : gerr) (s : session) : session :=
  mkSession_ (match fatalErr s with Some x => Some x | None => Some e end) (ctrlUp s) (sent s) (journal s) (disk s) (scComplete s) (destPath s).
Definition failOpt (e : option gerr) (s : session) : session := match e with Some e => fail_ e s | None => s end.
Definition send_ (m : Message) (s : session) : session :=
  mkSession_ (fatalErr s) (ctrlUp s) (sent s ++ [m]) (journal s) (disk s) (scComplete s) (destPath s).
Definition linkUp (s : session) : session :=
  mkSession_ (fatalErr s) true (sent s) (journal s) (disk s) (scComplete s) (destPath s).
Definition withDest (p : bytes) (s : session) : session :=
  mkSession_ (fatalErr s) (ctrlUp s) (sent s) (journal s) (disk s) (scComplete s) p.
Definition withScan (v : ScanComplete.t) (s : session) : session :=
  mkSession_ (fatalErr s) (ctrlUp s) (sent s) (journal s) (disk s) (Some v) (destPath s).
Definition withJournal (j : option Journal) (d : option jdir) (s : session) : session :=
  mkSession_ (fatalErr s) (ctrlUp s) (sent s) j d (scComplete s) (destPath s).

(** A script of [Run]: [Err ()] is a [return] through [finish]. *)
Definition script (A : Type) : Type := SE session unit A.
Definition quit {A} : script A := failS ().
(** [return fail(err)]. *)
Definition abort {A} (e : gerr) : script A := _ ← modS (fail_ e); quit.
Definition abortOpt (e : option gerr) : script unit := match e with Some e => abort e | None => mret () end.
Definition orAbort {A} (r : result gerr A) : script A := match r with Ok a => mret a | Err e => abort e end.
(** [return abandoned(stage)]. *)
Definition abandoned {A} (stage : string) : script A :=
  s ← getS; match fatalErr s with Some _ => quit | None => abort (fault E4005 stage [] None) end.

Section run.
Context `{HandshakeCrypto} `{HashFns}.

Definition channelsFor (cfg : Config.t) (senderMax : Z) : Z :=
  let n := if ChannelsPinned cfg then Channels cfg else MinChannels cfg in
  let n := if (0 <? senderMax) && (senderMax <? n) then senderMax else n in
  let n := if (0 <? MaxChannels cfg) && (MaxChannels cfg <? n) then MaxChannels cfg else n in
  if n <? 1 then 1 else n.

(** [dialData]: the ids from 1, the first failure ends it. *)
Definition dialData (env : renv) (n : Z) : option gerr :=
  foldl (λ r id, match r with Some e => Some e | None => joinOne env (wrap_u 8 id) end) None (seqZ 1 n).

Definition sessionReady (env : renv) (cfg : Config.t) (n : Z) : Message :=
  MSessionReady (SessionReady.mk (wrap_u 16 n) (wrap_u 16 (GroupCredit cfg)) (wrap_u 8 (PipelineDepth cfg)) safeMaxChunk
    (platformID (goos env)) (Version cfg) (freeBytes env)).

(** Steps 1 to 3: the code, the sender, its parameters. *)
Definition link (env : renv) (cfg : Config.t) : script (bytes * SessionParams.t) :=
  payload ← orAbort (Decode (Link cfg));
  let eps := orderCandidates (Endpoints payload) in
  _ ← match Dial eps (dialed env eps) with
      | (_, _, None) => mret ()
      | (_, tab, Some derr) =>
          let c := authCodeFromTable tab in
          abort (if bool_decide (c = []) then derr else fault c "authenticate to sender" [] None)
      end;
  _ ← modS linkUp;
  sp ← match paramsRecv env with
       | Err e => abort (EFault (Wrap E4001 "await SESSION_PARAMS" [] e))
       | Ok (MSessionParams sp) => mret sp
       | Ok m => abort (fault E5001 "await SESSION_PARAMS" (bs (MsgTypeString (Type_ m))) None)
       end;
  _ ← orAbort (Digest.New (SessionParams.HashAlg sp));
  mret (SessionID (Secret payload), sp).

(** Steps 4 to 6: the destination, SESSION_READY, the data channels. *)
Definition prepare (env : renv) (cfg : Config.t) (sp : SessionParams.t) : script unit :=
  dest ← orAbort (resolveDest (getwd env) (Dest cfg) (SessionParams.RootName sp));
  _ ← modS (withDest dest);
  _ ← abortOpt ((λ e, EFault (Wrap E1006 "create destination directory" dest (EStd e))) <$> mkdirAll env);
  _ ← abortOpt (checkWritable (probe env) dest);
  _ ← abortOpt ((λ e, fault E1006 "open destination root" dest (Some (EStd e))) <$> openRoot env);
  let nCh := channelsFor cfg (SessionParams.MaxChannels sp) in
  _ ← modS (send_ (sessionReady env cfg nCh));
  _ ← abortOpt (readySend env);
  abortOpt (dialData env nCh).

(** Steps 8 and 9: the scan, the journal, the pipeline. *)
Definition manifestDigest32 (v : ScanComplete.t) : bytes := take 32 (ScanComplete.ManifestDigest v ++ zeroBytes 32).
Definition awaitScan (env : renv) (cfg : Config.t) (sid : bytes) : script ScanComplete.t :=
  _ ← modS (failOpt (background env AtScan));
  sc ← match scanWait env with
       | Received v => mret v
       | Cancelled => abandoned "await SCAN_COMPLETE"
       | TimedOut => abort (fault E9002 "await SCAN_COMPLETE" [] None)
       end;
  _ ← modS (withScan sc);
  _ ← (if DryRun cfg then mret () else
         s ← getS;
         match Journal.Open (journalEnv env) (hex_encode sid) (hex_encode (manifestDigest32 sc)) (disk s) with
         | (Ok (j, _), d) => modS (withJournal (Some j) d)
         | (Err e, d) => _ ← modS (withJournal None d); abort e
         end);
  mret sc.
(** The goroutines of the pipeline journal [logged], of which [flushed] bytes reach
    the disk. *)
Definition pipeline (env : renv) : script unit :=
  _ ← modS (λ s, match journal s with
                 | Some j => withJournal (Some j) ((λ d, crash (flushed env) (MarkAll j d (logged env))) <$> disk s) s
                 | None => s
                 end);
  _ ← modS (failOpt (background env AtPipeline));
  _ ← match drain env with
      | DrainExpired => modS (fail_ (fault E9002 "drain watchdog" [] None))
      | _ => mret ()
      end;
  s ← getS;
  match fatalErr s with Some _ => quit | None => mret () end.

(** Step 11. *)
Definition u64 (v : Z) : Z := if v <? 0 then 0 else v.
Definition summaryAck (env : renv) (sc : ScanComplete.t) (comp : bytes) : Message :=
  let c := countersAt env AtSummary in
  MSessionSummaryAck (SessionSummaryAck.mk (ScanComplete.TotalFiles sc) (wrap_u 64 (c_transferred c)) (wrap_u 64 (c_skipped c))
    (wrap_u 64 (c_failed c)) (wrap_u 64 (c_bytes c)) (ScanComplete.TotalGroups sc) comp).
Definition reconcile (env : renv) (sc : ScanComplete.t) : script unit :=
  _ ← modS (failOpt (background env AtSummary));
  ss ← match summaryWait env with
       | Received v => mret v
       | Cancelled => abandoned "await SESSION_SUMMARY"
       | TimedOut => abort (fault E9002 "await SESSION_SUMMARY" [] None)
       end;
  let comp := sha256 (completionInput (completed env)) in
  _ ← modS (send_ (summaryAck env sc comp));
  _ ← abortOpt (ackSend env);
  _ ← abortOpt (if bool_decide (SessionSummary.CompletionDigest ss = comp) then None
                else Some (fault E5005 "reconcile completion digest" [] None));
  modS (λ s, match journal s with
             | Some j => withJournal None (Journal.remove (clearEnv env) j (disk s)).2 s
             | None => s
             end).

Definition body (env : renv) (cfg : Config.t) : script unit :=
  '(sid, sp) ← link env cfg;
  _ ← prepare env cfg sp;
  sc ← awaitScan env cfg sid;
  _ ← pipeline env;
  if DryRun cfg then mret () else reconcile env sc.

(** [finish]. *)
Definition summary (env : renv) (s : session) : Summary :=
  let c := countersAt env AtFinish in
  mkSummary "" (from_option ScanComplete.TotalFiles 0 (scComplete s)) (u64 (c_transferred c)) (u64 (c_skipped c)) (u64 (c_failed c))
    (u64 (c_rejected c)) (u64 (c_bytes c)) (from_option ScanComplete.TotalGroups 0 (scComplete s)) [].
Definition verdict (ferr : option gerr) (sum : Summary) : Z * string :=
  match ferr with
  | Some e => if isErrSignal e then (5, "signal"%string) else (ExitCode (Some e), "error"%string)
  | None => if (0 <? FilesFailed sum) || (0 <? FilesRejected sum) then (1, "partial"%string) else (0, "ok"%string)
  end.
Definition finish (env : renv) (s : session) : Summary * Z * session :=
  let s := failOpt (background env AtFinish) s in
  let sum := summary env s in
  let '(exit_, outcome) := verdict (fatalErr s) sum in
  let s := match fatalErr s with
           | Some e => match notifyPeer e with Some m => if ctrlUp s then send_ m s else s | None => s end
           | None => s
           end in
  let resume := match journal s with Some _ => if exit_ =? 0 then [] else resumeCommand (destPath s) | None => [] end in
  (mkSummary outcome (FilesTotal sum) (FilesTransferred sum) (FilesSkipped sum) (FilesFailed sum) (FilesRejected sum)
     (BytesTransferred sum) (GroupsTotal sum) resume, exit_,
   match journal s with
   | Some j => if exit_ =? 0 then s else withJournal (Some (Journal.Close None j).2) (disk s) s
   | None => s
   end).

Definition Run (numCPU : Z) (env : renv) (cfg : Config.t) (d : option jdir) : Summary * Z * session :=
  finish env (body env (withDefaults numCPU cfg) (newSession d)).2.
End run.

(** ** What each stage does to the session *)
Section stages.
Context `{HandshakeCrypto} `{HashFns}.
Implicit Types (env : renv) (cfg : Config.t) (s : session).

(** The parts of the session a failure leaves alone. *)
Definition kept s s' : Prop := ctrlUp s' = ctrlUp s ∧ journal s' = journal s ∧ disk s' = disk s.
Definition failed s : Prop := fatalErr s ≠ None.

Lemma fail_failed e s : failed (fail_ e s).
Proof. unfold failed. cbn. by destruct (fatalErr s). Qed.
Lemma failOpt_same o s : kept s (failOpt o s) ∧ sent (failOpt o s) = sent s ∧ destPath (failOpt o s) = destPath s ∧
  scComplete (failOpt o s) = scComplete s ∧ (fatalErr (failOpt o s) = None ↔ o = None ∧ fatalErr s = None).
Proof.
  destruct o as [e|]; (split; [done|]); split_and!; try done; [|naive_solver]. cbn. destruct (fatalErr s); naive_solver.
Qed.
Lemma abandoned_spec {A} stage s : ∃ e, @abandoned A stage s = (Err (), fail_ e s).
Proof.
  unfold abandoned, abort, quit, getS, modS, failS, mbind, SE_bind. destruct (fatalErr s) as [x|] eqn:E; [|by eexists].
  exists x. f_equal. destruct s. cbn in *. by subst.
Qed.

Definition linkOk env cfg sid sp : Prop :=
  ∃ payload ep, Decode (Link cfg) = Ok payload ∧ sid = SessionID (Secret payload) ∧ paramsRecv env = Ok (MSessionParams sp) ∧
    (Dial (orderCandidates (Endpoints payload)) (dialed env (orderCandidates (Endpoints payload)))).1.1 = Some ep.

Lemma dialLoop_ok l tab : (dialLoop l tab).2 = None → ∃ ep, (dialLoop l tab).1.1 = Some ep.
Proof. revert tab. induction l as [|[ep [e|]] l IH]; intros tab; cbn [dialLoop]; [done|apply IH|by exists ep]. Qed.
Lemma Dial_ok eps l : (Dial eps l).2 = None → ∃ ep, (Dial eps l).1.1 = Some ep.
Proof. unfold Dial. destruct (bool_decide _); [done|]. by apply dialLoop_ok. Qed.

Lemma link_spec env cfg s r s' : link env cfg s = (r, s') →
  match r with
  | Ok (sid, sp) => linkOk env cfg sid sp ∧ s' = linkUp s
  | Err _ => ∃ e b, s' = fail_ e (if b : bool then linkUp s else s)
  end.
Proof.
  unfold link, orAbort. destruct (Decode (Link cfg)) as [payload|e] eqn:Ed; [|intros [= <- <-]; by exists e, false].
  pose proof (Dial_ok (orderCandidates (Endpoints payload)) (dialed env (orderCandidates (Endpoints payload)))) as Hd.
  unfold abort, quit, mbind, SE_bind, mret, SE_ret, modS, failS. cbv zeta.
  destruct (Dial _ _) as [[ep tab] [derr|]] eqn:Edial; [intros [= <- <-]; by eexists _, false|].
  destruct (paramsRecv env) as [m|e] eqn:Ep; [|intros [= <- <-]; by eexists _, true].
  destruct m; try (intros [= <- <-]; by eexists _, true).
  destruct (Digest.New _) as [?|e]; intros [= <- <-]; [|by eexists _, true].
  split; [|done]. destruct (Hd eq_refl) as [ep' Hep]. exists payload, ep'. split_and!; try done. by rewrite Edial.
Qed.

Lemma dialData_ok env n : dialData env n = None → ∀ id, 1 <= id <= n → joinOne env (wrap_u 8 id) = None.
Proof.
  unfold dialData. intros E id Hid. assert (Hin : id ∈ seqZ 1 n) by (apply elem_of_seqZ; lia). revert E Hin.
  generalize (seqZ 1 n). intros l. assert (Hs : ∀ l e, foldl (λ r id, match r with Some e => Some e | None => joinOne env (wrap_u 8 id) end) (Some e) l = Some e).
  { clear. induction l as [|x l IH]; [done|]. intros e. apply IH. }
  induction l as [|x l IH]; cbn [foldl]; [by intros _ ?%not_elem_of_nil|].
  destruct (joinOne env (wrap_u 8 x)) as [e|] eqn:Ex; [by rewrite Hs|]. intros E [->|Hin]%elem_of_cons; [done|by apply IH].
Qed.

Lemma prepare_spec env cfg sp s r s' : prepare env cfg sp s = (r, s') →
  let n := channelsFor cfg (SessionParams.MaxChannels sp) in
  ∃ dest, match r with
  | Ok _ => resolveDest (getwd env) (Dest cfg) (SessionParams.RootName sp) = Ok dest ∧ s' = send_ (sessionReady env cfg n) (withDest dest s) ∧
      ∀ id, 1 <= id <= n → joinOne env (wrap_u 8 id) = None
  | Err _ => ∃ e, s' = fail_ e s ∨ s' = fail_ e (withDest dest s) ∨ s' = fail_ e (send_ (sessionReady env cfg n) (withDest dest s))
  end.
Proof.
  unfold prepare, orAbort, abortOpt, abort, quit, mbind, SE_bind, mret, SE_ret, modS, failS. cbv zeta.
  destruct (resolveDest _ _ _) as [dest|e]; [|intros [= <- <-]; exists [], e; by left]. intros E. exists dest. revert E.
  destruct (mkdirAll env) as [e|]; cbn [fmap option_fmap option_map]; [intros [= <- <-]; eexists; by right; left|].
  destruct (checkWritable _ _) as [e|]; [intros [= <- <-]; eexists; by right; left|].
  destruct (openRoot env) as [e|]; cbn [fmap option_fmap option_map]; [intros [= <- <-]; eexists; by right; left|].
  destruct (readySend env) as [e|]; [intros [= <- <-]; eexists; by right; right|].
  destruct (dialData _ _) as [e|] eqn:Ej; intros [= <- <-]; [eexists; by right; right|].
  split_and!; [done..|]. by apply dialData_ok.
Qed.

Definition journalOpened env (sid : bytes) (sc : ScanComplete.t) s (j : Journal) (d : option jdir) : Prop :=
  ∃ prior, Journal.Open (journalEnv env) (hex_encode sid) (hex_encode (manifestDigest32 sc)) (disk s) = (Ok (j, prior), d).

Lemma awaitScan_spec env cfg sid s r s' : awaitScan env cfg sid s = (r, s') →
  sent s' = sent s ∧ ctrlUp s' = ctrlUp s ∧ destPath s' = destPath s ∧
  match r with
  | Ok sc => scanWait env = Received sc ∧ scComplete s' = Some sc ∧ (fatalErr s' = None → background env AtScan = None) ∧
      if DryRun cfg then journal s' = journal s ∧ disk s' = disk s
      else ∃ j d, journalOpened env sid sc s j d ∧ journal s' = Some j ∧ disk s' = d
  | Err _ => failed s' ∧ (journal s' = journal s ∨ journal s' = None)
  end.
Proof.
  unfold awaitScan. unfold mbind at 1, SE_bind at 1, modS at 1.
  destruct (failOpt_same (background env AtScan) s) as ((Hc & Hj & Hd) & Hs & Hp & Hsc & Hf). set (s1 := failOpt _ s) in *.
  unfold mbind at 1, SE_bind at 1. destruct (scanWait env) as [v| |].
  3: { intros [= <- <-]. split_and!; try done; [apply fail_failed|by left]. }
  2: { destruct (abandoned_spec (A:=ScanComplete.t) "await SCAN_COMPLETE" s1) as [e ->]. intros [= <- <-].
       split_and!; try done; [apply fail_failed|by left]. }
  unfold abort, quit, mbind, SE_bind, mret, SE_ret, modS, failS, getS. destruct (DryRun cfg).
  { intros [= <- <-]. cbn. split_and!; try done. by intros [? _]%Hf. }
  unfold withScan at 1. cbn [disk]. rewrite Hd.
  destruct (Journal.Open _ _ _ _) as [[[j prior]|e] d] eqn:Eo; intros [= <- <-]; cbn.
  - split_and!; try done; [by intros [? _]%Hf|]. exists j, d. split_and!; try done. by exists prior.
  - split_and!; try done; [apply fail_failed|by right].
Qed.

(** The journal directory after the pipeline. *)
Definition afterPipeline env s : option jdir :=
  match journal s with
  | Some j => (λ d, crash (flushed env) (MarkAll j d (logged env))) <$> disk s
  | None => disk s
  end.
Lemma pipeline_spec env s r s' : pipeline env s = (r, s') →
  sent s' = sent s ∧ ctrlUp s' = ctrlUp s ∧ destPath s' = destPath s ∧ scComplete s' = scComplete s ∧
  journal s' = journal s ∧ disk s' = afterPipeline env s ∧
  match r with
  | Ok _ => fatalErr s' = None ∧ fatalErr s = None ∧ background env AtPipeline = None ∧ drain env ≠ DrainExpired
  | Err _ => failed s'
  end.
Proof.
  unfold pipeline, afterPipeline. unfold mbind at 1, SE_bind at 1, modS at 1. set (s0 := match journal s with Some _ => _ | None => _ end).
  assert (H0' : sent s0 = sent s ∧ ctrlUp s0 = ctrlUp s ∧ destPath s0 = destPath s ∧ scComplete s0 = scComplete s ∧ journal s0 = journal s ∧
    fatalErr s0 = fatalErr s ∧ disk s0 = match journal s with Some j => (λ d, crash (flushed env) (MarkAll j d (logged env))) <$> disk s | None => disk s end).
  { unfold s0. destruct (journal s) eqn:Ej0; cbn; split_and!; done || congruence. }
  destruct H0' as (S0 & C0 & P0 & K0 & J0 & F0 & D0). rewrite <- D0, <- F0, <- J0. clearbody s0.
  unfold mbind at 1, SE_bind at 1, modS at 1.
  destruct (failOpt_same (background env AtPipeline) s0) as ((Hc & Hj & Hd) & Hs & Hp & Hsc & Hf). set (s1 := failOpt _ s0) in *.
  unfold quit, mbind, SE_bind, mret, SE_ret, modS, failS, getS.
  destruct (drain env) eqn:Ed; cbn [fail_ fatalErr].
  2: { intros E. assert (Hr : r = Err () ∧ s' = fail_ (fault E9002 "drain watchdog" [] None) s1) by (destruct (fatalErr s1); by injection E as <- <-).
       destruct Hr as [-> ->]. cbn. split_and!; try congruence. apply fail_failed. }
  all: destruct (fatalErr s1) as [e|] eqn:E1; intros [= <- <-]; split_and!; try congruence; try (unfold failed; congruence); by apply Hf.
Qed.

Lemma reconcile_spec env sc s r s' : reconcile env sc s = (r, s') →
  let comp := sha256 (completionInput (completed env)) in
  ctrlUp s' = ctrlUp s ∧ destPath s' = destPath s ∧ scComplete s' = scComplete s ∧
  (sent s' = sent s ∨ sent s' = sent s ++ [summaryAck env sc comp]) ∧
  match r with
  | Ok _ => (∃ ss, summaryWait env = Received ss ∧ SessionSummary.CompletionDigest ss = comp) ∧ ackSend env = None ∧
      sent s' = sent s ++ [summaryAck env sc comp] ∧ (fatalErr s' = None → background env AtSummary = None) ∧
      journal s' = None ∧ disk s' = match journal s with Some j => (Journal.remove (clearEnv env) j (disk s)).2 | None => disk s end
  | Err _ => failed s' ∧ journal s' = journal s ∧ disk s' = disk s
  end.
Proof.
  unfold reconcile. cbv zeta. unfold mbind at 1, SE_bind at 1, modS at 1.
  destruct (failOpt_same (background env AtSummary) s) as ((Hc & Hj & Hd) & Hs & Hp & Hsc & Hf). set (s1 := failOpt _ s) in *.
  unfold mbind at 1, SE_bind at 1. destruct (summaryWait env) as [ss| |].
  3: { intros [= <- <-]. cbn. split_and!; try done; [by left|apply fail_failed]. }
  2: { destruct (abandoned_spec (A:=SessionSummary.t) "await SESSION_SUMMARY" s1) as [e ->]. intros [= <- <-].
       cbn. split_and!; try done; [by left|apply fail_failed]. }
  unfold abortOpt, abort, quit, mbind, SE_bind, mret, SE_ret, modS, failS.
  destruct (ackSend env) as [e|].
  { intros [= <- <-]. cbn. rewrite Hs. split_and!; try done; [by right|apply fail_failed]. }
  case_bool_decide as Hcomp.
  2: { intros [= <- <-]. cbn. rewrite Hs. split_and!; try done; [by right|apply fail_failed]. }
  intros [= <- <-]. cbn [send_ journal]. rewrite Hj. destruct (journal s) as [j|] eqn:Ej; cbn; rewrite Hs, ?Hd; split_and!; try done; try (by right);
    try (by exists ss); by intros [? _]%Hf.
Qed.
End stages.

(** ** The whole session *)
Section whole.
Context `{HandshakeCrypto} `{HashFns}.
Implicit Types (env : renv) (cfg : Config.t) (s : session).

Lemma Run_finish_spec env s0 sum ex s : finish env s0 = (sum, ex, s) →
  let f := fatalErr (failOpt (background env AtFinish) s0) in
  fatalErr s = f ∧ ctrlUp s = ctrlUp s0 ∧ disk s = disk s0 ∧ (journal s = None ↔ journal s0 = None) ∧
  sent s = sent s0 ++ (if ctrlUp s0 then match f with Some e => option_list (notifyPeer e) | None => [] end else []) ∧
  verdict f sum = (ex, Outcome sum) ∧
  ResumeCommand sum = (match journal s0 with Some _ => if ex =? 0 then [] else resumeCommand (destPath s0) | None => [] end) ∧
  FilesTotal sum = from_option ScanComplete.TotalFiles 0 (scComplete s0).
Proof.
  unfold finish. destruct (failOpt_same (background env AtFinish) s0) as ((Hc & Hj & Hd) & Hs & Hp & Hsc & _).
  set (s1 := failOpt _ s0) in *. destruct (verdict (fatalErr s1) (summary env s1)) as [x o] eqn:Ev. intros E. cbv zeta.
  set (s2 := match fatalErr s1 with Some _ => _ | None => s1 end) in *.
  assert (H2 : fatalErr s2 = fatalErr s1 ∧ ctrlUp s2 = ctrlUp s1 ∧ journal s2 = journal s1 ∧ disk s2 = disk s1 ∧ destPath s2 = destPath s1 ∧
    sent s2 = sent s1 ++ (if ctrlUp s1 then match fatalErr s1 with Some e => option_list (notifyPeer e) | None => [] end else [])).
  { unfold s2. destruct (fatalErr s1) as [e|] eqn:Ef; [destruct (notifyPeer e)|]; destruct (ctrlUp s1) eqn:Eu; cbn;
      split_and!; rewrite ?app_nil_r; done || congruence. }
  destruct H2 as (F2 & C2 & J2 & D2 & P2 & S2). clearbody s2. injection E as <- <- <-.
  rewrite C2, Hc, Hs in S2 || rewrite Hc, Hs in S2. rewrite <- Hc, <- Hd, <- Hj, <- Hp, <- Hsc. rewrite J2, P2.
  cbn [ResumeCommand FilesTotal Outcome verdict].
  destruct (journal s1) as [j|] eqn:Ej; [destruct (x =? 0)|]; cbn; rewrite ?J2, ?Ej; split_and!; try exact Ev; try congruence; try done; by rewrite Hc.
Qed.

(** [sent] before [finish]: nothing before the control channel is up. *)
Definition isError (m : Message) : bool := match m with MError _ => true | _ => false end.
Definition quiet s : Prop := Forall (λ m, isError m = false) (sent s) ∧ (ctrlUp s = false → sent s = []).
Lemma body_quiet env cfg d : quiet (body env cfg (newSession d)).2.
Proof.
  unfold body, mbind, SE_bind. destruct (link env cfg (newSession d)) as [r s1] eqn:E1. apply link_spec in E1.
  destruct r as [[sid sp]|[]]; [destruct E1 as [_ ->]|destruct E1 as (e & b & ->); destruct b; by split].
  destruct (prepare env cfg sp _) as [r s2] eqn:E2. apply prepare_spec in E2 as [dest E2].
  destruct r as [[]|[]]; [destruct E2 as (_ & -> & _)|destruct E2 as (e & [-> |[-> | ->]]); (split; [by repeat constructor|done])].
  destruct (awaitScan env cfg sid _) as [r s3] eqn:E3. apply awaitScan_spec in E3 as (S3 & C3 & _ & _). cbn in S3, C3.
  destruct r as [sc|[]]; [|split; cbn [snd]; [rewrite S3; by repeat constructor|congruence]].
  destruct (pipeline env s3) as [r s4] eqn:E4. apply pipeline_spec in E4 as (S4 & C4 & _).
  destruct r as [[]|[]]; [|split; cbn [snd]; [rewrite S4, S3; by repeat constructor|congruence]].
  destruct (DryRun cfg); [split; cbn; [rewrite S4, S3; by repeat constructor|congruence]|].
  destruct (reconcile env sc s4) as [r s5] eqn:E5. apply reconcile_spec in E5 as (C5 & _ & _ & S5 & _). cbn.
  split; [|congruence]. rewrite S4, S3 in S5. destruct S5 as [->| ->]; by repeat constructor.
Qed.

Lemma verdict_ok f sum ex : verdict f sum = (ex, "ok"%string) → ex = 0 ∧ f = None ∧ FilesFailed sum <= 0 ∧ FilesRejected sum <= 0.
Proof.
  unfold verdict. destruct f as [e|]; [by destruct (isErrSignal e)|].
  destruct (_ || _) eqn:E; [done|]. intros [= <-]. apply orb_false_iff in E as [E1 E2]. apply Z.ltb_ge in E1, E2. done.
Qed.

(** A run that ended as "ok" went through every stage. *)
Lemma body_ok env cfg d : DryRun cfg = false → fatalErr (body env cfg (newSession d)).2 = None →
  let s0 := (body env cfg (newSession d)).2 in
  (∀ st, st ≠ AtFinish → background env st = None) ∧ drain env ≠ DrainExpired ∧
  ∃ sid sp sc ss, linkOk env cfg sid sp ∧ scanWait env = Received sc ∧ summaryWait env = Received ss ∧
    SessionSummary.CompletionDigest ss = sha256 (completionInput (completed env)) ∧
    let n := channelsFor cfg (SessionParams.MaxChannels sp) in
    (∀ id, 1 <= id <= n → joinOne env (wrap_u 8 id) = None) ∧
    sent s0 = [sessionReady env cfg n; summaryAck env sc (SessionSummary.CompletionDigest ss)] ∧
    scComplete s0 = Some sc ∧ journal s0 = None ∧ (clearEnv env = None → disk s0 = None).
Proof.
  intros Hdry. cbv zeta. unfold body, mbind, SE_bind.
  destruct (link env cfg _) as [r s1] eqn:E1. apply link_spec in E1.
  destruct r as [[sid sp]|[]]; [destruct E1 as [Hl ->]|destruct E1 as (e & b & ->); by intros ?%fail_failed].
  destruct (prepare env cfg sp _) as [r s2] eqn:E2. apply prepare_spec in E2 as [dest E2].
  destruct r as [[]|[]]; [destruct E2 as (_ & -> & Hj)|destruct E2 as (e & [-> |[-> | ->]]); by intros ?%fail_failed].
  destruct (awaitScan env cfg sid _) as [r s3] eqn:E3. apply awaitScan_spec in E3 as (S3 & _ & _ & E3).
  destruct r as [sc|[]]; [|by destruct E3 as [? _]]. rewrite Hdry in E3 |- *. destruct E3 as (Hsc & K3 & B3 & j & d3 & Ho & J3 & D3).
  destruct (pipeline env s3) as [r s4] eqn:E4. apply pipeline_spec in E4 as (S4 & _ & _ & K4 & J4 & D4 & E4).
  destruct r as [[]|[]]; [destruct E4 as (_ & F3 & B4 & Hdr)|done].
  destruct (reconcile env sc s4) as [r s5] eqn:E5. apply reconcile_spec in E5 as (_ & _ & K5 & _ & E5).
  destruct r as [[]|[]]; [|by destruct E5 as [? _]]. destruct E5 as ((ss & Hss & Hc) & _ & S5 & B5 & J5 & D5).
  cbn [snd]. intros F5. split_and!; try done.
  - intros []; [by intros _; apply B3|done|by intros _; apply B5|done].
  - exists sid, sp, sc, ss. split_and!; try done.
    + rewrite S5, S4, S3, Hc. done.
    + by rewrite K5, K4, K3.
    + intros Hclr. by rewrite D5, J4, J3, Hclr.
Qed.
Lemma Run_ok numCPU env cfg d sum ex s : Run numCPU env cfg d = (sum, ex, s) → Outcome sum = "ok"%string →
  let s0 := (body env (withDefaults numCPU cfg) (newSession d)).2 in
  fatalErr s0 = None ∧ background env AtFinish = None ∧ ex = 0 ∧ FilesFailed sum <= 0 ∧ FilesRejected sum <= 0 ∧
  sent s = sent s0 ∧ disk s = disk s0 ∧ FilesTotal sum = from_option ScanComplete.TotalFiles 0 (scComplete s0).
Proof.
  unfold Run. set (cfg' := withDefaults numCPU cfg). intros E Ho. apply Run_finish_spec in E. cbv zeta in E |- *.
  destruct (failOpt_same (background env AtFinish) (body env cfg' (newSession d)).2) as (_ & _ & _ & _ & Hf).
  destruct E as (F & _ & D & _ & S & V & _ & T). rewrite Ho in V. apply verdict_ok in V as (-> & V & Hfl & Hrj).
  rewrite V in S. apply Hf in V as [Bf Hn]. split_and!; try done. rewrite S. destruct (ctrlUp _); apply app_nil_r.
Qed.
Lemma received_ok numCPU env cfg d sum ex s : Run numCPU env cfg d = (sum, ex, s) → Outcome sum = "ok"%string → DryRun cfg = false →
  ∃ cfg' n sc ss, summaryWait env = Received ss ∧ SessionSummary.CompletionDigest ss = sha256 (completionInput (completed env)) ∧
    sent s = [sessionReady env cfg' n; summaryAck env sc (SessionSummary.CompletionDigest ss)].
Proof.
  intros E Ho Hdry. destruct (Run_ok _ _ _ _ _ _ _ E Ho) as (Hn & _ & _ & _ & _ & Hs & _).
  destruct (body_ok env (withDefaults numCPU cfg) d Hdry Hn) as (_ & _ & sid & sp & sc & ss & _ & _ & Hss & Hc & _ & Hsent & _).
  eexists _, _, sc, ss. split_and!; [done..|]. by rewrite Hs, Hsent.
Qed.

(** C5: a receiver that reports success has the whole transfer.  If the outcome of
    a run that is not a dry run is "ok", its exit code is 0, no file failed or was
    rejected, no goroutine recorded an error, every data channel joined, the scan
    and the sender's summary arrived, and the sender's completion digest is the
    digest of exactly the files this side completed; the messages sent are
    SESSION_READY and the acknowledgement carrying that digest, and the journal has
    been removed (unless removing it failed). *)
Theorem ok_means_reconciled numCPU env cfg d sum ex s :
  Run numCPU env cfg d = (sum, ex, s) → Outcome sum = "ok"%string → DryRun cfg = false →
  ex = 0 ∧ FilesFailed sum <= 0 ∧ FilesRejected sum <= 0 ∧ (∀ st, background env st = None) ∧ drain env ≠ DrainExpired ∧
  ∃ sid sp sc ss, linkOk env (withDefaults numCPU cfg) sid sp ∧ scanWait env = Received sc ∧ summaryWait env = Received ss ∧
    SessionSummary.CompletionDigest ss = sha256 (completionInput (completed env)) ∧
    let n := channelsFor (withDefaults numCPU cfg) (SessionParams.MaxChannels sp) in
    (∀ id, 1 <= id <= n → joinOne env (wrap_u 8 id) = None) ∧
    sent s = [sessionReady env (withDefaults numCPU cfg) n; summaryAck env sc (SessionSummary.CompletionDigest ss)] ∧
    FilesTotal sum = ScanComplete.TotalFiles sc ∧ (clearEnv env = None → disk s = None).
Proof.
  intros E Ho Hdry. destruct (Run_ok _ _ _ _ _ _ _ E Ho) as (Hn & Bf & -> & Hfl & Hrj & Hs & Hd & T).
  destruct (body_ok env (withDefaults numCPU cfg) d Hdry Hn) as (Hb & Hdr & sid & sp & sc & ss & Hl & Hsc & Hss & Hc & Hj & Hsent & K & _ & Hclr).
  split_and!; try done.
  - intros []; [by apply Hb..|done].
  - exists sid, sp, sc, ss. cbv zeta in *. split_and!; try done; [by rewrite Hs|by rewrite T, K|intros Hz; rewrite Hd; by apply Hclr].
Qed.

(** C38: how a run ends.  With an error the exit code is 5 for a signal and the
    error's own class otherwise; without one it is 1 exactly when a file failed or
    was rejected and 0 otherwise.  The sender is told, by exactly one ERROR message
    and as the last thing sent, when the control channel is up and the error is not
    a signal, and never otherwise. *)
Theorem exit_exact numCPU env cfg d sum ex s :
  Run numCPU env cfg d = (sum, ex, s) →
  (∀ e, fatalErr s = Some e → ex = (if isErrSignal e then 5 else ExitCode (Some e)) ∧ Outcome sum = (if isErrSignal e then "signal" else "error")%string) ∧
  (fatalErr s = None → (ex = 1 ↔ 0 < FilesFailed sum ∨ 0 < FilesRejected sum) ∧ (ex = 0 ∨ ex = 1)) ∧
  (ctrlUp s = false → sent s = []) ∧
  (∀ m, (m ∈ sent s ∧ isError m = true) ↔ ∃ e, fatalErr s = Some e ∧ ctrlUp s = true ∧ notifyPeer e = Some m) ∧
  (∀ m, m ∈ sent s → isError m = true → ∃ l, sent s = l ++ [m] ∧ Forall (λ m, isError m = false) l).
Proof.
  unfold Run. intros E. apply Run_finish_spec in E. cbv zeta in E. destruct E as (F & C & _ & _ & S & V & _).
  set (cfg' := withDefaults numCPU cfg) in *. destruct (body_quiet env cfg' d) as [Q1 Q2].
  set (b := (body env cfg' (newSession d)).2) in *. rewrite <- F in S, V. rewrite <- C in S, Q2. rewrite C.
  assert (Hn : ∀ e m, notifyPeer e = Some m → isError m = true) by (intros e m; unfold notifyPeer; destruct (isErrSignal e); by intros [= <-]).
  assert (Q3 : ∀ m, m ∈ sent b → isError m = true → False) by (intros m Hm He; rewrite Forall_forall in Q1; apply Q1 in Hm; congruence).
  rewrite <- C. split_and!.
  - intros e He. rewrite He in V. unfold verdict in V. by destruct (isErrSignal e); injection V as <- <-.
  - intros He. rewrite He in V. unfold verdict in V. destruct (_ || _) eqn:Eo; injection V as <- _.
    + apply orb_true_iff in Eo. rewrite !Z.ltb_lt in Eo. split; [tauto|by right].
    + apply orb_false_iff in Eo as [E1 E2]. apply Z.ltb_ge in E1, E2. split; [lia|by left].
  - intros Hu. rewrite S, Hu, app_nil_r. by apply Q2.
  - intros m. rewrite S, elem_of_app. split.
    + intros [[Hm|Hm] He]; [by destruct (Q3 m)|]. destruct (ctrlUp s); [|by apply elem_of_nil in Hm].
      destruct (fatalErr s) as [e|]; [|by apply elem_of_nil in Hm]. exists e. split_and!; [done..|].
      destruct (notifyPeer e); [by apply list_elem_of_singleton in Hm as ->|by apply elem_of_nil in Hm].
    + intros (e & -> & -> & He). split; [|by eapply Hn]. right. rewrite He. by apply list_elem_of_singleton.
  - intros m Hm He. rewrite S in Hm |- *. apply elem_of_app in Hm as [Hm|Hm]; [by destruct (Q3 m)|].
    destruct (ctrlUp s); [|by apply elem_of_nil in Hm]. destruct (fatalErr s) as [e|]; [|by apply elem_of_nil in Hm].
    destruct (notifyPeer e) as [m'|]; cbn [option_list] in *; [|by apply elem_of_nil in Hm].
    apply list_elem_of_singleton in Hm as ->. by exists (sent b).
Qed.

(** The journal of a run that still has one. *)
Lemma body_journal env cfg d j : journal (body env cfg (newSession d)).2 = Some j →
  ∃ sid sp sc d1, linkOk env cfg sid sp ∧ scanWait env = Received sc ∧ scComplete (body env cfg (newSession d)).2 = Some sc ∧
    (∃ prior, Journal.Open (journalEnv env) (hex_encode sid) (hex_encode (manifestDigest32 sc)) d = (Ok (j, prior), d1)) ∧
    disk (body env cfg (newSession d)).2 = (λ d, crash (flushed env) (MarkAll j d (logged env))) <$> d1.
Proof.
  unfold body, mbind, SE_bind.
  destruct (link env cfg _) as [r s1] eqn:E1. apply link_spec in E1.
  destruct r as [[sid sp]|[]]; [destruct E1 as [Hl ->]|destruct E1 as (e & b & ->); by destruct b].
  destruct (prepare env cfg sp _) as [r s2] eqn:E2. apply prepare_spec in E2 as [dest E2].
  destruct r as [[]|[]]; [destruct E2 as (_ & -> & _)|destruct E2 as (e & [-> |[-> | ->]]); done].
  destruct (awaitScan env cfg sid _) as [r s3] eqn:E3. apply awaitScan_spec in E3 as (_ & _ & _ & E3).
  destruct r as [sc|[]]; [|destruct E3 as [_ [J|J]]; cbn; by rewrite J].
  destruct E3 as (Hsc & K3 & _ & E3).
  destruct (pipeline env s3) as [r s4] eqn:E4. apply pipeline_spec in E4 as (_ & _ & _ & K4 & J4 & D4 & _). unfold afterPipeline in D4.
  assert (Hgo : journal s4 = Some j → ∃ d1, (∃ prior, Journal.Open (journalEnv env) (hex_encode sid) (hex_encode (manifestDigest32 sc)) d = (Ok (j, prior), d1)) ∧
    disk s4 = (λ d, crash (flushed env) (MarkAll j d (logged env))) <$> d1).
  { intros J. rewrite J4 in J. destruct (DryRun cfg); [destruct E3 as [J3 _]; by rewrite J3 in J|].
    destruct E3 as (j' & d1 & Ho & J3 & D3). rewrite J3 in J, D4. injection J as ->. exists d1. split; [exact Ho|by rewrite D4, D3]. }
  destruct r as [[]|[]].
  2: { cbn. intros (d1 & Ho & Hd)%Hgo. exists sid, sp, sc, d1. split_and!; try done. congruence. }
  destruct (DryRun cfg).
  { cbn. intros (d1 & Ho & Hd)%Hgo. exists sid, sp, sc, d1. split_and!; try done. congruence. }
  destruct (reconcile env sc s4) as [r s5] eqn:E5. apply reconcile_spec in E5 as (_ & _ & K5 & _ & E5).
  destruct r as [[]|[]]; cbn [snd]; [destruct E5 as (_ & _ & _ & _ & J5 & _); by rewrite J5|].
  destruct E5 as (_ & J5 & D5). rewrite J5, D5, K5. intros (d1 & Ho & Hd)%Hgo. exists sid, sp, sc, d1. split_and!; try done. congruence.
Qed.

(** C6: a resume command that is printed works.  If a run on a fresh destination
    ends with a resume command, its exit code is not 0 and the journal is on disk:
    however much of it reached the disk, the next session with the same manifest
    digest resumes from it with the index of a prefix of the journalled files, and
    that prefix holds every record whose bytes reached the disk. *)
Theorem resume_command_works numCPU env cfg sum ex s now now' sid' :
  Run numCPU env cfg None = (sum, ex, s) → ResumeCommand sum ≠ [] → journalEnv env = calmEnv now → Forall recordOk (logged env) →
  ex ≠ 0 ∧ ∃ sc k, scanWait env = Received sc ∧ (k <= length (logged env))%nat ∧
    Journal.Open (calmEnv now') sid' (hex_encode (manifestDigest32 sc)) (disk s) =
      (Ok (mkJournal true true, index (take k (logged env))), disk s) ∧
    ∀ i, (i <= length (logged env))%nat → (length (logOf (take i (logged env))) <= flushed env)%nat → (i <= k)%nat.
Proof.
  unfold Run. intros E Hr Henv Hrs. apply Run_finish_spec in E. cbv zeta in E. destruct E as (_ & _ & D & _ & _ & _ & R & _).
  rewrite R in Hr. destruct (journal (body _ _ _).2) as [j|] eqn:J; [|done]. destruct (ex =? 0) eqn:Ex; [done|]. apply Z.eqb_neq in Ex.
  split; [done|]. apply body_journal in J as (sid & sp & sc & d1 & _ & Hsc & _ & (prior & Ho) & Hd).
  rewrite Henv, Open_fresh in Ho. injection Ho as <- _ <-. rewrite D, Hd. cbn [fmap option_fmap option_map]. rewrite crash_fresh by done.
  destruct (Open_resumes now now' (hex_encode sid) sid' (hex_encode (manifestDigest32 sc)) (logged env) (flushed env) Hrs) as (k & Hk & HO & Hi).
  by exists sc, k.
Qed.

(** A run that ends as "partial" has cleared its journal and prints no resume
    command, although [Summary.ResumeCommand] is documented as set on every exit
    that is not clean. *)
Lemma partial_has_no_resume numCPU env cfg d sum ex s :
  Run numCPU env cfg d = (sum, ex, s) → Outcome sum = "partial"%string → DryRun cfg = false → ex = 1 ∧ ResumeCommand sum = [] ∧ journal s = None.
Proof.
  unfold Run. set (cfg' := withDefaults numCPU cfg). intros E Ho Hdry. change (DryRun cfg) with (DryRun cfg') in Hdry.
  apply Run_finish_spec in E. cbv zeta in E. destruct E as (F & _ & _ & J & _ & V & R & _).
  destruct (failOpt_same (background env AtFinish) (body env cfg' (newSession d)).2) as (_ & _ & _ & _ & Hf).
  rewrite Ho in V. unfold verdict in V. destruct (fatalErr (failOpt _ _)) as [e|] eqn:Ef; [by destruct (isErrSignal e)|].
  destruct (_ || _); [|done]. injection V as <-. assert (Hn : fatalErr (body env cfg' (newSession d)).2 = None) by by apply Hf.
  destruct (body_ok env cfg' d Hdry Hn) as (_ & _ & sid & sp & sc & ss & _ & _ & _ & _ & _ & _ & _ & Hj & _).
  rewrite Hj in R. split_and!; [done..|by apply J].
Qed.
End whole.

(** ** Candidates and destination *)

(** Ranking only reorders, keeps the order of equals, and puts loopback before
    private IPv4 before other IPv4 before unique-local IPv6 before the rest; [Dial]
    takes the first candidate whose handshake succeeds, and an authentication
    failure in its table is what is reported when none does. *)
Lemma orderCandidates_spec eps :
  orderCandidates eps ≡ₚ eps ∧ StronglySorted (λ a b, candRank a <= candRank b) (orderCandidates eps) ∧
  ∀ k, filter (λ e, candRank e = k) (orderCandidates eps) = filter (λ e, candRank e = k) eps.
Proof. split_and!; [apply SliceStable_perm|apply SliceStable_sorted|intros k; apply SliceStable_stable]. Qed.

Lemma authCodeFromTable_spec tab :
  (authCodeFromTable tab = [] ∧ Forall (λ p, GetCode p.2 ∉ [E4001; E4002; E2003]) tab) ∨
  (∃ t1 ep e t2, tab = t1 ++ (ep, e) :: t2 ∧ authCodeFromTable tab = GetCode e ∧ GetCode e ∈ [E4001; E4002; E2003] ∧
    Forall (λ p, GetCode p.2 ∉ [E4001; E4002; E2003]) t1).
Proof.
  induction tab as [|[ep e] tab IH]; cbn [authCodeFromTable]; [by left|]. case_bool_decide as Hc.
  - right. by exists [], ep, e, tab.
  - destruct IH as [[-> IH]|(t1 & ep' & e' & t2 & -> & -> & Hin & IH)].
    + left. split; [done|]. by constructor.
    + right. exists ((ep, e) :: t1), ep', e', t2. split_and!; try done. by constructor.
Qed.

Lemma Dial_spec eps l :
  (∃ ep l1 l2, l = l1 ++ (ep, None) :: l2 ∧ Forall (λ p, p.2 ≠ None) l1 ∧ (Dial eps l).1.1 = Some ep ∧ (Dial eps l).2 = None) ∨
  ((eps = [] ∨ Forall (λ p, p.2 ≠ None) l) ∧ (Dial eps l).1.1 = None ∧ ∃ e, (Dial eps l).2 = Some e ∧ GetCode e = E3001).
Proof.
  unfold Dial. case_bool_decide as Hne; [right; split; [by left|split; [done|by eexists]]|].
  assert (Hg : ∀ tab, (∃ ep l1 l2, l = l1 ++ (ep, None) :: l2 ∧ Forall (λ p, p.2 ≠ None) l1 ∧ (dialLoop l tab).1.1 = Some ep ∧ (dialLoop l tab).2 = None) ∨
    (Forall (λ p, p.2 ≠ None) l ∧ (dialLoop l tab).1.1 = None ∧ ∃ e, (dialLoop l tab).2 = Some e ∧ GetCode e = E3001)).
  { induction l as [|[ep [e|]] l IH]; intros tab; cbn [dialLoop].
    - right. split_and!; [by constructor|done|by eexists].
    - destruct (IH (tab ++ [(ep, e)])) as [(ep' & l1 & l2 & -> & H1 & H2)|(H1 & H2)].
      + left. exists ep', ((ep, Some e) :: l1), l2. split_and!; try done; [by constructor|by destruct H2..].
      + right. split; [by constructor|done].
    - left. by exists ep, [], l. }
  destruct (Hg []) as [?|(H1 & H2)]; [by left|]. right. split; [by right|done].
Qed.

(** A sender that announces the root name ".." makes the receiver without --dest
    write into the parent of its working directory. *)
Lemma dotdot_root_escapes :
  resolveDest (Ok (bs "/home/u/dl")) [] (bs "..") = Ok (bs "/home/u") ∧
  resolveDest (Ok (bs "/home/u/dl")) [] (bs "/a/../photos/") = Ok (bs "/home/u/dl/photos") ∧
  resolveDest (Ok (bs "/home/u/dl")) [] (bs "..//.") = Ok (bs "/home/u") ∧
  resolveDest (Ok (bs "/home/u/dl")) [] (bs "/") = Ok (bs "/home/u/dl/esync-received").
Proof. vm_compute. done. Qed.

(** ** A concrete session *)
#[local] Instance ex_hs : HandshakeCrypto := {|
  Handshake.sha256 b := take 32 (b ++ replicate 32 Byte.x00); hkdfExtract k _ := Ok k; hkdfExpand k _ := Ok k;
  x25519Public b := b; x25519 a b := a ++ b |}.
#[local] Instance ex_hash : HashFns := {| md5 := id; Digest.sha256 := id |}.
Definition ex_config (dry : bool) : Config.t :=
  Config.mk (bs "04009-G5804-CC4E8-00410-61050-R3GG2-8A1C6-0T3GF-98RV1-A8") [] (bs "1.0") dry
    0 false 0 0 0 0 0 false 0 0 0 0 0 false false false false 0 0 0 0 0 0.
Definition ex_params : SessionParams.t := SessionParams.mk (bs "photos") 0 SHA256 0 0 0 1 (bs "1.0") 8 [] [].
Definition ex_env (scan : selected ScanComplete.t) (dr : drained) (sum : selected SessionSummary.t) (failed : Z) : renv :=
  mkRenv (bs "linux") (λ eps, (λ e, (e, None)) <$> eps) (Ok (MSessionParams ex_params)) (Ok (bs "/home/u")) None None None (2 ^ 40)
    None (λ _, None) scan (calmEnv (bs "t0")) dr [ex_rec1; ex_rec2] 40 sum [7; 8] None None (λ _, None) (λ _, mkCounters 2 0 failed 0 42).
Definition ex_scan : ScanComplete.t := ScanComplete.mk 2 42 1 0 (bs "digest").
Definition ex_ss : SessionSummary.t := SessionSummary.mk 2 2 0 0 42 1 (completionInput [8; 7]).

Lemma ok_means_reconciled_witness :
  let out := Run 4 (ex_env (Received ex_scan) Drained (Received ex_ss) 0) (ex_config false) None in
  out.1.2 = 0 ∧ disk out.2 = None ∧ length (sent out.2) = 2%nat.
Proof.
  cbv zeta. destruct (Run 4 _ (ex_config false) None) as [[sum ex] s] eqn:E.
  assert (Ho : Outcome sum = "ok"%string) by (change sum with (sum, ex, s).1.1; rewrite <- E; vm_compute; reflexivity).
  destruct (ok_means_reconciled 4 _ (ex_config false) None sum ex s E Ho eq_refl)
    as (H1 & _ & _ & _ & _ & sid & sp & sc & ss & _ & _ & _ & _ & _ & Hs & _ & Hd).
  split; [exact H1|]. split; [by apply Hd|]. cbn [snd]. by rewrite Hs.
Defined.

Lemma exit_exact_witness :
  let out := Run 4 (ex_env TimedOut Drained (Received ex_ss) 0) (ex_config false) None in
  out.1.2 = 2 ∧ ∃ m, m ∈ sent out.2 ∧ isError m = true.
Proof.
  cbv zeta. destruct (Run 4 _ (ex_config false) None) as [[sum ex] s] eqn:E.
  destruct (exit_exact 4 _ (ex_config false) None sum ex s E) as (H1 & _ & _ & H4 & _).
  assert (Hs : fatalErr s = Some (fault E9002 "await SCAN_COMPLETE" [] None) ∧ ctrlUp s = true).
  { change s with (sum, ex, s).2. rewrite <- E. vm_compute. split; reflexivity. }
  destruct Hs as [He Hu]. split; [destruct (H1 _ He) as [-> _]; vm_compute; reflexivity|].
  destruct (notifyPeer (fault E9002 "await SCAN_COMPLETE" [] None)) as [m|] eqn:En; [|by vm_compute in En].
  exists m. apply (H4 m). exact (ex_intro _ _ (conj He (conj Hu En))).
Defined.

(** The sender disappears in the middle: the journal was written up to byte 40. *)
Lemma resume_command_works_witness :
  let out := Run 4 (ex_env (Received ex_scan) DrainCancelled Cancelled 0) (ex_config false) None in
  out.1.2 = 2 ∧ ResumeCommand out.1.1 = bs "esync --link <new code from the sender> --dest /home/u/photos" ∧
  ∃ prior, (Journal.Open (calmEnv (bs "t1")) (bs "s2") (hex_encode (manifestDigest32 ex_scan)) (disk out.2)).1 = Ok (mkJournal true true, prior).
Proof.
  cbv zeta. destruct (Run 4 _ (ex_config false) None) as [[sum ex] s] eqn:E.
  assert (Hr : (sum, ex, s).1.2 = 2 ∧ ResumeCommand (sum, ex, s).1.1 = bs "esync --link <new code from the sender> --dest /home/u/photos")
    by (rewrite <- E; vm_compute; split; reflexivity).
  cbn [fst snd] in *. destruct Hr as [H1 H2]. split; [exact H1|]. split; [exact H2|].
  destruct (resume_command_works 4 _ (ex_config false) sum ex s (bs "t0") (bs "t1") (bs "s2") E) as (_ & sc & k & Hsc & _ & HO & _);
    [by rewrite H2|reflexivity|exact ex_recs_ok|].
  injection Hsc as <-. cbn [snd]. rewrite HO. by eexists.
Defined.

(** A dry run whose sender disappears before the manifests have arrived ends as
    "ok": the wait for the summary, where the loss of the control channel becomes
    E4005, comes after a dry run has returned. *)
Lemma abandoned_dry_run_succeeds :
  let out := Run 4 (ex_env (Received ex_scan) DrainCancelled Cancelled 0) (ex_config true) None in
  out.1.2 = 0 ∧ Outcome out.1.1 = "ok"%string ∧
  (Run 4 (ex_env (Received ex_scan) DrainCancelled Cancelled 0) (ex_config false) None).1.2 = 2.
Proof. vm_compute. done. Qed.
