(* ===== verification/RunSender.v ===== *)
(** * RunSender: the sender's session (src/internal/sender/run.go, config.go)

    [Run] from the source path to the exit code, as a script over what each stage
    meets ([senv]): the waits, the calls to the outside, the connections that
    arrive, the events of the tracker.  The pairing loop and the accept loop of the
    data channels, the session parameters and the configuration are definitions of
    their own; the plan, the tracker and the pairing code are those of their files. *)
From S2P Require Import Prelude Fault Strconv Glob Record Wire Handshake Plan Digest Tracker Fs Paircode Control RunReceiver.

(** ** Configuration *)
Module SConfig.
Record t := mk {
  SourcePath : bytes; Bind : bytes; Port : Z; Version : bytes; MaxChannels : Z;
  PairTimeout : Z; MaxPairAttempts : Z; HandshakeTimeout : Z; DrainTimeout : Z; ProgressInterval : Z; GroupBytes : Z;
  HashAlg : Z; HashWorkers : Z; ReadConcurrency : Z; ChunkSize : Z; SocketBuffer : Z;
  CompactCode : bool; FollowSymlinks : bool; OneFileSystem : bool; Hardlinks : bool; KeepSystemFiles : bool; Quick : bool; NoCache : bool;
  Filters : list FilterRule;
}.
End SConfig.
Import SConfig.

Definition withDefaults (numCPU : Z) (c : SConfig.t) : SConfig.t :=
  SConfig.mk (SourcePath c) (Bind c) (Port c) (Version c) (orDefault (MaxChannels c) 8)
    (orDefault (PairTimeout c) (600 * Second)) (orDefault (MaxPairAttempts c) 5) (orDefault (HandshakeTimeout c) (10 * Second))
    (orDefault (DrainTimeout c) (60 * Second)) (orDefault (ProgressInterval c) (5 * Second)) (orDefault (GroupBytes c) (2 ^ 29))
    (HashAlg c) (orDefault (HashWorkers c) (Z.min 8 numCPU)) (orDefault (ReadConcurrency c) 4) (orDefault (ChunkSize c) (2 ^ 20)) (orDefault (SocketBuffer c) (2 ^ 22))
    (CompactCode c) (FollowSymlinks c) (OneFileSystem c) (Hardlinks c) (KeepSystemFiles c) (Quick c) (NoCache c) (Filters c).
Definition planOptions (c : SConfig.t) : Options := mkOptions (KeepSystemFiles c) (Filters c) (GroupBytes c).
Definition flag (b : bool) (bit : Z) (f : Z) : Z := if b then Z.lor f (Z.shiftl 1 bit) else f.
Definition sessionFlags (c : SConfig.t) : Z :=
  flag (KeepSystemFiles c) 5 (flag (Hardlinks c) 4 (flag (Quick c) 2 (flag (OneFileSystem c) 1 (flag (FollowSymlinks c) 0 0)))).
Definition sysexcludeTag (c : SConfig.t) : bytes := if KeepSystemFiles c then [] else bs "sys-v1".
Definition sessionParams (goos : bytes) (c : SConfig.t) (absRoot : bytes) (sourceKind : Z) : Message :=
  MSessionParams (SessionParams.mk (Base absRoot) sourceKind (wrap_u 8 (HashAlg c)) (wrap_u 64 (GroupBytes c)) (sessionFlags c)
    (platformID goos) 1 (Version c) (wrap_u 32 (MaxChannels c)) (FilterSignature (planOptions c)) (sysexcludeTag c)).

Definition compactEndpoints (eps : list Endpoint) (compact : bool) : list Endpoint :=
  if compact && (2 <? length eps)%nat then take 2 eps else eps.

(** ** Pairing: connections in the order they are accepted

    [AcceptErr] is [lst.Accept] failing, at the deadline or otherwise. *)
Inductive accepted (A : Type) := AcceptErr (e : gerr) (timeout : bool) | Conn (r : result gerr A).
Arguments AcceptErr {A} e timeout.
Arguments Conn {A} r.

(** [pair] from [attempts] on, on the connections that come: [None] while it still
    waits for one.  Also the number of handshakes it has run. *)
Fixpoint pairLoop {A} (maxAttempts attempts : Z) (l : list (accepted A)) : option (result gerr A) * nat :=
  match l with
  | [] => (None, 0%nat)
  | AcceptErr e timeout :: _ => (Some (Err (if timeout then fault E2006 "await receiver" [] None else e)), 0%nat)
  | Conn (Ok sess) :: _ => (Some (Ok sess), 1%nat)
  | Conn (Err _) :: l =>
      let attempts := attempts + 1 in
      if maxAttempts <=? attempts then (Some (Err (fault E2007 "pair" [] None)), 1%nat)
      else let '(r, n) := pairLoop maxAttempts attempts l in (r, S n)
  end.
Definition pair {A} (cfg : SConfig.t) (l : list (accepted A)) : option (result gerr A) * nat := pairLoop (MaxPairAttempts cfg) 0 l.

(** [acceptData]: the ids joined, up to [n] of them. *)
Fixpoint acceptLoop (n : Z) (conns : list Z) (l : list (accepted Z)) : option (result gerr (list Z)) :=
  if n <=? Z.of_nat (length conns) then Some (Ok conns)
  else
    match l with
    | [] => None
    | AcceptErr e _ :: _ => Some (Err (EFault (Wrap E4002 "accept data channel" [] e)))
    | Conn (Ok id) :: l => acceptLoop n (conns ++ [id]) l
    | Conn (Err _) :: l => acceptLoop n conns l
    end.
Definition acceptData (n : Z) (l : list (accepted Z)) : option (result gerr (list Z)) :=
  if n <=? 0 then Some (Ok []) else acceptLoop n [] l.

(** [checkReadable]: opening, and reading one name of a directory. *)
Definition checkReadable (isDir : bool) (abs : bytes) (open_ readDir : option stdErr) : option gerr :=
  match open_ with
  | Some e => Some (EFault (Wrap E1004 "open source" abs (EStd e)))
  | None =>
      match (if isDir then readDir else None) with
      | Some StdEOF | None => None
      | Some e => Some (EFault (Wrap E1004 "read source" abs (EStd e)))
      end
  end.

(** ** The session *)
Record SSummary := mkSSummary {
  sOutcome : string; sFilesTotal : Z; sFilesTransferred : Z; sFilesSkipped : Z; sFilesFailed : Z; sBytesTransferred : Z; sGroupsTotal : Z;
}.
Definition noSummary : SSummary := mkSSummary "" 0 0 0 0 0 0.

(** The points at which an error another goroutine recorded is first seen. *)
Inductive sstage := AtPairing | AtDrain | AtReport | AtEnd.
Record senv := mkSenv {
  s_goos : bytes; s_getwd : result stdErr bytes; lstat : result stdErr bool; openSource : option stdErr; readSource : option stdErr;
  discovered : result gerr (list Endpoint); randRead : result stdErr bytes; listenOn : result gerr Z;
  pairing : list (accepted unit); paramsSend : option gerr; readyRecv : result gerr Message; joins : list (accepted Z);
  walked : result gerr (list Entry * Z * Z); events : list event; summarySend : option gerr;
  ackWait : selected SessionSummaryAck.t; sbackground : sstage → option gerr;
}.

Record sstate := mkSstate { fatal : option gerr; up : bool; s_sent : list Message; stdout : option bytes; walkSkipped : Z; walkUnreadable : Z }.
Definition withFatal (f : option gerr) (s : sstate) : sstate := mkSstate f (up s) (s_sent s) (stdout s) (walkSkipped s) (walkUnreadable s).
Definition withLink (s : sstate) : sstate := mkSstate (fatal s) true (s_sent s) (stdout s) (walkSkipped s) (walkUnreadable s).
Definition withSent (m : Message) (s : sstate) : sstate := mkSstate (fatal s) (up s) (s_sent s ++ [m]) (stdout s) (walkSkipped s) (walkUnreadable s).
Definition withStdout (c : bytes) (s : sstate) : sstate := mkSstate (fatal s) (up s) (s_sent s) (Some c) (walkSkipped s) (walkUnreadable s).
Definition withWalk (sk un : Z) (s : sstate) : sstate := mkSstate (fatal s) (up s) (s_sent s) (stdout s) sk un.

(** How the script of [Run] leaves: through [finish], by a panic, or still waiting. *)
Inductive leaving := Finish (sum : SSummary) | Panic | Pending.
Definition sscript (A : Type) : Type := SE sstate leaving A.
(** [return fail(err)]. *)
Definition sabort {A} (e : gerr) : sscript A := λ s,
  match CompareAndSwap e (fatal s) with
  | Some v => (Err (Finish noSummary), withFatal v s)
  | None => (Err Panic, s)
  end.
Definition sabortOpt (e : option gerr) : sscript unit := match e with Some e => sabort e | None => mret () end.
Definition sorAbort {A} (r : result gerr A) : sscript A := match r with Ok a => mret a | Err e => sabort e end.
Definition await {A} (r : option (result gerr A)) : sscript A := match r with Some r => sorAbort r | None => failS Pending end.
(** Another goroutine's [setFatal]: a panic there is recovered by [obs.Go] and
    changes nothing. *)
Definition record (e : option gerr) (s : sstate) : sstate :=
  match e, fatal s with Some e, None => withFatal (Some e) s | _, _ => s end.

Section run.
Context `{PlanEnv} `{HashFns}.

(** Steps 1 to 5. *)
Definition announce (env : senv) (cfg : SConfig.t) : sscript (bytes * Z) :=
  absRoot ← match Abs (s_getwd env) (SourcePath cfg) with
            | Ok p => mret p
            | Err e => sabort (EFault (Wrap E1003 "resolve source path" (SourcePath cfg) (EStd e)))
            end;
  isDir ← match lstat env with
          | Ok b => mret b
          | Err e => sabort (EFault (Wrap (if bool_decide (e = StdNotExist) then E1003 else E1004) "stat source" absRoot (EStd e)))
          end;
  _ ← sabortOpt (checkReadable isDir absRoot (openSource env) (readSource env));
  eps ← sorAbort (discovered env);
  secret ← match randRead env with
           | Ok b => mret b
           | Err e => sabort (EFault (Wrap E4007 "generate session secret" [] (EStd e)))
           end;
  port ← sorAbort (listenOn env);
  let eps := (λ e, mkEndpoint (ep_addr e) port) <$> eps in
  let eps := compactEndpoints (take 4 eps) (CompactCode cfg) in
  match Encode (mkPayload eps secret (negb (bool_decide (Bind cfg = [])))) with
  | Some code => _ ← modS (withStdout code); mret (absRoot, if isDir : bool then 0 else 1)
  | None => failS Panic
  end.

(** Steps 6 to 8: the receiver, its parameters, its data channels. *)
Definition channelsOf (cfg : SConfig.t) (ready : SessionReady.t) : Z :=
  if MaxChannels cfg <? SessionReady.Channels ready then MaxChannels cfg else SessionReady.Channels ready.
Definition chunkSizeOf (cfg : SConfig.t) (ready : SessionReady.t) : Z :=
  let mc := SessionReady.MaxChunk ready in if (0 <? mc) && (mc <? ChunkSize cfg) then mc else ChunkSize cfg.
Definition meet (env : senv) (cfg : SConfig.t) (absRoot : bytes) (sourceKind : Z) : sscript SessionReady.t :=
  _ ← modS (record (sbackground env AtPairing));
  _ ← await (pair cfg (pairing env)).1;
  _ ← modS withLink;
  _ ← modS (withSent (sessionParams (s_goos env) cfg absRoot sourceKind));
  _ ← sabortOpt (paramsSend env);
  m ← sorAbort (readyRecv env);
  ready ← match m with
          | MSessionReady r => mret r
          | _ => sabort (fault E5001 "await SESSION_READY" (bs (MsgTypeString (Type_ m))) None)
          end;
  _ ← await (acceptData (channelsOf cfg ready) (joins env));
  mret ready.

(** Steps 9 and 10: the plan, the tracker's events, the summary, its acknowledgement. *)
Definition sessionSummary (pl : Plan) (skippedByWalk : Z) (t : tracker) : SessionSummary.t :=
  let '(transferred, skipped, failed, bytesSent) := counts t in
  SessionSummary.mk (TotalFiles pl) transferred (wrap_u 64 (skipped + ExcludedCount pl + skippedByWalk)) failed bytesSent
    (wrap_u 32 (Z.of_nat (NumGroups pl))) (completionDigest t).
Definition reported (v : SessionSummary.t) : SSummary :=
  mkSSummary "" (SessionSummary.FilesTotal v) (SessionSummary.FilesTransferred v) (SessionSummary.FilesSkipped v)
    (SessionSummary.FilesFailed v) (SessionSummary.BytesTransferred v) (SessionSummary.GroupsTotal v).
Definition serveAll (env : senv) (cfg : SConfig.t) : sscript (Plan * Z * tracker) :=
  '(collected, skipped, unreadable) ← sorAbort (walked env);
  _ ← modS (withWalk skipped unreadable);
  pl ← sorAbort (Build collected (planOptions cfg));
  _ ← modS (record (sbackground env AtDrain));
  t ← match wait (events env) (newTracker (GroupFirsts pl)) with
      | (t, Tracker.Returned None) => mret t
      | (_, Tracker.Returned (Some e)) => λ s, match fatal s with Some _ => (Err (Finish noSummary), s) | None => sabort e s end
      | _ => failS Pending
      end;
  mret (pl, skipped, t).
Definition report (env : senv) (pl : Plan) (skipped : Z) (t : tracker) : sscript SSummary :=
  let sum := sessionSummary pl skipped t in
  _ ← modS (withSent (MSessionSummary sum));
  _ ← modS (record (sbackground env AtReport));
  _ ← sabortOpt (summarySend env);
  match ackWait env with
  | Received ack =>
      if bool_decide (SessionSummaryAck.CompletionDigest ack = SessionSummary.CompletionDigest sum) then mret (reported sum)
      else sabort (fault E5005 "compare completion digest" [] None)
  | Cancelled => failS (Finish noSummary)
  | TimedOut => sabort (fault E9002 "await SESSION_SUMMARY_ACK" [] None)
  end.

Definition sbody (env : senv) (cfg : SConfig.t) : sscript SSummary :=
  '(absRoot, kind) ← announce env cfg;
  _ ← meet env cfg absRoot kind;
  '(pl, skipped, t) ← serveAll env cfg;
  report env pl skipped t.

(** [finish]. *)
Definition sverdict (ferr : option gerr) (sum : SSummary) (unreadable : Z) : Z * string :=
  match ferr with
  | Some e => (ExitCode (Some e), "error"%string)
  | None => if (0 <? sFilesFailed sum) || (0 <? unreadable) then (1, "partial"%string) else (0, "ok"%string)
  end.
Definition sfinish (env : senv) (sum : SSummary) (s : sstate) : SSummary * Z * sstate :=
  let s := record (sbackground env AtEnd) s in
  let '(exit_, outcome) := sverdict (fatal s) sum (walkUnreadable s) in
  let s := match fatal s with
           | Some e => match notifyPeer e with Some m => if up s then withSent m s else s | None => s end
           | None => s
           end in
  (mkSSummary outcome (sFilesTotal sum) (sFilesTransferred sum) (sFilesSkipped sum) (sFilesFailed sum) (sBytesTransferred sum) (sGroupsTotal sum),
   exit_, s).

(** [None]: still waiting, or a panic. *)
Definition SRun (numCPU : Z) (env : senv) (cfg : SConfig.t) : option (SSummary * Z * sstate) :=
  match sbody env (withDefaults numCPU cfg) (mkSstate None false [] None 0 0) with
  | (Ok sum, s) | (Err (Finish sum), s) => Some (sfinish env sum s)
  | (Err _, _) => None
  end.
End run.

(** ** Pairing is bounded *)

(** [l1] are the refused connections that were counted, from [k] refused before;
    what follows decides, unless the limit [mx] was reached. *)
Definition exhausted {A} (mx k : Z) (l1 : list (accepted A)) (r : option (result gerr A)) (n : nat) : Prop :=
  r = Some (Err (fault E2007 "pair" [] None)) ∧ n = length l1 ∧ k + Z.of_nat n = mx.
Definition paired {A} (mx k : Z) (l : list (accepted A)) (r : option (result gerr A)) (n : nat) : Prop :=
  ∃ l1 l2, l = l1 ++ l2 ∧ Forall (λ x, ∃ e, x = Conn (Err e)) l1 ∧
    (exhausted mx k l1 r n ∨
     k + Z.of_nat (length l1) < mx ∧
     match l2 with
     | [] => r = None ∧ n = length l1
     | Conn (Ok s) :: _ => r = Some (Ok s) ∧ n = S (length l1)
     | AcceptErr e timeout :: _ => r = Some (Err (if timeout then fault E2006 "await receiver" [] None else e)) ∧ n = length l1
     | Conn (Err _) :: _ => False
     end).
Lemma pairLoop_spec {A} mx (l : list (accepted A)) k : 0 <= k < mx →
  let (r, n) := pairLoop mx k l in k + Z.of_nat n <= mx ∧ paired mx k l r n.
Proof.
  revert k. induction l as [|x l IH]; intros k Hk; cbn [pairLoop].
  { split; [lia|]. exists [], []. split_and!; [done..|]. right. cbn. split_and!; [lia|done..]. }
  destruct x as [e timeout|[s|e]].
  - split; [lia|]. exists [], (AcceptErr e timeout :: l). split_and!; [done..|]. right. cbn. split_and!; [lia|done..].
  - split; [lia|]. exists [], (Conn (Ok s) :: l). split_and!; [done..|]. right. cbn. split_and!; [lia|done..].
  - destruct (Z.leb_spec mx (k + 1)) as [Hm|Hm].
    + split; [lia|]. exists [Conn (Err e)], l. split_and!; [done|apply Forall_singleton; by eexists|].
      left. split_and!; [done..|lia].
    + specialize (IH (k + 1) ltac:(lia)). destruct (pairLoop mx (k + 1) l) as [r n]. destruct IH as (Hn & l1 & l2 & -> & Hl1 & H2).
      split; [lia|]. exists (Conn (Err e) :: l1), l2. split_and!; [done|constructor; [by eexists|done]|]. cbn [length].
      destruct H2 as [(-> & -> & ?)|(? & H2)]; [left; split_and!; [done..|lia]|right; split; [lia|]].
      destruct l2 as [|[e' t'|[s'|e']] l2]; [by destruct H2 as [-> ->]..|done].
Qed.

(** C15: at most [MaxPairAttempts] handshakes are ever run for one pairing code,
    whoever connects (with the defaults applied the limit is at least 1).  Pairing
    succeeds with the first connection whose handshake succeeds if fewer than the
    limit failed before it; the attempt that exhausts the limit ends it with E2007
    whatever would come after; until then an accept error ends it with E2006 at the
    deadline and with itself otherwise. *)
Theorem pairing_bounded {A} numCPU c (l : list (accepted A)) :
  let cfg := withDefaults numCPU c in
  let (r, n) := pair cfg l in
  0 < MaxPairAttempts cfg ∧ Z.of_nat n <= MaxPairAttempts cfg ∧ paired (MaxPairAttempts cfg) 0 l r n.
Proof.
  cbv zeta. unfold pair. assert (Hpos : 0 < MaxPairAttempts (withDefaults numCPU c)).
  { cbn. unfold orDefault. destruct (Z.leb_spec (MaxPairAttempts c) 0); lia. }
  revert Hpos. generalize (MaxPairAttempts (withDefaults numCPU c)). intros mx Hpos.
  pose proof (pairLoop_spec mx l 0 ltac:(lia)) as Hg. destruct (pairLoop mx 0 l) as [r n]. destruct Hg as [Hn Hg]. split_and!; [done|lia|exact Hg].
Qed.

(** [acceptData] returns with exactly the channels the receiver announced, or with
    E4002; a refused join counts for nothing. *)
Lemma acceptData_spec n l r : acceptData n l = Some r →
  match r with
  | Ok conns => Z.of_nat (length conns) = Z.max 0 n ∧ conns `sublist_of` omap (λ x, match x with Conn (Ok id) => Some id | _ => None end) l
  | Err e => ∃ e0 t, AcceptErr e0 t ∈ l ∧ e = EFault (Wrap E4002 "accept data channel" [] e0)
  end.
Proof.
  unfold acceptData. destruct (Z.leb_spec n 0) as [Hn|Hn]; [intros [= <-]; split; [cbn; lia|apply sublist_nil_l]|].
  assert (Hg : ∀ l conns, Z.of_nat (length conns) <= n → acceptLoop n conns l = Some r →
    match r with
    | Ok cs => Z.of_nat (length cs) = n ∧ ∃ k, cs = conns ++ k ∧ k `sublist_of` omap (λ x, match x with Conn (Ok id) => Some id | _ => None end) l
    | Err e => ∃ e0 t, AcceptErr e0 t ∈ l ∧ e = EFault (Wrap E4002 "accept data channel" [] e0)
    end).
  { clear l. induction l as [|x l IH]; intros conns Hc; cbn [acceptLoop]; destruct (Z.leb_spec n (Z.of_nat (length conns))) as [Hl|Hl].
    1, 3: intros [= <-]; split; [lia|]; exists []; rewrite app_nil_r; split; [done|apply sublist_nil_l].
    - done.
    - destruct x as [e0 t|[id|e0]].
      + intros [= <-]. exists e0, t. split; [by left|done].
      + intros E. apply IH in E; [|rewrite length_app; cbn; lia]. destruct r as [cs|e].
        * destruct E as (E & k & -> & Hk). split; [done|]. exists (id :: k). rewrite <- app_assoc. split; [done|]. by apply sublist_skip.
        * destruct E as (e1 & t & Hin & ->). exists e1, t. split; [by right|done].
      + intros E. apply IH in E; [|done]. destruct r as [cs|e]; [done|]. destruct E as (e1 & t & Hin & ->). exists e1, t. split; [by right|done]. }
  intros E. apply Hg in E; [|cbn; lia]. destruct r as [cs|e]; [|done]. destruct E as (E & k & -> & Hk). split; [lia|done].
Qed.

(** ** What a finished session says *)
Section sessions.
Context `{PlanEnv} `{HashFns}.
Implicit Types (env : senv) (cfg : SConfig.t) (s : sstate).

(** The plan was walked and built, and the tracker's wait ended well. *)
Definition served env cfg (pl : Plan) (sk un : Z) (t : tracker) : Prop :=
  ∃ collected, walked env = Ok (collected, sk, un) ∧ Build collected (planOptions cfg) = Ok pl ∧
    wait (events env) (newTracker (GroupFirsts pl)) = (t, Tracker.Returned None).

(** A SESSION_SUMMARY on the wire is that of a finished transfer. *)
Definition honest env cfg s : Prop :=
  ∀ v, MSessionSummary v ∈ s_sent s → ∃ pl sk un t, served env cfg pl sk un t ∧ v = sessionSummary pl sk t.

Lemma sabort_spec {A} e s : ∃ x s', @sabort A e s = (Err x, s') ∧ s_sent s' = s_sent s ∧ up s' = up s ∧ walkUnreadable s' = walkUnreadable s ∧
  (x = Panic ∨ x = Finish noSummary ∧ fatal s' ≠ None).
Proof.
  unfold sabort, CompareAndSwap. destruct (fatal s) as [f|] eqn:Ef; [destruct (bool_decide _)|].
  - eexists _, _. split; [reflexivity|]. split_and!; try done. by right.
  - eexists _, _. split; [reflexivity|]. split_and!; try done. by left.
  - eexists _, _. split; [reflexivity|]. split_and!; try done. by right.
Qed.
Lemma record_spec e s : s_sent (record e s) = s_sent s ∧ up (record e s) = up s ∧ walkUnreadable (record e s) = walkUnreadable s ∧
  (fatal (record e s) = None → fatal s = None ∧ e = None).
Proof. unfold record. destruct e, (fatal s) eqn:Ef; split_and!; done || congruence. Qed.

(** A stage that keeps a property of what was sent, and stops only by a panic, by
    waiting, or through [finish] with an error and no summary. *)
Definition stops (x : leaving) s : Prop := x = Panic ∨ x = Pending ∨ x = Finish noSummary ∧ fatal s ≠ None.
Definition keeps {A} (N : list Message → Prop) (m : sscript A) : Prop := ∀ s, N (s_sent s) →
  match m s with (Ok _, s') => N (s_sent s') | (Err x, s') => N (s_sent s') ∧ stops x s' end.

Lemma keeps_ret {A} N (a : A) : keeps N (mret a).
Proof. by intros s Hs. Qed.
Lemma keeps_bind {A B} N (m : sscript A) (k : A → sscript B) : keeps N m → (∀ a, keeps N (k a)) → keeps N (m ≫= k).
Proof.
  intros Hm Hk s Hs. unfold mbind, SE_bind. specialize (Hm s Hs). destruct (m s) as [[a|x] s1]; [by apply Hk|done].
Qed.
Lemma keeps_mod N f : (∀ s, N (s_sent s) → N (s_sent (f s))) → keeps N (modS f).
Proof. intros Hf s Hs. by apply Hf. Qed.
Lemma keeps_abort {A} N e : keeps N (@sabort A e).
Proof.
  intros s Hs. destruct (@sabort_spec A e s) as (x & s' & -> & E & _ & _ & Hx). rewrite E. split; [done|]. unfold stops. tauto.
Qed.
Lemma keeps_abortOpt N e : keeps N (sabortOpt e).
Proof. destruct e; [apply keeps_abort|apply keeps_ret]. Qed.
Lemma keeps_orAbort {A} N (r : result gerr A) : keeps N (sorAbort r).
Proof. destruct r; [apply keeps_ret|apply keeps_abort]. Qed.
Lemma keeps_await {A} N (r : option (result gerr A)) : keeps N (await r).
Proof. destruct r; [apply keeps_orAbort|]. intros s Hs. split; [done|]. right. by left. Qed.
Lemma keeps_panic {A} N : keeps N (failS Panic : sscript A).
Proof. intros s Hs. split; [done|]. by left. Qed.
Hint Resolve keeps_ret keeps_bind keeps_mod keeps_abort keeps_abortOpt keeps_orAbort keeps_await keeps_panic : esync.

Definition noReport (l : list Message) : Prop := ∀ v, MSessionSummary v ∉ l.
Lemma noReport_snoc l m : noReport l → (∀ v, m ≠ MSessionSummary v) → noReport (l ++ [m]).
Proof. intros Hl Hm v [Hv|Hv%list_elem_of_singleton]%elem_of_app; [by eapply Hl|by eapply Hm]. Qed.

Lemma announce_keeps env cfg : keeps noReport (announce env cfg).
Proof.
  unfold announce. cbv zeta. repeat (apply keeps_bind; [|intros ?]); repeat case_match; eauto with esync.
Qed.
Lemma meet_keeps env cfg root kind : keeps noReport (meet env cfg root kind).
Proof.
  unfold meet. repeat (apply keeps_bind; [|intros ?]); repeat case_match; eauto with esync.
  - apply keeps_mod. intros s. by destruct (record_spec (sbackground env AtPairing) s) as [-> _].
  - apply keeps_mod. intros s Hs. cbn. by apply noReport_snoc.
Qed.

Lemma keeps_pending {A} N : keeps N (failS Pending : sscript A).
Proof. intros s Hs. split; [done|]. right. by left. Qed.
Hint Resolve keeps_pending : esync.
Lemma serveAll_keeps env cfg : keeps noReport (serveAll env cfg).
Proof.
  unfold serveAll. apply keeps_bind; [eauto with esync|]. intros [[col sk] un]. apply keeps_bind; [eauto with esync|intros _].
  apply keeps_bind; [eauto with esync|intros pl]. apply keeps_bind; [|intros _; apply keeps_bind; [|eauto with esync]].
  - apply keeps_mod. intros s. by destruct (record_spec (sbackground env AtDrain) s) as [-> _].
  - destruct (wait _ _) as [t [|last|[e|]]]; eauto with esync. intros s Hs. destruct (fatal s) eqn:Ef; [|by apply keeps_abort].
    split; [done|]. right. right. split; [done|congruence].
Qed.

Lemma sorAbort_ok {A} (r : result gerr A) s a s' : sorAbort r s = (Ok a, s') → r = Ok a ∧ s' = s.
Proof. destruct r; cbn; [by intros [= -> ->]|]. intros E. destruct (@sabort_spec A e s) as (? & ? & E2 & _). by rewrite E in E2. Qed.
Lemma serveAll_ok env cfg s pl sk t s' : serveAll env cfg s = (Ok (pl, sk, t), s') →
  s_sent s' = s_sent s ∧ served env cfg pl sk (walkUnreadable s') t.
Proof.
  unfold serveAll. intros E. apply SE_bind_inv in E as [(x & _ & [=])|([[col sk'] un] & s1 & E1 & E)].
  apply sorAbort_ok in E1 as [Hw ->]. unfold mbind at 1, SE_bind at 1, modS at 1 in E.
  apply SE_bind_inv in E as [(x & _ & [=])|(pl' & s2 & E1 & E)]. apply sorAbort_ok in E1 as [Hb ->].
  unfold mbind at 1, SE_bind at 1, modS at 1 in E. destruct (record_spec (sbackground env AtDrain) (withWalk sk' un s)) as (R & _ & U & _).
  unfold mbind, SE_bind in E. destruct (wait _ _) as [t' [|last|[e|]]] eqn:Ew; [done..| |].
  - destruct (fatal _); [done|]. by destruct (sabort_spec (A:=tracker) e (record (sbackground env AtDrain) (withWalk sk' un s))) as (? & ? & E2 & _); rewrite E2 in E.
  - injection E as <- <- <- <-. split; [by rewrite R|]. exists col. rewrite U. done.
Qed.

Lemma sessionSummary_digest pl sk t : SessionSummary.CompletionDigest (sessionSummary pl sk t) = completionDigest t.
Proof. unfold sessionSummary. by destruct (counts t) as [[[? ?] ?] ?]. Qed.

(** The last stage: only a finished transfer is reported, and without an error only
    an acknowledged one, or one whose control channel ended first. *)
Definition acknowledged env pl sk t (sum : SSummary) : Prop :=
  (∃ ack, ackWait env = Received ack ∧ SessionSummaryAck.CompletionDigest ack = completionDigest t ∧ sum = reported (sessionSummary pl sk t)) ∨
  ackWait env = Cancelled ∧ sum = noSummary.
Lemma report_spec env pl sk t s r s' : report env pl sk t s = (r, s') →
  s_sent s' = s_sent s ++ [MSessionSummary (sessionSummary pl sk t)] ∧ walkUnreadable s' = walkUnreadable s ∧
  match r with
  | Ok sum => acknowledged env pl sk t sum
  | Err x => stops x s' ∨ x = Finish noSummary ∧ acknowledged env pl sk t noSummary
  end.
Proof.
  unfold report. cbv zeta. unfold mbind at 1, SE_bind at 1, modS at 1. set (s3 := withSent _ s).
  unfold mbind at 1, SE_bind at 1, modS at 1.
  destruct (record_spec (sbackground env AtReport) s3) as (R3 & _ & U3 & _). set (s4 := record (sbackground env AtReport) s3) in *.
  assert (Hab : ∀ A e r s', @sabort A e s4 = (r, s') → s_sent s' = s_sent s4 ∧ walkUnreadable s' = walkUnreadable s4 ∧ match r with Ok _ => False | Err x => stops x s' end).
  { intros A e r0 s5 E5. destruct (@sabort_spec A e s4) as (x & s6 & E6 & Hs6 & _ & Hu & Hx). rewrite E5 in E6. injection E6 as -> ->.
    split_and!; [done..|]. unfold stops. tauto. }
  change (walkUnreadable s) with (walkUnreadable s3). change (s_sent s ++ [_]) with (s_sent s3).
  rewrite <- U3, <- R3. unfold mbind, SE_bind. destruct (summarySend env) as [e|]; cbn [sabortOpt mret SE_ret].
  { destruct (sabort (A:=()) e s4) as [r1 s5] eqn:E5. apply Hab in E5 as (H5 & H6 & H7). destruct r1; [done|]. intros [= <- <-]. by split_and!; [..|left]. }
  destruct (ackWait env) as [ack| |] eqn:Ea; [case_bool_decide as Hc| |].
  - intros [= <- <-]. split_and!; [done..|]. left. exists ack. split_and!; [done| |done]. by rewrite Hc, sessionSummary_digest.
  - intros E. apply Hab in E as (H5 & H6 & H7). destruct r; [done|]. by split_and!; [..|left].
  - intros [= <- <-]. split_and!; [done..|]. right. split; [done|]. by right.
  - intros E. apply Hab in E as (H5 & H6 & H7). destruct r; [done|]. by split_and!; [..|left].
Qed.

(** The whole script. *)
Lemma sbody_spec env cfg s r s' : noReport (s_sent s) → sbody env cfg s = (r, s') →
  honest env cfg s' ∧
  (match r with Err x => stops x s' | Ok _ => False end ∨
   ∃ pl sk t sum, served env cfg pl sk (walkUnreadable s') t ∧ acknowledged env pl sk t sum ∧ (r = Ok sum ∨ r = Err (Finish sum))).
Proof.
  intros Hs E. assert (Hno : ∀ s1, noReport (s_sent s1) → honest env cfg s1) by (intros s1 Hn v Hv; by destruct (Hn v)).
  apply SE_bind_inv in E as [(x & E & ->)|([root kind] & s1 & E1 & E)].
  { pose proof (announce_keeps env cfg s Hs) as H'. rewrite E in H'. destruct H' as [H1 H2]. split; [by apply Hno|by left]. }
  pose proof (announce_keeps env cfg s Hs) as Hs1. rewrite E1 in Hs1.
  apply SE_bind_inv in E as [(x & E & ->)|(ready & s2 & E2 & E)].
  { pose proof (meet_keeps env cfg root kind s1 Hs1) as H'. rewrite E in H'. destruct H' as [H1 H2]. split; [by apply Hno|by left]. }
  pose proof (meet_keeps env cfg root kind s1 Hs1) as Hs2. rewrite E2 in Hs2.
  apply SE_bind_inv in E as [(x & E & ->)|([[pl sk] t] & s3 & E3 & E)].
  { pose proof (serveAll_keeps env cfg s2 Hs2) as H'. rewrite E in H'. destruct H' as [H1 H2]. split; [by apply Hno|by left]. }
  apply serveAll_ok in E3 as [S3 Hv]. apply report_spec in E as (S4 & U4 & Hr). split.
  - intros v. rewrite S4, S3. intros [Hv1|Hv1%list_elem_of_singleton]%elem_of_app; [by destruct (Hs2 v)|]. injection Hv1 as ->. by eexists _, _, _, _.
  - destruct r as [sum|x]; [right|destruct Hr as [Hr|[-> Hr]]; [by left|right]]; eexists pl, sk, t, _; (split_and!; [by rewrite U4|exact Hr|]); [by left|by right].
Qed.

Definition newSstate : sstate := mkSstate None false [] None 0 0.
Lemma sfinish_spec env sum0 s0 sum ex s : sfinish env sum0 s0 = (sum, ex, s) →
  (fatal s = None → fatal s0 = None ∧ sbackground env AtEnd = None ∧ s_sent s = s_sent s0) ∧
  (∃ l, s_sent s = s_sent s0 ++ l ∧ Forall (λ m, isError m = true) l) ∧ walkUnreadable s = walkUnreadable s0 ∧
  sverdict (fatal s) sum (walkUnreadable s0) = (ex, sOutcome sum) ∧
  sum = mkSSummary (sOutcome sum) (sFilesTotal sum0) (sFilesTransferred sum0) (sFilesSkipped sum0) (sFilesFailed sum0) (sBytesTransferred sum0) (sGroupsTotal sum0).
Proof.
  unfold sfinish. destruct (record_spec (sbackground env AtEnd) s0) as (R & U & W & F). set (s1 := record _ s0) in *.
  destruct (sverdict (fatal s1) sum0 (walkUnreadable s1)) as [x o] eqn:Ev. set (s2 := match fatal s1 with Some _ => _ | None => s1 end).
  assert (H2 : fatal s2 = fatal s1 ∧ walkUnreadable s2 = walkUnreadable s1 ∧ (fatal s1 = None → s_sent s2 = s_sent s1) ∧
    ∃ l, s_sent s2 = s_sent s1 ++ l ∧ Forall (λ m, isError m = true) l).
  { unfold s2. destruct (fatal s1) as [e|] eqn:Ef; [|split_and!; [done..|exists []; by rewrite app_nil_r]].
    destruct (notifyPeer e) as [m|] eqn:En; [destruct (up s1)|]; (split_and!; [done..|]).
    - exists [m]. split; [done|]. apply Forall_singleton. unfold notifyPeer in En. destruct (isErrSignal e); [done|by injection En as <-].
    - exists []. by rewrite app_nil_r.
    - exists []. by rewrite app_nil_r. }
  clearbody s2. destruct H2 as (F2 & W2 & N2 & l & S2 & L2). intros [= <- <- <-]. rewrite F2, W2, W. cbn [sOutcome]. split_and!.
  - intros Hn. destruct (F Hn) as [? ?]. split_and!; [done..|]. by rewrite N2, R.
  - exists l. by rewrite <- R.
  - done.
  - by rewrite <- W.
  - done.
Qed.

(** What "ok" means on the sender.  The exit code is then 0, no error was
    recorded, the source tree was walked without an unreadable directory, and the
    transfer the tracker followed was complete: every group decided, every needed
    file resolved.  If the acknowledgement was seen, it carried the digest of
    exactly the files this side completed, no file failed, and the summary is the
    plan's and the tracker's; otherwise the control channel ended first, and the
    summary is empty. *)
Theorem sender_ok_means numCPU env c sum ex s :
  SRun numCPU env c = Some (sum, ex, s) → sOutcome sum = "ok"%string →
  (∀ pl sk un t, served env (withDefaults numCPU c) pl sk un t → freshRun (calls (events env)) (newTracker (GroupFirsts pl))) →
  ex = 0 ∧ fatal s = None ∧ walkUnreadable s <= 0 ∧
  ∃ pl sk t, served env (withDefaults numCPU c) pl sk (walkUnreadable s) t ∧
    (∀ g, 0 <= g < Z.of_nat (length (GroupFirsts pl)) → g ∈ decidedSet t) ∧ needed t ⊆ resolved t ∧
    ((∃ ack, ackWait env = Received ack ∧ SessionSummaryAck.CompletionDigest ack = completionDigest t ∧ failedSet t = ∅ ∧
        (sFilesTotal sum, sFilesTransferred sum, sBytesTransferred sum) = (TotalFiles pl, Z.of_nat (size (completedSet t)), bytesTotal t)) ∨
     (ackWait env = Cancelled ∧ (sFilesTotal sum, sFilesTransferred sum, sBytesTransferred sum) = (0, 0, 0))).
Proof.
  unfold SRun. intros E Ho Hfresh. set (cfg := withDefaults numCPU c) in *. change (mkSstate None false [] None 0 0) with newSstate in E.
  destruct (sbody env cfg newSstate) as [r s0] eqn:Eb.
  assert (Hr : ∃ sum0, (r = Ok sum0 ∨ r = Err (Finish sum0)) ∧ sfinish env sum0 s0 = (sum, ex, s)).
  { destruct r as [sum0|[sum0| |]]; [exists sum0; split; [by left|congruence]|exists sum0; split; [by right|congruence]|done..]. }
  clear E. destruct Hr as (sum0 & Hr & E). apply sfinish_spec in E as (F & _ & W & V & S). rewrite Ho in V.
  assert (Hv : ex = 0 ∧ fatal s = None ∧ sFilesFailed sum <= 0 ∧ walkUnreadable s0 <= 0).
  { unfold sverdict in V. destruct (fatal s); [done|]. destruct (_ || _) eqn:Eo; [done|]. injection V as <-.
    apply orb_false_iff in Eo as [E1 E2]. apply Z.ltb_ge in E1, E2. done. }
  destruct Hv as (-> & Hf & Hff & Hun). destruct (F Hf) as (F0 & _ & _). apply sbody_spec in Eb as [_ Hb]; [|by intros v ?%elem_of_nil].
  destruct Hb as [Hst|(pl & sk & t & sum1 & Hsv & Hack & Hr1)].
  { exfalso. destruct Hr as [-> | ->]; [done|]. destruct Hst as [?|[?|[_ ?]]]; done. }
  assert (sum1 = sum0) as -> by (destruct Hr as [-> | ->], Hr1 as [[= <-]|[= <-]]; done).
  split_and!; [done..|by rewrite W|]. rewrite W. exists pl, sk, t. pose proof Hsv as (col & _ & _ & Hw).
  destruct (wait_done_all _ _ _ (Hfresh _ _ _ _ Hsv) Hw) as (Hc & H1 & H2). split_and!; [done..|]. rewrite S in Hff |- *. cbn [sFilesFailed sFilesTotal sFilesTransferred sBytesTransferred] in *.
  destruct Hack as [(ack & Ha & Hd & ->)|[Ha ->]]; [left; exists ack|by right]. split_and!; [done..| |].
  - unfold reported, sessionSummary, counts in Hff. cbn in Hff. apply leibniz_equiv, size_empty_inv. lia.
  - done.
Qed.

(** What a finished run has sent. *)
Lemma SRun_honest numCPU env c sum ex s : SRun numCPU env c = Some (sum, ex, s) → honest env (withDefaults numCPU c) s.
Proof.
  unfold SRun. change (mkSstate None false [] None 0 0) with newSstate.
  destruct (sbody env (withDefaults numCPU c) newSstate) as [r s0] eqn:Eb. apply sbody_spec in Eb as [Hh _]; [|by intros v ?%elem_of_nil].
  intros E. assert (Hr : ∃ sum0, sfinish env sum0 s0 = (sum, ex, s)) by (destruct r as [sum0|[sum0| |]]; [exists sum0; congruence..|done|done]).
  destruct Hr as [sum0 Hr]. apply sfinish_spec in Hr as (_ & (l & Hl & Hall) & _). intros v. rewrite Hl.
  intros [Hv|Hv]%elem_of_app; [by apply Hh|]. rewrite Forall_forall in Hall. by apply Hall in Hv.
Qed.
End sessions.

(** ** A concrete session: two files, of which one fails *)
#[local] Existing Instance toy_plan_env.
#[local] Instance ex_shash : HashFns := {| md5 := id; Digest.sha256 := id |}.
Definition ex_sconfig : SConfig.t :=
  SConfig.mk (bs "/src/photos") [] 0 (bs "1.0") 0 0 0 0 0 0 0 0 0 0 0 0 false false false false (Plan.KeepSystemFiles ex_opts) false false (Plan.Filters ex_opts).
Definition ex_events (fails : bool) : list event :=
  Call <$> [OpDecision (GroupDecision.mk 0 [1; 2] 0 []); OpStarted 5 1; (if fails then OpFailed 5 true true else OpCompleted 5 1 10);
            OpStarted 6 2; OpCompleted 6 2 5].
Definition ex_senv (fails : bool) (ack : selected SessionSummaryAck.t) : senv :=
  mkSenv (bs "linux") (Ok (bs "/home/u")) (Ok true) None None (Ok [mkEndpoint (V4 (be 4 0xC0A80118)) 0]) (Ok (byte_of_Z <$> seqZ 0 16)) (Ok 49721)
    [Conn (Err (fault E4001 "handshake" [] None)); Conn (Ok ())] None (Ok (MSessionReady (SessionReady.mk 2 4 2 65536 0 (bs "1.0") 1000)))
    [Conn (Ok 1); Conn (Ok 2)] (Ok (ex_entries, 1, 0)) (ex_events fails ++ [SelDone]) None ack (λ _, None).

(** The acknowledgement of the complete transfer is seen. *)
Definition ex_ack : SessionSummaryAck.t := SessionSummaryAck.mk 2 2 0 0 15 1 (completionInput [1; 2]).
Lemma sender_ok_means_witness :
  ∃ sum s, SRun 4 (ex_senv false (Received ex_ack)) ex_sconfig = Some (sum, 0, s) ∧ sFilesTotal sum = 2 ∧ sBytesTransferred sum = 15.
Proof.
  destruct (SRun 4 (ex_senv false (Received ex_ack)) ex_sconfig) as [[[sum ex] s]|] eqn:E.
  2: { exfalso. clear -E. vm_compute in E. discriminate E. }
  assert (Ho : match SRun 4 (ex_senv false (Received ex_ack)) ex_sconfig with Some (sum, _, s) => sOutcome sum = "ok"%string ∧ sFilesTotal sum = 2 ∧ sBytesTransferred sum = 15 | None => False end)
    by (vm_compute; split_and!; reflexivity).
  rewrite E in Ho. destruct Ho as (Ho & H1 & H2).
  destruct (sender_ok_means 4 _ ex_sconfig sum ex s E Ho) as (-> & _).
  - intros pl sk un t (col & Hw & Hb & _). injection Hw as <- _ _. 
    assert (Hf : match Build ex_entries (planOptions (withDefaults 4 ex_sconfig)) with Ok p => GroupFirsts p = [0] | Err _ => False end) by (vm_compute; reflexivity).
    rewrite Hb in Hf. rewrite Hf. clear. vm_compute. split_and!; (reflexivity || exact I || (intros Hx; discriminate Hx)).
  - exists sum, s. split; [reflexivity|]. split; [exact H1|exact H2].
Defined.

(** If the end of the control channel is seen before the acknowledgement (it is
    always there once the receiver has closed, and the select may take it), a
    transfer with a failed file ends with exit code 0, outcome "ok" and an empty
    summary, where with the acknowledgement it is exit code 1. *)
Lemma eof_before_ack_is_ok :
  let ack := SessionSummaryAck.mk 2 1 0 1 5 1 (completionInput [2]) in
  (λ '(sum, ex, _), (ex, sOutcome sum, sFilesTotal sum, sFilesFailed sum)) <$> SRun 4 (ex_senv true (Received ack)) ex_sconfig = Some (1, "partial"%string, 2, 1) ∧
  (λ '(sum, ex, _), (ex, sOutcome sum, sFilesTotal sum, sFilesFailed sum)) <$> SRun 4 (ex_senv true Cancelled) ex_sconfig = Some (0, "ok"%string, 0, 0).
Proof. vm_compute. done. Qed.

(** [fail] after another goroutine stored a fault panics when the error at hand is
    not a fault: here the wait of the tracker returns the bare [context.Canceled]
    after the check of [fatal] and before [setFatal]. *)
Lemma setFatal_panics : CompareAndSwap (EStd StdCanceled) (Some (fault E3005 "data channel" [] None)) = None.
Proof. reflexivity. Qed.

Lemma pairing_bounded_ex :
  (pair ex_sconfig [Conn (A:=()) (Err (fault E4001 "handshake" [] None)); Conn (Ok ())]).1 = Some (Err (fault E2007 "pair" [] None)) ∧
  (pair (withDefaults 4 ex_sconfig) [Conn (A:=()) (Err (fault E4001 "handshake" [] None)); Conn (Ok ())]).1 = Some (Ok ()).
Proof. done. Qed.
