(* ===== verification/Flag.v ===== *)
(** * Flag: what the command line takes from Go's standard library

    [flag.FlagSet] with Parse, Set, Visit and VisitAll, and the parsers of its values:
    [strconv.ParseInt] with base 0, [strconv.ParseBool], [time.ParseDuration]. *)
From S2P Require Import Prelude Strconv Glob Float64.

(** ** strconv.ParseInt(s, 0, 64) *)
Definition c_minus : byte := byte_of_Z 45.
Definition c_plus : byte := byte_of_Z 43.
Definition c_under : byte := byte_of_Z 95.
Definition c_eq : byte := byte_of_Z 61.
Definition lower (c : byte) : byte := byte_of_Z (Z.lor (Z_of_byte c) 32).
Definition isDigit (c : byte) : bool := (48 <=? Z_of_byte c) && (Z_of_byte c <=? 57).
(** The base a prefix chooses, and the digits after it. *)
Definition basePrefix (s : bytes) : Z * bytes :=
  match s with
  | c :: t =>
      if bool_decide (c = byte_of_Z 48) then
        match t with
        | p :: (_ :: _) as t' =>
            if bool_decide (lower p = byte_of_Z 98) then (2, drop 1 t)
            else if bool_decide (lower p = byte_of_Z 111) then (8, drop 1 t)
            else if bool_decide (lower p = byte_of_Z 120) then (16, drop 1 t)
            else (8, t)
        | _ => (8, t)
        end
      else (10, s)
  | [] => (10, s)
  end.
(** Underscores separate digits; a base prefix counts as a digit. *)
Fixpoint underscores_go (hex : bool) (saw : option bool) (s : bytes) : bool :=
  match s with
  | [] => negb (bool_decide (saw = Some false))
  | c :: s =>
      if isDigit c || (hex && (97 <=? Z_of_byte (lower c)) && (Z_of_byte (lower c) <=? 102)) then underscores_go hex (Some true) s
      else if bool_decide (c = c_under) then (if bool_decide (saw = Some true) then underscores_go hex (Some false) s else false)
      else if bool_decide (saw = Some false) then false
      else underscores_go hex None s
  end.
Definition underscoreOK (s : bytes) : bool :=
  match s with
  | c :: p :: t =>
      if bool_decide (c = byte_of_Z 48) && bool_decide (lower p ∈ [byte_of_Z 98; byte_of_Z 111; byte_of_Z 120])
      then underscores_go (bool_decide (lower p = byte_of_Z 120)) (Some true) t
      else underscores_go false None s
  | _ => underscores_go false None s
  end.
Definition ParseUint0 (s : bytes) : option Z :=
  match s with
  | [] => None
  | _ =>
      let '(base, t) := basePrefix s in
      ds ← digits_of base (filter (λ c, c ≠ c_under) t);
      let v := of_digits base ds in
      if (2 ^ 64 <=? v) || (bool_decide (c_under ∈ t) && negb (underscoreOK s)) then None else Some v
  end.
Definition ParseInt0 (s : bytes) : option Z :=
  let '(neg, t) := match s with
    | c :: t => if bool_decide (c = c_plus) then (false, t) else if bool_decide (c = c_minus) then (true, t) else (false, s)
    | [] => (false, s) end in
  un ← ParseUint0 t;
  if negb neg && (2 ^ 63 <=? un) then None else if neg && (2 ^ 63 <? un) then None else Some (if neg then - un else un).
Example ParseInt0_ex : (λ s, ParseInt0 (bs s)) <$> ["42"; "-0x1F"; "010"; "1_000"; "0b101"; "+0"; "0x_1"; "9223372036854775807"]%string
  = Some <$> [42; -31; 8; 1000; 5; 0; 1; 9223372036854775807].
Proof. by vm_compute. Qed.
Example ParseInt0_bad : (λ s, ParseInt0 (bs s)) <$> [""; "-"; "1__0"; "_1"; "1_"; "08"; "0x"; "9223372036854775808"; "1k"]%string = replicate 9 None.
Proof. by vm_compute. Qed.

Definition ParseBool (s : bytes) : option bool :=
  if bool_decide (s ∈ bs <$> ["1"; "t"; "T"; "TRUE"; "true"; "True"]%string) then Some true
  else if bool_decide (s ∈ bs <$> ["0"; "f"; "F"; "FALSE"; "false"; "False"]%string) then Some false
  else None.

(** ** time.ParseDuration, in nanoseconds *)
Fixpoint leadingInt (x : Z) (s : bytes) : option (Z * bytes) :=
  match s with
  | c :: s' =>
      if isDigit c then
        if 2 ^ 63 / 10 <? x then None
        else let x := x * 10 + (Z_of_byte c - 48) in if 2 ^ 63 <? x then None else leadingInt x s'
      else Some (x, s)
  | [] => Some (x, s)
  end.
(** The scale is a power of ten, exact in binary64 for the 19 digits that count. *)
Fixpoint leadingFraction (x scale : Z) (overflow : bool) (s : bytes) : Z * Z * bytes :=
  match s with
  | c :: s' =>
      if isDigit c then
        if overflow then leadingFraction x scale true s'
        else if (2 ^ 63 - 1) / 10 <? x then leadingFraction x scale true s'
        else
          let y := x * 10 + (Z_of_byte c - 48) in
          if 2 ^ 63 <? y then leadingFraction x scale true s' else leadingFraction y (scale * 10) false s'
      else (x, scale, s)
  | [] => (x, scale, s)
  end.
Fixpoint unitRun (s : bytes) : bytes * bytes :=
  match s with
  | c :: s' => if bool_decide (c = byte_of_Z 46) || isDigit c then ([], s) else let '(u, r) := unitRun s' in (c :: u, r)
  | [] => ([], [])
  end.
Definition unitMap (u : bytes) : option Z :=
  if bool_decide (u = bs "ns") then Some 1
  else if bool_decide (u = bs "us") || bool_decide (u = [Byte.xc2; Byte.xb5] ++ bs "s") || bool_decide (u = [Byte.xce; Byte.xbc] ++ bs "s") then Some (10 ^ 3)
  else if bool_decide (u = bs "ms") then Some (10 ^ 6) else if bool_decide (u = bs "s") then Some (10 ^ 9)
  else if bool_decide (u = bs "m") then Some (60 * 10 ^ 9) else if bool_decide (u = bs "h") then Some (3600 * 10 ^ 9) else None.
Fixpoint durations (fuel : nat) (d : Z) (s : bytes) : option Z :=
  match fuel, s with
  | _, [] => Some d
  | O, _ => None
  | S fuel, c :: _ =>
      if negb (bool_decide (c = byte_of_Z 46) || isDigit c) then None
      else
        '(v, s1) ← leadingInt 0 s;
        let pre := negb (length s1 =? length s)%nat in
        let '(f, scale, s2, post) :=
          match s1 with
          | p :: t =>
              if bool_decide (p = byte_of_Z 46)
              then let '(f, scale, r) := leadingFraction 0 1 false t in (f, scale, r, negb (length r =? length t)%nat)
              else (0, 1, s1, false)
          | [] => (0, 1, s1, false)
          end in
        if negb pre && negb post then None
        else
          let '(u, rest) := unitRun s2 in
          unit ← unitMap u;
          if 2 ^ 63 / unit <? v then None
          else
            let v := v * unit in
            extra ← (if 0 <? f then trunc (mul64 (ofInt f) (div64 (ofInt unit) (ofInt scale))) else Some 0);
            let v := v + extra in
            if 2 ^ 63 <? v then None
            else let d := wrap_u 64 (d + v) in if 2 ^ 63 <? d then None else durations fuel d rest
  end.
Definition ParseDuration (s : bytes) : option Z :=
  let '(neg, t) := match s with
    | c :: t => if bool_decide (c = c_minus) then (true, t) else if bool_decide (c = c_plus) then (false, t) else (false, s)
    | [] => (false, s) end in
  if bool_decide (t = bs "0") then Some 0
  else if bool_decide (t = []) then None
  else
    d ← durations (length t) 0 t;
    if neg then Some (wrap_i 64 (- d)) else if 2 ^ 63 - 1 <? d then None else Some d.
Example ParseDuration_ex : (λ s, ParseDuration (bs s)) <$> ["5s"; "1.5h"; "-1m30s"; "0"; "100ms"; ".5us"; "0.1s"]%string
  = Some <$> [5 * 10 ^ 9; 5400 * 10 ^ 9; -90 * 10 ^ 9; 0; 10 ^ 8; 500; 10 ^ 8].
Proof. by vm_compute. Qed.
Example ParseDuration_bad : (λ s, ParseDuration (bs s)) <$> [""; "5"; "s"; "."; "1x"; "9223372036854775808ns"; "+"]%string = replicate 7 None.
Proof. by vm_compute. Qed.

(** ** FlagSet

    A [flag.Value] of the program's own is a setter on the state [St] it shares. *)
Section flagset.
Context {St : Type}.
Inductive fval :=
| FBool (b : bool) | FInt (z : Z) | FString (s : bytes) | FDuration (d : Z)
| FVar (set : bytes → St → option St).
Record FlagSet := mkFlagSet { formal : list (bytes * fval); actual : gset bytes; fs_args : list bytes; shared : St }.
Definition newFlagSet (flags : list (bytes * fval)) (st : St) : FlagSet := mkFlagSet flags ∅ [] st.

Fixpoint assoc {A} (name : bytes) (l : list (bytes * A)) : option A :=
  match l with [] => None | (k, v) :: l => if bool_decide (k = name) then Some v else assoc name l end.
Fixpoint update {A} (name : bytes) (v : A) (l : list (bytes * A)) : list (bytes * A) :=
  match l with [] => [] | (k, w) :: l => if bool_decide (k = name) then (k, v) :: l else (k, w) :: update name v l end.
Definition valueOf (fs : FlagSet) (name : bytes) : option fval := assoc name (formal fs).

(** [Value.Set]: the value a text gives, by the kind of the flag. *)
Definition parseValue (v : fval) (s : bytes) : option fval :=
  match v with
  | FBool _ => FBool <$> ParseBool s
  | FInt _ => FInt <$> ParseInt0 s
  | FString _ => Some (FString s)
  | FDuration _ => FDuration <$> ParseDuration s
  | FVar set => Some (FVar set)
  end.
Definition setShared (v : fval) (s : bytes) (st : St) : option St := match v with FVar set => set s st | _ => Some st end.
(** [FlagSet.Set]. *)
Definition Set_ (fs : FlagSet) (name s : bytes) : option FlagSet :=
  v ← valueOf fs name; v' ← parseValue v s; st ← setShared v s (shared fs);
  Some (mkFlagSet (update name v' (formal fs)) ({[name]} ∪ actual fs) (fs_args fs) st).
Definition withArgs (args : list bytes) (fs : FlagSet) : FlagSet := mkFlagSet (formal fs) (actual fs) args (shared fs).

(** [name=value] *)
Fixpoint cutEq (s : bytes) : bytes * option bytes :=
  match s with
  | [] => ([], None)
  | c :: s => if bool_decide (c = c_eq) then ([], Some s) else let '(a, v) := cutEq s in (c :: a, v)
  end.
(** The name and value of a flag argument; [None] is not a flag, [Some None] bad
    syntax. *)
Definition flagArg (s : bytes) : option (option (bytes * option bytes)) :=
  match s with
  | c :: d :: t =>
      if negb (bool_decide (c = c_minus)) then None
      else
        let name := if bool_decide (d = c_minus) then t else d :: t in
        match name with
        | n :: _ => if bool_decide (n = c_minus) || bool_decide (n = c_eq) then Some None else Some (Some (cutEq name))
        | [] => Some None
        end
  | _ => None
  end.
(** A flag is one argument, or two when it takes its value from the next. *)
Fixpoint parse (args : list bytes) (fs : FlagSet) : option FlagSet :=
  match args with
  | [] => Some (withArgs [] fs)
  | s :: rest =>
      if bool_decide (s = bs "--") then Some (withArgs rest fs)
      else
        match flagArg s with
        | None => Some (withArgs args fs)
        | Some None => None
        | Some (Some (name, value)) =>
            match valueOf fs name, value, rest with
            | None, _, _ => None
            | Some (FBool _), Some v, _ => match Set_ fs name v with Some fs => parse rest fs | None => None end
            | Some (FBool _), None, _ => match Set_ fs name (bs "true") with Some fs => parse rest fs | None => None end
            | Some _, Some v, _ => match Set_ fs name v with Some fs => parse rest fs | None => None end
            | Some _, None, v :: rest => match Set_ fs name v with Some fs => parse rest fs | None => None end
            | Some _, None, [] => None
            end
        end
  end.
Definition Parse (fs : FlagSet) (args : list bytes) : option FlagSet := parse args fs.

(** [VisitAll] goes by name. *)
Fixpoint insertName (n : bytes) (l : list bytes) : list bytes :=
  match l with [] => [n] | m :: l' => if bool_decide (bytes_Compare m n = Lt) then m :: insertName n l' else n :: l end.
Definition names (fs : FlagSet) : list bytes := foldr insertName [] (fst <$> formal fs).
Definition Args (fs : FlagSet) : list bytes := fs_args fs.
Definition visited_ (fs : FlagSet) (name : bytes) : bool := bool_decide (name ∈ actual fs).

(** ** Lemmas *)
Lemma assoc_update {A} name (v : A) l n : assoc n (update name v l) = if bool_decide (n = name) then (λ _, v) <$> assoc n l else assoc n l.
Proof.
  induction l as [|[k w] l IH]; cbn [update assoc]; [by case_bool_decide|].
  destruct (decide (k = name)) as [->|Hk]; [rewrite (bool_decide_true (name = name)) by done|rewrite (bool_decide_false (k = name)) by done]; cbn [assoc].
  - destruct (decide (name = n)) as [->|Hn]; [by rewrite !bool_decide_true|]. rewrite !(bool_decide_false (name = n)) by done. by rewrite bool_decide_false.
  - rewrite IH. destruct (decide (k = n)) as [->|Hn]; [|by rewrite !(bool_decide_false (k = n))]. by rewrite !(bool_decide_true (n = n)), bool_decide_false.
Qed.
Lemma update_names {A} name (v : A) l : (update name v l).*1 = l.*1.
Proof. induction l as [|[k w] l IH]; cbn [update]; [done|]. case_bool_decide; cbn; [done|]. by rewrite IH. Qed.
(** The kind of a flag never changes. *)
Definition sameKind (v w : fval) : Prop :=
  match v, w with FBool _, FBool _ | FInt _, FInt _ | FString _, FString _ | FDuration _, FDuration _ => True | FVar f, FVar g => f = g | _, _ => False end.
Lemma parseValue_kind v s v' : parseValue v s = Some v' → sameKind v v'.
Proof. destruct v; cbn; [destruct (ParseBool s)|destruct (ParseInt0 s)| |destruct (ParseDuration s)|]; by intros [= <-]. Qed.
Lemma Set_inv fs name s fs' : Set_ fs name s = Some fs' → ∃ v v', valueOf fs name = Some v ∧ parseValue v s = Some v' ∧
  setShared v s (shared fs) = Some (shared fs') ∧ formal fs' = update name v' (formal fs) ∧ actual fs' = {[name]} ∪ actual fs ∧ fs_args fs' = fs_args fs.
Proof.
  unfold Set_. intros E. destruct (valueOf fs name) as [v|]; [|done]. cbn in E. destruct (parseValue v s) as [v'|] eqn:Ev; [|done]. cbn in E.
  destruct (setShared v s (shared fs)) as [st|] eqn:Es; [|done]. cbn in E. injection E as <-. by exists v, v'.
Qed.
Lemma Set_value fs name s fs' n : Set_ fs name s = Some fs' → n ≠ name → valueOf fs' n = valueOf fs n.
Proof. intros (v & v' & _ & _ & _ & E & _)%Set_inv Hn. unfold valueOf. by rewrite E, assoc_update, bool_decide_false. Qed.
Lemma Set_same fs name s fs' : Set_ fs name s = Some fs' → ∃ v v', valueOf fs name = Some v ∧ parseValue v s = Some v' ∧ valueOf fs' name = Some v'.
Proof.
  intros (v & v' & Hv & Hp & _ & E & _)%Set_inv. exists v, v'. split_and!; [done..|]. unfold valueOf in *. by rewrite E, assoc_update, bool_decide_true, Hv.
Qed.
(** Parse is a sequence of [Set]s on a list of assignments. *)
Definition sets (l : list (bytes * bytes)) (fs : FlagSet) : option FlagSet := foldl (λ o p, fs ← o; Set_ fs p.1 p.2) (Some fs) l.
Lemma sets_None l : foldl (λ (o : option FlagSet) p, fs ← o; Set_ fs p.1 p.2) None l = None.
Proof. by induction l. Qed.
Lemma sets_cons p l fs : sets (p :: l) fs = (fs ← Set_ fs p.1 p.2; sets l fs).
Proof. unfold sets. cbn [foldl mbind option_bind]. destruct (Set_ _ _ _); [done|]. apply sets_None. Qed.

(** ** The grammar of a command line

    [spells k args l rest]: the arguments assign [l], in order, and leave [rest];
    [k] says whether a declared flag is a switch. *)
Definition kindOf (fs : FlagSet) (name : bytes) : option bool := match valueOf fs name with Some (FBool _) => Some true | Some _ => Some false | None => None end.
Definition dashes (d : bytes) : Prop := d = bs "-" ∨ d = bs "--".
Definition flagName (name : bytes) : Prop := name ≠ [] ∧ (c_eq ∉ name) ∧ head name ≠ Some c_minus.
Inductive spells (k : bytes → option bool) : list bytes → list (bytes * bytes) → list bytes → Prop :=
| sp_end : spells k [] [] []
| sp_dashes rest : spells k (bs "--" :: rest) [] rest
| sp_positional s rest : (length s < 2)%nat ∨ head s ≠ Some c_minus → spells k (s :: rest) [] (s :: rest)
| sp_value d name v rest l r : dashes d → flagName name → k name ≠ None → spells k rest l r →
    spells k ((d ++ name ++ [c_eq] ++ v) :: rest) ((name, v) :: l) r
| sp_switch d name rest l r : dashes d → flagName name → k name = Some true → spells k rest l r →
    spells k ((d ++ name) :: rest) ((name, bs "true") :: l) r
| sp_next d name v rest l r : dashes d → flagName name → k name = Some false → spells k rest l r →
    spells k ((d ++ name) :: v :: rest) ((name, v) :: l) r.

Lemma Set_kind fs name s fs' n : Set_ fs name s = Some fs' → kindOf fs' n = kindOf fs n.
Proof.
  intros E. unfold kindOf. destruct (decide (n = name)) as [->|Hn]; [|by rewrite (Set_value _ _ _ _ n E)].
  destruct (Set_same _ _ _ _ E) as (v & v' & Hv & Hp & Hv'). rewrite Hv, Hv'. apply parseValue_kind in Hp. by destruct v, v'.
Qed.
Lemma spells_kind k k' args l r : (∀ n, k n = k' n) → spells k args l r → spells k' args l r.
Proof. intros Hk. induction 1; econstructor; rewrite <- ?Hk; done. Qed.
Lemma cutEq_spec s : match cutEq s with (a, Some v) => s = a ++ [c_eq] ++ v ∧ c_eq ∉ a | (a, None) => s = a ∧ c_eq ∉ a end.
Proof.
  induction s as [|c s IH]; cbn [cutEq]; [split; [done|by intros ?%elem_of_nil]|].
  case_bool_decide as Hc; [subst c; split; [done|by intros ?%elem_of_nil]|].
  destruct (cutEq s) as [a [v|]]; destruct IH as [-> Ha]; (split; [done|]); intros [?|?]%elem_of_cons; congruence || done.
Qed.
Lemma cutEq_name name v : c_eq ∉ name → cutEq (name ++ [c_eq] ++ v) = (name, Some v) ∧ cutEq name = (name, None).
Proof.
  induction name as [|c name IH]; cbn [app cutEq]; intros Hn; [by rewrite bool_decide_true|].
  rewrite bool_decide_false by (intros ->; apply Hn; by left). destruct IH as [E1 E2]; [intros ?; apply Hn; by right|].
  cbn [app] in E1. by rewrite E1, E2.
Qed.
(** A flag argument is one or two dashes and a name, with a value or without. *)
Lemma flagArg_spec s name value : flagArg s = Some (Some (name, value)) →
  ∃ d, dashes d ∧ flagName name ∧ s = d ++ name ++ match value with Some v => [c_eq] ++ v | None => [] end.
Proof.
  unfold flagArg. destruct s as [|c [|d t]]; try done. case_bool_decide as Hc; cbn [negb]; [subst c|done].
  assert (H : ∀ dash u, dashes dash → match u with n :: _ => if bool_decide (n = c_minus) || bool_decide (n = c_eq) then Some None else Some (Some (cutEq u)) | [] => Some None end
    = Some (Some (name, value)) → ∃ d0, dashes d0 ∧ flagName name ∧ dash ++ u = d0 ++ name ++ match value with Some v => [c_eq] ++ v | None => [] end).
  { intros dash u Hd. destruct u as [|n u]; [done|]. destruct (bool_decide (n = c_minus) || _) eqn:E; [done|]. apply orb_false_iff in E as [E1 E2].
    apply bool_decide_eq_false in E1, E2. intros Hcut0. assert (Hcut : cutEq (n :: u) = (name, value)) by congruence. clear Hcut0. exists dash. split; [done|]. pose proof (cutEq_spec (n :: u)) as Hs. rewrite Hcut in Hs.
    cbn [cutEq] in Hcut. rewrite bool_decide_false in Hcut by done. destruct (cutEq u) as [a w]. injection Hcut as <- <-.
    destruct w as [v|]; destruct Hs as [-> Hn]; [|rewrite app_nil_r]; (split; [|done]); (split_and!; [done|done|]); cbn; congruence. }
  cbv zeta. case_bool_decide as Hd; [subst d|]; intros E.
  - exact (H (bs "--") t (or_intror eq_refl) E).
  - exact (H (bs "-") (d :: t) (or_introl eq_refl) E).
Qed.
Lemma flagArg_flag d name v : dashes d → flagName name → flagArg (d ++ name) = Some (Some (name, None)) ∧
  flagArg (d ++ name ++ [c_eq] ++ v) = Some (Some (name, Some v)) ∧ d ++ name ≠ bs "--" ∧ d ++ name ++ [c_eq] ++ v ≠ bs "--".
Proof.
  intros Hd (Hne & He & Hh). destruct name as [|n name]; [done|]. assert (Hn : n ≠ c_minus) by (intros ->; by apply Hh).
  assert (Hn2 : n ≠ c_eq) by (intros ->; apply He; by left). destruct (cutEq_name (n :: name) v He) as [E1 E2].
  assert (Hb : bool_decide (n = c_minus) || bool_decide (n = c_eq) = false) by (by rewrite !bool_decide_false).
  change (bs "--") with [c_minus; c_minus]. destruct Hd as [-> | ->]; [change (bs "-") with [c_minus]|change (bs "--") with [c_minus; c_minus]]; unfold flagArg; cbn [app].
  - rewrite (bool_decide_true (c_minus = c_minus)) by done. cbn [negb]. cbv zeta. rewrite (bool_decide_false (n = c_minus)) by done.
    cbn [app] in E1. rewrite Hb, E1, E2. split_and!; [done..| |]; injection 1; intros; congruence.
  - rewrite !(bool_decide_true (c_minus = c_minus)) by done. cbn [negb]. cbv zeta.
    cbn [app] in E1. rewrite Hb, E1, E2. by split_and!.
Qed.
Lemma parse_sound n : ∀ args fs fs', (length args <= n)%nat → parse args fs = Some fs' →
  ∃ l fs1, spells (kindOf fs) args l (fs_args fs') ∧ sets l fs = Some fs1 ∧ fs' = withArgs (fs_args fs') fs1.
Proof.
  induction n as [|n IH]; intros args fs fs' Hn.
  { destruct args; [|cbn in Hn; lia]. intros [= <-]. exists [], fs. split_and!; [constructor|done..]. }
  destruct args as [|s rest]; cbn [parse].
  { intros [= <-]. exists [], fs. split_and!; [constructor|done..]. }
  assert (Hstep : ∀ name v args', (length args' <= n)%nat → match Set_ fs name v with Some fs => parse args' fs | None => None end = Some fs' →
    ∃ l fs1, spells (kindOf fs) args' l (fs_args fs') ∧ sets ((name, v) :: l) fs = Some fs1 ∧ fs' = withArgs (fs_args fs') fs1).
  { intros name v args' Hl E. destruct (Set_ fs name v) as [fs0|] eqn:Es; [|done]. apply IH in E as (l & fs1 & H1 & H2 & H3); [|done].
    exists l, fs1. rewrite sets_cons. cbn [fst snd]. rewrite Es. split_and!; [|done..]. eapply spells_kind; [|exact H1]. intros m. by eapply Set_kind. }
  case_bool_decide as Hs; [intros [= <-]; subst s; exists [], fs; split_and!; [constructor|done..]|].
  destruct (flagArg s) as [[[name value]|]|] eqn:Ef; [|done|].
  2: { intros [= <-]. exists [], fs. split_and!; [|done..]. apply sp_positional. unfold flagArg in Ef.
       destruct s as [|c [|d t]]; [left; cbn; lia..|right]. destruct (bool_decide_reflect (c = c_minus)); [|cbn; congruence]. cbn [negb] in Ef. cbv zeta in Ef.
       destruct (if bool_decide _ then _ else _) as [|? ?]; [done|]. by destruct (_ || _). }
  apply flagArg_spec in Ef as (d & Hd & Hf & ->). cbn in Hn.
  assert (Hk : kindOf fs name = match valueOf fs name with Some (FBool _) => Some true | Some _ => Some false | None => None end) by done.
  destruct value as [v|]; [|rewrite app_nil_r].
  - intros E. assert (Hv : match Set_ fs name v with Some fs => parse rest fs | None => None end = Some fs' ∧ kindOf fs name ≠ None).
    { rewrite Hk. by destruct (valueOf fs name) as [[]|]. }
    destruct Hv as [Hv Hkn]. apply Hstep in Hv as (l & fs1 & H1 & H2 & H3); [|lia]. exists ((name, v) :: l), fs1. split_and!; [by apply sp_value|done..].
  - intros E. assert (Hv : (kindOf fs name = Some true ∧ match Set_ fs name (bs "true") with Some fs => parse rest fs | None => None end = Some fs') ∨
      (kindOf fs name = Some false ∧ ∃ v rest', rest = v :: rest' ∧ match Set_ fs name v with Some fs => parse rest' fs | None => None end = Some fs')).
    { rewrite Hk. destruct (valueOf fs name) as [[]|]; try done; [by left|right; destruct rest as [|v rest]; [done|]; split; [done|by exists v, rest]..]. }
    destruct Hv as [[Hkn Hv]|(Hkn & v & rest' & -> & Hv)].
    + apply Hstep in Hv as (l & fs1 & H1 & H2 & H3); [|lia]. exists ((name, bs "true") :: l), fs1. split_and!; [by apply sp_switch|done..].
    + apply Hstep in Hv as (l & fs1 & H1 & H2 & H3); [|cbn in Hn; lia]. exists ((name, v) :: l), fs1. split_and!; [by apply sp_next|done..].
Qed.
Lemma parse_complete k args l r : spells k args l r → ∀ fs fs1, (∀ n, kindOf fs n = k n) → sets l fs = Some fs1 → parse args fs = Some (withArgs r fs1).
Proof.
  induction 1 as [|rest|s rest Hs|d name v rest l r Hd Hf Hk Hl IH|d name rest l r Hd Hf Hk Hl IH|d name v rest l r Hd Hf Hk Hl IH]; intros fs fs1 Hfs; cbn [parse].
  - by intros [= <-].
  - intros [= <-]. by rewrite bool_decide_true.
  - intros [= <-]. rewrite bool_decide_false by (intros ->; destruct Hs as [Hs|Hs]; [cbn in Hs; lia|by destruct Hs]).
    assert (flagArg s = None) as ->; [|done]. unfold flagArg. destruct s as [|c [|e t]]; [done..|]. destruct Hs as [Hs|Hs]; [cbn in Hs; lia|].
    rewrite bool_decide_false; [done|]. intros ->. by destruct Hs.
  - rewrite sets_cons. cbn [fst snd]. destruct (Set_ fs name v) as [fs0|] eqn:Es; [|done]. intros E. apply IH in E; [|intros n; by rewrite (Set_kind _ _ _ _ n Es)].
    destruct (flagArg_flag d name v Hd Hf) as (_ & -> & _ & Hn). rewrite bool_decide_false by done.
    pose proof (Hfs name) as Hn'. unfold kindOf in Hn'. rewrite Es. by destruct (valueOf fs name) as [[]|]; [..|congruence].
  - rewrite sets_cons. cbn [fst snd]. destruct (Set_ fs name (bs "true")) as [fs0|] eqn:Es; [|done]. intros E. apply IH in E; [|intros n; by rewrite (Set_kind _ _ _ _ n Es)].
    destruct (flagArg_flag d name [] Hd Hf) as (-> & _ & Hn & _). rewrite bool_decide_false by done.
    pose proof (Hfs name) as Hn'. rewrite Hk in Hn'. unfold kindOf in Hn'. rewrite Es. by destruct (valueOf fs name) as [[]|].
  - rewrite sets_cons. cbn [fst snd]. destruct (Set_ fs name v) as [fs0|] eqn:Es; [|done]. intros E. apply IH in E; [|intros n; by rewrite (Set_kind _ _ _ _ n Es)].
    destruct (flagArg_flag d name [] Hd Hf) as (-> & _ & Hn & _). rewrite bool_decide_false by done.
    pose proof (Hfs name) as Hn'. rewrite Hk in Hn'. unfold kindOf in Hn'. rewrite Es. by destruct (valueOf fs name) as [[]|].
Qed.
(** What a sequence of assignments leaves in a flag: its last value, or what it had. *)
Lemma sets_spec l : ∀ fs fs', sets l fs = Some fs' → (∀ n, n ∈ actual fs' ↔ n ∈ actual fs ∨ n ∈ l.*1) ∧ ∀ n,
  (n ∉ l.*1 → valueOf fs' n = valueOf fs n) ∧
  (∀ s l1 l2, l = l1 ++ (n, s) :: l2 → n ∉ l2.*1 → ∃ v v', valueOf fs n = Some v ∧ parseValue v s = Some v' ∧ valueOf fs' n = Some v').
Proof.
  induction l as [|[m t] l IH]; intros fs fs'; [|rewrite sets_cons; cbn [fst snd]].
  { intros [= <-]. split; [intros n; split; [by left|intros [?|?%elem_of_nil]; done]|]. intros n. split; [done|]. intros s [|? ?] l2 E; discriminate E. }
  destruct (Set_ fs m t) as [fs0|] eqn:Es; [|done]. cbn [mbind option_bind]. intros E. destruct (IH fs0 fs' E) as [Ha Hv]. split.
  - intros n. apply Set_inv in Es as (? & ? & _ & _ & _ & _ & Ea & _). rewrite Ha, Ea. cbn [fmap list_fmap fst]. rewrite elem_of_cons. set_solver.
  - intros n. destruct (Hv n) as [H1 H2]. split.
    + cbn [fmap list_fmap fst]. intros Hn. rewrite H1 by (intros ?; apply Hn; by right). apply (Set_value _ _ _ _ n Es). intros ->. apply Hn. by left.
    + intros s [|p l1] l2 El Hn; injection El as El1 El2; [|subst l].
      * subst m t l2. rewrite (H1 Hn). by apply (Set_same _ _ _ _ Es).
      * destruct (H2 s l1 l2 eq_refl Hn) as (v & v' & Hv1 & Hp & Hv'). destruct (decide (n = m)) as [->|Hnm]; [|exists v, v'; by rewrite <- (Set_value _ _ _ _ n Es)].
        destruct (Set_same _ _ _ _ Es) as (w & w' & Hw & Hpw & Hw'). rewrite Hw' in Hv1. injection Hv1 as <-. exists w.
        apply parseValue_kind in Hpw. exists v'. split_and!; [done| |done]. by destruct w, w'; try done; cbn in Hpw; subst.
Qed.
(** The value an assignment list gives a name: the last. *)
Fixpoint lastOf (name : bytes) (l : list (bytes * bytes)) : option bytes :=
  match l with
  | [] => None
  | (k, v) :: l => match lastOf name l with Some s => Some s | None => if bool_decide (k = name) then Some v else None end
  end.
Lemma lastOf_spec name l : match lastOf name l with
  | Some s => ∃ l1 l2, l = l1 ++ (name, s) :: l2 ∧ name ∉ l2.*1
  | None => name ∉ l.*1
  end.
Proof.
  induction l as [|[k v] l IH]; cbn [lastOf]; [by intros ?%elem_of_nil|]. destruct (lastOf name l) as [s|].
  - destruct IH as (l1 & l2 & -> & H). by exists ((k, v) :: l1), l2.
  - case_bool_decide as Hk; [subst k; by exists [], l|]. cbn. intros [?|?]%elem_of_cons; congruence.
Qed.
Lemma lastOf_in name l : name ∈ l.*1 ↔ lastOf name l ≠ None.
Proof.
  pose proof (lastOf_spec name l) as Hs. destruct (lastOf name l) as [s|]; [|by split].
  destruct Hs as (l1 & l2 & -> & _). split; [done|]. intros _. rewrite fmap_app. apply elem_of_app. right. by left.
Qed.
(** Integers stay int64. *)
Lemma ParseInt0_range s v : ParseInt0 s = Some v → in_i 64 v.
Proof.
  unfold ParseInt0. destruct (match s with [] => _ | _ => _ end) as [neg t]. destruct (ParseUint0 t) as [un|] eqn:Eu; [|done]. cbn.
  assert (0 <= un).
  { unfold ParseUint0 in Eu. destruct t as [|c t]; [done|]. destruct (basePrefix (c :: t)) as [base u] eqn:Eb.
    destruct (digits_of base _) as [ds|] eqn:Ed; [|done]. cbn in Eu. destruct (_ || _); [done|]. injection Eu as <-. apply of_digits_nonneg.
    - unfold basePrefix in Eb. repeat case_match; simplify_eq; lia.
    - eapply Forall_impl; [by eapply digits_of_nonneg|]. cbn. lia. }
  unfold in_i. destruct neg; cbn [negb andb].
  - destruct (Z.ltb_spec (2 ^ 63) un); [done|]. intros [= <-]. lia.
  - destruct (Z.leb_spec (2 ^ 63) un); [done|]. intros [= <-]. lia.
Qed.
Definition intsOk (fs : FlagSet) : Prop := ∀ n z, valueOf fs n = Some (FInt z) → in_i 64 z.
Lemma Set_ints fs name s fs' : intsOk fs → Set_ fs name s = Some fs' → intsOk fs'.
Proof.
  intros Hi E n z Hv. destruct (decide (n = name)) as [->|Hn]; [|rewrite (Set_value _ _ _ _ _ E Hn) in Hv; by apply (Hi n)].
  destruct (Set_same _ _ _ _ E) as (v & v' & _ & Hp & Hv'). rewrite Hv in Hv'. injection Hv' as <-.
  destruct v; cbn in Hp; [by destruct (ParseBool s)| |done|by destruct (ParseDuration s)|done].
  destruct (ParseInt0 s) eqn:Ep; [|done]. injection Hp as ->. by eapply ParseInt0_range.
Qed.
Lemma sets_preserve (P : FlagSet → Prop) : (∀ fs name s fs', P fs → Set_ fs name s = Some fs' → P fs') → ∀ l fs fs', P fs → sets l fs = Some fs' → P fs'.
Proof.
  intros HP. induction l as [|[n s] l IH]; intros fs fs' Hfs; [by intros [= <-]|]. rewrite sets_cons. cbn [fst snd].
  destruct (Set_ fs n s) as [fs0|] eqn:E; [|done]. cbn [mbind option_bind]. apply IH. by eapply HP.
Qed.
End flagset.
Arguments fval : clear implicits.
Arguments FlagSet : clear implicits.
