(* ===== verification/Cli.v ===== *)
(** * Cli: the command line (src/main.go, src/cli.go)

    [run] from the arguments and the environment to the exit code: the mode, the flag
    sets of both modes, [applyEnv], the range checks, the configuration each side runs
    with, and the handlers that end the process early.  The theorems say where a
    value comes from, what a configuration that is accepted satisfies, and that what
    is checked is what runs. *)
From S2P Require Import Prelude Fault Strconv Glob Record Wire Handshake Paths Plan Digest Tracker Journal Obs Control RunReceiver RunSender Flag.

Definition fset : Type := FlagSet (list FilterRule).
Definition fvalue : Type := fval (list FilterRule).
Definition getBool (fs : fset) (name : string) : bool := match valueOf fs (bs name) with Some (FBool b) => b | _ => false end.
Definition getInt (fs : fset) (name : string) : Z := match valueOf fs (bs name) with Some (FInt z) => z | _ => 0 end.
Definition getString (fs : fset) (name : string) : bytes := match valueOf fs (bs name) with Some (FString s) => s | _ => [] end.
Definition getDuration (fs : fset) (name : string) : Z := match valueOf fs (bs name) with Some (FDuration d) => d | _ => 0 end.

(** ** Flags *)
Definition isLink (a : bytes) : bool :=
  bool_decide (a = bs "--link") || bool_decide (a = bs "-link") || HasPrefix a (bs "--link=") || HasPrefix a (bs "-link=").
Fixpoint hasLinkFlag (args : list bytes) : bool :=
  match args with
  | [] => false
  | a :: args => if bool_decide (a = bs "--") then false else if isLink a then true else hasLinkFlag args
  end.

Definition named (l : list (string * fvalue)) : list (bytes * fvalue) := (λ p, (bs p.1, p.2)) <$> l.
Definition registerCommon : list (bytes * fvalue) := named [
  ("v", FBool false); ("vv", FBool false); ("q", FBool false); ("qq", FBool false);
  ("log-level", FString []); ("log-format", FString (bs "text")); ("log-file", FString []); ("log-ring", FInt 2048); ("log-sync", FBool false);
  ("redact-paths", FBool false); ("progress-interval", FDuration (5 * Second)); ("hash", FString (bs "md5")); ("quick", FBool false); ("no-cache", FBool false);
  ("chunk-size", FInt (2 ^ 20)); ("socket-buffer", FInt (2 ^ 22)); ("max-retries", FInt MaxRetriesDefault);
  ("connect-timeout", FDuration (10 * Second)); ("handshake-timeout", FDuration (5 * Second)); ("shutdown-grace", FDuration (5 * Second))]%string.
(** [filterFlag.Set] appends to the list both flags share. *)
Definition filterSet (include : bool) (s : bytes) (st : list FilterRule) : option (list FilterRule) :=
  if bool_decide (s = []) then None else Some (st ++ [mkFilter include s]).
Definition senderFlags (numCPU : Z) : list (bytes * fvalue) := registerCommon ++ named [
  ("bind", FString []); ("port", FInt 0); ("pair-timeout", FDuration (600 * Second)); ("max-pair-attempts", FInt 5);
  ("follow-symlinks", FBool false); ("one-file-system", FBool true); ("hardlinks", FBool true); ("keep-system-files", FBool false);
  ("hash-workers", FInt (Z.min 8 numCPU)); ("read-concurrency", FInt 4); ("group-bytes", FInt (2 ^ 29)); ("spill-threshold", FInt 500000);
  ("drain-timeout", FDuration (60 * Second)); ("compact-code", FBool false); ("include", FVar (filterSet true)); ("exclude", FVar (filterSet false))]%string.
Definition receiverFlags (numCPU : Z) : list (bytes * fvalue) := registerCommon ++ named [
  ("link", FString []); ("dest", FString []); ("dry-run", FBool false); ("channels", FInt 4); ("min-channels", FInt 4); ("max-channels", FInt 32);
  ("pipeline-depth", FInt 2); ("group-credit", FInt 4); ("decide-workers", FInt (Z.min 8 numCPU)); ("no-fsync", FBool false);
  ("checkpoint-interval", FInt (2 ^ 26)); ("resume-window", FDuration (60 * Second)); ("drain-timeout", FDuration (60 * Second));
  ("stall-timeout", FDuration (60 * Second)); ("allow-unsafe-links", FBool false); ("owner", FBool false)]%string.

(** ** The environment: for what the command line does not set *)
Definition envName (name : bytes) : bytes :=
  bs "ESYNC_" ++ (upperASCII <$> ((λ c, if bool_decide (c = c_minus) then c_under else c) <$> name)).
Definition fromEnv (env : bytes → option bytes) (set : gset bytes) (o : option fset) (name : bytes) : option fset :=
  fs ← o;
  if bool_decide (name ∈ set) then Some fs
  else match env (envName name) with Some v => Set_ fs name v | None => Some fs end.
Definition applyEnv (env : bytes → option bytes) (fs : fset) : option fset := foldl (fromEnv env (actual fs)) (Some fs) (names fs).
Definition explicitlySet (fs : fset) (name : string) : bool := visited_ fs (bs name).

(** ** Checks *)
Definition usage (msg : string) : gerr := EStd (StdOther msg).
Definition atLeast (name : string) (v mn : Z) : option gerr := if v <? mn then Some (fault E1007 "parse flags" (bs name) None) else None.
(** The first error of a list of checks. *)
Fixpoint firstError (l : list (option gerr)) : option gerr := match l with [] => None | Some e :: _ => Some e | None :: l => firstError l end.
Section cli.
Context `{Unicode}.
Definition resolveLevel (fs : fset) : result gerr Z :=
  if negb (bool_decide (getString fs "log-level" = [])) then ParseLevel (getString fs "log-level")
  else Ok (if getBool fs "vv" then LevelTrace else if getBool fs "v" then LevelDebug else if getBool fs "qq" then LevelError
           else if getBool fs "q" then LevelWarn else LevelInfo).
(** [digest.Parse]. *)
Definition Parse_ (s : bytes) : result gerr Z :=
  let t := ToLower (TrimSpace s) in
  if bool_decide (t = bs "md5") then Ok MD5 else if bool_decide (t = bs "blake3") then Ok BLAKE3
  else if bool_decide (t = bs "sha256") || bool_decide (t = bs "sha-256") then Ok SHA256
  else Err (fault E1007 "parse hash algorithm" s None).
Definition parseHash (s : bytes) : result gerr Z :=
  a ← Parse_ s; if a =? BLAKE3 then Err (fault E1007 "parse flags" (bs "hash") None) else Ok a.
Definition obsConfig (fs : fset) (role : string) (lvl : Z) : Obs.Config.t :=
  Obs.Config.mk lvl (getString fs "log-format") (getString fs "log-file") (getInt fs "log-ring") (getBool fs "redact-paths") (getBool fs "log-sync")
    (getDuration fs "progress-interval") (bs role).
Definition orUsage {A} (msg : string) (o : option A) : result gerr A := match o with Some a => Ok a | None => Err (usage msg) end.
Definition checked (l : list (option gerr)) : result gerr unit := match firstError l with Some e => Err e | None => Ok () end.

(** ** The sender's configuration *)
Definition senderChecks (fs : fset) : list (option gerr) := [
  atLeast "log-ring" (getInt fs "log-ring") 1; atLeast "chunk-size" (getInt fs "chunk-size") 4096; atLeast "socket-buffer" (getInt fs "socket-buffer") 4096;
  atLeast "max-retries" (getInt fs "max-retries") 0; atLeast "port" (wrap_i 64 (getInt fs "port" + 1)) 1;
  atLeast "max-pair-attempts" (getInt fs "max-pair-attempts") 1; atLeast "hash-workers" (getInt fs "hash-workers") 1;
  atLeast "read-concurrency" (getInt fs "read-concurrency") 1; atLeast "group-bytes" (getInt fs "group-bytes") (2 ^ 20)].
Definition senderConfigOf (version : bytes) (fs : fset) (src : bytes) (hashAlg : Z) : SConfig.t :=
  SConfig.mk src (getString fs "bind") (getInt fs "port") version 32
    (getDuration fs "pair-timeout") (getInt fs "max-pair-attempts") (getDuration fs "handshake-timeout") (getDuration fs "drain-timeout")
    (getDuration fs "progress-interval") (getInt fs "group-bytes") hashAlg (getInt fs "hash-workers") (getInt fs "read-concurrency")
    (getInt fs "chunk-size") (getInt fs "socket-buffer") (getBool fs "compact-code") (getBool fs "follow-symlinks") (getBool fs "one-file-system")
    (getBool fs "hardlinks") (getBool fs "keep-system-files") (getBool fs "quick") (getBool fs "no-cache") (shared fs).
Definition senderConfig (version : bytes) (numCPU : Z) (env : bytes → option bytes) (args : list bytes) : result gerr (SConfig.t * fset * Z) :=
  fs ← orUsage "parse flags" (Parse (newFlagSet (senderFlags numCPU) []) args);
  fs ← orUsage "environment" (applyEnv env fs);
  src ← match Args fs with
        | [] => Err (usage "a source path is required")
        | [src] => Ok src
        | _ => Err (usage "exactly one source path is expected")
        end;
  lvl ← resolveLevel fs;
  hashAlg ← parseHash (getString fs "hash");
  _ ← checked (senderChecks fs);
  Ok (senderConfigOf version fs src hashAlg, fs, lvl).

(** ** The receiver's configuration *)
Definition receiverChecks (fs : fset) : list (option gerr) := [
  atLeast "log-ring" (getInt fs "log-ring") 1; atLeast "chunk-size" (getInt fs "chunk-size") 4096; atLeast "socket-buffer" (getInt fs "socket-buffer") 4096;
  atLeast "max-retries" (getInt fs "max-retries") 0; atLeast "channels" (getInt fs "channels") 1; atLeast "min-channels" (getInt fs "min-channels") 1;
  atLeast "max-channels" (getInt fs "max-channels") (getInt fs "min-channels"); atLeast "pipeline-depth" (getInt fs "pipeline-depth") 1;
  atLeast "group-credit" (getInt fs "group-credit") 1; atLeast "decide-workers" (getInt fs "decide-workers") 1].
Definition receiverConfigOf (version : bytes) (fs : fset) (hashAlg : Z) : RunReceiver.Config.t :=
  RunReceiver.Config.mk (getString fs "link") (getString fs "dest") version (getBool fs "dry-run")
    (getInt fs "channels") (explicitlySet fs "channels") (getInt fs "min-channels") (getInt fs "max-channels") (getInt fs "pipeline-depth")
    (getInt fs "group-credit") (getInt fs "decide-workers") (getBool fs "no-fsync") (getInt fs "checkpoint-interval")
    (getDuration fs "resume-window") (getDuration fs "drain-timeout") (getDuration fs "stall-timeout") (getDuration fs "progress-interval")
    (getBool fs "allow-unsafe-links") (getBool fs "owner") (getBool fs "quick") (getBool fs "no-cache")
    (getDuration fs "connect-timeout") (getDuration fs "handshake-timeout") (250 * 10 ^ 6) (getInt fs "socket-buffer") (getInt fs "max-retries") hashAlg.
Definition receiverConfig (version : bytes) (numCPU : Z) (env : bytes → option bytes) (args : list bytes) : result gerr (RunReceiver.Config.t * fset * Z) :=
  fs ← orUsage "parse flags" (Parse (newFlagSet (receiverFlags numCPU) []) args);
  fs ← orUsage "environment" (applyEnv env fs);
  _ ← guard_ok (bool_decide (Args fs = [])) (usage "unexpected argument");
  _ ← guard_ok (negb (bool_decide (TrimSpace (getString fs "link") = []))) (usage "--link <code> is required");
  lvl ← resolveLevel fs;
  hashAlg ← parseHash (getString fs "hash");
  _ ← checked (receiverChecks fs);
  Ok (receiverConfigOf version fs hashAlg, fs, lvl).

(** ** Running a mode, and [run] *)
Section run.
Context `{HandshakeCrypto} `{PlanEnv} `{HashFns}.
(** What the process has: the linked version, the number of CPUs, the environment
    variables, and how the stages of either side go. *)
Record process := mkProcess { p_version : bytes; p_numCPU : Z; p_env : bytes → option bytes; p_sender : senv; p_receiver : renv; p_dir : option jdir }.
(** [usageErr]. *)
Definition usageErr (e : gerr) : Z := 3.
(** [None]: the sender is still waiting, or has panicked. *)
Definition runSender (p : process) (args : list bytes) : option Z :=
  match senderConfig (p_version p) (p_numCPU p) (p_env p) args with
  | Err e => Some (usageErr e)
  | Ok (cfg, _, _) => (λ r, r.1.2) <$> SRun (p_numCPU p) (p_sender p) cfg
  end.
Definition runReceiver (p : process) (args : list bytes) : option Z :=
  match receiverConfig (p_version p) (p_numCPU p) (p_env p) args with
  | Err e => Some (usageErr e)
  | Ok (cfg, _, _) => Some (Run (p_numCPU p) (p_receiver p) cfg (p_dir p)).1.2
  end.
(** The loop over the arguments that answers --help and --version. *)
Fixpoint asksHelp (args : list bytes) : bool :=
  match args with
  | [] => false
  | a :: args =>
      if bool_decide (a ∈ bs <$> ["--help"; "-h"; "-help"; "--version"; "-version"]%string) then true
      else if bool_decide (a = bs "--") then false else asksHelp args
  end.
Definition run (p : process) (args : list bytes) : option Z :=
  if asksHelp args then Some 0
  else if hasLinkFlag args then runReceiver p args
  else if negb (bool_decide (args = [])) then runSender p args
  else Some 3.
End run.
End cli.

(** ** Ending early *)
(** [signalEscape]: what its goroutine receives, a signal, the end of the grace
    period, the end of the signal channel. *)
Inductive escapeEvent := SigReceived | GraceElapsed | SigcClosed.
Fixpoint awaitSecond (grace : Z) (l : list escapeEvent) : option Z :=
  match l with
  | [] => None
  | GraceElapsed :: l => if 0 <? grace then Some 5 else awaitSecond grace l
  | _ :: _ => Some 5
  end.
Definition signalEscape (grace : Z) (l : list escapeEvent) : option Z :=
  match l with SigReceived :: l => awaitSecond grace l | _ => None end.
(** [installFatalHandler]: log, flush, exit; the flush runs once. *)
Definition onceFlush (l : logger) : option logger := if closed l then Some l else close l.
Definition installFatalHandler (tf : tfields) (ts : bytes) (e : shown) (l : logger) : option (logger * Z) :=
  l ← LogFault tf ts e l; l ← onceFlush l; Some (l, ExitCode (Some (sh_err e))).

(** ** Where a value comes from *)
Section precedence.
Implicit Types (fs : fset) (env : bytes → option bytes).
Lemma insertName_perm n l : insertName n l ≡ₚ n :: l.
Proof. induction l as [|m l IH]; cbn [insertName]; [done|]. case_bool_decide; [|done]. rewrite IH. apply Permutation_swap. Qed.
Lemma names_perm fs : names fs ≡ₚ (formal fs).*1.
Proof. unfold names. induction (formal fs).*1 as [|n l IH]; [done|]. cbn [foldr]. by rewrite insertName_perm, IH. Qed.

(** [applyEnv] is a list of assignments too. *)
Definition envSets env (set : gset bytes) (l : list bytes) : list (bytes * bytes) :=
  omap (λ n, if bool_decide (n ∈ set) then None else s ← env (envName n); Some (n, s)) l.
Lemma applyEnv_sets env fs : applyEnv env fs = sets (envSets env (actual fs) (names fs)) fs.
Proof.
  unfold applyEnv, sets. generalize (actual fs) as set. intros set.
  assert (H : ∀ (l : list bytes) (o : option fset), foldl (fromEnv env set) o l = foldl (λ o p, fs ← o; Set_ fs p.1 p.2) o (envSets env set l)); [|apply H].
  induction l as [|m l IH]; intros o; [done|]. cbn [foldl]. rewrite IH. unfold envSets. cbn [omap list_omap]. unfold fromEnv.
  case_bool_decide; [by destruct o|]. destruct (env (envName m)); [done|by destruct o].
Qed.
Lemma envSets_elem env set l n s : (n, s) ∈ envSets env set l ↔ n ∈ l ∧ (n ∉ set) ∧ env (envName n) = Some s.
Proof.
  unfold envSets. rewrite list_elem_of_omap. split.
  - intros (m & Hm & E). case_bool_decide as Hs; [done|]. destruct (env (envName m)) eqn:Ee; [|done]. cbn in E. by simplify_eq.
  - intros (Hn & Hs & E). exists n. split; [done|]. by rewrite bool_decide_false, E.
Qed.
End precedence.

(** The value a flag gets: the last on the command line, else the environment's. *)
Definition source (env : bytes → option bytes) (l : list (bytes * bytes)) (name : bytes) : option bytes :=
  match lastOf name l with Some s => Some s | None => env (envName name) end.
Lemma assoc_in {A} name (l : list (bytes * A)) v : assoc name l = Some v → name ∈ l.*1.
Proof. induction l as [|[k w] l IH]; cbn [assoc]; [done|]. case_bool_decide; [subst; by left|right; by apply IH]. Qed.
Lemma sets_args l : ∀ fs fs' : fset, sets l fs = Some fs' → Args fs' = Args fs ∧ (formal fs').*1 = (formal fs).*1.
Proof.
  induction l as [|[n s] l IH]; intros fs fs'; [by intros [= <-]|]. rewrite sets_cons. cbn [fst snd].
  destruct (Set_ fs n s) as [fs0|] eqn:E; [|done]. cbn [mbind option_bind]. intros E2. apply IH in E2 as [-> ->].
  apply Set_inv in E as (? & ? & _ & _ & _ & E1 & _ & E3). unfold Args. by rewrite E1, E3, update_names.
Qed.
Lemma applyEnv_spec env fs fs' : applyEnv env fs = Some fs' →
  Args fs' = Args fs ∧ ∀ n d, valueOf fs n = Some d →
  (n ∈ actual fs' ↔ n ∈ actual fs ∨ env (envName n) ≠ None) ∧
  (n ∈ actual fs ∨ env (envName n) = None → valueOf fs' n = Some d) ∧
  (∀ s, n ∉ actual fs → env (envName n) = Some s → ∃ v', parseValue d s = Some v' ∧ valueOf fs' n = Some v').
Proof.
  rewrite applyEnv_sets. intros E. destruct (sets_args _ _ _ E) as [Ha _]. split; [done|]. clear Ha. apply sets_spec in E as [Hact Hval]. intros n d Hd.
  assert (Hin : n ∈ names fs) by (rewrite names_perm; by eapply assoc_in). destruct (Hval n) as [Hv1 Hv2]. rewrite Hact.
  assert (Hset : n ∈ (envSets env (actual fs) (names fs)).*1 ↔ (n ∉ actual fs) ∧ env (envName n) ≠ None).
  { rewrite list_elem_of_fmap. split.
    - intros ([m s] & Hm & (_ & Hs & He)%envSets_elem). cbn in Hm. subst m. by rewrite He.
    - intros [Hs He]. destruct (env (envName n)) as [s|] eqn:Es; [|done]. exists (n, s). split; [done|]. by apply envSets_elem. }
  rewrite Hset. split_and!.
  - split; [intros [?|[? ?]]; [by left|by right]|intros [?|?]; [by left|]]. destruct (decide (n ∈ actual fs)); [by left|by right].
  - intros Hc. rewrite Hv1; [done|]. rewrite Hset. intros [H1 H2]. by destruct Hc.
  - intros s Hs He. pose proof (lastOf_spec n (envSets env (actual fs) (names fs))) as Hl. destruct (lastOf n _) as [s'|].
    + destruct Hl as (l1 & l2 & Hl & Hn). assert (Hs' : (n, s') ∈ envSets env (actual fs) (names fs)) by (rewrite Hl; apply elem_of_app; right; by left).
      apply envSets_elem in Hs' as (_ & _ & Hs'). rewrite He in Hs'. injection Hs' as <-. destruct (Hv2 s l1 l2 Hl Hn) as (v & v' & H1 & H2 & H3).
      exists v'. split; [congruence|done].
    + destruct Hl. apply Hset. by rewrite He.
Qed.

(** Where a flag's value comes from.  When a command line and the environment are
    accepted, the arguments spell a list of assignments that leaves the positional
    ones, every flag has the value of its last assignment, else the one its ESYNC_
    variable gives, else its default, and it counts as set explicitly exactly when
    one of the two sets it. *)
Theorem flag_precedence flags (st : list FilterRule) args env fs fs' :
  Parse (newFlagSet flags st) args = Some fs → applyEnv env fs = Some fs' →
  ∃ l, spells (kindOf (newFlagSet flags st)) args l (Args fs') ∧ ∀ name d, assoc name flags = Some d →
    (visited_ fs' name = true ↔ source env l name ≠ None) ∧
    match source env l name with
    | Some s => ∃ v, parseValue d s = Some v ∧ valueOf fs' name = Some v
    | None => valueOf fs' name = Some d
    end.
Proof.
  intros Hp He. unfold Parse in Hp. destruct (parse_sound _ _ _ _ (le_n _) Hp) as (l & fs1 & Hsp & Hs & Efs).
  destruct (sets_spec _ _ _ Hs) as [Hact Hval].
  apply applyEnv_spec in He as [Hargs He]. rewrite Hargs. exists l. split; [exact Hsp|]. intros name d Hd.
  destruct (Hval name) as [Hv1 Hv2]. assert (Hva : ∀ n, valueOf fs n = valueOf fs1 n) by (intros n; by rewrite Efs).
  assert (Haa : name ∈ actual fs ↔ lastOf name l ≠ None).
  { rewrite Efs. cbn [withArgs actual]. rewrite Hact, lastOf_in. cbn [newFlagSet actual]. set_solver. }
  pose proof (lastOf_spec name l) as Hl. unfold source, visited_. rewrite bool_decide_eq_true.
  destruct (lastOf name l) as [s|] eqn:El.
  - destruct Hl as (l1 & l2 & Hl & Hn). destruct (Hv2 s l1 l2 Hl Hn) as (v & v' & H1 & H2 & H3).
    change (valueOf (newFlagSet flags st) name) with (assoc name flags) in H1. rewrite Hd in H1. injection H1 as <-.
    destruct (He name v') as (Ha & Hc & _); [by rewrite Hva|]. split; [rewrite Ha; split; [done|intros _; left; by apply Haa]|].
    exists v'. split; [done|]. apply Hc. left. by apply Haa.
  - assert (Hd' : valueOf fs name = Some d) by (rewrite Hva, Hv1; done). destruct (He name d Hd') as (Ha & Hc & Hx).
    assert (Hna : name ∉ actual fs) by (intros Hin; by apply Haa in Hin).
    split; [rewrite Ha; split; [intros [?|?]; done|intros ?; by right]|].
    destruct (env (envName name)) as [s|] eqn:Es; [by apply Hx|]. apply Hc. by right.
Qed.

(** ** What an accepted command line amounts to *)
Definition ruleOf (p : bytes * bytes) : option FilterRule :=
  if bool_decide (p.1 = bs "include") then Some (mkFilter true p.2)
  else if bool_decide (p.1 = bs "exclude") then Some (mkFilter false p.2) else None.
(** Only --include and --exclude touch the filter list, by appending. *)
Definition appends (fs : fset) : Prop := ∀ n v s st st', valueOf fs n = Some v → setShared v s st = Some st' →
  st' = st ++ omap ruleOf [(n, s)] ∧ (ruleOf (n, s) ≠ None → s ≠ []).
Lemma Set_appends fs n s fs' : appends fs → Set_ fs n s = Some fs' → appends fs' ∧ shared fs' = shared fs ++ omap ruleOf [(n, s)] ∧ (ruleOf (n, s) ≠ None → s ≠ []).
Proof.
  intros Ha E. pose proof (Set_inv _ _ _ _ E) as (v & v' & Hv & Hp & Hs & _). split; [|by eapply Ha].
  intros m w t st st' Hw Ht. destruct (decide (m = n)) as [->|Hm]; [|rewrite (Set_value _ _ _ _ _ E Hm) in Hw; by eapply Ha].
  destruct (Set_same _ _ _ _ E) as (v2 & v2' & Hv2 & Hp2 & Hw2). rewrite Hw in Hw2. injection Hw2 as <-. apply (Ha n v2 t); [done|].
  apply parseValue_kind in Hp2. by destruct v2, w; try done; cbn in Hp2; subst.
Qed.
Lemma sets_appends l : ∀ fs fs', appends fs → sets l fs = Some fs' →
  appends fs' ∧ shared fs' = shared fs ++ omap ruleOf l ∧ Forall (λ p, ruleOf p ≠ None → p.2 ≠ []) l.
Proof.
  induction l as [|[n s] l IH]; intros fs fs' Ha; [intros [= <-]; rewrite app_nil_r; by split_and!|]. rewrite sets_cons. cbn [fst snd].
  destruct (Set_ fs n s) as [fs0|] eqn:E; [|done]. cbn [mbind option_bind]. apply Set_appends in E as (Ha0 & E & Hn); [|done].
  intros E2. apply IH in E2 as (? & -> & Hl); [|done]. split; [done|]. split; [|by constructor]. rewrite E, <- app_assoc. f_equal. by rewrite <- omap_app.
Qed.
Lemma assoc_Forall {A} (P : bytes * A → Prop) l n v : Forall P l → assoc n l = Some v → P (n, v).
Proof. induction 1 as [|[k w] l Hk Hl IH]; cbn [assoc]; [done|]. case_bool_decide; [by intros [= ->]; subst|done]. Qed.
Lemma senderFlags_appends numCPU : appends (newFlagSet (senderFlags numCPU) []).
Proof.
  intros n v s st st' Hv. change (assoc n (senderFlags numCPU) = Some v) in Hv.
  refine (assoc_Forall (λ p : bytes * fvalue, ∀ s st st', setShared p.2 s st = Some st' → st' = st ++ omap ruleOf [(p.1, s)] ∧ (ruleOf (p.1, s) ≠ None → s ≠ []))
    (senderFlags numCPU) n v _ Hv s st st').
  assert (Hn : ∀ (name : string) (w : fvalue), (∀ f, w ≠ FVar f) → ruleOf (bs name, []) = None → ∀ s st st', setShared w s st = Some st' →
    st' = st ++ omap ruleOf [(bs name, s)] ∧ (ruleOf (bs name, s) ≠ None → s ≠ [])).
  { intros name w Hw Hr s0 st0 st1 Hs. assert (ruleOf (bs name, s0) = None) as Hr'.
    { revert Hr. unfold ruleOf. cbn [fst snd]. repeat case_bool_decide; done. }
    cbn [omap list_omap]. rewrite Hr', app_nil_r. split; [|done]. destruct w; cbn in Hs; try congruence. by destruct (Hw set). }
  unfold senderFlags, registerCommon, named. cbn [fmap list_fmap app].
  assert (Hi : ∀ (b : bool) (name : string) s st st', bs name = bs (if b then "include"%string else "exclude"%string) → filterSet b s st = Some st' →
    st' = st ++ omap ruleOf [(bs name, s)] ∧ (ruleOf (bs name, s) ≠ None → s ≠ [])).
  { intros b name s0 st0 st1 E. unfold filterSet. case_bool_decide; [done|]. intros [= <-]. split; [|done]. f_equal. rewrite E. destruct b; cbn [omap list_omap]; unfold ruleOf; cbn [fst snd]; by vm_compute. }
  repeat (apply Forall_cons; split; [first [apply Hn; [by intros f|by vm_compute] | exact (λ s st st', Hi true "include"%string s st st' eq_refl) | exact (λ s st st', Hi false "exclude"%string s st st' eq_refl)]|]). constructor.
Qed.

Lemma rules_nonempty l : Forall (λ p, ruleOf p ≠ None → p.2 ≠ []) l → Forall (λ r, Pattern r ≠ []) (omap ruleOf l).
Proof.
  rewrite !Forall_forall. intros Hl x (p & Hp & Hr)%list_elem_of_omap. specialize (Hl p Hp). rewrite Hr in Hl.
  unfold ruleOf in Hr. repeat case_bool_decide; simplify_eq; by apply Hl.
Qed.
Lemma env_rules env set l : env (bs "ESYNC_INCLUDE") = None → env (bs "ESYNC_EXCLUDE") = None → omap ruleOf (envSets env set l) = [].
Proof.
  intros Hi He. destruct (omap ruleOf (envSets env set l)) as [|x rs] eqn:E; [done|]. exfalso.
  assert (Hx : x ∈ omap ruleOf (envSets env set l)) by (rewrite E; by left). apply list_elem_of_omap in Hx as ([n s] & (_ & _ & Hv)%envSets_elem & Hr).
  unfold ruleOf in Hr. cbn [fst snd] in Hr. case_bool_decide as H1; [|case_bool_decide as H2; [|done]]; subst n.
  - change (envName (bs "include")) with (bs "ESYNC_INCLUDE") in Hv. congruence.
  - change (envName (bs "exclude")) with (bs "ESYNC_EXCLUDE") in Hv. congruence.
Qed.

(** Integers are int64, and the positional arguments and filters those of the command line. *)
Lemma parsed_facts numCPU flags args env fs fs' : in_i 64 numCPU → (flags = senderFlags numCPU ∨ flags = receiverFlags numCPU) →
  Parse (newFlagSet flags []) args = Some fs → applyEnv env fs = Some fs' → intsOk fs'.
Proof.
  intros Hc Hfl Hp He. unfold Parse in Hp. destruct (parse_sound _ _ _ _ (le_n _) Hp) as (l & fs1 & _ & Hs & Efs). rewrite applyEnv_sets in He.
  assert (Hi : intsOk (newFlagSet (St := list FilterRule) flags [])).
  { intros n z Hv. change (assoc n flags = Some (FInt z)) in Hv.
    refine (assoc_Forall (λ p : bytes * fvalue, ∀ z, p.2 = FInt z → in_i 64 z) flags n (FInt z) _ Hv z eq_refl).
    assert (in_i 64 (Z.min 8 numCPU)) by (unfold in_i in *; lia).
    destruct Hfl as [-> | ->]; unfold senderFlags, receiverFlags, registerCommon, named; cbn [fmap list_fmap app];
      repeat (apply Forall_cons; split; [intros z0 E; cbn in E; first [discriminate E | injection E as <-; first [done | vm_compute; by split]]|]); constructor. }
  assert (Hi1 : intsOk fs1) by (refine (sets_preserve intsOk _ l _ fs1 Hi Hs); intros; by eapply Set_ints).
  refine (sets_preserve intsOk _ _ fs fs' _ He); [intros; by eapply Set_ints|]. by rewrite Efs.
Qed.
Lemma firstError_None l : firstError l = None ↔ Forall (λ o, o = None) l.
Proof.
  induction l as [|[e|] l IH]; cbn [firstError]; [by split|split; [done|]|rewrite IH; split; [by constructor|by intros [_ ?]%Forall_cons]].
  by intros [? _]%Forall_cons.
Qed.
Lemma atLeast_None name v mn : atLeast name v mn = None ↔ mn <= v.
Proof. unfold atLeast. destruct (Z.ltb_spec v mn); split; (done || lia). Qed.
Lemma checked_ok l u : checked l = Ok u → Forall (λ o, o = None) l.
Proof. unfold checked. destruct (firstError l) eqn:E; [done|]. intros _. by apply firstError_None. Qed.
Lemma getInt_range fs name : intsOk fs → in_i 64 (getInt fs name).
Proof. intros Hi. unfold getInt. destruct (valueOf fs (bs name)) as [[]|] eqn:E; try (unfold in_i; lia). by eapply Hi. Qed.

Section valid.
Context `{Unicode}.
Lemma parseHash_ok s a : parseHash s = Ok a → a = MD5 ∨ a = SHA256.
Proof.
  unfold parseHash, Parse_. cbv zeta. repeat case_bool_decide; cbn; intros E; simplify_eq; by (left + right).
Qed.
Lemma resolveLevel_ok fs lvl : resolveLevel fs = Ok lvl → LevelError <= lvl <= LevelTrace.
Proof.
  unfold resolveLevel, ParseLevel. cbv zeta. unfold LevelError, LevelWarn, LevelInfo, LevelDebug, LevelTrace.
  repeat case_match; intros; simplify_eq; lia.
Qed.
Record senderOk (c : SConfig.t) : Prop := {
  so_port : 0 <= SConfig.Port c < 2 ^ 63 - 1;
  so_attempts : 1 <= SConfig.MaxPairAttempts c;
  so_group : 2 ^ 20 <= SConfig.GroupBytes c;
  so_chunk : 4096 <= SConfig.ChunkSize c ∧ 4096 <= SConfig.SocketBuffer c;
  so_workers : 1 <= SConfig.HashWorkers c ∧ 1 <= SConfig.ReadConcurrency c;
  so_hash : SConfig.HashAlg c = MD5 ∨ SConfig.HashAlg c = SHA256;
  so_filters : Forall (λ r, Pattern r ≠ []) (SConfig.Filters c);
}.
Record receiverOk (c : RunReceiver.Config.t) : Prop := {
  ro_link : TrimSpace (RunReceiver.Config.Link c) ≠ [];
  ro_channels : 1 <= RunReceiver.Config.Channels c ∧ 1 <= RunReceiver.Config.MinChannels c <= RunReceiver.Config.MaxChannels c;
  ro_depth : 1 <= RunReceiver.Config.PipelineDepth c ∧ 1 <= RunReceiver.Config.GroupCredit c ∧ 1 <= RunReceiver.Config.DecideWorkers c;
  ro_socket : 4096 <= RunReceiver.Config.SocketBuffer c;
  ro_retries : 0 <= RunReceiver.Config.MaxRetries c;
  ro_hash : RunReceiver.Config.HashAlg c = MD5 ∨ RunReceiver.Config.HashAlg c = SHA256;
}.
Lemma orDefault_pos x d : 0 < x → orDefault x d = x.
Proof. unfold orDefault. destruct (Z.leb_spec x 0); [lia|done]. Qed.

(** What a sender runs with: the configuration it was started with, where the four
    durations, which the command line does not check, have their defaults if they are
    not positive. *)
Definition durationsDefaulted (c : SConfig.t) : SConfig.t :=
  SConfig.mk (SConfig.SourcePath c) (SConfig.Bind c) (SConfig.Port c) (SConfig.Version c) (SConfig.MaxChannels c)
    (if 0 <? SConfig.PairTimeout c then SConfig.PairTimeout c else 600 * Second) (SConfig.MaxPairAttempts c)
    (if 0 <? SConfig.HandshakeTimeout c then SConfig.HandshakeTimeout c else 10 * Second)
    (if 0 <? SConfig.DrainTimeout c then SConfig.DrainTimeout c else 60 * Second)
    (if 0 <? SConfig.ProgressInterval c then SConfig.ProgressInterval c else 5 * Second)
    (SConfig.GroupBytes c) (SConfig.HashAlg c) (SConfig.HashWorkers c) (SConfig.ReadConcurrency c) (SConfig.ChunkSize c) (SConfig.SocketBuffer c)
    (SConfig.CompactCode c) (SConfig.FollowSymlinks c) (SConfig.OneFileSystem c) (SConfig.Hardlinks c) (SConfig.KeepSystemFiles c)
    (SConfig.Quick c) (SConfig.NoCache c) (SConfig.Filters c).
Lemma orDefault_ltb x d : orDefault x d = if 0 <? x then x else d.
Proof. unfold orDefault. destruct (Z.leb_spec x 0), (Z.ltb_spec 0 x); lia || done. Qed.

(** C26: a sender that starts has a well-formed configuration, and it runs with it.
    Whatever the arguments and the environment, a configuration [senderConfig]
    accepts has a port from 0 to 2^63-2 (no tighter bound is checked), at least one
    pairing attempt, groups of at least 2^20 bytes, a chunk and a socket buffer of at
    least 4096, at least one hash worker and one read at a time, MD5 or SHA-256, and no empty
    filter pattern; its level is one of the five; its source is the one positional
    argument, its filters are those of the command line in their order when no
    environment variable adds any; and the run uses it as it is but for the four
    durations, which are not checked: [withDefaults] gives each that is not positive
    its default (600, 10, 60 and 5 seconds), and changes nothing else. *)
Theorem sender_config_valid version numCPU env args cfg fs lvl :
  in_i 64 numCPU → senderConfig version numCPU env args = Ok (cfg, fs, lvl) →
  senderOk cfg ∧ LevelError <= lvl <= LevelTrace ∧
  (∃ l, spells (kindOf (newFlagSet (senderFlags numCPU) [])) args l [SConfig.SourcePath cfg] ∧
        (env (bs "ESYNC_INCLUDE") = None → env (bs "ESYNC_EXCLUDE") = None → SConfig.Filters cfg = omap ruleOf l)) ∧
  RunSender.withDefaults numCPU cfg = durationsDefaulted cfg.
Proof.
  intros Hc. unfold senderConfig. destruct (Parse _ args) as [fs0|] eqn:Ep; [|done]. cbn [orUsage mbind result_bind].
  destruct (applyEnv env fs0) as [fs1|] eqn:Ee; [|done]. cbn [orUsage mbind result_bind].
  destruct (Args fs1) as [|src [|? ?]] eqn:Ea; [done| |done]. cbn [mbind result_bind].
  destruct (resolveLevel fs1) as [lvl1|] eqn:El; [|done]. cbn [mbind result_bind].
  destruct (parseHash _) as [h|] eqn:Eh; [|done]. cbn [mbind result_bind]. destruct (checked _) as [u|] eqn:Ek; [|done]. cbn [mbind result_bind].
  intros [= <- <- <-]. pose proof (parsed_facts numCPU _ args env fs0 fs1 Hc (or_introl eq_refl) Ep Ee) as Hi.
  apply checked_ok in Ek. unfold senderChecks in Ek. rewrite !Forall_cons, !atLeast_None in Ek. destruct Ek as (K1 & K2 & K3 & K4 & K5 & K6 & K7 & K8 & K9 & _).
  assert (Hport : 0 <= getInt fs1 "port" < 2 ^ 63 - 1).
  { pose proof (getInt_range fs1 "port" Hi) as Hp. unfold in_i in Hp. destruct (decide (getInt fs1 "port" = 2 ^ 63 - 1)) as [E|E]; [rewrite E in K5; by vm_compute in K5|].
    rewrite wrap_i_id in K5 by (unfold in_i; lia). lia. }
  unfold Parse in Ep. destruct (parse_sound _ _ _ _ (le_n _) Ep) as (l & fs2 & Hsp & Hs & Efs).
  destruct (sets_appends _ _ _ (senderFlags_appends numCPU) Hs) as (Hap & Hsh & Hne). rewrite applyEnv_sets in Ee.
  assert (Hap0 : appends fs0) by (by rewrite Efs). destruct (sets_appends _ _ _ Hap0 Ee) as (_ & Hsh1 & Hne1).
  assert (Hsh0 : shared fs0 = omap ruleOf l) by (rewrite Efs; exact Hsh).
  split; [|split; [by apply (resolveLevel_ok fs1)|split]].
  - split; cbn; [done..|by apply parseHash_ok in Eh|]. rewrite Hsh1, Hsh0. apply Forall_app. split; by apply rules_nonempty.
  - exists l. destruct (sets_args _ _ _ Ee) as [Ha2 _]. split; [change [_] with [src]; by rewrite <- Ea, Ha2|]. intros Hi1 Hi2. cbn [senderConfigOf SConfig.Filters]. by rewrite Hsh1, Hsh0, env_rules, app_nil_r.
  - unfold RunSender.withDefaults, durationsDefaulted. rewrite <- !orDefault_ltb. cbn [senderConfigOf SConfig.MaxChannels SConfig.MaxPairAttempts
      SConfig.GroupBytes SConfig.HashWorkers SConfig.ReadConcurrency SConfig.ChunkSize SConfig.SocketBuffer].
    rewrite (orDefault_pos 32), (orDefault_pos (getInt fs1 "max-pair-attempts")) by lia. f_equal; apply orDefault_pos; lia.
Qed.

(** The same of a receiver that starts, except that it runs with three retries
    when none are asked for, and with the default for a duration or a checkpoint
    interval that is not positive: there is a pairing code and no positional argument,
    the channel bounds are ordered, the worker counts and windows positive. *)
Theorem receiver_config_valid version numCPU env args cfg fs lvl :
  receiverConfig version numCPU env args = Ok (cfg, fs, lvl) →
  receiverOk cfg ∧ LevelError <= lvl <= LevelTrace ∧
  (∃ l, spells (kindOf (newFlagSet (receiverFlags numCPU) [])) args l []) ∧
  let c := RunReceiver.withDefaults numCPU cfg in
  receiverOk c ∧ (RunReceiver.Config.Channels c, RunReceiver.Config.MinChannels c, RunReceiver.Config.MaxChannels c, RunReceiver.Config.PipelineDepth c,
    RunReceiver.Config.GroupCredit c, RunReceiver.Config.DecideWorkers c, RunReceiver.Config.SocketBuffer c)
  = (RunReceiver.Config.Channels cfg, RunReceiver.Config.MinChannels cfg, RunReceiver.Config.MaxChannels cfg, RunReceiver.Config.PipelineDepth cfg,
    RunReceiver.Config.GroupCredit cfg, RunReceiver.Config.DecideWorkers cfg, RunReceiver.Config.SocketBuffer cfg) ∧
  (RunReceiver.Config.MaxRetries cfg ≠ 0 → RunReceiver.Config.MaxRetries c = RunReceiver.Config.MaxRetries cfg).
Proof.
  unfold receiverConfig. destruct (Parse _ args) as [fs0|] eqn:Ep; [|done]. cbn [orUsage mbind result_bind].
  destruct (applyEnv env fs0) as [fs1|] eqn:Ee; [|done]. cbn [orUsage mbind result_bind].
  destruct (bool_decide (Args fs1 = [])) eqn:Ha; [|intros E; discriminate E]. apply bool_decide_eq_true in Ha.
  destruct (bool_decide (TrimSpace (getString fs1 "link") = [])) eqn:Hl; [intros E; discriminate E|]. apply bool_decide_eq_false in Hl. cbn [negb guard_ok mbind result_bind].
  destruct (resolveLevel fs1) as [lvl1|] eqn:El; [|done]. cbn [mbind result_bind].
  destruct (parseHash _) as [h|] eqn:Eh; [|done]. cbn [mbind result_bind]. destruct (checked _) as [u|] eqn:Ek; [|done]. cbn [mbind result_bind].
  intros [= <- <- <-].
  apply checked_ok in Ek. unfold receiverChecks in Ek. rewrite !Forall_cons, !atLeast_None in Ek. destruct Ek as (K1 & K2 & K3 & K4 & K5 & K6 & K7 & K8 & K9 & K10 & _).
  apply parseHash_ok in Eh. split; [|split; [by apply (resolveLevel_ok fs1)|split; [|cbv zeta; split; [|split]]]].
  - by split.
  - unfold Parse in Ep. destruct (parse_sound _ _ _ _ (le_n _) Ep) as (l & fs2 & Hsp & Hs & Efs).
    rewrite applyEnv_sets in Ee. destruct (sets_args _ _ _ Ee) as [Ha2 _]. exists l. unfold Args in *. by rewrite <- Ha, Ha2.
  - split; cbn; rewrite ?orDefault_pos by lia; try done. unfold orDefault. destruct (_ <=? 0); lia.
  - cbn. by rewrite !orDefault_pos by lia.
  - cbn. intros Hr. apply orDefault_pos. lia.
Qed.
End valid.

(** A signal ends the process: the second one at once, the first one when the grace
    period, if there is one, is over. *)
Lemma signalEscape_spec grace l : signalEscape grace l = Some 5 ↔
  ∃ l1 e l2, l = SigReceived :: l1 ++ e :: l2 ∧ Forall (λ x, x = GraceElapsed) l1 ∧ (grace <= 0 ∨ l1 = []) ∧ (e ≠ GraceElapsed ∨ 0 < grace).
Proof.
  assert (Ha : ∀ l, awaitSecond grace l = Some 5 ↔ ∃ l1 e l2, l = l1 ++ e :: l2 ∧ Forall (λ x, x = GraceElapsed) l1 ∧ (grace <= 0 ∨ l1 = []) ∧ (e ≠ GraceElapsed ∨ 0 < grace)).
  { clear l. induction l as [|e l IH]; cbn [awaitSecond]; [split; [done|by intros ([|??] & ? & ? & ? & _)]|].
    destruct e; [split; [intros _; exists [], SigReceived, l; split_and!; by (constructor || left || right)|done]| |split; [intros _; exists [], SigcClosed, l; split_and!; by (constructor || left || right)|done]].
    destruct (Z.ltb_spec 0 grace) as [Hg|Hg].
    - split; [intros _; exists [], GraceElapsed, l|done]. split_and!; by (constructor || right).
    - rewrite IH. split.
      + intros (l1 & e & l2 & -> & Hl & Hc & He). exists (GraceElapsed :: l1), e, l2. split_and!; [done|by constructor|by left|done].
      + intros ([|x l1] & e & l2 & E & Hl & Hc & He); injection E as E1 E2; [subst e; destruct He; [done|lia]|]. subst. apply Forall_cons in Hl as [_ Hl].
        exists l1, e, l2. split_and!; [done..|by left|done]. }
  unfold signalEscape. destruct l as [|[] l]; [split; [done|by intros (? & ? & ? & ? & _)]| |split; [done|by intros (? & ? & ? & ? & _)]..].
  rewrite Ha. split; [intros (l1 & e & l2 & -> & H)|intros (l1 & e & l2 & E & H); injection E as ->]; by exists l1, e, l2.
Qed.

(** ** Concrete command lines *)
#[local] Existing Instance ascii_unicode.
Definition ex_env0 (l : list (string * string)) (n : bytes) : option bytes := assoc n ((λ p, (bs p.1, bs p.2)) <$> l).
Definition ex_args (l : list string) : list bytes := bs <$> l.
Definition senderOf (env : list (string * string)) (args : list string) : option (SConfig.t * Z) :=
  match senderConfig (bs "1.0") 4 (ex_env0 env) (ex_args args) with Ok (cfg, _, lvl) => Some (cfg, lvl) | Err _ => None end.
Definition receiverOf (env : list (string * string)) (args : list string) : option (RunReceiver.Config.t * Z) :=
  match receiverConfig (bs "1.0") 4 (ex_env0 env) (ex_args args) with Ok (cfg, _, lvl) => Some (cfg, lvl) | Err _ => None end.
Example sender_ex : (λ p, (SConfig.SourcePath p.1, SConfig.Port p.1, SConfig.PairTimeout p.1, SConfig.Filters p.1, p.2)) <$>
    senderOf [("ESYNC_PORT", "7000"); ("ESYNC_PAIR_TIMEOUT", "90s")]%string ["-v"; "--exclude"; "*.o"; "--port=0x1F90"; "--include=a*"; "/src"]%string
  = Some (bs "/src", 8080, 90 * Second, [mkFilter false (bs "*.o"); mkFilter true (bs "a*")], LevelDebug).
Proof. by vm_compute. Qed.
Example sender_bad : (senderOf [] <$> [[]; ["a"; "b"]; ["--hash"; "blake3"; "a"]; ["--chunk-size=1"; "a"]; ["--nope"; "a"]; ["--port"]; ["--include="; "a"]]%string) = replicate 7 None.
Proof. by vm_compute. Qed.

(** --max-retries 0 passes its check, and three retries are made. *)
Lemma no_retries_means_three : ∃ cfg lvl, receiverOf [] ["--link"; "CODE"; "--max-retries"; "0"]%string = Some (cfg, lvl) ∧
  RunReceiver.Config.MaxRetries cfg = 0 ∧ RunReceiver.Config.MaxRetries (RunReceiver.withDefaults 4 cfg) = 3.
Proof. eexists _, _. split; [vm_compute; reflexivity|]. by split. Qed.
(** The level of the environment beats -v on the command line. *)
Lemma env_level_beats_flag : snd <$> senderOf [("ESYNC_LOG_LEVEL", "warn")]%string ["-vv"; "a"]%string = Some LevelWarn.
Proof. by vm_compute. Qed.
(** A port no socket has is in range. *)
Lemma port_unbounded : (λ p, SConfig.Port p.1) <$> senderOf [] ["--port"; "70000"; "a"]%string = Some 70000.
Proof. by vm_compute. Qed.

Lemma flag_precedence_witness : exists l, spells (kindOf (newFlagSet (senderFlags 4) [])) (ex_args ["--port"; "1"; "--port=2"; "a"]%string) l [bs "a"] /\
  lastOf (bs "port") l <> None.
Proof.
  destruct (Parse (newFlagSet (senderFlags 4) []) (ex_args ["--port"; "1"; "--port=2"; "a"]%string)) as [fs|] eqn:Ep; [|vm_compute in Ep; discriminate Ep].
  destruct (applyEnv (ex_env0 []) fs) as [fs'|] eqn:Ee; [|].
  - destruct (flag_precedence (senderFlags 4) [] _ (ex_env0 []) fs fs' Ep Ee) as (l & Hl & Hv). exists l.
    assert (Hf : Some fs' = (fs ← Parse (newFlagSet (senderFlags 4) []) (ex_args ["--port"; "1"; "--port=2"; "a"]%string); applyEnv (ex_env0 []) fs)) by (rewrite Ep; symmetry; exact Ee).
    assert (Ha : (Args <$> Some fs') = Some [bs "a"]) by (rewrite Hf; vm_compute; reflexivity). injection Ha as Ha. rewrite Ha in Hl. split; [exact Hl|].
    destruct (Hv (bs "port") (FInt 0)) as [[H1 _] _]; [vm_compute; reflexivity|].
    assert (Hp : (λ f, visited_ f (bs "port")) <$> Some fs' = Some true) by (rewrite Hf; vm_compute; reflexivity). injection Hp as Hp.
    apply H1 in Hp. unfold source in Hp. destruct (lastOf (bs "port") l); [discriminate|]. exact Hp.
  - exfalso. assert (Hf : (fs ← Parse (newFlagSet (senderFlags 4) []) (ex_args ["--port"; "1"; "--port=2"; "a"]%string); (λ _, true) <$> applyEnv (ex_env0 []) fs) = Some true) by (vm_compute; reflexivity).
    rewrite Ep in Hf. cbn in Hf. rewrite Ee in Hf. discriminate Hf.
Defined.
Lemma sender_config_valid_witness : exists cfg fs lvl, senderConfig (bs "1.0") 4 (ex_env0 []) (ex_args ["--group-bytes=1048576"; "/src"]%string) = Ok (cfg, fs, lvl) /\
  senderOk cfg /\ SConfig.GroupBytes cfg = 1048576.
Proof.
  destruct (senderConfig (bs "1.0") 4 (ex_env0 []) (ex_args ["--group-bytes=1048576"; "/src"]%string)) as [[[cfg fs] lvl]|e] eqn:E.
  - exists cfg, fs, lvl. split; [reflexivity|]. split; [apply (sender_config_valid (bs "1.0") 4 (ex_env0 []) (ex_args ["--group-bytes=1048576"; "/src"]%string) cfg fs lvl); [by split|exact E]|].
    assert (Hg : (λ p, SConfig.GroupBytes p.1) <$> senderOf [] ["--group-bytes=1048576"; "/src"]%string = Some 1048576) by (vm_compute; reflexivity).
    unfold senderOf in Hg. rewrite E in Hg. injection Hg as Hg. exact Hg.
  - exfalso. assert (Hg : (λ _, true) <$> senderOf [] ["--group-bytes=1048576"; "/src"]%string = Some true) by (vm_compute; reflexivity).
    unfold senderOf in Hg. rewrite E in Hg. discriminate Hg.
Defined.
Lemma receiver_config_valid_witness : exists cfg fs lvl, receiverConfig (bs "1.0") 4 (ex_env0 []) (ex_args ["--link"; "CODE"; "--channels"; "8"]%string) = Ok (cfg, fs, lvl) /\
  receiverOk (RunReceiver.withDefaults 4 cfg) /\ RunReceiver.Config.Channels cfg = 8.
Proof.
  destruct (receiverConfig (bs "1.0") 4 (ex_env0 []) (ex_args ["--link"; "CODE"; "--channels"; "8"]%string)) as [[[cfg fs] lvl]|e] eqn:E.
  - exists cfg, fs, lvl. split; [reflexivity|]. split; [apply (receiver_config_valid (bs "1.0") 4 (ex_env0 []) (ex_args ["--link"; "CODE"; "--channels"; "8"]%string) cfg fs lvl E)|].
    assert (Hg : (λ p, RunReceiver.Config.Channels p.1) <$> receiverOf [] ["--link"; "CODE"; "--channels"; "8"]%string = Some 8) by (vm_compute; reflexivity).
    unfold receiverOf in Hg. rewrite E in Hg. injection Hg as Hg. exact Hg.
  - exfalso. assert (Hg : (λ _, true) <$> receiverOf [] ["--link"; "CODE"; "--channels"; "8"]%string = Some true) by (vm_compute; reflexivity).
    unfold receiverOf in Hg. rewrite E in Hg. discriminate Hg.
Defined.
