(* ===== verification/Session.v ===== *)
(** * Session: the two sides of one session together

    [Run] of RunReceiver and [SRun] of RunSender meet in two messages, the sender's
    SESSION_SUMMARY and the receiver's acknowledgement.  What the control channel
    carries arrives as it was sent (Channel, Control), so a message one side
    received is one the other side sent; that is the only link between the two
    environments here. *)
From S2P Require Import Prelude Fault Record Wire Handshake Plan Digest Tracker Paircode Control RunReceiver RunSender.

Section session.
Context `{HandshakeCrypto} `{PlanEnv} `{HashFns}.

(** The summary the receiver gets is one the sender sent. *)
Definition linked (ss : sstate) (re : renv) : Prop :=
  ∀ v, summaryWait re = Received v → MSessionSummary v ∈ s_sent ss.
(** The tracker's calls use fresh request ids, file ids are 64-bit, and SHA-256 does
    not collide on the lists of the two sides. *)
Definition comparable (se : senv) (cfg : SConfig.t) (re : renv) : Prop :=
  Forall (in_u 64) (completed re) ∧ ∀ pl sk un t, served se cfg pl sk un t →
    freshRun (calls (events se)) (newTracker (GroupFirsts pl)) ∧ Forall (in_u 64) (Tracker.completed t) ∧
    (sha256 (completionInput (Tracker.completed t)) = sha256 (completionInput (completed re)) →
     completionInput (Tracker.completed t) = completionInput (completed re)).

(** C4: success is mutual.  When the receiver's run ends as "ok" and the summary it
    received is one the sender sent, the sender's transfer was complete (every group
    decided, every needed file resolved) and the files the sender counts as
    delivered are exactly those the receiver published, as long as SHA-256 does not
    collide on the two lists; and an acknowledgement the sender receives from this
    receiver matches its own digest, so it never ends with E5005. *)
Theorem sessions_agree n1 se c1 ssum sex ss n2 re c2 d rsum rex rs :
  SRun n1 se c1 = Some (ssum, sex, ss) → Run n2 re c2 d = (rsum, rex, rs) →
  Outcome rsum = "ok"%string → Config.DryRun c2 = false →
  linked ss re → comparable se (RunSender.withDefaults n1 c1) re →
  ∃ pl sk un t, served se (RunSender.withDefaults n1 c1) pl sk un t ∧
    (∀ g, 0 <= g < Z.of_nat (length (GroupFirsts pl)) → g ∈ decidedSet t) ∧ needed t ⊆ resolved t ∧
    (∀ f, f ∈ completedSet t ↔ f ∈ completed re) ∧
    ∀ ack, MSessionSummaryAck ack ∈ sent rs → SessionSummaryAck.CompletionDigest ack = completionDigest t.
Proof.
  intros Es Er Ho Hdry Hlink [Hu Hs]. destruct (received_ok _ _ _ _ _ _ _ Er Ho Hdry) as (cfg & n & sc & v & Hv & Hd & Hsent).
  destruct (SRun_honest _ _ _ _ _ _ Es v (Hlink v Hv)) as (pl & sk & un & t & Hserved & ->).
  destruct (Hs _ _ _ _ Hserved) as (Hf & Hut & Hinj). pose proof Hserved as (col & _ & _ & Hw).
  destruct (wait_done_all _ _ _ Hf Hw) as (Hc & Hall & Hneed). rewrite sessionSummary_digest in Hd, Hsent.
  exists pl, sk, un, t. split_and!; [done..| |].
  - intros f. rewrite <- (ok_completed t Hc). by apply completionInput_inj; [..|apply Hinj].
  - intros ack. rewrite Hsent. intros [Ha|[Ha|Ha%elem_of_nil]%elem_of_cons]%elem_of_cons; [done| |done]. by injection Ha as ->.
Qed.
End session.

(** ** Two concrete sides *)
#[local] Existing Instances toy_plan_env ex_hs.
#[local] Instance ses_hash : HashFns := {| md5 := id; Digest.sha256 := id |}.
Definition ses_ack : SessionSummaryAck.t := SessionSummaryAck.mk 2 2 0 0 15 1 (completionInput [1; 2]).
Definition ses_summary : SessionSummary.t :=
  match SRun 4 (ex_senv false (Received ses_ack)) ex_sconfig with
  | Some (_, _, s) => match s_sent s with [_; MSessionSummary v] => v | _ => ex_ss end
  | None => ex_ss
  end.
Definition ses_renv : renv :=
  mkRenv (bs "linux") (λ eps, (λ e, (e, None)) <$> eps) (Ok (MSessionParams ex_params)) (Ok (bs "/home/u")) None None None (2 ^ 40)
    None (λ _, None) (Received ex_scan) (Journal.calmEnv (bs "t0")) Drained [] 0 (Received ses_summary) [2; 1] None None (λ _, None)
    (λ _, mkCounters 2 0 0 0 15).

Lemma ses_sender : match SRun 4 (ex_senv false (Received ses_ack)) ex_sconfig with
  | Some (_, _, s) => s_sent s !! 1%nat = Some (MSessionSummary ses_summary) | None => False end.
Proof. vm_compute. reflexivity. Qed.
Lemma ses_receiver : Outcome (Run 4 ses_renv (ex_config false) None).1.1 = "ok"%string.
Proof. vm_compute. reflexivity. Qed.
Lemma ses_plan : match Build ex_entries (planOptions (RunSender.withDefaults 4 ex_sconfig)) with
  | Ok p => GroupFirsts p = [0] | Err _ => False end.
Proof. vm_compute. reflexivity. Qed.
Lemma ses_served pl sk un t : served (ex_senv false (Received ses_ack)) (RunSender.withDefaults 4 ex_sconfig) pl sk un t →
  freshRun (calls (events (ex_senv false (Received ses_ack)))) (newTracker (GroupFirsts pl)) ∧ Tracker.completed t = [1; 2].
Proof.
  intros (col & Hw & Hb & Ht). injection Hw as <- _ _. pose proof ses_plan as Hp. rewrite Hb in Hp. rewrite Hp in *. split.
  - clear. vm_compute. split_and!; (reflexivity || exact I || (intros Hx; discriminate Hx)).
  - assert (E : Tracker.completed (wait (events (ex_senv false (Received ses_ack))) (newTracker [0])).1 = [1; 2]) by (vm_compute; reflexivity).
    rewrite Ht in E. exact E.
Qed.

Lemma sessions_agree_witness :
  ∃ pl sk un t, served (ex_senv false (Received ses_ack)) (RunSender.withDefaults 4 ex_sconfig) pl sk un t ∧ ∀ f, f ∈ completedSet t ↔ f ∈ [2; 1].
Proof.
  pose proof ses_sender as Hs. pose proof ses_receiver as Hr.
  destruct (SRun 4 (ex_senv false (Received ses_ack)) ex_sconfig) as [[[ssum sex] ss]|] eqn:Es; [|destruct Hs].
  destruct (Run 4 ses_renv (ex_config false) None) as [[rsum rex] rs] eqn:Er.
  destruct (sessions_agree 4 _ ex_sconfig ssum sex ss 4 ses_renv (ex_config false) None rsum rex rs Es Er Hr eq_refl)
    as (pl & sk & un & t & H1 & _ & _ & H2 & _).
  - intros v Hv. rewrite <- (inj Received _ _ Hv). exact (list_elem_of_lookup_2 _ _ _ Hs).
  - split; [refine (bool_decide_eq_true_1 (Forall _ _) _); vm_compute; reflexivity|].
    intros pl sk un t Hserved. destruct (ses_served _ _ _ _ Hserved) as [Hf Hc]. rewrite Hc. split; [exact Hf|].
    split; [refine (bool_decide_eq_true_1 (Forall _ _) _); vm_compute; reflexivity|]. intros _. apply completionInput_perm, Permutation_swap.
  - exists pl, sk, un, t. split; [exact H1|exact H2].
Defined.
