(* ===== verification/System.v ===== *)
(** * System: the sender's servicer and the receiver's worker together

    A FILE_REQUEST served by Serve, its messages delivered in order by a channel
    (Channel), and received by Fetch.  The first part says that a fetch succeeds
    when nothing fails; the theorem composes both sides into one transfer. *)
From S2P Require Import Prelude Fault Strconv Glob Record Wire Plan Paths Journal Digest Tracker Fs Dest Queue Serve Receiver Decide Fetch.

(** ** A fetch when nothing fails *)

(** No fault to come: of the disk, of the channel, of the journal. *)
Record lucky (s : fst_) : Prop := {
  lk_world : w_faults (sh_world (fs_sh s)) = [];
  lk_sends : fs_fates s = [];
  lk_writes : fs_jfates s = [];
  lk_journal : ∀ j d, fs_journal s = Some (j, d) → j_open j = true;
}.

Lemma WriteInode_nodes i d w r w' : WriteInode i d w = (r, w') → nodes (w_fs w') = nodes (w_fs w).
Proof. intros E. apply sys_inv in E as [(? & _ & ->)|E]; [done|]. by destruct (inodes (w_fs w) !! i); injection E as _ <-. Qed.
Lemma TruncateInode_nodes i w r w' : TruncateInode i w = (r, w') → nodes (w_fs w') = nodes (w_fs w).
Proof. intros E. apply sys_inv in E as [(? & _ & ->)|E]; [done|]. by destruct (inodes (w_fs w) !! i); injection E as _ <-. Qed.

Lemma outside_take q k : outside q → (0 < k)%nat → outside (take k q).
Proof. intros Ho Hk Hh. apply Ho. destruct q as [|x q]; [by rewrite take_nil in Hh|]. destruct k; [lia|exact Hh]. Qed.
Lemma writable_same q s s' : sameOutside s s' → outside q → writable q s → writable q s'.
Proof.
  intros [H1 _] Ho [Hd Hn]. split.
  - intros k Hk. unfold isDir. rewrite H1 by (apply outside_take; [done|lia]). by apply Hd.
  - unfold isDir. by rewrite H1.
Qed.
Lemma publishable_same pn c s s' : sameOutside s s' → outside (pn ++ [c]) → publishable pn c s → publishable pn c s'.
Proof. rewrite <- !writable_snoc. apply writable_same. Qed.

(** What becomes of a name that does not lie below the names written, nor above. *)
Lemma writable_elsewhere p name qs t t' :
  Forall (unrelated p) (name :: qs) → outside p → elsewhere name qs t t' → writable p t → writable p t'.
Proof.
  intros Hu Ho [Hn _] [Hd Hp]. rewrite Forall_forall in Hu. pose proof (Hu name (list_elem_of_here _ _)) as Hname.
  assert (Hqs : ∀ q k, q ∈ name :: qs → take k p ≠ q) by (intros q k Hq <-; destruct (Hu _ Hq) as [_ []]; apply prefix_take).
  split.
  - intros k Hk. destruct (Hn (take k p)) as [E|[[Hin _]|(_ & ? & _)]];
      [apply outside_take; [done|lia]|apply Hqs; by left|unfold isDir; rewrite E; by apply Hd| |by right].
    exfalso. eapply Hqs; [right; exact Hin|done].
  - unfold isDir. destruct (Hn p Ho) as [->|[[Hin _]|(_ & _ & q & k & Hq & _ & ->)]]; [by apply unrelated_ne|done| |].
    + exfalso. by apply (unrelated_ne p p); [apply Hu; right|].
    + destruct (Hu _ Hq) as [[] _]. apply prefix_take.
Qed.
Lemma partsKept_linked id i qs s s' : Forall outside qs → linked i qs s s' → partsKept id s s'.
Proof.
  intros Ho [_ Hl _] id' _ [Hd Hp]. rewrite Forall_forall in Ho.
  assert (Hkeep : ∀ p, ¬ outside p → nodes s' !! p = nodes s !! p).
  { intros p Hnp. destruct (Hl p) as [?|[[Hin _]|(_ & _ & q & k & Hq & Hk & ->)]]; [done|by destruct Hnp; apply Ho|].
    destruct Hnp. apply outside_take; [by apply Ho|lia]. }
  split; [|rewrite Hkeep; [done|by intros []]]. intros k Hk. unfold isDir. rewrite Hkeep; [by apply Hd|].
  destruct k as [|k]; [lia|]. by intros [].
Qed.
(** The names of secondaries that wait lie outside the journal directory. *)
Lemma parked_outside po ls qs : Forall2 (parkedAt po) ls qs → Forall outside qs.
Proof. intros Hl. eapply Forall2_Forall_r; [exact Hl|]. apply Forall_true. by intros l q [_ _ ? _]. Qed.

Section lucky_fetch.
Context `{HashFns} (f : fetcher) (it : needItem) (fm : fileMeta) (pn : path) (c : bytes).
Hypothesis id_range : in_u 64 (fileID it).
Hypothesis rel_plain : Forall plainName (pn ++ [c]).
Hypothesis rel_outside : outside (pn ++ [c]).
Hypothesis rel_name : fm_rel fm = relOf (pn ++ [c]).
(** The names of the secondaries that wait for the file: no name lies below another. *)
Context (qs : list path).
Hypothesis names_apart : StronglySorted unrelated ((pn ++ [c]) :: qs).
#[local] Set Default Proof Using "Type*".

(** The file's name and its secondaries' can be written. *)
Record ready (s : fst_) : Prop := {
  re_name : publishable pn c (fsF s);
  re_parked : Forall2 (parkedAt (pn ++ [c])) (awaited (fileID it) fm (sh_hl (fs_sh s))) qs;
  re_links : Forall (λ q, writable q (fsF s)) qs;
}.
Lemma ready_same s s' : sameOutside (fsF s) (fsF s') → sh_hl (fs_sh s') = sh_hl (fs_sh s) → ready s → ready s'.
Proof.
  intros Ho Hh [R1 R2 R3]. split; [by eapply publishable_same|by rewrite Hh|].
  apply parked_outside in R2 as Hout. rewrite Forall_forall in *. intros q Hq. eapply writable_same; [exact Ho|by apply Hout|by apply R3].
Qed.

Lemma onDest_lucky {A} (m : SE world gerr A) s a w :
  m (sh_world (fs_sh s)) = (Ok a, w) → onDest m s = (Ok a, withShared (onWorld w) s).
Proof using. intros Hm. unfold onDest, runDest. by rewrite Hm. Qed.
Lemma lucky_world s w : lucky s → w_faults w = [] → lucky (withShared (onWorld w) s).
Proof using. intros [L1 L2 L3 L4] Hw. by split. Qed.

(** The request is over and nothing else has moved: the queue, the metadata and the
    parts of other files are as before, and nothing is about to fail. *)
Record undisturbed (s s' : fst_) : Prop := {
  ud_lucky : lucky s';
  ud_id : fs_reqID s' = fs_reqID s;
  ud_queue : sh_q (fs_sh s') = sh_q (fs_sh s);
  ud_meta : sh_meta (fs_sh s') = sh_meta (fs_sh s);
  ud_parts : partsKept (fileID it) (fsF s) (fsF s');
  ud_failed : FilesFailedOf s' = FilesFailedOf s ∧ fs_fatal s' = fs_fatal s;
  ud_hl : fileKey (sh_hl (fs_sh s')) = fileKey (sh_hl (fs_sh s)) ∧
    ∀ k, fileKey (sh_hl (fs_sh s)) !! fileID it ≠ Some k → waiting k (sh_hl (fs_sh s')) = waiting k (sh_hl (fs_sh s));
}.
Lemma undisturbed_trans s1 s2 s3 : undisturbed s1 s2 → undisturbed s2 s3 → undisturbed s1 s3.
Proof using.
  intros [A1 A2 A3 A4 A5 [A6 A7] [A8 A9]] [B1 B2 B3 B4 B5 [B6 B7] [B8 B9]]. split; [done|congruence..| |split; congruence|split; [congruence|]].
  - by eapply partsKept_trans.
  - intros k Hk. rewrite B9, A9 by congruence. done.
Qed.
(** A step that leaves the shared state but for counters and contents. *)
Lemma undisturbed_same s s' :
  lucky s' → fs_reqID s' = fs_reqID s → sh_q (fs_sh s') = sh_q (fs_sh s) → sh_meta (fs_sh s') = sh_meta (fs_sh s) →
  nodes (fsF s') = nodes (fsF s) → FilesFailedOf s' = FilesFailedOf s → fs_fatal s' = fs_fatal s → sh_hl (fs_sh s') = sh_hl (fs_sh s) →
  undisturbed s s'.
Proof using.
  intros H1 H2 H3 H4 H5 H6 H7 H8. split; [exact H1|exact H2|exact H3|exact H4|by apply partsKept_nodes|by split|by rewrite H8].
Qed.
(** A step that leaves the shared state but for the tree. *)
Lemma undisturbed_world s w : lucky s → w_faults w = [] → partsKept (fileID it) (fsF s) (w_fs w) → undisturbed s (withShared (onWorld w) s).
Proof using. intros Hl Hw Hk. split; try done. by apply lucky_world. Qed.

(** Every secondary is a name of the file. *)
Definition allLinked (t : fs) : Prop := Forall (λ q, nodes t !! q = nodes t !! (pn ++ [c])) qs.
(** Success, with what was sent as before, nothing disturbed and the links made. *)
Definition succeeds (s : fst_) (m : result gerr unit * fst_) : Prop :=
  m.1 = Ok () ∧ fs_out m.2 = fs_out s ∧ undisturbed s m.2 ∧ allLinked (fsF m.2).
Lemma succeeds_as s s1 m : fs_out s1 = fs_out s → undisturbed s s1 → succeeds s1 m → succeeds s m.
Proof using. intros Ho Hu (H1 & H2 & H3 & H4). split_and!; [done|congruence| |done]. by eapply undisturbed_trans, H3. Qed.

Lemma markComplete_lucky rec s : lucky s → ∃ s1, markComplete rec s = (Ok (), s1) ∧ fs_out s1 = fs_out s ∧ undisturbed s s1.
Proof using.
  intros [Hw Hs Hj Ho]. unfold markComplete. destruct (fs_journal s) as [[j d]|] eqn:E.
  - rewrite Hj. cbn [head mjoin]. unfold MarkComplete. rewrite (Ho j d eq_refl). eexists. split; [reflexivity|]. split; [reflexivity|].
    apply undisturbed_same; try reflexivity. split; [exact Hw|exact Hs|reflexivity|]. intros j' d' Hjd.
    apply (f_equal (λ o : option (Journal * jdir), match o with Some x => j_open x.1 | None => true end)) in Hjd.
    transitivity (j_open j); [exact (eq_sym Hjd)|exact (Ho j d eq_refl)].
  - exists s. split; [reflexivity|]. split; [reflexivity|]. apply undisturbed_same; try reflexivity.
    split; [exact Hw|exact Hs|exact Hj|]. by rewrite E.
Qed.

(** Registering a primary touches its own key only. *)
Lemma registerMaterialised_hl rel h : let h' := (registerMaterialised (fileID it) rel h).2 in
  fileKey h' = fileKey h ∧ ∀ k, fileKey h !! fileID it ≠ Some k → waiting k h' = waiting k h.
Proof using.
  unfold registerMaterialised. destruct (fileKey h !! fileID it) as [k0|] eqn:E; cbn [snd fileKey]; (split; [done|]); [|done].
  intros k Hk. rewrite waiting_delete. case_decide; [congruence|done].
Qed.

(** The links of a file that is in place are made. *)
Lemma linking_lucky i s :
  lucky s → fsOk (fsF s) → nodes (fsF s) !! (pn ++ [c]) = Some (NFile i) → fm_hasHLKey fm = true → ready s →
  ∃ s1, onShared (λ sh, let '(ls, h) := registerMaterialised (fileID it) (fm_rel fm) (sh_hl sh) in
                        linkOrFallback (groupID it) (fm_rel fm) ls (onHL h sh)) s = (Ok (), s1) ∧
    fs_out s1 = fs_out s ∧ undisturbed s s1 ∧ allLinked (fsF s1).
Proof.
  intros Hl Hok Hi Hh [_ R2 R3]. unfold awaited in R2. rewrite Hh in R2. unfold onShared, modS, withShared.
  pose proof (registerMaterialised_hl (fm_rel fm) (sh_hl (fs_sh s))) as Hhl. cbv zeta in Hhl.
  destruct (registerMaterialised (fileID it) (fm_rel fm) (sh_hl (fs_sh s))) as [ls h]. cbn [fst snd] in R2, Hhl.
  set (sh := onHL h (fs_sh s)). assert (Hpo : nodes (treeOf sh) !! (pn ++ [c]) = Some (NFile i)) by exact Hi.
  destruct (linkOrFallback_lucky (groupID it) (pn ++ [c]) i ls qs sh R2 names_apart R3 (lk_world _ Hl) Hok rel_plain Hpo) as (w & E & Hw & Hns).
  pose proof (linkOrFallback_linked (groupID it) (pn ++ [c]) i ls qs sh R2 Hok rel_plain Hpo) as L. rewrite E in L.
  rewrite rel_name, E. eexists. split; [reflexivity|]. split; [reflexivity|]. split.
  - destruct Hl as [L1 L2 L3 L4]. split; [by split|reflexivity..| |by split|exact Hhl].
    eapply partsKept_linked; [by eapply parked_outside|exact L].
  - apply Forall_forall. intros q Hq. rewrite Forall_forall in Hns. etrans; [exact (Hns q Hq)|]. symmetry.
    eapply linked_keeps; [exact L| |exact Hi]. intros Hin. apply StronglySorted_inv in names_apart as [_ Hu].
    rewrite Forall_forall in Hu. by apply Hu, unrelated_ne in Hin.
Qed.

Lemma afterPublish_lucky i local written s :
  lucky s → fsOk (fsF s) → nodes (fsF s) !! (pn ++ [c]) = Some (NFile i) → ready s → succeeds s (afterPublish it fm local written s).
Proof.
  intros Hl Hok Hi Hr. unfold afterPublish.
  destruct (markComplete_lucky (mkJRecord (fileID it) (fm_rel fm) local (wrap_i 64 written)) s Hl) as (s1 & Hm & Ho1 & Hu).
  apply markComplete_inv in Hm as Hsh. destruct Hsh as [Hsh _].
  rewrite (SE_bind_ok _ _ _ _ _ Hm). apply (succeeds_as s s1); [done|done|].
  assert (Hfs : fsF s1 = fsF s) by (unfold fsF; by rewrite Hsh).
  assert (Hr1 : ready s1) by (apply (ready_same s); [rewrite Hfs; apply sameOutside_refl|by rewrite Hsh|done]).
  assert (Hmid : ∃ s2, (if fm_hasHLKey fm then onShared (λ sh, let '(ls, h) := registerMaterialised (fileID it) (fm_rel fm) (sh_hl sh) in
                          linkOrFallback (groupID it) (fm_rel fm) ls (onHL h sh)) else mret ()) s1 = (Ok (), s2) ∧
    fs_out s2 = fs_out s1 ∧ undisturbed s1 s2 ∧ allLinked (fsF s2)).
  { destruct (fm_hasHLKey fm) eqn:Hh; [apply (linking_lucky i); [apply Hu|by rewrite Hfs|by rewrite Hfs|done|done]|].
    exists s1. destruct (ud_lucky _ _ Hu) as [L1 L2 L3 L4]. split_and!; [done|done|by apply undisturbed_same|].
    pose proof (re_parked _ Hr) as Hq. unfold awaited in Hq. rewrite Hh in Hq. apply Forall2_nil_inv_l in Hq. unfold allLinked. rewrite Hq. constructor. }
  destruct Hmid as (s2 & E2 & Ho2 & Hu2 & Hall). rewrite (SE_bind_ok _ _ _ _ _ E2). apply (succeeds_as s1 s2); [done|done|].
  destruct (ud_lucky _ _ Hu2) as [L1 L2 L3 L4]. unfold onShared, onComplete, modS, mbind, SE_bind.
  destruct (0 <? attempt it); split_and!; try done; (apply undisturbed_same; try reflexivity; by split).
Qed.

Lemma verifyContent_ok hdr fc content :
  verified f fm hdr fc content →
  verifyContent fm hdr fc (hashOf (fe_algo f) content) (Z.of_nat (length content)) = None.
Proof using.
  intros (H1 & H2 & H3 & H4). unfold verifyContent. rewrite (proj2 (Z.eqb_eq _ _) H1). cbn [negb].
  repeat (case_bool_decide; cbn [negb andb]); try done; exfalso; naive_solver.
Qed.

Lemma finish_lucky i hdr fc content s :
  lucky s → partOpen (fileID it) i (fsF s) → ready s → verified f fm hdr fc content →
  succeeds s (finish f it fm hdr fc (mkHash (fe_algo f) content) (Z.of_nat (length content)) s).
Proof.
  intros Hl Hp Hpub Hv. unfold finish. change (Sum (mkHash (fe_algo f) content)) with (hashOf (fe_algo f) content).
  rewrite verifyContent_ok by done. rewrite rel_name.
  destruct (PublishPart_lucky (fe_dest f) (fileID it) pn c i (if fm_mode fm =? 0 then PermMode (FileHeader.Mode hdr) else fm_mode fm)
    (fm_mtime fm) (sh_world (fs_sh s))) as (w & E & Hw); [apply Hl|apply Hp|done|done|done|done|apply Hpub|].
  apply PublishPart_spec with (i := i) in E as Hspec; [|apply Hp|done|done|done|apply Hp|by eapply partOpen_outside].
  destruct Hspec as [(? & ? & _)|(_ & Hok & Honly & Hfile & _ & Hdirs)]; [done|].
  assert (Ea : attemptDest (PublishPart (fe_dest f) (fileID it) (relOf (pn ++ [c])) (if fm_mode fm =? 0 then PermMode (FileHeader.Mode hdr) else fm_mode fm)
    (fm_mtime fm)) s = (Ok None, withShared (onWorld w) s)) by (unfold attemptDest, runDest; by rewrite E).
  rewrite (SE_bind_ok _ _ _ _ _ Ea). apply (succeeds_as s (withShared (onWorld w) s)); [done| |].
  - apply undisturbed_world; [done|done|]. by eapply partsKept_publish.
  - apply (afterPublish_lucky i); [by apply lucky_world|done|done|]. split; [split| |].
    + intros k Hk. right. apply Hdirs. lia.
    + intros [m Hm]. change (nodes (w_fs w) !! (pn ++ [c]) = Some (NDir m)) in Hm. congruence.
    + exact (re_parked _ Hpub).
    + pose proof (parked_outside _ _ _ (re_parked _ Hpub)) as Hout. pose proof (re_links _ Hpub) as Hlk.
      apply StronglySorted_inv in names_apart as [_ Hu]. rewrite Forall_forall in Hout, Hlk, Hu. apply Forall_forall. intros q Hq.
      eapply writable_elsewhere; [|by apply Hout| |by apply Hlk].
      2:{ eapply elsewhere_publish; [apply sameOutside_refl|exact Hp|exact Honly]. }
      apply Forall_singleton. by apply unrelated_sym, Hu.
Qed.

(** The messages of a served file. *)
Lemma receive_lucky rid fc rest hdr i ds : ∀ fuel content s,
  lucky s → partHolds (fileID it) i content (fsF s) → ready s →
  fs_in s = (Ok <$> chunks rid (Z.of_nat (length content)) ds) ++ Ok (MFileComplete fc) :: rest →
  (length ds < fuel)%nat → Z.of_nat (length content) + Z.of_nat (length (mjoin ds)) < 2 ^ 62 →
  verified f fm hdr fc (content ++ mjoin ds) →
  succeeds s (receive f fuel it fm hdr i (mkHash (fe_algo f) content) (Z.of_nat (length content)) s).
Proof.
  induction ds as [|d ds IH]; intros fuel content s Hl Hp Hpub Hin Hf Hlen Hv; (destruct fuel as [|fuel]; [cbn in Hf; lia|]);
    cbn [receive chunks fmap list_fmap app] in *; unfold recvData; rewrite Hin.
  - rewrite app_nil_r in Hv. unfold setStreaming at 1, modS at 1. unfold mbind at 1, SE_bind at 1.
    set (s1 := mkFst _ _ _ _ _ _ _ _ _ _).
    assert (Hl1 : lucky s1) by (destruct Hl; by split).
    assert (Ef : onDest (Fs.attempt Flush) s1 = (Ok (Ok ()), withShared (onWorld (mkWorld (fsF s) [])) s1)).
    { apply onDest_lucky. unfold Fs.attempt, Flush. rewrite sys_lucky by apply Hl1. done. }
    rewrite (SE_bind_ok _ _ _ _ _ Ef). apply (succeeds_as s (withShared (onWorld (mkWorld (fsF s) [])) s1)); [done| |].
    + apply undisturbed_same; try reflexivity. by apply lucky_world.
    + apply (finish_lucky i); [by apply lucky_world|apply Hp|by apply (ready_same s); [apply sameOutside_refl|..]|done].
  - rewrite Z.eqb_refl. cbn [negb]. set (s1 := mkFst _ _ _ _ _ _ _ _ _ _).
    assert (Hl1 : lucky s1) by (destruct Hl; by split).
    assert (Hw : ∃ w, WriteInode i d (sh_world (fs_sh s1)) = (Ok (), w) ∧ w_faults w = []).
    { unfold WriteInode. rewrite sys_lucky by apply Hl1. destruct Hp as [_ (x & Hx & _)].
      change (w_fs (sh_world (fs_sh s1))) with (fsF s). rewrite Hx. by eexists. }
    destruct Hw as (w & Ew & Hw). apply (WriteInode_part (fileID it) i content) in Ew as Hpart; [|done]. destruct Hpart as [Ho Hh].
    rewrite (SE_bind_ok _ _ _ _ _ (onDest_lucky (Fs.attempt (WriteInode i d)) s1 (Ok ()) w (attempt_lucky _ _ _ _ Ew))).
    unfold onShared, modS. unfold mbind, SE_bind.
    cbn [FileChunk.Data]. set (s2 := withShared (count BytesIn _) _).
    assert (Hlen' : Z.of_nat (length (content ++ d)) = Z.of_nat (length content) + Z.of_nat (length d)) by (rewrite length_app; lia).
    rewrite mjoin_cons, length_app in Hlen. rewrite wrap_u_id by (unfold in_u; lia). rewrite <- Hlen'.
    apply (succeeds_as s s2); [done| |apply (IH fuel (content ++ d) s2)].
    + apply undisturbed_same; try reflexivity; [by destruct Hl1; split|]. exact (WriteInode_nodes _ _ _ _ _ Ew).
    + destruct Hl1 as [L1 L2 L3 L4]. by split.
    + by apply Hh.
    + apply (ready_same s); [exact Ho|done|done].
    + unfold s2, s1. cbn [fs_in withShared]. rewrite wrap_u_id by (unfold in_u; lia). by rewrite Hlen'.
    + cbn in Hf. lia.
    + lia.
    + rewrite mjoin_cons, app_assoc in Hv. done.
Qed.

(** The part is opened, emptied and positioned. *)
Lemma prepare_lucky {B} (K : Z → F B) s :
  lucky s → fsOk (fsF s) → partSafe (fileID it) (fsF s) → partOpenable (fileID it) (fsF s) → ready s →
  ∃ i s', (part ← onDest (OpenPart (fileID it));
           _ ← partOp "truncate part file" (fm_rel fm) (TruncateInode part);
           _ ← partOp "seek part file" (fm_rel fm) Flush;
           K part) s = K i s' ∧
    undisturbed s s' ∧ partHolds (fileID it) i [] (fsF s') ∧ ready s' ∧ fs_in s' = fs_in s ∧ fs_out s' = fs_out s.
Proof.
  intros Hl Hok Hsafe Hopen Hpub.
  destruct (OpenPart_lucky (fileID it) (sh_world (fs_sh s))) as (i & w1 & E1 & Hw1 & Hk1); [apply Hl|done..|].
  exists i. rewrite (SE_bind_ok _ _ _ _ _ (onDest_lucky _ _ _ _ E1)).
  apply OpenPart_spec in E1 as (Hok1 & Ho1 & Hp1); [|done..]. set (s1 := withShared _ s).
  assert (Ht : ∃ w2, TruncateInode i w1 = (Ok (), w2) ∧ w_faults w2 = []).
  { unfold TruncateInode. rewrite sys_lucky by done. destruct (ok_inode _ (po_ok _ _ _ Hp1) _ _ (po_file _ _ _ Hp1)) as [[y Hy] _].
    rewrite Hy. by eexists. }
  destruct Ht as (w2 & E2 & Hw2). apply (TruncateInode_part (fileID it)) in E2 as Ht2; [|done]. destruct Ht2 as (Hp2 & Ho2 & Hh2).
  assert (E2' : partOp "truncate part file" (fm_rel fm) (TruncateInode i) s1 = (Ok (), withShared (onWorld w2) s1)).
  { unfold partOp. by rewrite (SE_bind_ok _ _ _ _ _ (onDest_lucky (Fs.attempt (TruncateInode i)) s1 _ _ (attempt_lucky _ _ _ _ E2))). }
  rewrite (SE_bind_ok _ _ _ _ _ E2'). set (s2 := withShared _ s1).
  assert (E3 : partOp "seek part file" (fm_rel fm) Flush s2 = (Ok (), withShared (onWorld (mkWorld (fsF s2) [])) s2)).
  { unfold partOp. assert (Hfl : Flush (sh_world (fs_sh s2)) = (Ok (), mkWorld (fsF s2) [])) by (unfold Flush; by rewrite sys_lucky).
    by rewrite (SE_bind_ok _ _ _ _ _ (onDest_lucky (Fs.attempt Flush) s2 _ _ (attempt_lucky _ _ _ _ Hfl))). }
  rewrite (SE_bind_ok _ _ _ _ _ E3). eexists. split; [reflexivity|]. split_and!; [|by apply Hh2| |done|done].
  - split; try reflexivity; [by destruct Hl; split| |by split|by split]. eapply partsKept_trans; [exact Hk1|]. apply partsKept_nodes. exact (TruncateInode_nodes _ _ _ _ E2).
  - apply (ready_same s1); [exact Ho2|done|]. by apply (ready_same s).
Qed.

Lemma length_chunks rid ds : ∀ p, length (chunks rid p ds) = length ds.
Proof using. induction ds as [|d ds IH]; intros p; [done|]. cbn [chunks length]. by rewrite IH. Qed.

(** The state once the next request is sent. *)
Definition requested (s : fst_) : fst_ :=
  let n := wrap_u 64 (fs_reqID s + 1) in
  mkFst (fs_sh s) (fs_journal s) (fs_jfates s) n (fs_completed s) (fs_fatal s) (fs_in s) (fs_fates s)
    (fs_out s ++ [MFileRequest (FileRequest.mk n (fileID it) 0 safeMaxChunk)]) (fs_streaming s).

(** A whole fetch. *)
Lemma fetchOne_lucky rid hdr fc rest ds s :
  lucky s → fsOk (fsF s) → partSafe (fileID it) (fsF s) → partOpenable (fileID it) (fsF s) → ready s →
  metaStore.get (fileID it) (sh_meta (fs_sh s)) = Some fm → fe_algo f ∈ [MD5; SHA256] →
  fs_in s = Ok (MFileHeader hdr) :: (Ok <$> chunks rid 0 ds) ++ Ok (MFileComplete fc) :: rest →
  Z.of_nat (length (mjoin ds)) < 2 ^ 62 → verified f fm hdr fc (mjoin ds) →
  succeeds (requested s) (fetchOne f it s).
Proof.
  intros Hl Hok Hsafe Hopen Hpub Hmeta Halgo Hin Hlen Hv. unfold fetchOne.
  cut (succeeds (requested s) ((_ ← setStreaming false; transfer f it) s)).
  { destruct ((_ ← setStreaming false; transfer f it) s) as [r s1]. intros (Hr & Ho & Hu). cbn [fst snd] in *. by subst r. }
  unfold setStreaming at 1, modS at 1. unfold mbind at 1, SE_bind at 1. set (s1 := mkFst _ _ _ _ _ _ _ _ _ _).
  unfold transfer. assert (Hm : lookupMeta (fileID it) s1 = (Ok (Some fm), s1)) by (unfold lookupMeta; change (fs_sh s1) with (fs_sh s); by rewrite Hmeta).
  rewrite (SE_bind_ok _ _ s1 (Some fm) s1 Hm).
  unfold nextRequest. unfold mbind at 1, SE_bind at 1. set (s2 := mkFst _ _ _ _ _ _ _ _ _ _).
  assert (Hl2 : lucky s2) by (destruct Hl; by split).
  unfold sendData. unfold mbind at 1, SE_bind at 1. rewrite (lk_sends _ Hl2).
  set (s3 := mkFst _ _ _ _ _ _ _ _ _ _). unfold recvData. unfold mbind at 1, SE_bind at 1.
  change (fs_in s3) with (fs_in s). rewrite Hin. cbn iota. set (s4 := mkFst _ _ _ _ _ _ _ _ _ _).
  unfold setStreaming, modS. unfold mbind at 1, SE_bind at 1. set (s5 := mkFst _ _ _ _ _ _ _ _ _ _).
  assert (Hl5 : lucky s5) by (destruct Hl; by split).
  assert (Hu5 : undisturbed (requested s) s5) by (by apply undisturbed_same).
  assert (Hr5 : ready s5) by (destruct Hpub; by split).
  edestruct (prepare_lucky (λ part, match New (fe_algo f) with Err e => abort e | Ok h => receiveAll f it fm hdr part h end) s5)
    as (i & s6 & -> & Hu6 & Hp6 & Hpub6 & Hin6 & Hout6); [done..|].
  assert (HN : New (fe_algo f) = Ok (mkHash (fe_algo f) [])).
  { unfold New. apply elem_of_cons in Halgo as [->|Halgo]; [done|]. by apply list_elem_of_singleton in Halgo as ->. }
  rewrite HN. unfold receiveAll. change (fs_in s5) with ((Ok <$> chunks rid 0 ds) ++ Ok (MFileComplete fc) :: rest) in Hin6.
  apply (succeeds_as _ s6); [by rewrite Hout6|by eapply undisturbed_trans|].
  apply (receive_lucky rid fc rest hdr i ds _ [] s6); try done; [apply Hu6|].
  rewrite Hin6, length_app, length_fmap, length_chunks. cbn [length]. lia.
Qed.
End lucky_fetch.

(** ** The sender's answer when nothing fails *)
Section lucky_serve.
Context `{HashFns} (errText : stdErr → bytes) (osOpen : bytes → result stdErr handle).
#[local] Set Default Proof Using "Type*".

Lemma SendMsg_calm m w : calm w → ∃ w', SendMsg m w = (Ok (), w') ∧ calm w'.
Proof using.
  unfold calm, SendMsg. intros Hc. destruct (fates w) as [|[x|] fl] eqn:Ef; [by eexists| |].
  - by apply Forall_cons in Hc as [? _].
  - apply Forall_cons in Hc as [_ Hc]. by eexists.
Qed.

Lemma streamLoop_calm req off reads : ∀ h n w,
  calm w → (readAll reads).2 = None → ∃ x w', streamLoop errText req off h n reads w = (Ok (Some x), w') ∧ calm w'.
Proof.
  induction reads as [|[p rerr] reads IH]; intros h n w Hc Hr; [by eexists _, _|].
  cbn [streamLoop readAll] in *.
  assert (Hx : ∃ x w', (if bool_decide (p = []) then mret (h, n) else
      _ ← SendMsg (MFileChunk (FileChunk.mk (FileRequest.RequestID req) (wrap_u 64 (off + n)) p));
      _ ← onTracker bump;
      mret (hashWrite h p, wrap_u 64 (n + Z.of_nat (length p)))) w = (Ok x, w') ∧ calm w').
  { destruct (bool_decide (p = [])); [by eexists _, _|].
    destruct (SendMsg_calm (MFileChunk (FileChunk.mk (FileRequest.RequestID req) (wrap_u 64 (off + n)) p)) w Hc) as (w1 & E1 & Hc1).
    rewrite (SE_bind_ok _ _ _ _ _ E1). by eexists _, _. }
  destruct Hx as (x & w1 & E1 & Hc1). rewrite (SE_bind_ok _ _ _ _ _ E1).
  destruct rerr as [err|].
  - destruct err; cbn in Hr; try done. by eexists _, _.
  - apply IH; [done|]. by destruct (readAll reads).
Qed.

(** The file is as it was scanned: it opens, its identity and size are the
    manifest's, its bytes are [data] and agree with the manifest's digest. *)
Record intact (s : servicer) (fid : Z) (e : Entry) (f : handle) (data : bytes) : Prop := {
  in_entry : s_entries s !! Z.to_nat fid = Some e;
  in_type : Typ e = TypeFile;
  in_open : osOpen (Join2 (s_root s) (RelPath e)) = Ok f;
  in_stat : ∃ fi, h_stat f = Ok fi ∧ fi_regular fi = true ∧ fi_dev fi = Plan.Dev e ∧ fi_ino fi = Plan.Ino e ∧ fi_size fi = Plan.Size e;
  in_data : readAll (h_reads f 0) = (data, None);
  in_size : Z.of_nat (length data) = Plan.Size e;
  in_digest : (digestStore.get fid (s_digests s)).1 = [] ∨ (digestStore.get fid (s_digests s)).1 = hashOf (s_algo s) data;
  in_algo : s_algo s ∈ [MD5; SHA256];
}.

(** The answer: header, chunks, FILE_COMPLETE. *)
Definition answer (s : servicer) (rid fid : Z) (data : bytes) (ds : list bytes) (hdr : FileHeader.t) : list Message :=
  MFileHeader hdr :: chunks rid 0 ds ++ [MFileComplete (FileComplete.mk rid (Z.of_nat (length data)) (hashOf (s_algo s) data))].

Lemma serve_intact s fid rid mc e f data w :
  intact s fid e f data → calm w → Z.of_nat (length data) < 2 ^ 62 →
  ∃ w', serve errText osOpen s None (FileRequest.mk rid fid 0 mc) w = (Ok (), w') ∧ ∃ hdr ds,
    mjoin ds = data ∧ FileHeader.Size hdr = Z.of_nat (length data) ∧ FileHeader.Digest hdr = (digestStore.get fid (s_digests s)).1 ∧
    did w (replicate (length ds) OpBump ++ [OpCompleted rid fid (Z.of_nat (length data))]) (answer s rid fid data ds hdr) w'.
Proof.
  intros [He Ht Ho (fi & Hst & Hreg & Hdev & Hino & Hsz) Hd Hs Hdig Halgo] Hc Hlen.
  set (req := FileRequest.mk rid fid 0 mc). unfold serve, serveBody. change (FileRequest.FileID req) with fid. rewrite He.
  rewrite (bool_decide_true (Typ e = TypeFile)) by done. cbn [negb]. rewrite Ho, Hst, Hreg, Hdev, Hino, Hsz, !Z.eqb_refl. cbn [negb].
  rewrite orb_false_r, andb_false_r. unfold stream.
  change (wrap_i 64 (FileRequest.Offset req)) with 0. cbn [Z.ltb Z.compare Z.eqb andb]. cbv zeta.
  change (FileRequest.RequestID req) with rid. change (FileRequest.FileID req) with fid.
  set (hdr := FileHeader.mk _ _ _ _ _ _ _ _).
  destruct (SendMsg_calm (MFileHeader hdr) w Hc) as (w1 & E1 & Hc1). rewrite (SE_bind_ok _ _ _ _ _ E1).
  apply SendMsg_did in E1 as [(_ & Hd1)|((? & ?) & _)]; [|done].
  assert (HN : New (s_algo s) = Ok (mkHash (s_algo s) [])).
  { unfold New. apply elem_of_cons in Halgo as [->|Halgo]; [done|]. by apply list_elem_of_singleton in Halgo as ->. }
  rewrite HN. assert (Hend : (readAll (h_reads f 0)).2 = None) by by rewrite Hd.
  destruct (streamLoop_calm req 0 (h_reads f 0) (mkHash (s_algo s) []) 0 w1 Hc1 Hend) as ([h n] & w2 & E2 & Hc2).
  rewrite (SE_bind_ok _ _ _ _ _ E2).
  apply (streamLoop_did errText) in E2 as (ds & E2); [|done|by rewrite Hd].
  cbn zeta in E2. rewrite Hd in E2. destruct E2 as (Hd2 & Hj & _ & -> & ->). cbn [fst snd] in Hj.
  rewrite Hj, !Z.add_0_l. unfold streamEnd. cbv zeta.
  change (wrap_i 64 (FileRequest.Offset req)) with 0. change (FileRequest.FileID req) with fid. change (FileRequest.RequestID req) with rid.
  rewrite !Z.add_0_l.
  rewrite (wrap_i_id 64 (Z.of_nat (length data))), (wrap_i_id 64 (Z.of_nat (length data))) by (unfold in_i; lia).
  rewrite Hs, Z.eqb_refl. cbn [negb Z.eqb andb]. change (Sum (hashWrite (mkHash (s_algo s) []) data)) with (hashOf (s_algo s) data).
  assert (Hdg : bool_decide ((digestStore.get fid (s_digests s)).1 ≠ []) && bool_decide (hashOf (s_algo s) data ≠ (digestStore.get fid (s_digests s)).1) = false).
  { apply andb_false_iff. destruct Hdig as [->| ->]; [left|right]; by apply bool_decide_eq_false; intros []. }
  rewrite Hdg. rewrite <- Hs.
  set (fc := FileComplete.mk _ _ _). destruct (SendMsg_calm (MFileComplete fc) w2 Hc2) as (w3 & E3 & Hc3).
  rewrite (SE_bind_ok _ _ _ _ _ E3). apply SendMsg_did in E3 as [(_ & Hd3)|((? & ?) & _)]; [|done].
  eexists. split; [reflexivity|]. exists hdr, ds. split_and!; [done| |done|].
  - unfold hdr. cbn [FileHeader.Size]. rewrite <- Hs. apply wrap_u_id. unfold in_u. lia.
  - pose proof (did_app _ _ _ _ _ _ _ (did_app _ _ _ _ _ _ _ (did_app _ _ _ _ _ _ _ Hd1 Hd2) Hd3)
      (onTracker_did (OpCompleted rid fid (Z.of_nat (length data))) _ w3 (λ _, eq_refl))) as Hd5.
    rewrite !app_nil_r in Hd5. destruct Hd5 as [T O C]. split; [exact T| |exact C]. exact O.
Qed.
End lucky_serve.

(** ** Both sides *)

Lemma chunks_are_chunks rid ds : ∀ p, Forall (λ x, isChunk x = true) (Ok <$> chunks rid p ds).
Proof. induction ds; intros p; cbn [chunks fmap list_fmap]; by constructor. Qed.
Lemma dataOf_app l1 l2 : dataOf (l1 ++ l2) = dataOf l1 ++ dataOf l2.
Proof. unfold dataOf. by rewrite fmap_app, join_app. Qed.
Lemma dataOf_skip x l : isChunk x = false → dataOf (x :: l) = dataOf l.
Proof. unfold dataOf. rewrite fmap_cons, mjoin_cons. by destruct x as [[]|]. Qed.
Lemma dataOf_chunks rid ds : ∀ p, dataOf (Ok <$> chunks rid p ds) = mjoin ds.
Proof.
  induction ds as [|d ds IH]; intros p; [done|]. cbn [chunks fmap list_fmap].
  unfold dataOf in *. by rewrite fmap_cons, !mjoin_cons, IH.
Qed.
(** The FILE_COMPLETE that ends a run of chunks. *)
Lemma complete_here hdr cs fc fc' rest k :
  Forall (λ x, isChunk x = true) cs →
  (Ok (MFileHeader hdr) :: cs ++ Ok (MFileComplete fc) :: rest) !! k = Some (Ok (MFileComplete fc') : result gerr Message) →
  Forall (λ x, isChunk x = true) (tail (take k (Ok (MFileHeader hdr) :: cs ++ Ok (MFileComplete fc) :: rest))) →
  k = S (length cs) ∧ fc' = fc.
Proof.
  intros Hcs Hk Hall. destruct k as [|k]; [done|].
  change ((cs ++ Ok (MFileComplete fc) :: rest) !! k = Some (Ok (MFileComplete fc'))) in Hk. cbn [take tail] in Hall.
  destruct (lt_eq_lt_dec k (length cs)) as [[Hlt| ->]|Hgt].
  - rewrite lookup_app_l in Hk by done. eapply Forall_lookup_1 in Hk; [|exact Hcs]. done.
  - split; [done|]. rewrite list_lookup_middle in Hk by done. congruence.
  - exfalso. assert (Hx : isChunk (Ok (MFileComplete fc)) = true); [|done].
    apply (Forall_lookup_1 (λ x, isChunk x = true) _ (length cs) _ Hall). rewrite lookup_take_lt by done. by apply list_lookup_middle.
Qed.

Section transfer.
Context `{HashFns} (errText : stdErr → bytes) (osOpen : bytes → result stdErr handle) (s : servicer).
Context (f : fetcher) (it : needItem) (fm : fileMeta) (pn : path) (c : bytes) (st0 : fst_) (qs : list path).
Hypothesis id_range : in_u 64 (fileID it).
Hypothesis rel_plain : Forall plainName (pn ++ [c]).
Hypothesis rel_outside : outside (pn ++ [c]).
Hypothesis rel_name : fm_rel fm = relOf (pn ++ [c]).
Hypothesis tree_ok : fsOk (fsF st0).
Hypothesis part_safe : partSafe (fileID it) (fsF st0).
Hypothesis meta_known : metaStore.get (fileID it) (sh_meta (fs_sh st0)) = Some fm.
#[local] Set Default Proof Using "Type*".

(** The request the fetch sends. *)
Definition request : FileRequest.t := FileRequest.mk (wrap_u 64 (fs_reqID st0 + 1)) (fileID it) 0 safeMaxChunk.
(** What the sender sends for it, and what it leaves. *)
Definition serving (w : st) : result gerr unit * st := serve errText osOpen s None request w.
Definition replies (w : st) : list (result gerr Message) := Ok <$> drop (length (sent w)) (sent (serving w).2).

(** A file that has not changed since the scan arrives.  The sender serves the
    request that the fetch sends; if the file opens, its identity, size and digest
    are the manifest's and no send fails, and the receiver's disk, channel and
    journal do not fail and the name is free to be written, then the fetch
    succeeds: the name holds exactly the bytes of the source file, the file is
    recorded as complete on both sides, and the channel stands after the answer;
    every secondary that waits for it becomes a name of the same file; nothing else
    is disturbed. *)
Lemma transfer_completes w e h data rest :
  intact osOpen s (fileID it) e h data → calm w → fe_algo f = s_algo s →
  fm_digest fm = [] ∨ fm_digest fm = hashOf (s_algo s) data →
  lucky st0 → partOpenable (fileID it) (fsF st0) → StronglySorted unrelated ((pn ++ [c]) :: qs) → ready it fm pn c qs st0 →
  Z.of_nat (length data) + Z.of_nat (length (dataOf rest)) < 2 ^ 62 → fs_in st0 = replies w ++ rest →
  ∃ st' k,
    fetchOne f it st0 = (Ok (), st') ∧ fs_out st' = fs_out st0 ++ [MFileRequest request] ∧ fs_in st' = rest ∧
    published pn c qs data (fsF st0) (fsF st') ∧ allLinked pn c qs (fsF st') ∧
    fs_completed st' = fs_completed st0 ++ [fileID it] ∧
    (serving w).1 = Ok () ∧ calm (serving w).2 ∧ undisturbed it (requested it st0) st' ∧
    tr (serving w).2 = reqCompleted (FileRequest.RequestID request) (fileID it) (Z.of_nat (length data)) (exec (replicate k OpBump) (tr w)).
Proof.
  intros Hint Hc Halgo Hdig Hl Hopen Hapart Hpub Hlen Hin.
  destruct (serve_intact errText osOpen s (fileID it) (FileRequest.RequestID request) safeMaxChunk e h data w Hint Hc ltac:(lia))
    as (w' & Es & hdr & ds & Hj & Hsz & Hdg & [HT HO HC]).
  assert (Hs : serving w = (Ok (), w')) by exact Es.
  unfold replies in Hin. rewrite Hs in *. cbn [fst snd] in *. rewrite HO, drop_app_length in Hin.
  unfold answer in Hin. rewrite fmap_cons, fmap_app in Hin. cbn [fmap list_fmap app] in Hin. rewrite <- app_assoc in Hin. cbn [app] in Hin.
  set (fc := FileComplete.mk _ _ _) in Hin.
  assert (Hv : verified f fm hdr fc data).
  { unfold verified. rewrite Halgo. split_and!; [done|by right|naive_solver|]. rewrite Hdg. destruct (in_digest _ _ _ _ _ _ Hint); auto. }
  destruct (fetchOne_lucky f it fm pn c id_range rel_plain rel_outside rel_name qs Hapart (FileRequest.RequestID request) hdr fc rest ds st0)
    as (F1 & F2 & F3 & F4); try done; [rewrite Halgo; apply Hint|by rewrite Hj; lia|by rewrite Hj|].
  destruct (fetchOne f it st0) as [r st'] eqn:E. cbn [fst snd] in *. subst r.
  apply (fetchOne_spec f it fm pn c) in E; [|done..|].
  2:{ rewrite Hin. rewrite dataOf_skip, dataOf_app, dataOf_chunks, Hj, dataOf_skip, length_app by done. lia. }
  destruct E as (hdr' & k & fc' & Hh & Hk & Hall & Hrest & _ & Hdone & _ & Hpubd).
  specialize (Hpubd qs (re_parked _ _ _ _ _ _ Hpub)).
  rewrite Hin in Hh, Hk, Hall, Hrest, Hpubd. injection Hh as <-.
  destruct (complete_here _ _ _ _ _ _ (chunks_are_chunks _ _ _) Hk Hall) as [-> _].
  exists st', (length ds). split_and!; try done.
  - rewrite Hrest. cbn [drop]. rewrite cons_middle, app_assoc. apply drop_app_length'. rewrite length_app. cbn [length]. lia.
  - cbn [take] in Hpubd. by rewrite take_app_length, dataOf_skip, dataOf_chunks, Hj in Hpubd.
  - by apply HC.
  - rewrite HT. unfold exec. by rewrite foldl_app.
Qed.

(** A FILE_COMPLETE among the errors that follow a prefix of the answer is one of
    the answer's. *)
Lemma complete_sent (out : list Message) n (errs : list gerr) k fc :
  ((Ok <$> take n out) ++ (Err <$> errs)) !! k = Some (Ok (MFileComplete fc)) → MFileComplete fc ∈ out.
Proof using.
  intros Hk. apply list_elem_of_lookup_2 in Hk. apply elem_of_app in Hk as [Hk|Hk].
  - apply list_elem_of_fmap in Hk as (m & [= <-] & Hm). by eapply elem_of_take in Hm as (? & ? & _); eapply list_elem_of_lookup_2.
  - by apply list_elem_of_fmap in Hk as (e & ? & _).
Qed.

(** C3: a transfer is exact or it is not reported as done.  Whatever the source
    file and the sender's channel do, however many messages of the answer arrive
    before the channel fails, and whatever faults the receiver's disk, channel and
    journal have: if the fetch succeeds then the sender completed this request,
    its reads of the file ended without an error, and in the tree that the fetch
    leaves the name holds exactly the bytes they gave, as many as the manifest says.
    The file may be hard-linked: [qs] are the names of the secondaries that wait for
    it (none without hard links), valid names outside the journal directory and
    other than the file's own; they too may change, and nothing else does but missing
    parents. *)
Theorem transfer_exact ctx w r w' n errs st' :
  sized osOpen s request → serve errText osOpen s ctx request w = (r, w') →
  fs_in st0 = (Ok <$> take n (drop (length (sent w)) (sent w'))) ++ (Err <$> errs) →
  Z.of_nat (length (dataOf (fs_in st0))) < 2 ^ 62 →
  fetchOne f it st0 = (Ok (), st') →
  Forall2 (parkedAt (pn ++ [c])) (awaited (fileID it) fm (sh_hl (fs_sh st0))) qs →
  ∃ e h data,
    s_entries s !! Z.to_nat (fileID it) = Some e ∧ osOpen (Join2 (s_root s) (RelPath e)) = Ok h ∧
    readAll (h_reads h 0) = (data, None) ∧ Z.of_nat (length data) = Plan.Size e ∧
    published pn c qs data (fsF st0) (fsF st') ∧
    ∃ k, tr w' = reqCompleted (FileRequest.RequestID request) (fileID it) (Z.of_nat (length data)) (exec (replicate k OpBump) (tr w)).
Proof.
  intros Hsz Es Hin Hlen E Hqs. apply (serve_did errText osOpen) in Es as (ds & o & out & [HT HO _] & Hout); [|done].
  rewrite HO, drop_app_length in Hin.
  apply (fetchOne_spec f it fm pn c) in E; [|done..].
  destruct E as (hdr & k & fc & Hh & Hk & Hall & _ & _ & _ & _ & Hpubd). specialize (Hpubd qs Hqs). rewrite Hin in Hh, Hk, Hall, Hpubd.
  pose proof (complete_sent _ _ _ _ _ Hk) as Hsent.
  destruct o as [| |rid fid len|rid resolve permanent| |]; try done.
  2:{ destruct Hout as (_ & _ & Hno & _). rewrite Forall_forall in Hno. by apply Hno in Hsent. }
  destruct Hout as (-> & -> & -> & e & h & hdr0 & He & _ & Ho & Hread & -> & Hsize & _ & _ & _ & _ & _ & Hans).
  change (FileRequest.FileID request) with (fileID it) in *. change (FileRequest.Offset request) with 0 in *.
  set (fc0 := FileComplete.mk _ _ _) in Hans.
  assert (Hall_in : (Ok <$> out : list (result gerr Message)) = Ok (MFileHeader hdr0) :: (Ok <$> chunks (FileRequest.RequestID request) 0 ds) ++ [Ok (MFileComplete fc0)]).
  { rewrite Hans, fmap_cons, fmap_app. done. }
  destruct (decide (length out <= n)%nat) as [Hn|Hn].
  - rewrite take_ge, Hall_in in Hk, Hall, Hpubd by lia. rewrite <- app_comm_cons, <- app_assoc in Hk, Hall, Hpubd. cbn [app] in *.
    destruct (complete_here _ _ _ _ _ _ (chunks_are_chunks _ _ _) Hk Hall) as [-> _].
    exists e, h, (mjoin ds). split_and!; try done.
    + cbn [take] in Hpubd. by rewrite take_app_length, dataOf_skip, dataOf_chunks in Hpubd.
    + exists (length ds). rewrite HT. unfold exec. by rewrite foldl_app.
  - exfalso. rewrite app_comm_cons in Hans. rewrite Hans in Hn, Hk. rewrite length_app in Hn. cbn [length] in Hn.
    rewrite take_app_le in Hk by (cbn [length]; lia). apply complete_sent in Hk.
    assert (Hno : Forall (λ m, isComplete m = false) (MFileHeader hdr0 :: chunks (FileRequest.RequestID request) 0 ds)).
    { apply Forall_cons. split; [done|apply chunks_incomplete]. }
    rewrite Forall_forall in Hno. by apply Hno in Hk.
Qed.
End transfer.

(** ** Concrete inputs: "d/b" with content "hello" *)
#[local] Existing Instance padded_hash.
Definition ex_source : handle :=
  mkHandle (Ok (mkFinfo true 1 9 5)) (λ _, None) (λ _, [(bs "hel", None); (bs "lo", Some StdEOF)]).
Definition ex_sopen (p : bytes) : result stdErr handle :=
  if bool_decide (p = bs "/src/d/b") then Ok ex_source else Err StdNotExist.
Definition ex_hello : bytes := hashOf MD5 (bs "hello").
Definition ex_entry : Entry := mkEntry (bs "d/b") TypeFile 0 5 420 9 0 1 9 [] 0.
Definition ex_sender : servicer :=
  mkServicer (replicate 7 (mkEntry (bs "x") TypeDir 0 0 493 0 0 1 3 [] 0) ++ [ex_entry]) (bs "/src") MD5 3 (digestStore.set 7 ex_hello digestStore.new).
(** The receiver, with the inbox [l]; the sender, with the request started. *)
Definition ex_receiver (l : list (result gerr Message)) : fst_ :=
  mkFst (fs_sh ex_fetching) (fs_journal ex_fetching) [] 0 [] None l [] [] false.
Definition ex_sending : st := mkSt (reqStarted 1 7 (newTracker [7])) [] [] 0 0.
Definition ex_replies : list (result gerr Message) := replies (λ _, []) ex_sopen ex_sender ex_item (ex_receiver []) ex_sending.

Lemma ex_clear cs : forallb (λ k, match nodes ex_tree !! take k cs with None | Some (NDir _) => true | _ => false end) (seq 1 (length cs)) = true →
  clearDirs cs ex_tree.
Proof.
  intros Hf k Hk. rewrite forallb_forall in Hf. specialize (Hf k ltac:(apply in_seq; lia)).
  unfold isDir. destruct (nodes ex_tree !! take k cs) as [[m|i|t]|]; [right; by exists m|done|done|by left].
Qed.
Lemma ex_openable : partOpenable 7 ex_tree.
Proof. split; [apply ex_clear; by vm_compute|left; by vm_compute]. Qed.
Lemma ex_publishable : publishable [bs "d"] (bs "b") ex_tree.
Proof. split; [apply ex_clear; by vm_compute|intros [m Hm]; by vm_compute in Hm]. Qed.
Lemma ex_plain : Forall plainName ([bs "d"] ++ [bs "b"]).
Proof. refine (bool_decide_eq_true_1 (Forall plainName _) _). vm_compute. reflexivity. Qed.
Lemma ex_intact : intact ex_sopen ex_sender 7 ex_entry ex_source (bs "hello").
Proof.
  split; try reflexivity; try (vm_compute; reflexivity).
  - exists (mkFinfo true 1 9 5). by split_and!.
  - right. vm_compute. reflexivity.
  - by left.
Qed.

Lemma ex_receiver_fs l : fsF (ex_receiver l) = ex_tree.
Proof. reflexivity. Qed.
Lemma ex_receiver_ok l : fsOk (fsF (ex_receiver l)).
Proof. rewrite ex_receiver_fs. apply fsOkb_ok. by vm_compute. Qed.
Lemma ex_receiver_safe l : partSafe (fileID ex_item) (fsF (ex_receiver l)).
Proof. rewrite ex_receiver_fs. exact ex_partSafe. Qed.
Lemma ex_receiver_meta l : metaStore.get (fileID ex_item) (sh_meta (fs_sh (ex_receiver l))) = Some ex_meta.
Proof. reflexivity. Qed.

Lemma ex_ready : ready ex_item ex_meta [bs "d"] (bs "b") [] (ex_receiver ex_replies).
Proof. split; [rewrite ex_receiver_fs; exact ex_publishable|constructor|constructor]. Qed.

Lemma transfer_completes_witness :
  ex_replies ≠ [] ∧ ∃ st', fetchOne ex_fetcher ex_item (ex_receiver ex_replies) = (Ok (), st') ∧
    published [bs "d"] (bs "b") [] (bs "hello") ex_tree (fsF st').
Proof.
  split; [intros E; vm_compute in E; discriminate E|].
  destruct (transfer_completes (λ _, []) ex_sopen ex_sender ex_fetcher ex_item ex_meta [bs "d"] (bs "b") (ex_receiver ex_replies) []
    ltac:(by vm_compute) ex_plain ltac:(by vm_compute) ltac:(reflexivity) (ex_receiver_ok _) (ex_receiver_safe _) (ex_receiver_meta _)
    ex_sending ex_entry ex_source (bs "hello") [] ex_intact ltac:(constructor) ltac:(reflexivity) ltac:(right; vm_compute; reflexivity)
    ltac:(split; try reflexivity; intros j d [= <- <-]; reflexivity) ex_openable ltac:(repeat constructor) ex_ready ltac:(by vm_compute)
    ltac:(vm_compute; reflexivity)) as (st' & k & Hf & _ & _ & Hp & _).
  exists st'. split; [exact Hf|exact Hp].
Defined.

(** The channel fails after the answer has arrived. *)
Definition ex_cut : list (result gerr Message) := ex_replies ++ [Err (EStd StdEOF)].
Lemma ex_sized l : sized ex_sopen ex_sender (request ex_item (ex_receiver l)).
Proof.
  split.
  - vm_compute. split; discriminate || reflexivity.
  - repeat constructor; vm_compute; discriminate || reflexivity.
  - intros p h0. unfold ex_sopen. destruct (bool_decide _); [|discriminate]. intros [= <-]. vm_compute. reflexivity.
Qed.
(** "d/b" has a second name, "d/x". *)
Definition ex_linked_receiver (l : list (result gerr Message)) : fst_ :=
  mkFst (fs_sh ex_linking) (fs_journal ex_linking) [] 0 [] None l [] [] false.
Lemma transfer_exact_witness :
  ∃ st', fetchOne ex_fetcher ex_item (ex_linked_receiver ex_cut) = (Ok (), st') ∧
  ∃ h data, ex_sopen (bs "/src/d/b") = Ok h ∧ readAll (h_reads h 0) = (data, None) ∧
    published [bs "d"] (bs "b") [[bs "d"; bs "x"]] data ex_tree (fsF st').
Proof.
  pose proof (transfer_exact (λ _, []) ex_sopen ex_sender ex_fetcher ex_item ex_linked_meta [bs "d"] (bs "b") (ex_linked_receiver ex_cut)
    [[bs "d"; bs "x"]] ltac:(by vm_compute) ex_plain ltac:(by vm_compute) ltac:(reflexivity) (ex_receiver_ok []) (ex_receiver_safe []) ltac:(reflexivity)
    None ex_sending) as Hx.
  assert (Hok : (fetchOne ex_fetcher ex_item (ex_linked_receiver ex_cut)).1 = Ok ()) by (vm_compute; reflexivity).
  set (sv := serve (λ _, []) ex_sopen ex_sender None (request ex_item (ex_linked_receiver ex_cut)) ex_sending) in *.
  destruct (fetchOne ex_fetcher ex_item (ex_linked_receiver ex_cut)) as [r st'] eqn:E. cbn [fst] in Hok. subst r.
  exists st'. split; [reflexivity|].
  destruct (Hx sv.1 sv.2 4%nat [EStd StdEOF] st') as (e & h & data & He & Ho & Hr & _ & Hp & _).
  - exact (ex_sized []).
  - apply surjective_pairing.
  - vm_compute. reflexivity.
  - vm_compute. reflexivity.
  - reflexivity.
  - exact ex_linking_parked.
  - assert (e = ex_entry) as -> by (vm_compute in He; injection He as <-; reflexivity).
    exists h, data. split; [exact Ho|]. split; [exact Hr|exact Hp].
Defined.
