(* ===== verification/Mirror.v ===== *)
(** * Mirror: one data channel empties the need queue

    A receiver's worker ([Fetch.loop]) and the sender's servicer of the same channel
    ([Serve.run]), from a closed need queue to its end: what the worker requests is
    what the servicer is asked, and what the servicer sends is what the worker
    receives.  The theorem iterates the single transfer of System. *)
From S2P Require Import Prelude Fault Strconv Glob Record Wire Plan Paths Journal Digest Tracker Fs Dest Queue Serve Receiver Decide Fetch System.

(** ** The files of the queue *)

(** A needed file: the item and its metadata on the receiver, its name there, the
    hard-link key it is the primary of and the secondaries that wait for it (id and
    name), its plan entry, its open file and its content on the sender. *)
Record file := mkFile {
  x_item : needItem; x_meta : fileMeta; x_dirs : path; x_base : bytes; x_key : option Z; x_seconds : list (Z * path);
  x_entry : Entry; x_handle : handle; x_data : bytes;
}.
Definition x_id (x : file) : Z := fileID (x_item x).
Definition x_name (x : file) : path := x_dirs x ++ [x_base x].
Definition x_others (x : file) : list path := snd <$> x_seconds x.
Definition x_names (x : file) : list path := x_name x :: x_others x.
Definition x_parked (x : file) : list pendingLink := (λ l, mkPending l.1 (relOf l.2)) <$> x_seconds x.

(** No name of the one lies below a name of the other, and the ids and the keys
    differ. *)
Definition independent (x y : file) : Prop :=
  x_id x ≠ x_id y ∧ (∀ k, x_key x = Some k → x_key y ≠ Some k) ∧
  ∀ p q, p ∈ x_names x → q ∈ x_names y → unrelated p q.

(** The name of [x] and the names of its secondaries are one file, which holds the
    content of its source. *)
Definition arrived (t : fs) (x : file) : Prop :=
  ∃ i z, Forall (λ q, nodes t !! q = Some (NFile i)) (x_names x) ∧ inodes t !! i = Some z ∧ i_content z = x_data x.

(** The requests of a worker whose last request had the id [n], and the close of
    the channel, as the servicer receives them. *)
Fixpoint requests (n : Z) (xs : list file) : list FileRequest.t :=
  match xs with
  | [] => []
  | x :: xs => let n := wrap_u 64 (n + 1) in FileRequest.mk n (x_id x) 0 safeMaxChunk :: requests n xs
  end.
Definition asked (rs : list FileRequest.t) : list Serve.turn :=
  ((λ r, mkTurn (Ok (MFileRequest r)) false None) <$> rs) ++ [mkTurn (Err (EStd StdEOF)) false None].

(** ** What a transfer leaves to the others *)
Lemma FormatUint_inj a b : in_u 64 a → in_u 64 b → FormatUint a 10 = FormatUint b 10 → a = b.
Proof.
  intros Ha Hb E. pose proof (ParseUint_FormatUint a 10 64 ltac:(lia) Ha ltac:(apply Ha)) as Pa.
  pose proof (ParseUint_FormatUint b 10 64 ltac:(lia) Hb ltac:(apply Hb)) as Pb. rewrite E in Pa. congruence.
Qed.
Lemma partPath_inj a b : in_u 64 a → in_u 64 b → partPath a = partPath b → a = b.
Proof.
  intros Ha Hb E. apply FormatUint_inj; [done..|]. unfold partPath in E.
  apply (f_equal (λ l : path, last l)) in E. cbn in E. apply (f_equal (from_option id [])) in E.
  by apply app_inv_tail in E.
Qed.

Lemma independent_sym x y : independent x y → independent y x.
Proof.
  intros (H1 & H2 & H3). split_and!; [by apply not_eq_sym|intros k Hy Hx; by apply (H2 k)|].
  intros p q Hp Hq. by apply unrelated_sym, H3.
Qed.
Lemma independent_unrelated x y p : independent x y → p ∈ x_names x → Forall (unrelated p) (x_names y).
Proof. intros (_ & _ & Hu) Hp. apply Forall_forall. intros q Hq. by apply Hu. Qed.

Lemma arrived_elsewhere x y t t' :
  independent x y → Forall outside (x_names x) → elsewhere (x_name y) (x_others y) t t' → arrived t x → arrived t' x.
Proof.
  intros Hi Ho [Hn Hin] (i & z & H1 & H2 & H3). rewrite Forall_forall in Ho, H1. exists i, z.
  assert (Hname : x_name x ∈ x_names x) by left.
  rewrite (Hin (x_name x) i (Ho _ Hname) (H1 _ Hname)). split_and!; [|done|done]. apply Forall_forall. intros p Hp.
  pose proof (independent_unrelated _ _ _ Hi Hp) as Hu. rewrite Forall_forall in Hu.
  assert (Hother : p ∉ x_others y) by (intros Hq; by apply (unrelated_ne p p); [apply Hu; right|]).
  destruct (Hn p (Ho _ Hp)) as [->|[[? _]|([E|?] & _)]]; [apply unrelated_ne, Hu; left|by apply H1|done| |done].
  pose proof (H1 _ Hp). congruence.
Qed.

Lemma names_elsewhere x y t t' :
  independent x y → Forall outside (x_names x) → elsewhere (x_name y) (x_others y) t t' →
  Forall (λ q, writable q t) (x_names x) → Forall (λ q, writable q t') (x_names x).
Proof.
  intros Hi Ho He. rewrite !Forall_forall in *. intros Hw q Hq.
  eapply writable_elsewhere; [by eapply independent_unrelated|by apply Ho|exact He|by apply Hw].
Qed.

(** ** One request on the sender's tracker *)
Definition idle (t : tracker) : Prop := trackerOk t ∧ reqToFile t = ∅.

(** What a request that is completed changes. *)
Record completes (fid : Z) (t t' : tracker) : Prop := {
  cp_idle : idle t';
  cp_completed : fid ∉ completedSet t → completed t' = completed t ++ [fid];
  cp_set : completedSet t' = {[fid]} ∪ completedSet t;
  cp_resolved : resolved t' = {[fid]} ∪ resolved t;
  cp_needed : needed t' = needed t;
  cp_decided : allDecided t' ↔ allDecided t;
}.

Definition withProgress (p : Z) (t : tracker) : tracker :=
  mkTracker (totalGroups t) (groupFirst t) (fileGroup t) (groupsDecided t) (decidedSet t) (needed t)
    (resolved t) (reqToFile t) (Tracker.inflight t) (completed t) (completedSet t) (failedSet t) (bytesTotal t)
    (skippedCount t) (rejectedCount t) (decidedDone t) (doneClosed t) p.
Lemma exec_bumps_progress k : ∀ t, ∃ p, exec (replicate k OpBump) t = withProgress p t.
Proof.
  induction k as [|k IH]; intros t; [exists (progress t); by destruct t|].
  destruct (IH (bump t)) as [p Hp]. exists p. exact Hp.
Qed.

Lemma request_completes rid fid n k t : idle t →
  completes fid t (reqCompleted rid fid n (exec (replicate k OpBump) (reqStarted rid fid t))).
Proof.
  intros [Hok He]. assert (Hok1 : trackerOk (exec (replicate k OpBump) (reqStarted rid fid t))).
  { apply exec_ok; [apply reqStarted_ok; [by rewrite He|done]|]. generalize (reqStarted rid fid t). induction k; intros t0; [done|by split]. }
  apply (apply_ok (OpCompleted rid fid n)) in Hok1; [|done]. cbn [apply] in Hok1.
  destruct (exec_bumps_progress k (reqStarted rid fid t)) as [p Hp]. rewrite Hp in *.
  assert (Hf : reqToFile (withProgress p (reqStarted rid fid t)) !! rid = Some fid) by apply lookup_insert_eq.
  assert (Hdel : delete rid (reqToFile (withProgress p (reqStarted rid fid t))) = ∅).
  { change (delete rid (<[rid := fid]> (reqToFile t)) = ∅). by rewrite delete_insert_eq, He, delete_empty. }
  revert Hok1. unfold reqCompleted, finishLocked. rewrite Hf, Hdel. cbn [completedSet].
  change (completedSet (withProgress p (reqStarted rid fid t))) with (completedSet t).
  destruct (bool_decide_reflect (fid ∈ completedSet t)) as [Hin|Hin]; intros Hok1; split; try done; cbn; set_solver.
Qed.

Section mirror.
Context `{HashFns} (errText : stdErr → bytes) (osOpen : bytes → result stdErr handle) (s : servicer) (f : fetcher).
#[local] Set Default Proof Using "Type*".

(** What a file must satisfy for good: both sides agree on it, and its source is as
    it was scanned. *)
Record mirrored (x : file) : Prop := {
  mi_id : in_u 64 (x_id x);
  mi_plain : Forall (Forall plainName) (x_names x);
  mi_outside : Forall outside (x_names x);
  mi_apart : StronglySorted unrelated (x_names x);
  mi_rel : fm_rel (x_meta x) = relOf (x_name x);
  mi_intact : intact osOpen s (x_id x) (x_entry x) (x_handle x) (x_data x);
  mi_digest : fm_digest (x_meta x) = [] ∨ fm_digest (x_meta x) = hashOf (s_algo s) (x_data x);
}.
(** ... and while it waits: its metadata and its secondaries are known, no part of it
    is left over and its names can be written. *)
Record waits (st : fst_) (x : file) : Prop := {
  wa_meta : metaStore.get (x_id x) (sh_meta (fs_sh st)) = Some (x_meta x);
  wa_part : partFree (x_id x) (fsF st);
  wa_key : fileKey (sh_hl (fs_sh st)) !! x_id x = x_key x;
  wa_links : awaited (x_id x) (x_meta x) (sh_hl (fs_sh st)) = x_parked x;
  wa_names : Forall (λ q, writable q (fsF st)) (x_names x);
}.
Lemma mirrored_parked x : mirrored x → Forall2 (parkedAt (x_name x)) (x_parked x) (x_others x).
Proof using.
  intros [_ M2 M3 M4 _ _ _]. apply StronglySorted_inv in M4 as [_ M4]. apply Forall_cons in M2 as [_ M2], M3 as [_ M3].
  revert M2 M3 M4. unfold x_parked, x_others. induction (x_seconds x) as [|[id q] ls IH]; [constructor|]. rewrite !fmap_cons.
  intros [P2 M2]%Forall_cons [P3 M3]%Forall_cons [P4 M4]%Forall_cons. constructor; [|by apply IH].
  split; [done|done|done|]. cbn in *. split; [|by apply not_eq_sym, unrelated_ne].
  intros ->. destruct P4 as [_ []]. apply prefix_nil.
Qed.
Lemma waits_ready x st : mirrored x → waits st x → ready (x_item x) (x_meta x) (x_dirs x) (x_base x) (x_others x) st.
Proof using.
  intros Hm [_ _ _ W4 [W5 W6]%Forall_cons]. split; [by apply writable_snoc| |done].
  change (x_dirs x ++ [x_base x]) with (x_name x). fold (x_id x). rewrite W4. by apply mirrored_parked.
Qed.

(** *** The sender *)
Definition begun (r : FileRequest.t) (w : Serve.st) : Serve.st :=
  (onTracker (reqStarted (FileRequest.RequestID r) (FileRequest.FileID r)) w).2.

Lemma run_request r rs w w2 : serve errText osOpen s None r (begun r w) = (Ok (), w2) →
  run errText osOpen s (asked (r :: rs)) w = run errText osOpen s (asked rs) w2.
Proof using.
  intros E. unfold asked. rewrite fmap_cons. cbn [app run t_recv t_sem].
  unfold mbind at 1, SE_bind at 1. change (onTracker (reqStarted (FileRequest.RequestID r) (FileRequest.FileID r)) w) with (Ok () : result gerr unit, begun r w).
  cbn iota beta. by rewrite (SE_bind_ok _ _ _ _ _ E).
Qed.
Lemma run_end w : run errText osOpen s (asked []) w = (Ok (Some ()), w).
Proof using. done. Qed.

(** What the servicer sends for the requests [rs] from [w] on. *)
Definition answers (rs : list FileRequest.t) (w : Serve.st) : list (result gerr Message) :=
  Ok <$> drop (length (sent w)) (sent (run errText osOpen s (asked rs) w).2).

(** *** One turn *)
Definition calmEnv : lenv := mkLenv None false false.
Definition requestOf (st : fst_) (x : file) : FileRequest.t := FileRequest.mk (wrap_u 64 (fs_reqID st + 1)) (x_id x) 0 safeMaxChunk.

(** The state once [x] has arrived; [rest] is left on the channel. *)
Record turned (x : file) (rest : list (result gerr Message)) (st st' : fst_) : Prop := {
  tu_in : fs_in st' = rest;
  tu_out : fs_out st' = fs_out st ++ [MFileRequest (requestOf st x)];
  tu_done : fs_completed st' = fs_completed st ++ [x_id x];
  tu_id : fs_reqID st' = wrap_u 64 (fs_reqID st + 1);
  tu_lucky : lucky st';
  tu_items : items (sh_q (fs_sh st')) = tail (items (sh_q (fs_sh st)));
  tu_queue : closed (sh_q (fs_sh st')) = closed (sh_q (fs_sh st)) ∧ inflight (sh_q (fs_sh st')) = inflight (sh_q (fs_sh st));
  tu_meta : sh_meta (fs_sh st') = sh_meta (fs_sh st);
  tu_tree : fsOk (fsF st') ∧ elsewhere (x_name x) (x_others x) (fsF st) (fsF st') ∧ arrived (fsF st') x;
  tu_parts : partsKept (x_id x) (fsF st) (fsF st');
  tu_failed : FilesFailedOf st' = FilesFailedOf st ∧ fs_fatal st' = fs_fatal st;
  tu_hl : fileKey (sh_hl (fs_sh st')) = fileKey (sh_hl (fs_sh st)) ∧
    ∀ k, fileKey (sh_hl (fs_sh st)) !! x_id x ≠ Some k → waiting k (sh_hl (fs_sh st')) = waiting k (sh_hl (fs_sh st));
}.

Lemma turn_mirrors x its st w rest :
  mirrored x → waits st x → lucky st → fsOk (fsF st) → calm w → fe_algo f = s_algo s →
  items (sh_q (fs_sh st)) = x_item x :: its → inflight (sh_q (fs_sh st)) = 0 →
  let sv := serve errText osOpen s None (requestOf st x) (begun (requestOf st x) w) in
  Z.of_nat (length (x_data x)) + Z.of_nat (length (dataOf rest)) < 2 ^ 62 →
  fs_in st = (Ok <$> drop (length (sent w)) (sent sv.2)) ++ rest →
  ∃ st' k, turn f calmEnv st = (Go, st') ∧ turned x rest st st' ∧ sv.1 = Ok () ∧ calm sv.2 ∧
    tr sv.2 = reqCompleted (FileRequest.RequestID (requestOf st x)) (x_id x) (Z.of_nat (length (x_data x)))
      (exec (replicate k OpBump) (tr (begun (requestOf st x) w))).
Proof.
  intros Hm Hwt Hl Hok Hc Ha Hit Hfl sv Hlen Hin. pose proof (waits_ready _ _ Hm Hwt) as Hready.
  destruct Hm as [M1 [M2 _]%Forall_cons [M3 _]%Forall_cons M5 M4 M6 M7]. destruct Hwt as [W1 W2 _ _ _].
  destruct (partFree_safe _ _ W2) as [Hsafe Hopen].
  set (q := sh_q (fs_sh st)) in *.
  set (q1 := mkQueue its (capacity q) (inflight q + 1) (closed q) (pushed q) (wrap_u 64 (yielded q + 1)) (Queue.pending q)).
  set (st0 := withShared (onQueue q1) st).
  assert (Hl0 : lucky st0) by (destruct Hl; by split).
  assert (Hready0 : ready (x_item x) (x_meta x) (x_dirs x) (x_base x) (x_others x) st0) by (destruct Hready; by split).
  destruct (transfer_completes errText osOpen s f (x_item x) (x_meta x) (x_dirs x) (x_base x) st0 (x_others x) M1 M2 M3 M4 Hok Hsafe W1
    (begun (requestOf st x) w) (x_entry x) (x_handle x) (x_data x) rest M6 Hc Ha M7 Hl0 Hopen M5 Hready0 Hlen Hin)
    as (st1 & k & E & Hout & Hin1 & (He & Hfs & i & z & Hz1 & Hz2 & Hz3) & Hall & Hdone & Hsv & Hcalm & Hu & Htr).
  destruct Hu as [U1 U2 U3 U4 U5 [U6 U7] U8].
  exists (onQ (done_ (groupID (x_item x))) st1), k. split_and!; [|split|exact Hsv|exact Hcalm|exact Htr].
  - unfold turn, pop. cbn [le_pop calmEnv]. fold q. rewrite Hit. fold q1 st0. rewrite E. done.
  - exact Hin1.
  - exact Hout.
  - exact Hdone.
  - exact U2.
  - destruct U1 as [L1 L2 L3 L4]. by split.
  - change (items (sh_q (fs_sh st1)) = tail (items q)). rewrite U3, Hit. done.
  - split; [change (closed (sh_q (fs_sh st1)) = closed q); by rewrite U3|].
    assert (Hq : inflight (sh_q (fs_sh st1)) = inflight q + 1) by by rewrite U3.
    change (inflight (done_ (groupID (x_item x)) (sh_q (fs_sh st1))) = inflight q). unfold done_. cbn [inflight].
    rewrite Hq, Hfl. done.
  - exact U4.
  - split_and!; [exact Hfs|exact He|]. exists i, z. split_and!; [|done|done]. apply Forall_cons. split; [done|].
    eapply Forall_impl; [exact Hall|]. intros p Hp. by rewrite <- Hz1.
  - exact U5.
  - split; [exact U6|exact U7].
  - exact U8.
Qed.
(** *** All the requests on the sender *)

(** The content of a whole list of files. *)
Definition contents (xs : list file) : bytes := mjoin (x_data <$> xs).

Lemma served x n w : mirrored x → calm w → Z.of_nat (length (x_data x)) < 2 ^ 62 →
  let r := FileRequest.mk n (x_id x) 0 safeMaxChunk in
  ∃ w2 out k, serve errText osOpen s None r (begun r w) = (Ok (), w2) ∧ calm w2 ∧ sent w2 = sent w ++ out ∧
    dataOf (Ok <$> out) = x_data x ∧
    tr w2 = reqCompleted n (x_id x) (Z.of_nat (length (x_data x))) (exec (replicate k OpBump) (reqStarted n (x_id x) (tr w))).
Proof.
  intros [_ _ _ _ _ M6 _] Hc Hlen r.
  destruct (serve_intact errText osOpen s (x_id x) n safeMaxChunk _ _ _ (begun r w) M6 Hc Hlen)
    as (w2 & E & hdr & ds & Hj & _ & _ & [HT HO HC]).
  exists w2. eexists. exists (length ds). split_and!; [exact E|by apply HC|exact HO| |].
  - unfold answer. rewrite fmap_cons, fmap_app. cbn [fmap list_fmap].
    rewrite dataOf_skip, dataOf_app, dataOf_chunks, dataOf_skip by done. rewrite Hj. apply app_nil_r.
  - rewrite HT. unfold exec. by rewrite foldl_app.
Qed.

(** The servicer answers them all, in order, and the tracker has them all. *)
Record answered (xs : list file) (w w' : Serve.st) : Prop := {
  an_idle : idle (tr w) → idle (tr w');
  an_completed : idle (tr w) → NoDup (x_id <$> xs) → Forall (λ x, x_id x ∉ completedSet (tr w)) xs →
    completed (tr w') = completed (tr w) ++ (x_id <$> xs);
  an_resolved : idle (tr w) → resolved (tr w') = resolved (tr w) ∪ list_to_set (x_id <$> xs);
  an_needed : idle (tr w) → needed (tr w') = needed (tr w) ∧ (allDecided (tr w') ↔ allDecided (tr w));
}.

Lemma answered_cons x xs w w2 w' :
  (idle (tr w) → completes (x_id x) (tr w) (tr w2)) → answered xs w2 w' → answered (x :: xs) w w'.
Proof using.
  intros Hc [A1 A2 A3 A4]. split.
  - intros Hi. by apply A1, Hc.
  - intros Hi [Hx Hn]%NoDup_cons [Hnx Hns]%Forall_cons. destruct (Hc Hi) as [C1 C2 C3 C4 C5 C6].
    rewrite fmap_cons, A2, C2, <- app_assoc; [done..|]. apply Forall_forall. intros y Hy. rewrite C3.
    pose proof (proj1 (Forall_forall _ _) Hns y Hy) as Hny. cbv beta in Hny. apply not_elem_of_union. split; [|done].
    rewrite not_elem_of_singleton. intros E. apply Hx. rewrite <- E. by apply list_elem_of_fmap_2.
  - intros Hi. destruct (Hc Hi) as [C1 C2 C3 C4 C5 C6]. rewrite A3, C4, fmap_cons, list_to_set_cons by done. set_solver.
  - intros Hi. destruct (Hc Hi) as [C1 C2 C3 C4 C5 C6]. destruct (A4 C1) as [-> E]. by rewrite E, C5.
Qed.

Lemma run_answers xs : ∀ n w, Forall mirrored xs → calm w → Z.of_nat (length (contents xs)) < 2 ^ 62 →
  ∃ w' out, run errText osOpen s (asked (requests n xs)) w = (Ok (Some ()), w') ∧ sent w' = sent w ++ out ∧
    dataOf (Ok <$> out) = contents xs ∧ answered xs w w'.
Proof.
  induction xs as [|x xs IH]; intros n w Hx Hc Hlen.
  { exists w, []. split_and!; [done|by rewrite app_nil_r|done|]. split; [done|by intros; rewrite app_nil_r|intros _; cbn; set_solver|done]. }
  apply Forall_cons in Hx as [Hx Hxs]. unfold contents in Hlen. rewrite fmap_cons, mjoin_cons, length_app in Hlen.
  destruct (served x (wrap_u 64 (n + 1)) w Hx Hc ltac:(lia)) as (w2 & out & k & E & Hc2 & Hs & Hd & Ht).
  destruct (IH (wrap_u 64 (n + 1)) w2 Hxs Hc2 ltac:(unfold contents; lia)) as (w' & out' & E' & Hs' & Hd' & Ha).
  exists w', (out ++ out'). split_and!.
  - cbn [requests]. by rewrite (run_request _ _ _ _ E).
  - by rewrite Hs', Hs, app_assoc.
  - rewrite fmap_app, dataOf_app, Hd, Hd'. unfold contents. by rewrite fmap_cons, mjoin_cons.
  - eapply answered_cons; [|exact Ha]. intros Hi. rewrite Ht. by apply request_completes.
Qed.

Lemma answers_cons x xs n w : mirrored x → Forall mirrored xs → calm w → Z.of_nat (length (contents (x :: xs))) < 2 ^ 62 →
  let r := FileRequest.mk (wrap_u 64 (n + 1)) (x_id x) 0 safeMaxChunk in
  let w2 := (serve errText osOpen s None r (begun r w)).2 in
  answers (requests n (x :: xs)) w = (Ok <$> drop (length (sent w)) (sent w2)) ++ answers (requests (wrap_u 64 (n + 1)) xs) w2 ∧
  dataOf (answers (requests (wrap_u 64 (n + 1)) xs) w2) = contents xs.
Proof.
  intros Hx Hxs Hc Hlen r. unfold contents in Hlen. rewrite fmap_cons, mjoin_cons, length_app in Hlen.
  destruct (served x (wrap_u 64 (n + 1)) w Hx Hc ltac:(lia)) as (w2 & out & k & E & Hc2 & Hs & _ & _). fold r in E.
  rewrite E. cbn zeta. cbn [snd].
  destruct (run_answers xs (wrap_u 64 (n + 1)) w2 Hxs Hc2 ltac:(unfold contents; lia)) as (w' & out' & E' & Hs' & Hd' & _).
  unfold answers. cbn [requests]. fold r. rewrite (run_request _ _ _ _ E), E'. cbn [snd].
  assert (drop (length (sent w)) (sent w') = out ++ out') as -> by by rewrite Hs', Hs, <- app_assoc, drop_app_length.
  assert (drop (length (sent w2)) (sent w') = out') as -> by by rewrite Hs', drop_app_length.
  rewrite Hs, drop_app_length. by rewrite fmap_app.
Qed.

(** *** The whole queue *)
Lemma waits_turned x y rest st st' :
  mirrored x → mirrored y → independent y x → waits st x → turned x rest st st' → waits st y → waits st' y.
Proof using.
  intros Hx Hy Hi [_ _ K _ _] Ht [W1 W2 W3 W4 W5]. destruct (tu_hl _ _ _ _ Ht) as [T1 T2]. split.
  - by rewrite (tu_meta _ _ _ _ Ht).
  - apply (tu_parts _ _ _ _ Ht); [|done]. intros E. apply partPath_inj in E; [|apply Hy|apply Hx]. by destruct Hi.
  - by rewrite T1.
  - rewrite <- W4. unfold awaited, registerMaterialised. destruct (fm_hasHLKey _); [|done]. rewrite T1, W3.
    destruct (x_key y) as [k|] eqn:Ek; [|done]. apply T2. rewrite K. by apply Hi.
  - eapply names_elsewhere; [exact Hi|apply Hy|apply (tu_tree _ _ _ _ Ht)|done].
Qed.

(** The state once all of [xs] have arrived. *)
Record emptied (xs : list file) (st st' : fst_) : Prop := {
  em_out : fs_out st' = fs_out st ++ (MFileRequest <$> requests (fs_reqID st) xs);
  em_in : fs_in st' = [];
  em_done : fs_completed st' = fs_completed st ++ (x_id <$> xs);
  em_queue : drained (sh_q (fs_sh st')) = true;
  em_arrived : Forall (arrived (fsF st')) xs;
  em_kept : ∀ y, Forall outside (x_names y) → Forall (independent y) xs → arrived (fsF st) y → arrived (fsF st') y;
  em_failed : FilesFailedOf st' = FilesFailedOf st ∧ fs_fatal st' = fs_fatal st;
}.

Lemma emptied_nil st : items (sh_q (fs_sh st)) = [] → closed (sh_q (fs_sh st)) = true → inflight (sh_q (fs_sh st)) = 0 → fs_in st = [] →
  loop f [calmEnv] st = (Stop false, withShared (onQueue (sh_q (fs_sh st))) st) ∧ emptied [] st (withShared (onQueue (sh_q (fs_sh st))) st).
Proof using.
  intros Hit Hcl Hfl Hin. split.
  - cbn [loop]. unfold turn, pop. cbn [le_pop calmEnv]. rewrite Hit, Hcl, Hfl. done.
  - split; try done; [by rewrite app_nil_r|by rewrite app_nil_r|].
    unfold drained. change (closed (sh_q (fs_sh st)) && (length (items (sh_q (fs_sh st))) =? 0)%nat && (inflight (sh_q (fs_sh st)) =? 0) = true).
    by rewrite Hit, Hcl, Hfl.
Qed.

Lemma emptied_cons x xs rest st st1 st' : mirrored x → Forall mirrored xs → Forall (independent x) xs →
  turned x rest st st1 → emptied xs st1 st' → emptied (x :: xs) st st'.
Proof using.
  intros Hx Hxs Hi Ht [E1 E2 E3 E4 E5 E6 [E7 E8]]. destruct (tu_tree _ _ _ _ Ht) as (_ & Hels & Harr).
  destruct (tu_failed _ _ _ _ Ht) as [F1 F2]. split; try done.
  - rewrite E1, (tu_out _ _ _ _ Ht), (tu_id _ _ _ _ Ht), <- app_assoc. done.
  - rewrite E3, (tu_done _ _ _ _ Ht), <- app_assoc. done.
  - apply Forall_cons. split; [|done]. apply E6; [apply Hx|done|done].
  - intros y Ho [Hy1 Hys]%Forall_cons Hya. apply E6; [done|done|]. by eapply arrived_elsewhere.
  - split; congruence.
Qed.

Lemma loop_mirrors xs : ∀ st w,
  Forall mirrored xs → StronglySorted independent xs → Forall (waits st) xs → lucky st → fsOk (fsF st) → calm w →
  fe_algo f = s_algo s → Z.of_nat (length (contents xs)) < 2 ^ 62 →
  items (sh_q (fs_sh st)) = x_item <$> xs → closed (sh_q (fs_sh st)) = true → inflight (sh_q (fs_sh st)) = 0 →
  fs_in st = answers (requests (fs_reqID st) xs) w →
  ∃ st', loop f (replicate (S (length xs)) calmEnv) st = (Stop false, st') ∧ emptied xs st st'.
Proof.
  induction xs as [|x xs IH]; intros st w Hm Hs Hw Hl Hok Hc Ha Hlen Hit Hcl Hfl Hin.
  { assert (Hin0 : fs_in st = []) by (rewrite Hin; unfold answers; cbn; by rewrite drop_all). eexists. by apply emptied_nil. }
  apply Forall_cons in Hm as [Hm Hms]. apply Forall_cons in Hw as [Hw Hws]. apply StronglySorted_inv in Hs as [Hs Hi].
  destruct (answers_cons x xs (fs_reqID st) w Hm Hms Hc Hlen) as [Hans Hdata].
  unfold contents in Hlen. rewrite fmap_cons, mjoin_cons, length_app in Hlen.
  rewrite Hans in Hin. pose proof (λ rest, turn_mirrors x _ st w rest Hm Hw Hl Hok Hc Ha Hit Hfl) as Hturn. edestruct Hturn as (st1 & k & E & Ht & _ & Hc2 & _); [|exact Hin|].
  { unfold requestOf in *. rewrite Hdata. unfold contents. lia. }
  destruct (tu_queue _ _ _ _ Ht) as [Q1 Q2].
  edestruct (IH st1) as (st' & EL & He); [exact Hms|exact Hs| | | |exact Hc2|exact Ha|..].
  - apply Forall_forall. intros y Hy. pose proof (proj1 (Forall_forall _ _) Hms y Hy) as Hmy.
    eapply waits_turned; [exact Hm|exact Hmy|apply independent_sym; by eapply (proj1 (Forall_forall _ _) Hi)|exact Hw|exact Ht|by eapply (proj1 (Forall_forall _ _) Hws)].
  - apply Ht.
  - apply Ht.
  - unfold contents. lia.
  - by rewrite (tu_items _ _ _ _ Ht), Hit.
  - by rewrite Q1.
  - by rewrite Q2.
  - by rewrite (tu_in _ _ _ _ Ht), (tu_id _ _ _ _ Ht).
  - exists st'. split; [|by eapply emptied_cons]. change (replicate (S (length (x :: xs))) calmEnv) with (calmEnv :: replicate (S (length xs)) calmEnv).
    cbn [loop]. rewrite E. exact EL.
Qed.

Lemma independent_ids xs : StronglySorted independent xs → NoDup (x_id <$> xs).
Proof using.
  induction 1 as [|x xs Hs IH Hx]; [constructor|]. apply NoDup_cons. split; [|done].
  intros (y & E & Hy)%list_elem_of_fmap. destruct (proj1 (Forall_forall _ _) Hx y Hy) as [Hne _]. by apply Hne.
Qed.

(** C2: the data phase mirrors the files that are needed, hard links included.  A
    worker empties a closed need queue over one channel, a servicer answers what it
    asks, and nothing fails: the sources are as they were scanned, no send fails, the
    receiver's disk and journal do not, no leftover part is in the way, and the names
    of the files and of the hard-link secondaries that wait for them are valid, lie
    outside the journal directory, can be written and do not lie below one another
    (each file with its own id, and its own key where it is the primary of one).
    Then the worker's loop and the servicer's both return, without an error; the
    worker has sent exactly the requests the servicer was asked; every name holds
    exactly the bytes of its source, and so does the name of every secondary that
    waited for it, as a name of the same file; the queue is drained, no link fell
    back to a fetch and no file failed; both sides list the same completed files in
    the same order, so that their completion digests agree; and on a sender on which
    all groups are decided and all else is resolved the session is done. *)
Theorem queue_mirrors xs st w :
  Forall mirrored xs → StronglySorted independent xs → Forall (waits st) xs → lucky st → fsOk (fsF st) → calm w →
  fe_algo f = s_algo s → Z.of_nat (length (contents xs)) < 2 ^ 62 →
  items (sh_q (fs_sh st)) = x_item <$> xs → closed (sh_q (fs_sh st)) = true → inflight (sh_q (fs_sh st)) = 0 →
  let asks := requests (fs_reqID st) xs in
  fs_in st = answers asks w → idle (tr w) → Forall (λ x, x_id x ∉ completedSet (tr w)) xs →
  ∃ st' w', loop f (replicate (S (length xs)) calmEnv) st = (Stop false, st') ∧
    run errText osOpen s (asked asks) w = (Ok (Some ()), w') ∧
    fs_out st' = fs_out st ++ (MFileRequest <$> asks) ∧ fs_in st' = [] ∧
    Forall (arrived (fsF st')) xs ∧
    drained (sh_q (fs_sh st')) = true ∧ FilesFailedOf st' = FilesFailedOf st ∧ fs_fatal st' = fs_fatal st ∧
    fs_completed st' = fs_completed st ++ (x_id <$> xs) ∧ completed (tr w') = completed (tr w) ++ (x_id <$> xs) ∧
    Tracker.inflight (tr w') = 0 ∧
    (allDecided (tr w) → needed (tr w) ⊆ resolved (tr w) ∪ list_to_set (x_id <$> xs) → doneClosed (tr w') = true).
Proof.
  intros Hm Hs Hw Hl Hok Hc Ha Hlen Hit Hcl Hfl asks Hin Hi Hnc.
  destruct (loop_mirrors xs st w Hm Hs Hw Hl Hok Hc Ha Hlen Hit Hcl Hfl Hin) as (st' & EL & [E1 E2 E3 E4 E5 _ [E7 E8]]).
  destruct (run_answers xs (fs_reqID st) w Hm Hc Hlen) as (w' & out & ER & _ & _ & [A1 A2 A3 A4]).
  specialize (A1 Hi). specialize (A3 Hi). destruct (A4 Hi) as [A5 A6]. destruct A1 as [Ht Hr].
  assert (Hz : Tracker.inflight (tr w') = 0) by by rewrite (Tracker.ok_inflight _ (Tracker.ok_core _ Ht)), Hr.
  exists st', w'. split_and!; try done.
  - apply A2; [done|by apply independent_ids|done].
  - intros Hd Hn. apply (ok_quiescent _ Ht). split_and!; [by apply A6|lia|by rewrite A5, A3].
Qed.
End mirror.

(** *** Witness: "d/b" with "hello", for which "d/x" waits, and "c" with "hi" *)
#[local] Existing Instance padded_hash.
Definition ex_hi : bytes := hashOf MD5 (bs "hi").
Definition ex_entry2 : Entry := mkEntry (bs "c") TypeFile 0 2 420 9 0 1 10 [] 0.
Definition ex_source2 : handle := mkHandle (Ok (mkFinfo true 1 10 2)) (λ _, None) (λ _, [(bs "hi", None)]).
Definition ex_opens (p : bytes) : result stdErr handle :=
  if bool_decide (p = bs "/src/d/b") then Ok ex_source
  else if bool_decide (p = bs "/src/c") then Ok ex_source2 else Err StdNotExist.
Definition ex_servicer2 : servicer :=
  mkServicer (replicate 7 (mkEntry (bs "x") TypeDir 0 0 493 0 0 1 3 [] 0) ++ [ex_entry; ex_entry2]) (bs "/src") MD5 3
    (digestStore.set 8 ex_hi (digestStore.set 7 ex_hello digestStore.new)).
Definition ex_one : file :=
  mkFile (mkItem 7 2 5 (bs "d/b") 0) (mkFileMeta (bs "d/b") 5 420 (9, 0) ex_hello 1 true) [bs "d"] (bs "b")
    (Some 1) [(9, [bs "d"; bs "x"])] ex_entry ex_source (bs "hello").
Definition ex_two : file :=
  mkFile (mkItem 8 2 2 (bs "c") 0) (mkFileMeta (bs "c") 2 420 (9, 0) ex_hi 0 false) [] (bs "c") None [] ex_entry2 ex_source2 (bs "hi").
Definition ex_queue : list file := [ex_one; ex_two].
Definition ex_sender0 : Serve.st := mkSt (newTracker [7]) [] [] 0 0.
Definition ex_worker : fst_ :=
  mkFst (mkShared (mkWorld ex_tree []) (mkQueue (x_item <$> ex_queue) 10 0 true 2 0 {[2 := 2]}) (spaceGuard.new (2 ^ 40) (2 ^ 20))
           {[7 := x_meta ex_one; 8 := x_meta ex_two]}
           (mkHL ∅ {[7 := 1]} {[1]} {[1 := x_parked ex_one]}) (λ _, 0) 7 2)
    None [] 0 [] None (answers (λ _, []) ex_opens ex_servicer2 (requests 0 ex_queue) ex_sender0) [] [] false.

(** [unrelated] of concrete paths, by computation. *)
#[local] Instance unrelated_dec p q : Decision (unrelated p q).
Proof. unfold unrelated. apply _. Defined.
Ltac apart := repeat first [apply SSorted_nil | apply SSorted_cons | by apply Forall_nil | apply Forall_cons; split
  | refine (bool_decide_eq_true_1 (unrelated _ _) _); vm_compute; reflexivity].
Ltac plain := repeat (apply Forall_cons; split); try (by apply Forall_nil); refine (bool_decide_eq_true_1 (plainName _) _); vm_compute; reflexivity.

Lemma ex_one_mirrored : mirrored ex_opens ex_servicer2 ex_one.
Proof.
  split; try (vm_compute; done).
  - plain.
  - repeat (apply Forall_cons; split); try (by apply Forall_nil); vm_compute; done.
  - apart.
  - split; try reflexivity; try (vm_compute; reflexivity); [exists (mkFinfo true 1 9 5); by split_and!|right; vm_compute; reflexivity|by left].
  - right. vm_compute. reflexivity.
Qed.
Lemma ex_two_mirrored : mirrored ex_opens ex_servicer2 ex_two.
Proof.
  split; try (vm_compute; done).
  - plain.
  - repeat (apply Forall_cons; split); try (by apply Forall_nil); vm_compute; done.
  - apart.
  - split; try reflexivity; try (vm_compute; reflexivity); [exists (mkFinfo true 1 10 2); by split_and!|right; vm_compute; reflexivity|by left].
  - right. vm_compute. reflexivity.
Qed.
Lemma ex_writable q : forallb (λ k, match nodes ex_tree !! take k q with None | Some (NDir _) => true | _ => false end) (seq 1 (length q - 1)) = true →
  match nodes ex_tree !! q with Some (NDir _) => false | _ => true end = true → writable q ex_tree.
Proof.
  intros Hf Hq. split.
  - intros k Hk. rewrite forallb_forall in Hf. specialize (Hf k ltac:(apply in_seq; lia)).
    unfold isDir. destruct (nodes ex_tree !! take k q) as [[m|i|t]|]; [right; by exists m|done|done|by left].
  - intros [m Hm]. by rewrite Hm in Hq.
Qed.
Lemma ex_waits x : x ∈ ex_queue → waits ex_worker x.
Proof.
  assert (Ht : fsF ex_worker = ex_tree) by reflexivity.
  unfold ex_queue. rewrite !elem_of_cons, elem_of_nil. intros [->|[->|[]]]; split; rewrite ?Ht; try (vm_compute; reflexivity).
  - split; [apply ex_clear; by vm_compute|by vm_compute].
  - repeat (apply Forall_cons; split); try (by apply Forall_nil); apply ex_writable; by vm_compute.
  - split; [apply ex_clear; by vm_compute|by vm_compute].
  - repeat (apply Forall_cons; split); try (by apply Forall_nil); apply ex_writable; by vm_compute.
Qed.
Lemma ex_independent : StronglySorted independent ex_queue.
Proof.
  constructor; [repeat constructor|]. constructor; [|constructor]. split; [by vm_compute|]. split; [done|].
  assert (Hall : Forall (λ p, Forall (unrelated p) (x_names ex_two)) (x_names ex_one)) by (unfold x_names, x_others; apart).
  intros p q Hp Hq. rewrite Forall_forall in Hall. specialize (Hall p Hp). rewrite Forall_forall in Hall. by apply Hall.
Qed.

Lemma queue_mirrors_witness :
  ∃ st' w', loop ex_fetcher (replicate 3 calmEnv) ex_worker = (Stop false, st') ∧
    run (λ _, []) ex_opens ex_servicer2 (asked (requests 0 ex_queue)) ex_sender0 = (Ok (Some ()), w') ∧
    Forall (arrived (fsF st')) ex_queue ∧ fs_completed st' = [7; 8] ∧ completed (tr w') = [7; 8].
Proof.
  destruct (queue_mirrors (λ _, []) ex_opens ex_servicer2 ex_fetcher ex_queue ex_worker ex_sender0)
    as (st' & w' & EL & ER & _ & _ & Harr & _ & _ & _ & Hd & Hc & _).
  - apply Forall_cons. split; [exact ex_one_mirrored|]. apply Forall_singleton. exact ex_two_mirrored.
  - exact ex_independent.
  - apply Forall_forall. exact ex_waits.
  - split; try reflexivity. intros j d Hj. discriminate Hj.
  - change (fsOk ex_tree). apply fsOkb_ok. vm_compute. reflexivity.
  - constructor.
  - reflexivity.
  - vm_compute. reflexivity.
  - reflexivity.
  - reflexivity.
  - reflexivity.
  - reflexivity.
  - split; [apply newTracker_ok|reflexivity].
  - repeat constructor; cbn; apply not_elem_of_empty.
  - exists st', w'. split; [exact EL|]. split; [exact ER|]. split; [exact Harr|]. split; [exact Hd|exact Hc].
Defined.
